(** * opr8: the DOM node store, its streaming builders and the tree-order
    marshaler, embedded from the Go sources of packages [dom] and
    [datastore].

    Conventions of the embedding.
    - A [*node] is an address into a store of node records ([heap]); the nil
      pointer is [None].  Dereferencing nil is a Go run-time panic, which the
      embedding keeps as the outcome [Panic].
    - Go loops that follow pointers ([for it := n.parent; it != nil; ...])
      take a fuel argument; running out of fuel is the outcome [OutOfFuel]
      and stands for a loop that has not finished yet.
    - A Go [string] is a [string]; a [[]byte] is a [list byte].
    - A Go [error] result is an [option error]; [None] is the nil error. *)

From Stdlib Require Import ZArith NArith Lia Bool List Ascii String.
From Stdlib Require Import Strings.Byte.
From stdpp Require Import base tactics option list strings.
Import ListNotations.

#[local] Set Warnings "-register-all".
#[local] Open Scope string_scope.
#[local] Open Scope list_scope.

Module dom.

(** ** nodetype.go *)

Inductive NodeType : Type :=
| NodeTypeNull
| NodeTypeElement
| NodeTypeAttribute
| NodeTypeText
| NodeTypeCDATASection
| NodeTypeEntityReference
| NodeTypeEntity
| NodeTypeProcessingInstruction
| NodeTypeComment
| NodeTypeDocument
| NodeTypeDocumentType
| NodeTypeDocumentFragment
| NodeTypeNotation
| NodeTypeDeclaration.

#[global] Instance NodeType_eq_dec : EqDecision NodeType.
Proof. solve_decision. Defined.

(** The [iota] numbering of the constants ([NodeType] is an [int8]). *)
Definition NodeType_code (nt : NodeType) : Z :=
  match nt with
  | NodeTypeNull => 0
  | NodeTypeElement => 1
  | NodeTypeAttribute => 2
  | NodeTypeText => 3
  | NodeTypeCDATASection => 4
  | NodeTypeEntityReference => 5
  | NodeTypeEntity => 6
  | NodeTypeProcessingInstruction => 7
  | NodeTypeComment => 8
  | NodeTypeDocument => 9
  | NodeTypeDocumentType => 10
  | NodeTypeDocumentFragment => 11
  | NodeTypeNotation => 12
  | NodeTypeDeclaration => 13
  end%Z.

Definition NodeType_String (nt : NodeType) : string :=
  match nt with
  | NodeTypeNull => "NULL"
  | NodeTypeElement => "ELEMENT_NODE"
  | NodeTypeAttribute => "ATTRIBUTE_NODE"
  | NodeTypeText => "TEXT_NODE"
  | NodeTypeCDATASection => "CDATA_SECTION_NODE"
  | NodeTypeEntityReference => "ENTITY_REFERENCE_NODE"
  | NodeTypeEntity => "ENTITY_NODE"
  | NodeTypeProcessingInstruction => "PROCESSING_INSTRUCTION_NODE"
  | NodeTypeComment => "COMMENT_NODE"
  | NodeTypeDocument => "DOCUMENT_NODE"
  | NodeTypeDocumentType => "DOCUMENT_TYPE_NODE"
  | NodeTypeDocumentFragment => "DOCUMENT_FRAGMENT_NODE"
  | NodeTypeNotation => "NOTATION_NODE"
  | NodeTypeDeclaration => "PROCESSING_INSTRUCTION_NODE"
  end.

(** ** errors.go, and the error values of [github.com/pkg/errors] and [io] *)

Inductive error : Type :=
| ErrNoModificationAllowed
| ErrIndexSize
| ErrChildNotFound
| ErrAttributeNotFound
| ErrHierarchyRequest
| errBadType
| EOF                                   (* io.EOF *)
| ErrUnexpectedEOF                      (* io.ErrUnexpectedEOF *)
| ErrNew (msg : string)                 (* errors.New, errors.Errorf *)
| ErrWrap (cause : error) (msg : string) (* errors.Wrap, errors.Wrapf *)
| ErrWithStack (cause : error).         (* errors.WithStack *)

#[global] Instance error_eq_dec : EqDecision error.
Proof. solve_decision. Defined.

(** [errors.Cause]: the innermost error of a chain of wrappers. *)
Fixpoint Cause (e : error) : error :=
  match e with
  | ErrWrap c _ => Cause c
  | ErrWithStack c => Cause c
  | _ => e
  end.

(** ** The values of package [xml] (github.com/andaru/flexml) that cross the
    token interface. *)

Record Name : Type := mkName { Space : string; Local : string }.

#[global] Instance Name_eq_dec : EqDecision Name.
Proof. solve_decision. Defined.

Record Attr : Type := mkAttr { AttrName : Name; AttrValue : string }.

#[global] Instance Attr_eq_dec : EqDecision Attr.
Proof. solve_decision. Defined.

Record ProcInst : Type := mkProcInst { Target : string; Inst : list byte }.

#[global] Instance byte_eq_dec : EqDecision byte.
Proof. intros x y. destruct (Byte.byte_eq_dec x y); [left|right]; assumption. Defined.

#[global] Instance ProcInst_eq_dec : EqDecision ProcInst.
Proof. solve_decision. Defined.

Inductive Token : Type :=
| StartElement (name : Name) (attrs : list Attr)
| EndElement (name : Name)
| CharData (data : list byte)
| Comment (data : list byte)
| ProcInstTok (pi : ProcInst)
| Directive (data : list byte).

#[global] Instance Token_eq_dec : EqDecision Token.
Proof. solve_decision. Defined.

(** ** node.go: the node record *)

(** A [*node]: an address, or nil. *)
Abbreviation ptr := (option nat).

(** The dynamic type and contents of [node.value] (a [nodeTyper]): one
    constructor per concrete payload type of the package. *)
Inductive payload : Type :=
| VElement (name : Name) (prefix : string)   (* *element *)
| VAttribute (a : Attr)                      (* *attribute *)
| VText (value : list byte)                  (* *text *)
| VComment (value : list byte)               (* *comment, embeds text *)
| VDocument                                  (* *document *)
| VDocumentFragment                          (* *documentFragment *)
| VDeclaration (pi : ProcInst)               (* *declaration *)
| VProcInst (pi : ProcInst).                 (* *procinst *)

#[global] Instance payload_eq_dec : EqDecision payload.
Proof. solve_decision. Defined.

Record node : Type := mkNode {
  parent : ptr;
  firstChild : ptr;
  nextSib : ptr;
  prevSib : ptr;
  firstAttr : ptr;
  value : option payload
}.

#[global] Instance node_eq_dec : EqDecision node.
Proof. solve_decision. Defined.

(** The store of node records; a [*node] is an index into it. *)
Abbreviation heap := (list node).

(** [nodeType()] of each payload type. *)
Definition payload_nodeType (v : payload) : NodeType :=
  match v with
  | VElement _ _ => NodeTypeElement
  | VAttribute _ => NodeTypeAttribute
  | VText _ => NodeTypeText
  | VComment _ => NodeTypeComment
  | VDocument => NodeTypeDocument
  | VDocumentFragment => NodeTypeDocumentFragment
  | VDeclaration _ => NodeTypeDeclaration
  | VProcInst _ => NodeTypeProcessingInstruction
  end.

(** ** Outcomes and the store monad *)

Inductive outcome (A : Type) : Type :=
| Ret (a : A)
| Panic
| OutOfFuel.
Arguments Ret {A} a.
Arguments Panic {A}.
Arguments OutOfFuel {A}.

Definition M (A : Type) : Type := heap -> outcome (A * heap).

Definition ret {A} (a : A) : M A := fun h => Ret (a, h).

Definition bind {A B} (m : M A) (f : A -> M B) : M B :=
  fun h => match m h with
           | Ret (a, h') => f a h'
           | Panic => Panic
           | OutOfFuel => OutOfFuel
           end.

Definition panic {A} : M A := fun _ => Panic.
Definition out_of_fuel {A} : M A := fun _ => OutOfFuel.

Declare Scope go_scope.
Delimit Scope go_scope with go.
Notation "'do' x <- m ; k" := (bind m (fun x => k))
  (at level 10, x name, m at level 100, k at level 200) : go_scope.
Notation "'run' m ; k" := (bind m (fun _ => k))
  (at level 10, m at level 100, k at level 200) : go_scope.
#[local] Open Scope go_scope.

(** [*p]: read the record behind a pointer. *)
Definition load (p : ptr) : M node :=
  fun h => match p with
           | Some a => match h !! a with
                       | Some n => Ret (n, h)
                       | None => Panic
                       end
           | None => Panic
           end.

(** [p.f = v]: overwrite the record behind a pointer. *)
Definition modify (p : ptr) (f : node -> node) : M unit :=
  fun h => match p with
           | Some a => match h !! a with
                       | Some n => Ret (tt, <[a := f n]> h)
                       | None => Panic
                       end
           | None => Panic
           end.

(** [&node{...}]: allocate a record; the new address is the old size of the
    store. *)
Definition alloc (n : node) : M ptr :=
  fun h => Ret (Some (length h), h ++ [n]).

Definition with_parent (v : ptr) (n : node) : node :=
  mkNode v (firstChild n) (nextSib n) (prevSib n) (firstAttr n) (value n).
Definition with_firstChild (v : ptr) (n : node) : node :=
  mkNode (parent n) v (nextSib n) (prevSib n) (firstAttr n) (value n).
Definition with_nextSib (v : ptr) (n : node) : node :=
  mkNode (parent n) (firstChild n) v (prevSib n) (firstAttr n) (value n).
Definition with_prevSib (v : ptr) (n : node) : node :=
  mkNode (parent n) (firstChild n) (nextSib n) v (firstAttr n) (value n).
Definition with_firstAttr (v : ptr) (n : node) : node :=
  mkNode (parent n) (firstChild n) (nextSib n) (prevSib n) v (value n).
Definition with_value (v : option payload) (n : node) : node :=
  mkNode (parent n) (firstChild n) (nextSib n) (prevSib n) (firstAttr n) v.

Definition get {A} (f : node -> A) (p : ptr) : M A :=
  do n <- load p; ret (f n).

Definition set_parent (p v : ptr) : M unit := modify p (with_parent v).
Definition set_firstChild (p v : ptr) : M unit := modify p (with_firstChild v).
Definition set_nextSib (p v : ptr) : M unit := modify p (with_nextSib v).
Definition set_prevSib (p v : ptr) : M unit := modify p (with_prevSib v).
Definition set_firstAttr (p v : ptr) : M unit := modify p (with_firstAttr v).
Definition set_value (p : ptr) (v : option payload) : M unit := modify p (with_value v).

(** [&node{value: v}] *)
Definition new_node (v : payload) : M ptr :=
  alloc (mkNode None None None None None (Some v)).


(** ** Method sets.

    [node.value] has the interface type [nodeTyper]; the type assertions
    [n.value.(Namer)], [n.value.(ValueSetter)] and [it.value.(Document)]
    succeed exactly when the method set of the dynamic payload type contains
    every method of the asserted interface.  The table lists, for each
    payload type, the methods declared on it (and promoted from the types it
    embeds) in element.go, attr.go, text.go, comment.go, document.go,
    declaration.go and procinst.go. *)
Definition text_methods : list string :=
  ["String"; "nodeType"; "Empty"; "Data"; "charData"; "SetValue"; "SetData";
   "DeleteData"; "ReplaceData"; "AppendData"; "InsertData"].

Definition method_set (v : payload) : list string :=
  match v with
  | VElement _ _ => ["nodeType"; "Name"; "Prefix"]
  | VAttribute _ => ["Name"; "nodeType"; "SetValue"]
  | VText _ => text_methods
  | VComment _ => text_methods
  | VDocument => ["nodeType"; "Context"]
  | VDocumentFragment => ["nodeType"]
  | VDeclaration _ => ["nodeType"; "Target"; "Inst"; "Copy"]
  | VProcInst _ => ["nodeType"; "Target"; "Inst"; "Copy"]
  end.

Definition Namer_methods : list string := ["Name"].
Definition ValueSetter_methods : list string := ["SetValue"].
Definition Node_methods : list string :=
  ["Name"; "Value"; "SetValue"; "ChildValue"; "NodeType"; "Parent";
   "OwnerDocument"; "FirstChild"; "LastChild"; "NextSibling";
   "PreviousSibling"; "ChildrenByName"; "ChildByName"; "AppendChild";
   "PrependChild"; "InsertChildAfter"; "InsertChildBefore"; "nodePtr"].
Definition Document_methods : list string :=
  Node_methods ++ ["Context"; "DocumentElement"].

Definition implements (v : payload) (iface : list string) : bool :=
  forallb (fun m => existsb (String.eqb m) (method_set v)) iface.

(** ** node.go: accessors *)

(** [func (n *node) NodeType() NodeType] *)
Definition node_NodeType (n : ptr) : M NodeType :=
  do v <- get value n;
  ret (match v with
       | Some v => payload_nodeType v
       | None => NodeTypeNull
       end).

(** [func (n *node) Parent() Node] *)
Definition node_Parent (n : ptr) : M ptr := get parent n.

(** [func (n *node) FirstChild() Node] *)
Definition node_FirstChild (n : ptr) : M ptr := get firstChild n.

(** [func (n *node) LastChild() Node] *)
Definition node_LastChild (n : ptr) : M ptr :=
  do fc <- get firstChild n;
  match fc with
  | None => ret None
  | Some _ => get prevSib fc
  end.

(** [func (n *node) NextSibling() Node] *)
Definition node_NextSibling (n : ptr) : M ptr := get nextSib n.

(** [func (n *node) PreviousSibling() Node]:
    [if n.prevSib.nextSib != nil { return n.prevSib }; return nil] *)
Definition node_PreviousSibling (n : ptr) : M ptr :=
  do prev <- get prevSib n;
  do pn <- get nextSib prev;
  match pn with
  | Some _ => ret prev
  | None => ret None
  end.

(** [func (n *node) OwnerDocument() Document]: the loop
    [for it := n.parent; it != nil; it = it.parent], returning the first
    [it.value] that passes the assertion [it.value.(Document)]. *)
Fixpoint OwnerDocument_loop (fuel : nat) (it : ptr) : M (option payload) :=
  match it with
  | None => ret None
  | Some _ =>
      match fuel with
      | O => out_of_fuel
      | S fuel' =>
          do v <- get value it;
          match v with
          | Some doc =>
              if implements doc Document_methods then ret (Some doc)
              else do p <- get parent it; OwnerDocument_loop fuel' p
          | None => do p <- get parent it; OwnerDocument_loop fuel' p
          end
      end
  end.

Definition node_OwnerDocument (fuel : nat) (n : ptr) : M (option payload) :=
  do p <- get parent n; OwnerDocument_loop fuel p.

(** [func (n *node) xmlName() xml.Name] *)
Definition node_xmlName (n : ptr) : M Name :=
  do v <- get value n;
  ret (match v with
       | Some (VElement name _) => name
       | Some (VAttribute a) => AttrName a
       | _ => mkName "" ""
       end).

(** ** node.go: linking primitives *)

Definition appendNode (child parent : ptr) : M unit :=
  run set_parent child parent;
  do head <- get firstChild parent;
  match head with
  | Some _ =>
      do tail <- get prevSib head;
      run set_nextSib tail child;
      run set_prevSib child tail;
      set_prevSib head child
  | None =>
      run set_firstChild parent child;
      set_prevSib child child
  end.

Definition prependNode (child parent : ptr) : M unit :=
  run set_parent child parent;
  do head <- get firstChild parent;
  run match head with
      | Some _ =>
          do hp <- get prevSib head;
          run set_prevSib child hp;
          set_prevSib head child
      | None => set_prevSib child child
      end;
  run set_nextSib child head;
  set_firstChild parent child.

Definition insertNodeBefore (child before : ptr) : M unit :=
  do parent <- get parent before;
  run set_parent child before;
  do bp <- get prevSib before;
  run match bp with
      | Some _ => set_nextSib bp child
      | None =>
          do fc <- get firstChild parent;
          set_prevSib fc child
      end;
  do bp' <- get prevSib before;
  run set_prevSib child bp';
  run set_nextSib child before;
  set_prevSib before child.

Definition insertNodeAfter (child after : ptr) : M unit :=
  do parent <- get parent after;
  run set_parent child parent;
  do next <- get nextSib after;
  run match next with
      | Some _ => set_prevSib next child
      | None =>
          do fc <- get firstChild parent;
          set_prevSib fc child
      end;
  do an <- get nextSib after;
  run set_nextSib child an;
  run set_prevSib child after;
  set_nextSib after child.

Definition allowInsertChild (parent child : NodeType) : bool :=
  if bool_decide (parent = NodeTypeNull) || bool_decide (child = NodeTypeNull) then false
  else if bool_decide (parent <> NodeTypeDocument) && bool_decide (parent <> NodeTypeElement) then false
  else if bool_decide (child = NodeTypeDocument) || (NodeType_code child =? 0)%Z then false
  else if bool_decide (parent <> NodeTypeDocument)
          && (bool_decide (child = NodeTypeDocumentType) || bool_decide (child = NodeTypeDeclaration))
       then false
  else true.

Definition allowInsertChildErr (parent child : NodeType) : option error :=
  if negb (allowInsertChild parent child) then
    Some (ErrWrap ErrHierarchyRequest
            ("parent node type " ++ NodeType_String parent ++ " may not have a "
               ++ NodeType_String child ++ " child"))
  else None.

Definition allowInsertAttribute (parent : NodeType) : bool :=
  bool_decide (parent = NodeTypeElement) || bool_decide (parent = NodeTypeDeclaration).

(** The loop [for cur := parent; cur != nil; cur = cur.parent] of
    [allowMove]: [false] as soon as [cur == child]. *)
Fixpoint allowMove_loop (fuel : nat) (cur child : ptr) : M bool :=
  match cur with
  | None => ret true
  | Some _ =>
      match fuel with
      | O => out_of_fuel
      | S fuel' =>
          if bool_decide (cur = child) then ret false
          else do p <- get parent cur; allowMove_loop fuel' p child
      end
  end.

Definition allowMove (fuel : nat) (parent child : ptr) : M bool :=
  do pt <- node_NodeType parent;
  do ct <- node_NodeType child;
  if negb (allowInsertChild pt ct) then ret false
  else
    do pd <- node_OwnerDocument fuel parent;
    do cd <- node_OwnerDocument fuel child;
    if bool_decide (pd <> cd) then ret false
    else allowMove_loop fuel parent child.

Definition appendAttribute (attr parent : ptr) : M unit :=
  do head <- get firstAttr parent;
  match head with
  | Some _ =>
      do tail <- get prevSib head;
      run set_nextSib tail attr;
      run set_prevSib attr tail;
      set_prevSib head attr
  | None =>
      run set_firstAttr parent attr;
      set_prevSib attr attr
  end.

(** ** node.go: the child mutation operations *)

Definition node_AppendChild (n child : ptr) : M (option error) :=
  do pt <- node_NodeType n;
  do ct <- node_NodeType child;
  match allowInsertChildErr pt ct with
  | Some err => ret (Some err)
  | None => run appendNode child n; ret None
  end.

Definition node_PrependChild (n child : ptr) : M (option error) :=
  do pt <- node_NodeType n;
  do ct <- node_NodeType child;
  match allowInsertChildErr pt ct with
  | Some err => ret (Some err)
  | None => run prependNode child n; ret None
  end.

Definition node_InsertChildAfter (n child after : ptr) : M (option error) :=
  do pt <- node_NodeType n;
  do ct <- node_NodeType child;
  match allowInsertChildErr pt ct with
  | Some err => ret (Some err)
  | None =>
      match after with
      | None => run appendNode child n; ret None
      | Some _ =>
          do ap <- node_Parent after;
          if bool_decide (ap <> n) then ret (Some ErrHierarchyRequest)
          else run insertNodeAfter child after; ret None
      end
  end.

Definition node_InsertChildBefore (n child before : ptr) : M (option error) :=
  do pt <- node_NodeType n;
  do ct <- node_NodeType child;
  match allowInsertChildErr pt ct with
  | Some err => ret (Some err)
  | None =>
      match before with
      | None => run prependNode child n; ret None
      | Some _ =>
          do bp <- node_Parent before;
          if bool_decide (bp <> n) then ret (Some ErrHierarchyRequest)
          else run insertNodeBefore child before; ret None
      end
  end.

(** ** Constructors of attr.go, text.go, comment.go, document.go,
    procinst.go and builder.go *)

Definition newAttribute (a : Attr) : M ptr := new_node (VAttribute a).
Definition newText (cd : list byte) : M ptr := new_node (VText cd).
Definition newComment (c : list byte) : M ptr := new_node (VComment c).
Definition newDocument : M ptr := new_node VDocument.
Definition newProcInst (pi : ProcInst) : M ptr := new_node (VProcInst pi).
Definition newDocumentFragment (host : ptr) : M ptr :=
  alloc (mkNode host None None None None (Some VDocumentFragment)).

(** [for _, a := range attrs { appendAttribute(newAttribute(a), n) }] *)
Fixpoint appendAttributes (attrs : list Attr) (n : ptr) : M unit :=
  match attrs with
  | [] => ret tt
  | a :: rest =>
      do an <- newAttribute a;
      run appendAttribute an n;
      appendAttributes rest n
  end.

Definition newStartElement (name : Name) (attrs : list Attr) : M ptr :=
  do n <- new_node (VElement name "");
  run appendAttributes attrs n;
  ret n.

Definition CreateElement (name : Name) (attrs : list Attr) : M ptr :=
  newStartElement name attrs.
Definition CreateText (cd : list byte) : M ptr := newText cd.
Definition CreateComment (c : list byte) : M ptr := newComment c.


(** ** text.go: CharacterData on the [text] payload.

    Go's [int] is 64 bits wide; [offset+count] wraps around.  Slice
    expressions panic when an index is negative or beyond the slice. *)

Definition wrap64 (z : Z) : Z := ((z + 2 ^ 63) mod 2 ^ 64 - 2 ^ 63)%Z.
Definition add_int (a b : Z) : Z := wrap64 (a + b).

Definition len {A} (l : list A) : Z := Z.of_nat (length l).

(** [s[:i]] *)
Definition slice_to {A} (s : list A) (i : Z) : option (list A) :=
  if (0 <=? i)%Z && (i <=? len s)%Z then Some (take (Z.to_nat i) s) else None.
(** [s[i:]] *)
Definition slice_from {A} (s : list A) (i : Z) : option (list A) :=
  if (0 <=? i)%Z && (i <=? len s)%Z then Some (drop (Z.to_nat i) s) else None.

(** [[]byte(arg)] and [string(b)] *)
Definition bytes_of (s : string) : list byte := list_byte_of_string s.
Definition string_of (b : list byte) : string := string_of_list_byte b.

(** [copy(dst, src)] as the new contents of [dst]. *)
Definition copy_into {A} (dst src : list A) : list A :=
  take (length dst) src ++ drop (length src) dst.

Definition text_SetData (t : list byte) (arg : string) : outcome (option error * list byte) :=
  Ret (None, bytes_of arg).

Definition text_DeleteData (t : list byte) (offset count : Z)
  : outcome (option error * list byte) :=
  if (count <? 0)%Z || (add_int offset count >? len t)%Z then Ret (Some ErrIndexSize, t)
  else
    match slice_to t offset, slice_from t (add_int offset count) with
    | Some pre, Some post => Ret (None, pre ++ post)
    | _, _ => Panic
    end.

Definition text_ReplaceData (t : list byte) (offset count : Z) (arg : string)
  : outcome (option error * list byte) :=
  if (count <? 0)%Z || (add_int offset count >? len t)%Z || (len (bytes_of arg) <? count)%Z
  then Ret (Some ErrIndexSize, t)
  else
    match slice_from t offset, slice_to (bytes_of arg) count with
    | Some dst, Some src => Ret (None, take (Z.to_nat offset) t ++ copy_into dst src)
    | _, _ => Panic
    end.

Definition text_AppendData (t : list byte) (arg : string) : outcome (option error * list byte) :=
  Ret (None, t ++ bytes_of arg).

Definition text_InsertData (t : list byte) (offset : Z) (arg : string)
  : outcome (option error * list byte) :=
  if (0 <=? offset)%Z && (offset <? len t)%Z then
    match slice_to t offset, slice_from t offset with
    | Some pre, Some post => Ret (None, pre ++ (bytes_of arg ++ post))
    | _, _ => Panic
    end
  else Ret (Some ErrIndexSize, t).

(** The methods as reached through a Text or Comment node ([textNode],
    [commentNode] embed [*text]): the payload of the node is replaced by the
    result. *)
Definition on_text (n : ptr) (op : list byte -> outcome (option error * list byte))
  : M (option error) :=
  do v <- get value n;
  match v with
  | Some (VText t) =>
      match op t with
      | Ret (e, t') => run set_value n (Some (VText t')); ret e
      | Panic => panic
      | OutOfFuel => out_of_fuel
      end
  | Some (VComment t) =>
      match op t with
      | Ret (e, t') => run set_value n (Some (VComment t')); ret e
      | Panic => panic
      | OutOfFuel => out_of_fuel
      end
  | _ => panic
  end.

Definition InsertData (n : ptr) (offset : Z) (arg : string) : M (option error) :=
  on_text n (fun t => text_InsertData t offset arg).
Definition DeleteData (n : ptr) (offset count : Z) : M (option error) :=
  on_text n (fun t => text_DeleteData t offset count).
Definition ReplaceData (n : ptr) (offset count : Z) (arg : string) : M (option error) :=
  on_text n (fun t => text_ReplaceData t offset count arg).

(** [func (n *node) Value() string] *)
Definition node_Value (n : ptr) : M string :=
  do v <- get value n;
  ret (match v with
       | Some (VText t) => string_of t
       | Some (VComment t) => string_of t
       | Some (VAttribute a) => AttrValue a
       | _ => ""
       end).

(** ** builder.go: option flags *)

Definition bitflag : Type := N.

Definition Has (f other : bitflag) : bool := negb (N.land f other =? 0)%N.
Definition Add (f other : bitflag) : bitflag := N.lor f other.

Definition parseDeclaration : bitflag := 1%N.
Definition parseDoctype : bitflag := 2%N.
Definition parsePI : bitflag := 4%N.
Definition parseComments : bitflag := 8%N.
Definition parseTrimPCData : bitflag := 16%N.
Definition parseWSPCData : bitflag := 32%N.
Definition parseFragment : bitflag := 64%N.


(** ** The [TokenDecoder] interface (builder.go) *)

Class TokenDecoder (T : Type) : Type := {
  td_Begin : T -> M (option error * T);
  td_StartElement : T -> Name -> list Attr -> M (option error * T);
  td_EndElement : T -> Name -> M (option error * T);
  td_CharData : T -> list byte -> M (option error * T);
  td_Comment : T -> list byte -> M (option error * T);
  td_ProcInst : T -> ProcInst -> M (option error * T);
  td_Directive : T -> list byte -> M (option error * T);
  td_End : T -> option error -> M (option error * T)
}.

Definition td_Token {T} `{TokenDecoder T} (td : T) (t : Token) : M (option error * T) :=
  match t with
  | StartElement name attrs => td_StartElement td name attrs
  | EndElement name => td_EndElement td name
  | Comment c => td_Comment td c
  | CharData cd => td_CharData td cd
  | Directive d => td_Directive td d
  | ProcInstTok pi => td_ProcInst td pi
  end.

(** [func (un *Unmarshaler) UnmarshalXML]: the token source [d] is the list
    of tokens it yields followed by the error [final] of the call of
    [d.Token()] that ends the stream ([io.EOF] for a complete document). *)
Fixpoint UnmarshalXML_loop {T} `{TokenDecoder T} (ts : list Token) (final : error) (td : T)
  : M (option error * T) :=
  match ts with
  | [] => td_End td (Some final)
  | t :: rest =>
      do r <- td_Token td t;
      match r with
      | (Some err, td') => ret (Some err, td')
      | (None, td') => UnmarshalXML_loop rest final td'
      end
  end.

Definition UnmarshalXML {T} `{TokenDecoder T} (ts : list Token) (final : error) (td : T)
  : M (option error * T) :=
  do r <- td_Begin td;
  match r with
  | (Some err, td') => ret (Some err, td')
  | (None, td') => UnmarshalXML_loop ts final td'
  end.

Section Bytes.

(** [bytes.TrimSpace] and [bytes.Fields] of the Go standard library. *)
Variable TrimSpace : list byte -> list byte.
Variable Fields : list byte -> list (list byte).

(** ** declaration.go *)

(** [bytes.IndexRune(s, r)] for a rune below [utf8.RuneSelf]. *)
Fixpoint IndexByte (s : list byte) (c : byte) : option nat :=
  match s with
  | [] => None
  | b :: rest => if bool_decide (b = c) then Some 0 else S <$> IndexByte rest c
  end.

Definition kvPairs_field (field : list byte) : list (string * string) :=
  match IndexByte field "="%byte with
  | None => []
  | Some idx =>
      let k := take idx field in
      let v := drop (S idx) field in
      match v with
      | [] => []
      | q :: v1 =>
          if bool_decide (q <> "'"%byte) && bool_decide (q <> x22) then []
          else match IndexByte v1 q with
               | Some idx' => [(string_of k, string_of (take idx' v1))]
               | None => []
               end
      end
  end.

Definition kvPairs (input : list byte) : list (string * string) :=
  flat_map kvPairs_field (Fields input).

Definition newDeclaration (pi : ProcInst) : M ptr :=
  do n <- new_node (VDeclaration pi);
  run appendAttributes
        (map (fun kv => mkAttr (mkName "" (fst kv)) (snd kv)) (kvPairs (Inst pi))) n;
  ret n.

(** ** builder.go: [Builder] *)

Record Builder : Type := mkBuilder { Builder_Node : ptr; Builder_opts : bitflag }.

Definition Builder_Begin (un : Builder) : M (option error * Builder) :=
  match Builder_Node un with
  | None => ret (Some (ErrNew "error decoding XML: node cursor is nil"), un)
  | Some _ => ret (None, un)
  end.

(** A method call on the cursor [un.Node]; calling through a nil interface
    value panics. *)
Definition cursor (un : Builder) : M ptr :=
  match Builder_Node un with
  | None => panic
  | Some a => ret (Some a)
  end.

Definition Builder_StartElement (un : Builder) (name : Name) (attrs : list Attr)
  : M (option error * Builder) :=
  do newNode <- newStartElement name attrs;
  do cur <- cursor un;
  run set_parent newNode cur;
  ret (None, mkBuilder newNode (Builder_opts un)).

Definition Builder_EndElement (un : Builder) (_ : Name) : M (option error * Builder) :=
  do n <- cursor un;
  do np <- get parent n;
  match np with
  | None => ret (Some (ErrWrap ErrHierarchyRequest "context node has a nil parent"), un)
  | Some _ =>
      do err <- node_AppendChild np n;
      match err with
      | Some e => ret (Some e, un)
      | None =>
          do p <- node_Parent n;
          ret (None, mkBuilder p (Builder_opts un))
      end
  end.

Definition Builder_CharData (un : Builder) (cd : list byte) : M (option error * Builder) :=
  do cur <- cursor un;
  do ct <- node_NodeType cur;
  match allowInsertChildErr ct NodeTypeText with
  | Some err => ret (Some err, un)
  | None =>
      if (len cd =? 0)%Z && negb (Has (Builder_opts un) parseWSPCData) then ret (None, un)
      else if negb (Has (Builder_opts un) parseTrimPCData) then
        do t <- newText cd;
        do err <- node_AppendChild cur t;
        ret (err, un)
      else
        let trimmed := TrimSpace cd in
        if Has (Builder_opts un) parseWSPCData || (len trimmed >? 0)%Z then
          do t <- newText trimmed;
          do err <- node_AppendChild cur t;
          ret (err, un)
        else ret (None, un)
  end.

Definition Builder_Comment (un : Builder) (c : list byte) : M (option error * Builder) :=
  if negb (Has (Builder_opts un) parseComments) then ret (None, un)
  else
    do cur <- cursor un;
    do ct <- node_NodeType cur;
    match allowInsertChildErr ct NodeTypeComment with
    | Some err => ret (Some err, un)
    | None =>
        do cn <- newComment c;
        do err <- node_AppendChild cur cn;
        ret (err, un)
    end.

Definition Builder_ProcInst (un : Builder) (pi : ProcInst) : M (option error * Builder) :=
  let nt := if bool_decide (Target pi = "xml") then NodeTypeDeclaration
            else NodeTypeProcessingInstruction in
  do cur <- cursor un;
  do ct <- node_NodeType cur;
  match allowInsertChildErr ct nt with
  | Some err => ret (Some err, un)
  | None =>
      if bool_decide (nt = NodeTypeDeclaration) && Has (Builder_opts un) parseDeclaration then
        do decl <- newDeclaration pi;
        do err <- node_AppendChild cur decl;
        ret (err, un)
      else if bool_decide (nt = NodeTypeProcessingInstruction) && Has (Builder_opts un) parsePI then
        do pn <- newProcInst pi;
        do err <- node_AppendChild cur pn;
        ret (err, un)
      else ret (None, un)
  end.

Definition Builder_Directive (un : Builder) (_ : list byte) : M (option error * Builder) :=
  ret (Some (ErrNew "TODO"), un).

Definition Builder_End (un : Builder) (err : option error) : M (option error * Builder) :=
  if bool_decide (err = Some EOF) then ret (None, un) else ret (err, un).

#[global] Instance Builder_TokenDecoder : TokenDecoder Builder := {
  td_Begin := Builder_Begin;
  td_StartElement := Builder_StartElement;
  td_EndElement := Builder_EndElement;
  td_CharData := Builder_CharData;
  td_Comment := Builder_Comment;
  td_ProcInst := Builder_ProcInst;
  td_Directive := Builder_Directive;
  td_End := Builder_End
}.

End Bytes.

(** [func (un Builder) Root() Node]: the loop
    [for it := un.Node.nodePtr(); it != nil; it = it.parent] that returns
    [it] as soon as [it.parent == nil]. *)
Fixpoint Root_loop (fuel : nat) (it : ptr) : M ptr :=
  match it with
  | None => ret None
  | Some _ =>
      match fuel with
      | O => out_of_fuel
      | S fuel' =>
          do p <- get parent it;
          match p with
          | None => ret it
          | Some _ => Root_loop fuel' p
          end
      end
  end.

Definition Builder_Root (fuel : nat) (un : Builder) : M ptr :=
  do it <- cursor un; Root_loop fuel it.


(** ** marshaler.go *)

(** The part of [*xml.Encoder] the marshaler uses. *)
Class Encoder (E : Type) : Type := {
  EncodeToken : E -> Token -> option error * E;
  Flush : E -> option error * E
}.

Record Marshaler : Type := mkMarshaler {
  Marshaler_Node : ptr;
  Marshaler_opts : bitflag;
  emitExplicitNS : bool
}.

Definition marshalExplicitNS : bitflag := 1%N.

(** [NewMarshaler(node)] without options. *)
Definition NewMarshaler (n : ptr) : Marshaler := mkMarshaler n 0%N false.

(** [WithExplicitNS()] *)
Definition WithExplicitNS (e : Marshaler) : Marshaler :=
  mkMarshaler (Marshaler_Node e) (Add (Marshaler_opts e) marshalExplicitNS) (emitExplicitNS e).

Definition xmlnsDefault : Name := mkName "" "xmlns".

(** The closures pushed on the [encoderStack], by the function that builds
    them and the node they capture. *)
Inductive encoderFn : Type :=
| encodeNodeValueStart (n : ptr)
| encodeNodeValueEnd (n : ptr).

(** The name of an element as it is emitted: the namespace is dropped when
    it equals the parent's. *)
Definition elidedName (explicitNS : bool) (n : ptr) : M Name :=
  do name <- node_xmlName n;
  do np <- get parent n;
  match np with
  | Some _ =>
      if negb explicitNS then
        do pname <- node_xmlName np;
        if bool_decide (Space pname = Space name) then ret (mkName "" (Local name))
        else ret name
      else ret name
  | None => ret name
  end.

Definition endElementForNode (n : ptr) (explicitNS : bool) : M Token :=
  do name <- elidedName explicitNS n;
  ret (EndElement name).

(** [for it := n.firstAttr; it != nil; it = it.nextSib] collecting
    the [Attr] of the [*attribute] payload of [it] unless its name is [xmlnsDefault]. *)
Fixpoint collectAttrs (fuel : nat) (it : ptr) : M (list Attr) :=
  match it with
  | None => ret []
  | Some _ =>
      match fuel with
      | O => out_of_fuel
      | S fuel' =>
          do v <- get value it;
          match v with
          | Some (VAttribute this) =>
              do next <- get nextSib it;
              do rest <- collectAttrs fuel' next;
              ret (if bool_decide (AttrName this <> xmlnsDefault)
                   then this :: rest else rest)
          | _ => panic
          end
      end
  end.

Section Encode.
Context {E : Type} `{Encoder E}.

(** Running a closure: the node to descend into, the error, and the
    encoder afterwards. *)
Definition call (fuel : nat) (e : Marshaler) (enc : E) (fn : encoderFn)
  : M (ptr * option error * E) :=
  match fn with
  | encodeNodeValueStart n =>
      do nt <- node_NodeType n;
      do r <-
        match nt with
        | NodeTypeElement =>
            do name <- elidedName (Has (Marshaler_opts e) marshalExplicitNS) n;
            do fa <- get firstAttr n;
            do attrs <- collectAttrs fuel fa;
            ret (EncodeToken enc (StartElement name attrs))
        | NodeTypeComment =>
            do v <- get value n;
            match v with
            | Some (VComment c) => ret (EncodeToken enc (Comment c))
            | _ => panic
            end
        | NodeTypeText =>
            do v <- get value n;
            match v with
            | Some (VText t) => ret (EncodeToken enc (CharData t))
            | _ => panic
            end
        | NodeTypeDeclaration =>
            do v <- get value n;
            match v with
            | Some (VDeclaration pi) => ret (EncodeToken enc (ProcInstTok pi))
            | _ => panic
            end
        | NodeTypeProcessingInstruction =>
            do v <- get value n;
            match v with
            | Some (VProcInst pi) => ret (EncodeToken enc (ProcInstTok pi))
            | _ => panic
            end
        | NodeTypeDocumentFragment | NodeTypeDocument => ret (None, enc)
        | _ =>
            ret (Some (ErrNew ("MarshalXML called on unexpected node type "
                                 ++ NodeType_String nt)), enc)
        end;
      match r with
      | (Some err, enc') => ret (n, Some (ErrWithStack err), enc')
      | (None, enc') => ret (n, None, enc')
      end
  | encodeNodeValueEnd n =>
      do nt <- node_NodeType n;
      match nt with
      | NodeTypeElement =>
          do tok <- endElementForNode n (emitExplicitNS e);
          match EncodeToken enc tok with
          | (Some err, enc') => ret (None, Some (ErrWithStack err), enc')
          | (None, enc') => ret (None, None, enc')
          end
      | _ => ret (None, None, enc)
      end
  end.

(** [for it := n.firstChild.prevSib.prevSib; it.nextSib != nil; it = it.prevSib]
    pushing [encodeNodeValueStart(e, enc, it)]; the stack grows at its
    head. *)
Fixpoint pushSiblings (fuel : nat) (it : ptr) (s : list encoderFn) : M (list encoderFn) :=
  match fuel with
  | O => out_of_fuel
  | S fuel' =>
      do next <- get nextSib it;
      match next with
      | None => ret s
      | Some _ =>
          do prev <- get prevSib it;
          pushSiblings fuel' prev (encodeNodeValueStart it :: s)
      end
  end.

(** The loop [for s.len() > 0] of [treeOrder]. *)
Fixpoint treeOrder_loop (fuel : nat) (e : Marshaler) (enc : E) (s : list encoderFn)
  : M (option error * E) :=
  match s with
  | [] => ret (None, enc)
  | fn :: s1 =>
      match fuel with
      | O => out_of_fuel
      | S fuel' =>
          do r <- call fuel e enc fn;
          match r with
          | (_, Some err, enc') => ret (Some (ErrWithStack err), enc')
          | (None, None, enc') => treeOrder_loop fuel' e enc' s1
          | (Some n, None, enc') =>
              let s2 := encodeNodeValueEnd (Some n) :: s1 in
              do fc <- get firstChild (Some n);
              match fc with
              | None => treeOrder_loop fuel' e enc' s2
              | Some _ =>
                  do tail <- get prevSib fc;
                  let s3 := encodeNodeValueStart tail :: s2 in
                  do it <- get prevSib tail;
                  do s4 <- pushSiblings fuel it s3;
                  treeOrder_loop fuel' e enc' s4
              end
          end
      end
  end.

Definition treeOrder (fuel : nat) (e : Marshaler) (enc : E) : M (option error * E) :=
  match Marshaler_Node e with
  | None => panic
  | Some a => treeOrder_loop fuel e enc [encodeNodeValueStart (Some a)]
  end.

(** [func (m *Marshaler) MarshalXML] *)
Definition MarshalXML (fuel : nat) (m : Marshaler) (enc : E) : M (option error * E) :=
  do r <- treeOrder fuel m enc;
  match r with
  | (Some err, enc') => ret (Some err, enc')
  | (None, enc') => ret (Flush enc')
  end.

(** [func (wx writerXML) WriteTo]: the encoder is flushed in either case
    and the first error wins. *)
Definition WriteTo (fuel : nat) (m : Marshaler) (enc : E) : M (option error * E) :=
  do r <- treeOrder fuel m enc;
  let '(err, enc') := r in
  let '(err2, enc'') := Flush enc' in
  ret (match err with Some _ => err | None => err2 end, enc'').

End Encode.

(** The encoder that accepts every token and keeps what it was given, in
    order. *)
#[global] Instance Recorder : Encoder (list Token) := {
  EncodeToken enc t := (None, enc ++ [t]);
  Flush enc := (None, enc)
}.


(** ** [bytes.TrimSpace] and [bytes.Fields] on ASCII input

    For input without bytes at or above [utf8.RuneSelf] both functions only
    look at the six white space bytes of the table [asciiSpace]. *)

Definition asciiSpace (b : byte) : bool :=
  match b with
  | x09 | x0a | x0b | x0c | x0d | x20 => true
  | _ => false
  end.

Fixpoint trimLeft (s : list byte) : list byte :=
  match s with
  | [] => []
  | b :: rest => if asciiSpace b then trimLeft rest else s
  end.

Definition asciiTrimSpace (s : list byte) : list byte :=
  rev (trimLeft (rev (trimLeft s))).

(** One pass of [bytes.Fields]: [cur] is the field being read, reversed. *)
Fixpoint asciiFields_go (s : list byte) (cur : list byte) : list (list byte) :=
  match s with
  | [] => match cur with [] => [] | _ => [rev cur] end
  | b :: rest =>
      if asciiSpace b then
        match cur with
        | [] => asciiFields_go rest []
        | _ => rev cur :: asciiFields_go rest []
        end
      else asciiFields_go rest (b :: cur)
  end.

Definition asciiFields (s : list byte) : list (list byte) := asciiFields_go s [].


(** ** json_decoder.go *)

(** The tokens of [encoding/json]: [json.Delim], [string], [bool],
    [json.Number] (both entry points call [UseNumber], so no [float64]
    token occurs) and [nil]. *)
Inductive Delim : Type := LBrace | RBrace | LBracket | RBracket.

Inductive jsonToken : Type :=
| JDelim (d : Delim)
| JString (s : string)
| JBool (b : bool)
| JNumber (s : string)
| JNull.

Inductive jsonDecoderFn : Type := jsDecodeStart | jsDecodeObject | jsDecodeArray.

Record jdState : Type := mkJdState { jdFn : option jsonDecoderFn; jdKey : string }.

(** [strings.Index(input, ":")] *)
Fixpoint IndexColon (input : string) : option nat :=
  match input with
  | EmptyString => None
  | String c rest => if bool_decide (c = ":"%char) then Some 0 else S <$> IndexColon rest
  end.

Definition jsTagToName (input : string) : Name :=
  match IndexColon input with
  | Some idx =>
      if (0 <? idx)%nat then
        mkName (substring 0 idx input) (substring (S idx) (String.length input - S idx) input)
      else mkName EmptyString input
  | None => mkName EmptyString input
  end.

Definition xmlNameToTag (n : Name) : string :=
  (if bool_decide (Space n <> EmptyString) then Space n ++ ":" else EmptyString) ++ Local n.

Section JSON.
Context {T : Type} `{TokenDecoder T}.

(** The decoder: [tokens] is what the embedded [*json.Decoder] has yet to
    yield, [td] the embedded [TokenDecoder]; the stack grows at its head. *)
Record JSONDecoder : Type := mkJSONDecoder {
  jd_tokens : list jsonToken;
  jd_td : T;
  jd_error : option error;
  jd_stack : list jdState
}.

(** [d.Token()]; the exhausted stream answers [io.EOF]. *)
Definition jd_Token (d : JSONDecoder) : option jsonToken * option error * JSONDecoder :=
  match jd_tokens d with
  | [] => (None, Some EOF, d)
  | t :: rest => (Some t, None, mkJSONDecoder rest (jd_td d) (jd_error d) (jd_stack d))
  end.

(** [d.More()] *)
Definition jd_More (d : JSONDecoder) : bool :=
  match jd_tokens d with
  | [] => false
  | JDelim RBracket :: _ => false
  | JDelim RBrace :: _ => false
  | _ => true
  end.

Definition jd_push (d : JSONDecoder) (jds : jdState) : JSONDecoder :=
  mkJSONDecoder (jd_tokens d) (jd_td d) (jd_error d) (jds :: jd_stack d).

Definition jd_pop (d : JSONDecoder) : jdState * JSONDecoder :=
  match jd_stack d with
  | jds :: rest => (jds, mkJSONDecoder (jd_tokens d) (jd_td d) (jd_error d) rest)
  | [] => (mkJdState None EmptyString, d)
  end.

Definition bail (d : JSONDecoder) (err : option error) : option jsonDecoderFn * JSONDecoder :=
  (None, mkJSONDecoder (jd_tokens d) (jd_td d) err (jd_stack d)).

Definition with_td (d : JSONDecoder) (td : T) : JSONDecoder :=
  mkJSONDecoder (jd_tokens d) td (jd_error d) (jd_stack d).

Definition jd_StartElement (d : JSONDecoder) (name : Name) : M (option error * JSONDecoder) :=
  do r <- td_StartElement (jd_td d) name [];
  ret (fst r, with_td d (snd r)).

Definition jd_EndElement (d : JSONDecoder) (name : Name) : M (option error * JSONDecoder) :=
  do r <- td_EndElement (jd_td d) name;
  ret (fst r, with_td d (snd r)).

Definition jd_CharData (d : JSONDecoder) (cd : list byte) : M (option error * JSONDecoder) :=
  do r <- td_CharData (jd_td d) cd;
  ret (fst r, with_td d (snd r)).

(** [func (d *JSONDecoder) decode(name, value)] *)
Definition jd_decode (d : JSONDecoder) (name : Name) (value : string)
  : M (option error * JSONDecoder) :=
  do r1 <- jd_StartElement d name;
  match r1 with
  | (Some err, d1) => ret (Some err, d1)
  | (None, d1) =>
      do r2 <- jd_CharData d1 (bytes_of value);
      match r2 with
      | (Some err, d2) => ret (Some err, d2)
      | (None, d2) => jd_EndElement d2 name
      end
  end.

(** [fmt.Sprintf("%v", b)] for a [bool] *)
Definition Sprint_bool (b : bool) : string := if b then "true" else "false".

Definition run_jsDecodeStart (d : JSONDecoder) : M (option jsonDecoderFn * JSONDecoder) :=
  match jd_Token d with
  | (_, Some err, d1) => ret (bail d1 (Some err))
  | (Some (JDelim LBrace), None, d1) => ret (Some jsDecodeObject, d1)
  | (Some (JDelim LBracket), None, d1) => ret (Some jsDecodeArray, d1)
  | (_, None, d1) => ret (bail d1 (Some (ErrNew "unexpected JSON token")))
  end.

Fixpoint run_jsDecodeArray (fuel : nat) (d : JSONDecoder)
  : M (option jsonDecoderFn * JSONDecoder) :=
  if jd_More d then
    match fuel with
    | O => out_of_fuel
    | S fuel' =>
        match jd_Token d with
        | (_, Some err, d1) => ret (bail d1 (Some err))
        | (None, None, d1) => panic
        | (Some t, None, d1) =>
            let '(prev, d2) := jd_pop d1 in
            let key := jdKey prev in
            let name := jsTagToName (jdKey prev) in
            let d3 := jd_push d2 prev in
            do r <-
              match t with
              | JDelim LBrace =>
                  let d4 := jd_push d3 (mkJdState (Some jsDecodeArray) key) in
                  do r <- jd_StartElement d4 name;
                  ret (Some jsDecodeObject, r)
              | JDelim _ =>
                  ret (None, (Some (ErrNew "decoding of nested arrays unsupported"), d3))
              | JString value => do r <- jd_decode d3 name value; ret (None, r)
              | JBool value => do r <- jd_decode d3 name (Sprint_bool value); ret (None, r)
              | JNumber value => do r <- jd_decode d3 name value; ret (None, r)
              | JNull => do r <- jd_decode d3 name EmptyString; ret (None, r)
              end;
            match r with
            | (_, (Some err, d5)) => ret (bail d5 (Some err))
            | (Some next, (None, d5)) => ret (Some next, d5)
            | (None, (None, d5)) => run_jsDecodeArray fuel' d5
            end
        end
    end
  else
    match jd_Token d with
    | (_, Some err, d1) => ret (bail d1 (Some err))
    | (_, None, d1) => let '(prev, d2) := jd_pop d1 in ret (jdFn prev, d2)
    end.

Fixpoint run_jsDecodeObject (fuel : nat) (d : JSONDecoder)
  : M (option jsonDecoderFn * JSONDecoder) :=
  if jd_More d then
    match fuel with
    | O => out_of_fuel
    | S fuel' =>
        let '(t1, err, d1) := jd_Token d in
        let '(t2, err2, d2) := jd_Token d1 in
        match err, err2 with
        | Some e, _ => ret (bail d2 (Some e))
        | None, Some _ => ret (bail d2 err)
        | None, None =>
            match t1, t2 with
            | Some (JString key), Some t2 =>
                let name := jsTagToName key in
                do r <-
                  match t2 with
                  | JDelim LBracket =>
                      ret (Some jsDecodeArray,
                           (None, jd_push d2 (mkJdState (Some jsDecodeObject) key)))
                  | JDelim LBrace =>
                      let d3 := jd_push d2 (mkJdState (Some jsDecodeObject) key) in
                      do r <- jd_StartElement d3 name;
                      ret (Some jsDecodeObject, r)
                  | JDelim _ => ret (None, (Some (ErrNew "unexpected delimiter type"), d2))
                  | JString value => do r <- jd_decode d2 name value; ret (None, r)
                  | JBool value => do r <- jd_decode d2 name (Sprint_bool value); ret (None, r)
                  | JNumber value => do r <- jd_decode d2 name value; ret (None, r)
                  | JNull => do r <- jd_decode d2 name EmptyString; ret (None, r)
                  end;
                match r with
                | (_, (Some e, d5)) => ret (bail d5 (Some e))
                | (Some next, (None, d5)) => ret (Some next, d5)
                | (None, (None, d5)) => run_jsDecodeObject fuel' d5
                end
            | Some _, Some _ => ret (bail d2 (Some (ErrNew "bad JSON object key type")))
            | _, _ => panic
            end
        end
    end
  else
    match jd_Token d with
    | (_, Some err, d1) => ret (bail d1 (Some err))
    | (_, None, d1) =>
        let '(prev, d2) := jd_pop d1 in
        if bool_decide (jdKey prev <> EmptyString) then
          do r <- jd_EndElement d2 (jsTagToName (jdKey prev));
          match r with
          | (Some err, d3) => ret (bail d3 (Some err))
          | (None, d3) => ret (jdFn prev, d3)
          end
        else ret (jdFn prev, d2)
    end.

Definition run_state (fuel : nat) (state : jsonDecoderFn) (d : JSONDecoder)
  : M (option jsonDecoderFn * JSONDecoder) :=
  match state with
  | jsDecodeStart => run_jsDecodeStart d
  | jsDecodeObject => run_jsDecodeObject fuel d
  | jsDecodeArray => run_jsDecodeArray fuel d
  end.

(** [for state := jsDecodeStart; state != nil; state = state(d) {}] *)
Fixpoint runJSDecoder_loop (fuel : nat) (state : option jsonDecoderFn) (d : JSONDecoder)
  : M (option error * JSONDecoder) :=
  match state with
  | None => ret (jd_error d, d)
  | Some st =>
      match fuel with
      | O => out_of_fuel
      | S fuel' =>
          do r <- run_state fuel st d;
          runJSDecoder_loop fuel' (fst r) (snd r)
      end
  end.

Definition runJSDecoder (fuel : nat) (d : JSONDecoder) : M (option error * JSONDecoder) :=
  runJSDecoder_loop fuel (Some jsDecodeStart) d.

(** [func (d *JSONDecoder) Run() error] *)
Definition JSONDecoder_Run (fuel : nat) (d : JSONDecoder) : M (option error * JSONDecoder) :=
  do r <- runJSDecoder fuel d;
  do r' <- td_End (jd_td (snd r)) (fst r);
  ret (fst r', with_td (snd r) (snd r')).

(** [func (un *Unmarshaler) UnmarshalJSON(b)] on input other than [null]:
    [tokens] is the token stream of [b]. *)
Definition UnmarshalJSON (fuel : nat) (tokens : list jsonToken) (td : T)
  : M (option error * T) :=
  do r <- td_Begin td;
  match r with
  | (Some err, td1) => ret (Some err, td1)
  | (None, td1) =>
      do r1 <- JSONDecoder_Run fuel (mkJSONDecoder tokens td1 None []);
      td_End (jd_td (snd r1)) (fst r1)
  end.

End JSON.

(** ** node.go and document.go: searching the child list *)

(** [namer, ok := it.value.(Namer)] followed by [namer.Name()]: the
    payloads with a [Name] method are the element and the attribute. *)
Definition Namer_Name (v : option payload) : option Name :=
  match v with
  | Some (VElement name _) => Some name
  | Some (VAttribute a) => Some (AttrName a)
  | _ => None
  end.

(** [for it := first; it != nil; it = it.nextSib { if err := fn(it); err != nil { return err } }],
    the loop of [iterChildren] and [iterAttributes]; the variables that
    the closure [fn] captures are the state [S]. *)
Fixpoint iter_loop {S : Type} (fuel : nat) (it : ptr)
    (fn : ptr -> S -> M (option error * S)) (s : S) : M (option error * S) :=
  match it with
  | None => ret (None, s)
  | Some _ =>
      match fuel with
      | O => out_of_fuel
      | S fuel' =>
          do r <- fn it s;
          match r with
          | (Some err, s') => ret (Some err, s')
          | (None, s') => do next <- get nextSib it; iter_loop fuel' next fn s'
          end
      end
  end.

Definition iterChildren {S : Type} (fuel : nat) (n : ptr)
    (fn : ptr -> S -> M (option error * S)) (s : S) : M (option error * S) :=
  do fc <- get firstChild n; iter_loop fuel fc fn s.

Definition iterAttributes {S : Type} (fuel : nat) (n : ptr)
    (fn : ptr -> S -> M (option error * S)) (s : S) : M (option error * S) :=
  do fa <- get firstAttr n; iter_loop fuel fa fn s.

(** [func (n *node) ChildrenByName(name xml.Name) (nodeset []Node)] *)
Definition node_ChildrenByName (fuel : nat) (n : ptr) (name : Name) : M (list ptr) :=
  do r <- iterChildren fuel n
            (fun it nodeset =>
               do v <- get value it;
               ret (None, if bool_decide (Namer_Name v = Some name)
                          then nodeset ++ [it] else nodeset))
            [];
  ret (snd r).

(** [func (n *node) ChildByName(name xml.Name) Node] *)
Definition node_ChildByName (fuel : nat) (n : ptr) (name : Name) : M ptr :=
  do nodeset <- node_ChildrenByName fuel n name;
  match nodeset with
  | [] => ret None
  | first :: _ => ret first
  end.

(** [func (n *node) ChildValue() string] *)
Fixpoint ChildValue_loop (fuel : nat) (it : ptr) : M string :=
  match it with
  | None => ret EmptyString
  | Some _ =>
      match fuel with
      | O => out_of_fuel
      | S fuel' =>
          do nt <- node_NodeType it;
          if bool_decide (nt = NodeTypeText) then
            do v <- get value it;
            match v with
            | Some (VText t) => ret (string_of t)
            | _ => panic
            end
          else do next <- get nextSib it; ChildValue_loop fuel' next
      end
  end.

Definition node_ChildValue (fuel : nat) (n : ptr) : M string :=
  do fc <- get firstChild n; ChildValue_loop fuel fc.

(** [func (d documentNode) DocumentElement() Element] *)
Fixpoint DocumentElement_loop (fuel : nat) (it : ptr) : M ptr :=
  match it with
  | None => ret None
  | Some _ =>
      match fuel with
      | O => out_of_fuel
      | S fuel' =>
          do nt <- node_NodeType it;
          if bool_decide (nt = NodeTypeElement) then
            do v <- get value it;
            match v with
            | Some (VElement _ _) => ret it
            | _ => panic
            end
          else do next <- get nextSib it; DocumentElement_loop fuel' next
      end
  end.

Definition DocumentElement (fuel : nat) (d : ptr) : M ptr :=
  do fc <- get firstChild d; DocumentElement_loop fuel fc.

(** ** node.go: the attribute operations *)

Definition allowInsertAttributeErr (parent : NodeType) : option error :=
  if negb (allowInsertAttribute parent) then
    Some (ErrWrap ErrHierarchyRequest
            ("parent node type " ++ NodeType_String parent ++ " may not have a "
               ++ NodeType_String NodeTypeAttribute ++ " child"))
  else None.

Definition prependAttribute (attr parent : ptr) : M unit :=
  do head <- get firstAttr parent;
  run match head with
      | Some _ =>
          do hp <- get prevSib head;
          run set_prevSib attr hp;
          set_prevSib head attr
      | None => set_prevSib attr attr
      end;
  run set_nextSib attr head;
  set_firstAttr parent attr.

(** The guard of [insertAttributeAfter] and [insertAttributeBefore]:
    [place.value.nodeType()] and [attr.value.nodeType()] must both be
    [NodeTypeAttribute], or the function panics. *)
Definition both_attributes (attr place : ptr) : M unit :=
  do pv <- get value place;
  match pv with
  | None => panic
  | Some pv =>
      if bool_decide (payload_nodeType pv <> NodeTypeAttribute) then panic
      else
        do av <- get value attr;
        match av with
        | None => panic
        | Some av =>
            if bool_decide (payload_nodeType av <> NodeTypeAttribute) then panic
            else ret tt
        end
  end.

Definition insertAttributeAfter (attr place parent : ptr) : M unit :=
  run both_attributes attr place;
  do pnext <- get nextSib place;
  run match pnext with
      | Some _ => set_prevSib pnext attr
      | None => do fa <- get firstAttr parent; set_prevSib fa attr
      end;
  do pn <- get nextSib place;
  run set_nextSib attr pn;
  run set_prevSib attr place;
  set_nextSib place attr.

Definition insertAttributeBefore (attr place parent : ptr) : M unit :=
  run both_attributes attr place;
  do pprev <- get prevSib place;
  run match pprev with
      | Some _ => set_nextSib pprev attr
      | None => set_firstAttr parent attr
      end;
  do pp <- get prevSib place;
  run set_prevSib attr pp;
  run set_nextSib attr place;
  set_prevSib place attr.

(** [n.asAttribute()]: the type assertion of [n.value] to the attribute
    payload panics on every other payload. *)
Definition asAttribute (n : ptr) : M ptr :=
  do v <- get value n;
  match v with
  | Some (VAttribute _) => ret n
  | _ => panic
  end.

(** [func (n *node) FirstAttribute() Attr] *)
Definition node_FirstAttribute (n : ptr) : M ptr :=
  do fa <- get firstAttr n;
  match fa with
  | None => ret None
  | Some _ => asAttribute fa
  end.

(** [func (n *node) LastAttribute() Attr] *)
Definition node_LastAttribute (n : ptr) : M ptr :=
  do fa <- get firstAttr n;
  match fa with
  | None => ret None
  | Some _ => do la <- get prevSib fa; asAttribute la
  end.

(** [func (n *node) Attribute(name xml.Name) Attr] *)
Fixpoint Attribute_loop (fuel : nat) (it : ptr) (name : Name) : M ptr :=
  match it with
  | None => ret None
  | Some _ =>
      match fuel with
      | O => out_of_fuel
      | S fuel' =>
          do v <- get value it;
          match v with
          | Some (VAttribute a) =>
              if bool_decide (AttrName a = name) then asAttribute it
              else do next <- get nextSib it; Attribute_loop fuel' next name
          | _ => panic
          end
      end
  end.

Definition node_Attribute (fuel : nat) (n : ptr) (name : Name) : M ptr :=
  do fa <- get firstAttr n; Attribute_loop fuel fa name.

(** [func (n *node) AppendAttribute(a xml.Attr) error] *)
Definition node_AppendAttribute (n : ptr) (a : Attr) : M (option error) :=
  do nt <- node_NodeType n;
  match allowInsertAttributeErr nt with
  | Some err => ret (Some err)
  | None => do an <- newAttribute a; run appendAttribute an n; ret None
  end.

(** [func (n *node) PrependAttribute(a xml.Attr) error] *)
Definition node_PrependAttribute (n : ptr) (a : Attr) : M (option error) :=
  do nt <- node_NodeType n;
  match allowInsertAttributeErr nt with
  | Some err => ret (Some err)
  | None => do an <- newAttribute a; run prependAttribute an n; ret None
  end.

(** [func (n *node) InsertAttributeAfter(a xml.Attr, after Attr) error] *)
Definition node_InsertAttributeAfter (n : ptr) (a : Attr) (after : ptr) : M (option error) :=
  do nt <- node_NodeType n;
  match allowInsertAttributeErr nt with
  | Some err => ret (Some err)
  | None =>
      match after with
      | None => do an <- newAttribute a; run appendAttribute an n; ret None
      | Some _ =>
          do ap <- node_Parent after;
          if bool_decide (ap <> n) then ret (Some ErrHierarchyRequest)
          else do an <- newAttribute a; run insertAttributeAfter an after n; ret None
      end
  end.

(** [func (n *node) InsertAttributeBefore(a xml.Attr, before Attr) error] *)
Definition node_InsertAttributeBefore (n : ptr) (a : Attr) (before : ptr) : M (option error) :=
  do nt <- node_NodeType n;
  match allowInsertAttributeErr nt with
  | Some err => ret (Some err)
  | None =>
      match before with
      | None => do an <- newAttribute a; run prependAttribute an n; ret None
      | Some _ =>
          do bp <- node_Parent before;
          if bool_decide (bp <> n) then ret (Some ErrHierarchyRequest)
          else do an <- newAttribute a; run insertAttributeBefore an before n; ret None
      end
  end.

(** [func (n *node) SetValue(value string) error]: the payloads with a
    [SetValue] method are the text, the comment and the attribute. *)
Definition node_SetValue (n : ptr) (v : string) : M (option error) :=
  do old <- get value n;
  match old with
  | Some (VText _) => run set_value n (Some (VText (bytes_of v))); ret None
  | Some (VComment _) => run set_value n (Some (VComment (bytes_of v))); ret None
  | Some (VAttribute a) =>
      run set_value n (Some (VAttribute (mkAttr (AttrName a) v))); ret None
  | _ =>
      do nt <- node_NodeType n;
      ret (Some (ErrNew ("cannot call SetValue on a " ++ NodeType_String nt)))
  end.

(** [func (n *node) Name() xml.Name] *)
Definition node_Name (n : ptr) : M Name :=
  do v <- get value n;
  ret (match Namer_Name v with
       | Some name => name
       | None => mkName "" ""
       end).

(** ** iterator.go *)

(** [type nodeIterator struct { parent Node; wrap Node; match func(n Node) bool }] *)
Record nodeIterator : Type := mkNodeIterator {
  it_parent : ptr;
  it_wrap : ptr;
  it_match : ptr -> M bool
}.

Definition with_wrap (it : nodeIterator) (w : ptr) : nodeIterator :=
  mkNodeIterator (it_parent it) w (it_match it).

Definition NewChildIterator (parent : ptr) : nodeIterator :=
  mkNodeIterator parent None (fun _ => ret true).

Definition NewChildNamedIterator (parent : ptr) (name : Name) : nodeIterator :=
  mkNodeIterator parent None (fun n => do nm <- node_Name n; ret (bool_decide (name = nm))).

Definition NewChildFilteringIterator (parent : ptr) (filter : ptr -> M bool) : nodeIterator :=
  mkNodeIterator parent None filter.

Definition nodeIterator_Node (it : nodeIterator) : ptr := it_wrap it.
Definition nodeIterator_Parent (it : nodeIterator) : ptr := it_parent it.

Definition nodeIterator_Equal (it o : nodeIterator) : bool :=
  bool_decide (it_wrap it = it_wrap o) && bool_decide (it_parent it = it_parent o).

(** [for cur := it.wrap.nodePtr(); cur != nil; cur = cur.nextSib] *)
Fixpoint NextSibling_loop (fuel : nat) (it : nodeIterator) (cur : ptr)
  : M (ptr * nodeIterator) :=
  match cur with
  | None => ret (None, with_wrap it None)
  | Some _ =>
      match fuel with
      | O => out_of_fuel
      | S fuel' =>
          do b <- it_match it cur;
          if b then ret (cur, with_wrap it cur)
          else do next <- get nextSib cur; NextSibling_loop fuel' it next
      end
  end.

(** [func (it *nodeIterator) NextSibling() Node]: [it.wrap.nodePtr()] is a
    method call through the interface value [it.wrap], which panics when
    that value is nil. *)
Definition nodeIterator_NextSibling (fuel : nat) (it : nodeIterator)
  : M (ptr * nodeIterator) :=
  do w <- match it_wrap it with
          | None => node_FirstChild (it_parent it)
          | Some _ => node_NextSibling (it_wrap it)
          end;
  match w with
  | None => panic
  | Some _ => NextSibling_loop fuel (with_wrap it w) w
  end.

(** [for cur := it.wrap.nodePtr(); cur.nextSib != nil; cur = cur.prevSib] *)
Fixpoint PreviousSibling_loop (fuel : nat) (it : nodeIterator) (cur : ptr)
  : M (ptr * nodeIterator) :=
  match fuel with
  | O => out_of_fuel
  | S fuel' =>
      do nx <- get nextSib cur;
      match nx with
      | None => ret (None, with_wrap it None)
      | Some _ =>
          do b <- it_match it cur;
          if b then ret (cur, with_wrap it cur)
          else do pv <- get prevSib cur; PreviousSibling_loop fuel' it pv
      end
  end.

(** [func (it *nodeIterator) PreviousSibling() Node] *)
Definition nodeIterator_PreviousSibling (fuel : nat) (it : nodeIterator)
  : M (ptr * nodeIterator) :=
  do w <- match it_wrap it with
          | None => node_LastChild (it_parent it)
          | Some _ => node_PreviousSibling (it_wrap it)
          end;
  match w with
  | None => panic
  | Some _ => PreviousSibling_loop fuel (with_wrap it w) w
  end.

End dom.

(** * Package [modules] and the schema entries of [goyang] *)

Module modules.
Import dom.

(** [yang.EntryKind] *)
Inductive EntryKind : Type :=
| LeafEntry
| DirectoryEntry
| AnyXMLEntry
| CaseEntry
| ChoiceEntry
| InputEntry
| NotificationEntry
| OutputEntry
| DeviateEntry
| AnyDataEntry.

#[global] Instance EntryKind_eq_dec : EqDecision EntryKind.
Proof. solve_decision. Defined.

(** A [*yang.Entry] as far as the decoder reads it: [Kind], the result of
    [Namespace().Name], and the children [Dir].  [Dir] is a Go map; the list
    gives its keys once each, in the order in which a [range] visits them. *)
Inductive Entry : Type :=
| mkEntry (Name : string) (Kind : EntryKind) (Namespace : string) (Dir : list (string * Entry)).

Definition Kind (e : Entry) : EntryKind := match e with mkEntry _ k _ _ => k end.
Definition Namespace (e : Entry) : string := match e with mkEntry _ _ ns _ => ns end.
Definition Dir (e : Entry) : list (string * Entry) := match e with mkEntry _ _ _ d => d end.

(** [m[key]] on such a map *)
Fixpoint lookup_dir {A} (key : string) (m : list (string * A)) : option A :=
  match m with
  | [] => None
  | (k, v) :: rest => if bool_decide (k = key) then Some v else lookup_dir key rest
  end.

(** A [*yang.Module]: its [Namespace] statement, if any, and [yang.ToEntry]
    of it. *)
Record Module : Type := mkModule { mod_Namespace : option string; mod_Entry : Entry }.

Record Collection : Type := mkCollection {
  ms_Modules : list (string * Module);
  processed : bool
}.

(** [strings.Contains(name, "@")] *)
Fixpoint containsAt (name : string) : bool :=
  match name with
  | EmptyString => false
  | String c rest => bool_decide (c = "@"%char) || containsAt rest
  end.

(** [func (c *Collection) ModuleEntry(name string)] *)
Definition ModuleEntry (c : Collection) (name : string) : option Entry * option error :=
  if negb (processed c) then (None, Some (ErrNew "must call Process first"))
  else match lookup_dir name (ms_Modules c) with
       | Some m => (Some (mod_Entry m), None)
       | None => (None, Some (ErrNew "not found"))
       end.

(** [func (c *Collection) RootEntry(name xml.Name)]: [IterLatest] visits
    the modules whose key has no [@]; the first with the namespace
    [name.Space] and a child [name.Local] stops the iteration. *)
Fixpoint RootEntry_iter (ms : list (string * Module)) (name : Name) : option Entry :=
  match ms with
  | [] => None
  | (key, m) :: rest =>
      if containsAt key then RootEntry_iter rest name
      else
        match mod_Namespace m with
        | None => RootEntry_iter rest name
        | Some ns =>
            if bool_decide (ns <> Space name) then RootEntry_iter rest name
            else match lookup_dir (Local name) (Dir (mod_Entry m)) with
                 | Some e => Some e
                 | None => RootEntry_iter rest name
                 end
        end
  end.

Definition RootEntry (c : Collection) (name : Name) : option Entry * option error :=
  if negb (processed c) then (None, Some (ErrNew "must call Process first"))
  else match RootEntry_iter (ms_Modules c) name with
       | Some e => (Some e, None)
       | None => (None, Some (ErrNew "not found"))
       end.

End modules.

(** * Package [datastore]: the schema-guided decoder (decoder.go) *)

Module datastore.
Import dom modules.
#[local] Open Scope go_scope.

Inductive nameLookup : Type := rfc6020Lookup | rfc7951Lookup.

(** The closures pushed on the [yangDecoderStack], by what they capture:
    [Restore s n] is [func() { un.schema = s; un.Node = n }] and
    [RestoreUnskip s n] also sets [un.skip = false]. *)
Inductive frame : Type :=
| Restore (oldSchema : option Entry) (oldNode : ptr)
| RestoreUnskip (oldSchema : option Entry) (oldNode : ptr).

Record Decoder : Type := mkDecoder {
  Node : ptr;
  Modules : Collection;
  schema : option Entry;
  stack : list frame;
  skip : bool;
  errors : list error;
  childname : option nameLookup
}.


(** [%q] of a string without characters that need escaping. *)
Definition dq : string := String (ascii_of_nat 34) EmptyString.
Definition quote (s : string) : string := dq ++ s ++ dq.

Definition errUnexpectedElementName (n : Name) : error :=
  if bool_decide (Space n <> EmptyString) then
    ErrNew ("unexpected child element <" ++ Local n ++ " xmlns=" ++ quote (Space n) ++ ">")
  else ErrNew ("unexpected child element <" ++ Local n ++ ">").

Definition isData (e : Entry) : bool :=
  match Kind e with
  | LeafEntry | DirectoryEntry | AnyXMLEntry | AnyDataEntry => true
  | _ => false
  end.

(** The inner loop of [dataChild]: [for _, chch := range ch.Dir]. *)
Fixpoint dataChild_inner (chchs : list (string * Entry)) (n : Name) : option Entry :=
  match chchs with
  | [] => None
  | (_, chch) :: rest =>
      let here :=
        if bool_decide (Kind chch = CaseEntry) then
          match lookup_dir (Local n) (Dir chch) with
          | Some next => if isData next then Some next else None
          | None => None
          end
        else None in
      match here with
      | Some next => Some next
      | None => dataChild_inner rest n
      end
  end.

(** The outer loop of [dataChild]: [for _, ch := range e.Dir]. *)
Fixpoint dataChild_outer (chs : list (string * Entry)) (n : Name) : option Entry :=
  match chs with
  | [] => None
  | (_, ch) :: rest =>
      let direct :=
        if bool_decide (Kind ch = ChoiceEntry) || bool_decide (Kind ch = CaseEntry) then
          match lookup_dir (Local n) (Dir ch) with
          | Some next => if isData next then Some next else None
          | None => None
          end
        else None in
      match direct with
      | Some next => Some next
      | None =>
          match dataChild_inner (Dir ch) n with
          | Some next => Some next
          | None => dataChild_outer rest n
          end
      end
  end.

(** [func dataChild(e *yang.Entry, n xml.Name) *yang.Entry] *)
Definition dataChild (e : option Entry) (n : Name) : option Entry :=
  match e with
  | None => None
  | Some e =>
      match lookup_dir (Local n) (Dir e) with
      | Some next => if isData next then Some next else dataChild_outer (Dir e) n
      | None => dataChild_outer (Dir e) n
      end
  end.

(** [func (un *Decoder) dataChild(n xml.Name)] *)
Definition Decoder_dataChild (un : Decoder) (n : Name) : option Entry * option error :=
  let found :=
    match schema un with
    | None =>
        match RootEntry (Modules un) n with
        | (_, Some _) => inr (errUnexpectedElementName n)
        | (c, None) => inl c
        end
    | Some _ => inl (dataChild (schema un) n)
    end in
  match found with
  | inr err => (None, Some err)
  | inl None => (None, Some (errUnexpectedElementName n))
  | inl (Some candidate) =>
      if bool_decide (Space n <> EmptyString) && bool_decide (Namespace candidate <> Space n) then
        (None, Some (ErrNew ("unexpected child element <" ++ Local n ++ "> in namespace "
                               ++ quote (Space n) ++ " (expected namespace "
                               ++ quote (Namespace candidate) ++ ")")))
      else (Some candidate, None)
  end.

Definition lookup_rfc7951 (ms : Collection) (n : Name) : Name * option error :=
  if bool_decide (Space n = EmptyString) then (n, None)
  else match ModuleEntry ms (Space n) with
       | (Some m, None) => (mkName (Namespace m) (Local n), None)
       | _ => (n, Some (ErrNew ("unexpected element <" ++ Local n ++ "> in unknown module "
                                  ++ quote (Space n))))
       end.

Definition lookup_rfc6020 (ms : Collection) (n : Name) : Name * option error := (n, None).

Definition apply_lookup (f : nameLookup) : Collection -> Name -> Name * option error :=
  match f with
  | rfc6020Lookup => lookup_rfc6020
  | rfc7951Lookup => lookup_rfc7951
  end.

(** [strings.ToLower] on strings of ASCII characters, which the format
    values that [Initialize] knows are.  Go also lowers the letters beyond
    ASCII (U+0130 becomes [i], U+212A becomes [k]); this definition leaves
    the bytes of such a letter as they are, so it follows the source only
    on ASCII input. *)
Definition lower_ascii (c : ascii) : ascii :=
  let n := nat_of_ascii c in
  if (65 <=? n)%nat && (n <=? 90)%nat then ascii_of_nat (n + 32) else c.

Fixpoint ToLower (s : string) : string :=
  match s with
  | EmptyString => EmptyString
  | String c rest => String (lower_ascii c) (ToLower rest)
  end.

(** The loop of [Initialize] over the key/value pairs: the last value of a
    recognised key, lowered, and the last key read. *)
Fixpoint Initialize_scan (kv : list string) (format k : string) : string * string :=
  match kv with
  | key :: v :: rest =>
      if bool_decide (key = "name.resolver") || bool_decide (key = "mediatype")
         || bool_decide (key = "format")
      then Initialize_scan rest (ToLower v) key
      else Initialize_scan rest format key
  | _ => (format, k)
  end.

Definition with_childname (un : Decoder) (f : option nameLookup) : Decoder :=
  mkDecoder (Node un) (Modules un) (schema un) (stack un) (skip un) (errors un) f.

Definition Decoder_Initialize (un : Decoder) (kv : list string) : option error * Decoder :=
  if negb (Nat.even (length kv)) then
    (Some (ErrNew "called with odd number of arguments"), un)
  else
    let '(format, k) := Initialize_scan kv EmptyString EmptyString in
    if bool_decide (format = "rfc7951") || bool_decide (format = "application/yang-data+json")
       || bool_decide (format = "json")
    then (None, with_childname un (Some rfc7951Lookup))
    else if bool_decide (format = "default") || bool_decide (format = "rfc6020")
            || bool_decide (format = "application/yang-data+xml") || bool_decide (format = "xml")
    then (None, with_childname un (Some rfc6020Lookup))
    else (Some (ErrNew ("unsupported '" ++ k ++ "' key value: " ++ format)),
          with_childname un (Some rfc6020Lookup)).

Definition Decoder_Begin (un : Decoder) : M (option error * Decoder) :=
  match Node un with
  | None => ret (Some (ErrNew "error decoding YANG data: node cursor is nil"), un)
  | Some _ => ret (None, un)
  end.

(** Calling a closure of the stack. *)
Definition apply_frame (f : frame) (un : Decoder) : Decoder :=
  match f with
  | Restore s n =>
      mkDecoder n (Modules un) s (stack un) (skip un) (errors un) (childname un)
  | RestoreUnskip s n =>
      mkDecoder n (Modules un) s (stack un) false (errors un) (childname un)
  end.

Definition push (un : Decoder) (f : frame) : Decoder :=
  mkDecoder (Node un) (Modules un) (schema un) (f :: stack un) (skip un) (errors un)
            (childname un).

(** [s.pop()]: indexing the empty slice panics. *)
Definition pop (un : Decoder) : M (frame * Decoder) :=
  match stack un with
  | f :: rest =>
      ret (f, mkDecoder (Node un) (Modules un) (schema un) rest (skip un) (errors un)
                        (childname un))
  | [] => panic
  end.

(** The tail of [StartElement] after a failed resolution. *)
Definition record_failure (un : Decoder) (err : error) : Decoder :=
  mkDecoder (Node un) (Modules un) (schema un)
            (RestoreUnskip (schema un) (Node un) :: stack un)
            true (errors un ++ [err]) (childname un).

Definition Decoder_StartElement (un : Decoder) (sename : Name) (attrs : list Attr)
  : M (option error * Decoder) :=
  let oldSchema := schema un in
  let oldNode := Node un in
  match childname un with
  | None => panic
  | Some lookup =>
      match apply_lookup lookup (Modules un) sename with
      | (name, None) =>
          match Decoder_dataChild un name with
          | (newSchema, None) =>
              if negb (skip un) then
                do newNode <- CreateElement name attrs;
                do cur <- match Node un with None => panic | Some a => ret (Some a) end;
                do crit <- node_AppendChild cur newNode;
                match crit with
                | Some e => ret (Some e, un)
                | None =>
                    ret (None,
                         mkDecoder newNode (Modules un) newSchema
                                   (Restore oldSchema oldNode :: stack un)
                                   (skip un) (errors un) (childname un))
                end
              else ret (None, push un (Restore oldSchema oldNode))
          | (_, Some err) => ret (None, record_failure un err)
          end
      | (_, Some err) => ret (None, record_failure un err)
      end
  end.

Definition Decoder_EndElement (un : Decoder) (_ : Name) : M (option error * Decoder) :=
  do r <- pop un;
  ret (None, apply_frame (fst r) (snd r)).

Definition Decoder_CharData (un : Decoder) (cd : list byte) : M (option error * Decoder) :=
  if skip un then ret (None, un)
  else
    let un1 :=
      if match schema un with
         | None => true
         | Some e => bool_decide (Kind e <> LeafEntry)
         end
      then mkDecoder (Node un) (Modules un) (schema un) (stack un) (skip un)
                     (errors un ++ [ErrWrap ErrHierarchyRequest "schema node is not a leaf"])
                     (childname un)
      else un in
    do r <- pop un1;
    let update := fst r in
    let un2 := push (snd r) update in
    do text <- CreateText cd;
    do cur <- match Node un2 with None => panic | Some a => ret (Some a) end;
    do crit <- node_AppendChild cur text;
    match crit with
    | Some e => ret (Some e, un2)
    | None => ret (None, apply_frame update un2)
    end.

Definition Decoder_Comment (un : Decoder) (_ : list byte) : M (option error * Decoder) :=
  ret (None, un).
Definition Decoder_ProcInst (un : Decoder) (_ : ProcInst) : M (option error * Decoder) :=
  ret (None, un).
Definition Decoder_Directive (un : Decoder) (_ : list byte) : M (option error * Decoder) :=
  ret (Some (ErrNew "TODO"), un).

Definition Decoder_End (un : Decoder) (err : option error) : M (option error * Decoder) :=
  if bool_decide (err = Some EOF) then
    do cur <- match Node un with None => panic | Some a => ret (Some a) end;
    do p <- node_Parent cur;
    match p with
    | None => ret (None, un)
    | Some _ => ret (Some ErrUnexpectedEOF, un)
    end
  else ret (err, un).

#[global] Instance Decoder_TokenDecoder : TokenDecoder Decoder := {
  td_Begin := Decoder_Begin;
  td_StartElement := Decoder_StartElement;
  td_EndElement := Decoder_EndElement;
  td_CharData := Decoder_CharData;
  td_Comment := Decoder_Comment;
  td_ProcInst := Decoder_ProcInst;
  td_Directive := Decoder_Directive;
  td_End := Decoder_End
}.

End datastore.

(** * Properties *)

Import dom.
#[local] Open Scope go_scope.

(** ** Running the store monad *)

Section Running.

Lemma bind_Ret {A B} (m : M A) (k : A -> M B) h a h' :
  m h = Ret (a, h') -> bind m k h = k a h'.
Proof. unfold bind. intros ->. reflexivity. Qed.

Lemma bind_inv {A B} (m : M A) (k : A -> M B) h b h' :
  bind m k h = Ret (b, h') ->
  exists a h1, m h = Ret (a, h1) /\ k a h1 = Ret (b, h').
Proof.
  unfold bind. destruct (m h) as [[a h1]| |]; try discriminate.
  intros Hk. exists a, h1. split; [reflexivity | exact Hk].
Qed.

Lemma get_Ret {A} (f : node -> A) (h : heap) a n :
  h !! a = Some n -> get f (Some a) h = Ret (f n, h).
Proof. unfold get, bind, load, ret. intros ->. reflexivity. Qed.

Lemma get_inv {A} (f : node -> A) (h : heap) p v h' :
  get f p h = Ret (v, h') ->
  exists a n, p = Some a /\ h !! a = Some n /\ v = f n /\ h' = h.
Proof.
  unfold get, bind, load, ret. destruct p as [a|]; [|discriminate].
  destruct (h !! a) as [n|] eqn:E; [|discriminate].
  intros [= <- <-]. exists a, n. auto.
Qed.

Lemma modify_Ret f (h : heap) a n :
  h !! a = Some n -> modify (Some a) f h = Ret (tt, <[a := f n]> h).
Proof. unfold modify. intros ->. reflexivity. Qed.

Lemma modify_inv f (h : heap) p u h' :
  modify p f h = Ret (u, h') ->
  exists a n, p = Some a /\ h !! a = Some n /\ h' = <[a := f n]> h.
Proof.
  unfold modify. destruct p as [a|]; [|discriminate].
  destruct (h !! a) as [n|] eqn:E; [|discriminate].
  intros [= <- <-]. exists a, n. auto.
Qed.

Lemma node_NodeType_Ret (h : heap) a n :
  h !! a = Some n ->
  node_NodeType (Some a) h
  = Ret (match value n with Some v => payload_nodeType v | None => NodeTypeNull end, h).
Proof.
  intros Hn. unfold node_NodeType. erewrite bind_Ret by (apply get_Ret; exact Hn).
  reflexivity.
Qed.

End Running.

Ltac lk :=
  repeat first
    [ rewrite list_lookup_insert_ne by congruence
    | rewrite list_lookup_insert_eq by (rewrite ?length_insert; eauto using lookup_lt_Some) ].

Ltac step_get := erewrite bind_Ret; [ | solve [ eapply get_Ret; lk; eauto ] ].
Ltac step_mod := erewrite bind_Ret; [ | solve [ eapply modify_Ret; lk; eauto ] ].
Ltac step := first [ step_get | step_mod ]; cbv beta.

(** ** C2: which kinds may be linked as parent and child *)

Definition kinds_permitted (parent child : NodeType) : Prop :=
  parent <> NodeTypeNull /\ child <> NodeTypeNull /\
  (parent = NodeTypeDocument \/ parent = NodeTypeElement) /\
  child <> NodeTypeDocument /\
  ((child = NodeTypeDocumentType \/ child = NodeTypeDeclaration) -> parent = NodeTypeDocument).

(** The error value of a rejection by kind. *)
Definition kind_error (parent child : NodeType) : error :=
  ErrWrap ErrHierarchyRequest
    ("parent node type " ++ NodeType_String parent ++ " may not have a "
       ++ NodeType_String child ++ " child").

(** An operation is rejected by kind when it answers the wrapped
    HierarchyError and hands the store back as it was. *)
Definition kind_rejected (op : M (option error)) (h : heap) (parent child : NodeType) : Prop :=
  op h = Ret (Some (kind_error parent child), h).

Lemma allowInsertChild_permitted parent child :
  allowInsertChild parent child = true <-> kinds_permitted parent child.
Proof.
  unfold kinds_permitted.
  destruct parent, child;
    (split;
     [ intros H; vm_compute in H; try discriminate H; intuition congruence
     | intros H; try reflexivity; exfalso; intuition congruence ]).
Qed.

Lemma allowInsertChildErr_None parent child :
  allowInsertChild parent child = true -> allowInsertChildErr parent child = None.
Proof. unfold allowInsertChildErr. intros ->. reflexivity. Qed.

Lemma allowInsertChildErr_Some parent child :
  allowInsertChild parent child = false ->
  allowInsertChildErr parent child = Some (kind_error parent child).
Proof. unfold allowInsertChildErr. intros ->. reflexivity. Qed.

Lemma run_then_None_not_error {A} (m : M A) (h : heap) e h' :
  (run m; ret (@None error)) h <> Ret (Some e, h').
Proof. unfold bind, ret. destruct (m h) as [[a h1]| |]; congruence. Qed.

(** C2. For a parent of kind [pk] and a child of kind [ck], the structural
    validity function answers true exactly for the permitted pairs of kinds
    (neither is null, the parent is a Document or an Element, the child is
    not a Document, and a DocumentType or Declaration child has a Document
    parent), and each of AppendChild, PrependChild, InsertChildAfter and
    InsertChildBefore is rejected by kind, with the wrapped HierarchyError,
    exactly when the pair is not permitted. *)
Theorem child_insertion_validity (h : heap) (n child ref : ptr) (pk ck : NodeType) :
  node_NodeType n h = Ret (pk, h) ->
  node_NodeType child h = Ret (ck, h) ->
  (allowInsertChild pk ck = true <-> kinds_permitted pk ck) /\
  Cause (kind_error pk ck) = ErrHierarchyRequest /\
  (kind_rejected (node_AppendChild n child) h pk ck <-> ~ kinds_permitted pk ck) /\
  (kind_rejected (node_PrependChild n child) h pk ck <-> ~ kinds_permitted pk ck) /\
  (kind_rejected (node_InsertChildAfter n child ref) h pk ck <-> ~ kinds_permitted pk ck) /\
  (kind_rejected (node_InsertChildBefore n child ref) h pk ck <-> ~ kinds_permitted pk ck).
Proof.
  intros Hn Hc.
  split; [apply allowInsertChild_permitted|].
  split; [reflexivity|].
  rewrite <- allowInsertChild_permitted.
  unfold kind_rejected, node_AppendChild, node_PrependChild, node_InsertChildAfter,
    node_InsertChildBefore.
  rewrite !(bind_Ret _ _ _ _ _ Hn), !(bind_Ret _ _ _ _ _ Hc).
  destruct (allowInsertChild pk ck) eqn:Hallow.
  - rewrite (allowInsertChildErr_None _ _ Hallow).
    repeat split; intros H; try congruence; exfalso.
    + eapply run_then_None_not_error; exact H.
    + eapply run_then_None_not_error; exact H.
    + destruct ref as [r|]; [|eapply run_then_None_not_error; exact H].
      unfold bind at 1 in H. destruct (node_Parent (Some r) h) as [[ap h1]| |]; try discriminate.
      destruct (bool_decide (ap <> n)); [discriminate|].
      eapply run_then_None_not_error; exact H.
    + destruct ref as [r|]; [|eapply run_then_None_not_error; exact H].
      unfold bind at 1 in H. destruct (node_Parent (Some r) h) as [[ap h1]| |]; try discriminate.
      destruct (bool_decide (ap <> n)); [discriminate|].
      eapply run_then_None_not_error; exact H.
  - rewrite (allowInsertChildErr_Some _ _ Hallow).
    repeat split; intros; try reflexivity; congruence.
Qed.

(** C2, at a concrete store: an Element may not be appended to a Text. *)
Lemma child_insertion_validity_witness :
  let h := [mkNode None None None None None (Some (VText []));
            mkNode None None None None None (Some (VElement (mkName "" "e") ""))] in
  kind_rejected (node_AppendChild (Some 0) (Some 1)) h NodeTypeText NodeTypeElement
  <-> ~ kinds_permitted NodeTypeText NodeTypeElement.
Proof.
  intros h.
  exact (proj1 (proj2 (proj2
    (child_insertion_validity h (Some 0) (Some 1) None NodeTypeText NodeTypeElement
       eq_refl eq_refl)))).
Defined.

(** ** C5: a rejected insertion changes nothing *)

(** C5. When the kinds of parent and child are not permitted, each of the
    four child mutation operations answers an error whose cause is
    HierarchyError and returns the store exactly as it was, so every parent,
    firstChild, nextSibling and prevSibling link is unchanged; the same holds
    when the reference node of InsertChildAfter or InsertChildBefore is not
    a child of the node being mutated. *)
Theorem invalid_insertion_is_noop (h : heap) (n child ref : ptr) (pk ck : NodeType) :
  node_NodeType n h = Ret (pk, h) ->
  node_NodeType child h = Ret (ck, h) ->
  (allowInsertChild pk ck = false ->
   forall op, In op [node_AppendChild n child; node_PrependChild n child;
                     node_InsertChildAfter n child ref; node_InsertChildBefore n child ref] ->
     exists e, op h = Ret (Some e, h) /\ Cause e = ErrHierarchyRequest) /\
  (allowInsertChild pk ck = true ->
   forall r rp, ref = Some r -> node_Parent ref h = Ret (rp, h) -> rp <> n ->
     node_InsertChildAfter n child ref h = Ret (Some ErrHierarchyRequest, h) /\
     node_InsertChildBefore n child ref h = Ret (Some ErrHierarchyRequest, h)).
Proof.
  intros Hn Hc. split.
  - intros Hallow op Hop. exists (kind_error pk ck). split; [|reflexivity].
    simpl in Hop.
    destruct Hop as [<-|[<-|[<-|[<-|[]]]]];
      unfold node_AppendChild, node_PrependChild, node_InsertChildAfter,
        node_InsertChildBefore;
      rewrite (bind_Ret _ _ _ _ _ Hn), (bind_Ret _ _ _ _ _ Hc);
      rewrite (allowInsertChildErr_Some _ _ Hallow); reflexivity.
  - intros Hallow r rp -> Hrp Hne.
    unfold node_InsertChildAfter, node_InsertChildBefore.
    rewrite !(bind_Ret _ _ _ _ _ Hn), !(bind_Ret _ _ _ _ _ Hc).
    rewrite (allowInsertChildErr_None _ _ Hallow).
    rewrite !(bind_Ret _ _ _ _ _ Hrp).
    rewrite bool_decide_true by exact Hne. split; reflexivity.
Qed.

(** C5, at the example of the specification: appending an Element to a
    Text node. *)
Lemma invalid_insertion_is_noop_witness :
  let h := [mkNode None None None None None (Some (VText []));
            mkNode None None None None None (Some (VElement (mkName "" "e") ""))] in
  exists e, node_AppendChild (Some 0) (Some 1) h = Ret (Some e, h)
            /\ Cause e = ErrHierarchyRequest.
Proof.
  intros h.
  exact (proj1 (invalid_insertion_is_noop h (Some 0) (Some 1) None
                  NodeTypeText NodeTypeElement eq_refl eq_refl)
           eq_refl (node_AppendChild (Some 0) (Some 1)) (or_introl eq_refl)).
Defined.

(** ** C6: bounds of the CharacterData operations *)

(** The number of runes of well-formed UTF-8: the bytes that are not
    continuation bytes ([10xxxxxx]). *)
Definition is_continuation (b : byte) : bool :=
  (N.land (Byte.to_N b) 192 =? 128)%N.

Definition runeCount (s : list byte) : Z :=
  len (filter (fun b => negb (is_continuation b)) s).

(** U+00E9, LATIN SMALL LETTER E WITH ACUTE, in UTF-8. *)
Definition e_acute : list byte := [xc3; xa9].

Lemma text_InsertData_bounds (t : list byte) (offset : Z) (arg : string) :
  (text_InsertData t offset arg = Ret (Some ErrIndexSize, t)
   <-> ~ (0 <= offset < len t)%Z) /\
  ((0 <= offset < len t)%Z ->
   text_InsertData t offset arg
   = Ret (None, take (Z.to_nat offset) t ++ bytes_of arg ++ drop (Z.to_nat offset) t)).
Proof.
  unfold text_InsertData, slice_to, slice_from.
  destruct (0 <=? offset)%Z eqn:E1; destruct (offset <? len t)%Z eqn:E2; simpl;
    try (split; [split; [intros _; lia | reflexivity] | intros; lia]).
  assert ((offset <=? len t)%Z = true) as -> by lia. simpl.
  split; [split; [discriminate | intros; lia] | reflexivity].
Qed.

Lemma wrap64_small (z : Z) : (- (2 ^ 63) <= z < 2 ^ 63)%Z -> wrap64 z = z.
Proof.
  intros Hz. unfold wrap64.
  rewrite Z.mod_small by lia. lia.
Qed.

(** In bytes, and as long as [offset+count] does not overflow, the bounds
    are the ones the specification gives. *)
Lemma text_DeleteData_bytes (t : list byte) (offset count : Z) :
  (- (2 ^ 63) <= offset + count < 2 ^ 63)%Z ->
  (offset + count > len t)%Z ->
  text_DeleteData t offset count = Ret (Some ErrIndexSize, t).
Proof.
  intros Hw Hgt. unfold text_DeleteData, add_int. rewrite wrap64_small by exact Hw.
  assert ((offset + count >? len t)%Z = true) as -> by lia.
  rewrite orb_true_r. reflexivity.
Qed.

Lemma text_ReplaceData_bytes (t : list byte) (offset count : Z) (arg : string) :
  (- (2 ^ 63) <= offset + count < 2 ^ 63)%Z ->
  (offset + count > len t \/ len (bytes_of arg) < count)%Z ->
  text_ReplaceData t offset count arg = Ret (Some ErrIndexSize, t).
Proof.
  intros Hw Hgt. unfold text_ReplaceData, add_int. rewrite wrap64_small by exact Hw.
  destruct Hgt as [Hgt|Hgt].
  - assert ((offset + count >? len t)%Z = true) as -> by lia.
    rewrite orb_true_r. reflexivity.
  - assert ((len (bytes_of arg) <? count)%Z = true) as -> by lia.
    rewrite orb_true_r. reflexivity.
Qed.

(** The two examples of the specification, on a Text node holding "abc". *)
Lemma CharData_bounds_examples :
  exists t h,
    CreateText (bytes_of "abc") [] = Ret (t, h) /\
    DeleteData t 5 3 h = Ret (Some ErrIndexSize, h) /\
    ReplaceData t 0 3 "ab" h = Ret (Some ErrIndexSize, h) /\
    node_Value t h = Ret ("abc", h).
Proof. do 2 eexists. repeat split. Qed.

(** C6, where the code departs from it: on the Text node holding the one
    rune U+00E9 (two bytes), [DeleteData(0, 2)] has [offset+count = 2]
    beyond the length in runes, [1], yet it returns no error and empties
    the data; and [ReplaceData(0, 2, s)] with the one-rune replacement
    U+00E9 on "abc" returns no error although the replacement is shorter
    than two runes.  The bounds are taken in bytes. *)
Theorem CharData_bounds_count_bytes :
  runeCount e_acute = 1%Z /\
  (exists t h h',
     CreateText e_acute [] = Ret (t, h) /\
     DeleteData t 0 2 h = Ret (None, h') /\
     node_Value t h' = Ret (EmptyString, h')) /\
  (exists t h h',
     CreateText (bytes_of "abc") [] = Ret (t, h) /\
     runeCount (bytes_of (string_of e_acute)) = 1%Z /\
     ReplaceData t 0 2 (string_of e_acute) h = Ret (None, h') /\
     node_Value t h' = Ret (string_of (e_acute ++ bytes_of "c"), h')).
Proof.
  split; [reflexivity|]. split; do 3 eexists; repeat split.
Qed.

(** ** Sibling lists

    [chain own h first ks] says that the nodes at the addresses [ks], in
    this order, form one sibling list of the store [h] that starts at
    [first]: [nextSib] leads from each node to the following one and is nil
    at the tail, [prevSib] leads to the preceding one and from the head to
    the tail, and every node satisfies [own]. *)

Definition chain (own : node -> Prop) (h : heap) (first : ptr) (ks : list nat) : Prop :=
  NoDup ks /\ first = head ks /\
  forall i k, ks !! i = Some k ->
    exists n, h !! k = Some n /\ own n /\ nextSib n = ks !! (S i) /\
              prevSib n = match i with O => last ks | S j => ks !! j end.

(** The child list of the node at [p] is [ks], and every child names [p]
    as its parent. *)
Definition children (h : heap) (p : nat) (ks : list nat) : Prop :=
  exists pn, h !! p = Some pn /\ chain (fun n => parent n = Some p) h (firstChild pn) ks.

Lemma chain_allocated own (h : heap) first ks k :
  chain own h first ks -> k ∈ ks -> k < length h.
Proof.
  intros (_ & _ & Hks) Hin. apply list_elem_of_lookup in Hin as [i Hi].
  destruct (Hks i k Hi) as (n & Hn & _). eapply lookup_lt_Some; eauto.
Qed.

(** Allocation leaves the sibling lists of the store alone. *)
Lemma chain_alloc own (h : heap) first ks l :
  chain own h first ks -> chain own (h ++ l) first ks.
Proof.
  intros (Hnd & Hfirst & Hks). split; [done|]. split; [done|].
  intros i k Hik. destruct (Hks i k Hik) as (n & Hn & Hrest).
  exists n. split; [|exact Hrest]. apply lookup_app_l_Some. exact Hn.
Qed.

Lemma children_alloc (h : heap) p ks l :
  children h p ks -> children (h ++ l) p ks.
Proof.
  intros (pn & Hp & Hc). exists pn. split; [by apply lookup_app_l_Some|].
  by apply chain_alloc.
Qed.

(** A sibling list survives every change of the store that keeps the
    [nextSib] and [prevSib] links of its members. *)
Lemma chain_frame own own' (h h' : heap) first ks :
  chain own h first ks ->
  (forall k n, k ∈ ks -> h !! k = Some n -> own n ->
     exists n', h' !! k = Some n' /\ own' n' /\ nextSib n' = nextSib n
                /\ prevSib n' = prevSib n) ->
  chain own' h' first ks.
Proof.
  intros (Hnd & Hfirst & Hks) Hsame. split; [done|]. split; [done|].
  intros i k Hik. destruct (Hks i k Hik) as (n & Hn & Hown & Hnx & Hpv).
  destruct (Hsame k n) as (n' & Hn' & Hown' & Hnx' & Hpv'); [|done|done|].
  { eapply list_elem_of_lookup_2; eauto. }
  exists n'. rewrite Hnx', Hpv'. done.
Qed.

(** [appendNode] on a well-formed child list: a node that is not yet in the
    list and has no next sibling becomes the new tail; the other links, the
    payloads and the attribute lists of the store are untouched. *)
Lemma appendNode_children h p ks c cn :
  children h p ks -> h !! c = Some cn -> nextSib cn = None -> c ∉ ks -> c <> p ->
  exists h', appendNode (Some c) (Some p) h = Ret (tt, h') /\
             children h' p (ks ++ [c]) /\
             length h' = length h /\
             (forall a, a <> p -> a <> c -> a ∉ ks -> h' !! a = h !! a) /\
             (forall a n, h !! a = Some n ->
                exists n', h' !! a = Some n' /\ value n' = value n /\ firstAttr n' = firstAttr n /\
                  (a <> p -> firstChild n' = firstChild n) /\
                  (a <> c -> parent n' = parent n) /\
                  (a <> c -> a ∉ ks -> nextSib n' = nextSib n /\ prevSib n' = prevSib n)).
Proof.
  intros (pn & Hp & Hnd & Hfirst & Hks) Hc Hnext Hnotin Hcp.
  destruct (head ks) as [hd|] eqn:Hhead.
  2:{ apply head_None in Hhead. subst ks.
    unfold appendNode, set_parent, set_nextSib, set_prevSib, set_firstChild.
    eexists. split. 
    { step. step. simpl. rewrite Hfirst. step. eapply modify_Ret. lk. reflexivity. }
    split; [|split; [by rewrite !length_insert|split; [intros a ? ? ?; by lk|]]].
    - eexists. split. { lk. reflexivity. }
      simpl. split; [apply NoDup_singleton|]. split; [reflexivity|].
      intros i k Hik. destruct i; simpl in Hik; [|done]. simplify_eq.
      eexists. split; [lk; reflexivity|]. simpl. done.
    - intros a n Ha.
      destruct (decide (a = c)) as [->|Hac]; [|destruct (decide (a = p)) as [->|Hap]];
        simplify_eq; (eexists; split; [lk; first [reflexivity|eassumption]|]); simpl;
        repeat split; intros; congruence. }
  assert (Hhd0 : ks !! 0 = Some hd) by (by rewrite <- head_lookup).
  destruct (Hks 0 hd Hhd0) as (hn & Hhd & Hown & Hhn & Hhp).
  assert (Hhdin : hd ∈ ks) by (eapply list_elem_of_lookup_2; eauto).
  assert (Hhdc : hd <> c) by (intros ->; done).
  assert (Hlast : exists tl, last ks = Some tl).
  { destruct (last ks) eqn:E; eauto. apply last_None in E. subst. done. }
  destruct Hlast as [tl Htl]. rewrite Htl in Hhp.
  assert (Htlin : tl ∈ ks) by (by apply last_Some_elem_of).
  assert (Htlc : tl <> c) by (intros ->; done).
  pose proof Htl as Htl'. rewrite last_lookup in Htl'. 
  destruct (Hks _ _ Htl') as (tn & Htn & Htown & Htnext & Htprev).
  assert (Hlen : 0 < length ks) by (eapply lookup_lt_Some; eauto).
  assert (Hrun : exists hn', (if decide (hd = tl) then hn' = with_nextSib (Some c) tn else hn' = hn) /\
     appendNode (Some c) (Some p) h = Ret (tt,
       <[hd := with_prevSib (Some c) hn']>
         (<[c := with_prevSib (Some tl) (with_parent (Some p) cn)]>
            (<[tl := with_nextSib (Some c) tn]> (<[c := with_parent (Some p) cn]> h))))).
  { unfold appendNode, set_parent, set_nextSib, set_prevSib, set_firstChild.
    destruct (decide (hd = tl)) as [->|Hne]; eexists; (split; [reflexivity|]).
    - assert (hn = tn) by congruence. subst hn.
      step. step. simpl. rewrite Hfirst. step. simpl. rewrite Hhp. step. step.
      eapply modify_Ret. lk. reflexivity.
    - step. step. simpl. rewrite Hfirst. step. simpl. rewrite Hhp. step. step.
      eapply modify_Ret. lk. eauto. }
  destruct Hrun as (hn' & Hhn' & Hrun).
  eexists. split; [exact Hrun|]. clear Hrun.
  split; [|split; [by rewrite !length_insert|split]].
  2:{ intros a ? ? Hn.
      assert (a <> hd) by (intros ->; done). assert (a <> tl) by (intros ->; done). by lk. }
  2:{ intros a n Ha.
      assert (Hhn'' : value hn' = value hn /\ firstAttr hn' = firstAttr hn /\
                      firstChild hn' = firstChild hn /\ parent hn' = parent hn).
      { destruct (decide (hd = tl)); subst hn'; simpl; [|done].
        assert (hn = tn) by congruence. subst. done. }
      destruct Hhn'' as (Hv & Hfa & Hfc & Hpa).
      destruct (decide (a = hd)) as [->|Hah].
      { eexists; split; [lk; reflexivity|]. simpl. rewrite Hv, Hfa, Hfc, Hpa.
        assert (n = hn) by congruence. subst n. repeat split; intros; done. }
      destruct (decide (a = c)) as [->|Hac].
      { eexists; split; [lk; reflexivity|]. simpl.
        assert (n = cn) by congruence. subst n. repeat split; intros; done. }
      destruct (decide (a = tl)) as [->|Hat].
      { eexists; split; [lk; reflexivity|]. simpl.
        assert (n = tn) by congruence. subst n. repeat split; intros; done. }
      eexists; split; [lk; eassumption|]. repeat split; intros; done. }
  match goal with |- children ?X _ _ => set (h' := X) end.
  assert (Hp' : exists pn', h' !! p = Some pn' /\ firstChild pn' = Some hd).
  { subst h'. destruct (decide (hd = p)) as [Hhp'|Hhp'].
    - eexists. split; [subst p; lk; reflexivity|]. simpl.
      destruct (decide (hd = tl)); subst hn'; simpl; congruence.
    - destruct (decide (tl = p)) as [Htp|Htp].
      + eexists. split; [subst p; lk; reflexivity|]. simpl. congruence.
      + eexists. split; [lk; exact Hp|]. congruence. }
  destruct Hp' as (pn' & Hpn' & Hfc'). subst h'.
  exists pn'. split; [exact Hpn'|].
  split.
  { apply NoDup_app. split; [done|]. split; [|apply NoDup_singleton].
    intros x Hx Hx'. apply list_elem_of_singleton in Hx'. by subst. }
  split. { rewrite Hfc'. destruct ks; simpl in *; congruence. }
  clear pn' Hpn' Hfc'.
  intros i k Hik.
  rewrite last_snoc.
  apply lookup_app_Some in Hik as [Hik|[Hge Hik]].
  + assert (Hkc : k <> c). { intros ->. apply Hnotin. eapply list_elem_of_lookup_2; eauto. }
    destruct (Hks i k Hik) as (kn & Hkn & Hkown & Hknext & Hkprev).
    pose proof (lookup_lt_Some _ _ _ Hik) as Hilt.
    assert (Hnexti : (ks ++ [c]) !! S i = if decide (k = tl) then Some c else nextSib kn).
    { destruct (decide (k = tl)) as [->|Hne].
      - assert (i = Init.Nat.pred (length ks)) as -> by (eapply NoDup_lookup; eauto).
        rewrite lookup_app_r by lia. replace (S (Init.Nat.pred (length ks)) - length ks) with 0 by lia. done.
      - destruct (decide (S i < length ks)).
        + rewrite lookup_app_l by done. done.
        + exfalso. apply Hne. assert (i = Init.Nat.pred (length ks)) by lia. subst i.
          congruence. }
    assert (Hprevi : match i with 0 => Some c | S j => (ks ++ [c]) !! j end
                     = if decide (k = hd) then Some c else prevSib kn).
    { destruct (decide (k = hd)) as [->|Hne].
      - assert (i = 0) as -> by (eapply NoDup_lookup; eauto). done.
      - destruct i as [|j]; [simpl in Hik; congruence|].
        rewrite lookup_app_l by lia. by rewrite Hkprev. }
    rewrite Hnexti, Hprevi.
    destruct (decide (k = hd)) as [Hkh|Hkh]; destruct (decide (hd = tl)) as [Hht|Hht].
    * subst k hn'. assert (kn = tn) by congruence. subst kn.
      eexists. split; [lk; reflexivity|]. simpl. rewrite decide_True by done. done.
    * subst k hn'. assert (kn = hn) by congruence. subst kn.
      eexists. split; [lk; reflexivity|]. simpl. rewrite decide_False by congruence. done.
    * eexists. split; [lk; eauto|]. simpl. rewrite decide_False by congruence. done.
    * destruct (decide (k = tl)) as [Hkt|Hkt].
      -- subst k. assert (kn = tn) by congruence. subst kn.
         eexists. split; [lk; reflexivity|]. simpl. done.
      -- eexists. split; [lk; eauto|]. done.
  + apply list_lookup_singleton_Some in Hik as [Hi ->].
    assert (i = length ks) as -> by lia.
    eexists. split; [lk; reflexivity|]. simpl.
    split; [done|]. split.
    * rewrite lookup_ge_None_2; [done|]. rewrite length_app. simpl. lia.
    * destruct (length ks) eqn:E; [lia|]. rewrite lookup_app_l by lia. rewrite <- Htl'. done.
Qed.

(** The attribute list of the node at [p] is [ks]. *)
Definition attributes (h : heap) (p : nat) (ks : list nat) : Prop :=
  exists pn, h !! p = Some pn /\ chain (fun _ => True) h (firstAttr pn) ks.

Lemma attributes_alloc (h : heap) p ks l :
  attributes h p ks -> attributes (h ++ l) p ks.
Proof.
  intros (pn & Hp & Hc). exists pn. split; [by apply lookup_app_l_Some|].
  by apply chain_alloc.
Qed.

(** [appendAttribute] on a well-formed attribute list. *)
Lemma appendAttribute_attributes h p ks c cn :
  attributes h p ks -> h !! c = Some cn -> nextSib cn = None -> c ∉ ks -> c <> p ->
  exists h', appendAttribute (Some c) (Some p) h = Ret (tt, h') /\
             attributes h' p (ks ++ [c]) /\
             length h' = length h /\
             (forall a, a <> p -> a <> c -> a ∉ ks -> h' !! a = h !! a) /\
             (forall a n, h !! a = Some n ->
                exists n', h' !! a = Some n' /\ value n' = value n /\
                  firstChild n' = firstChild n /\ parent n' = parent n /\
                  (a <> p -> firstAttr n' = firstAttr n) /\
                  (a <> c -> a ∉ ks -> nextSib n' = nextSib n /\ prevSib n' = prevSib n)).
Proof.
  intros (pn & Hp & Hnd & Hfirst & Hks) Hc Hnext Hnotin Hcp.
  destruct (head ks) as [hd|] eqn:Hhead.
  2:{ apply head_None in Hhead. subst ks.
    unfold appendAttribute, set_nextSib, set_prevSib, set_firstAttr.
    eexists. split. 
    { step. rewrite Hfirst. cbv iota. step. eapply modify_Ret. lk. eauto. }
    split; [|split; [by rewrite !length_insert|split; [intros a ? ? ?; by lk|]]].
    - eexists. split. { lk. reflexivity. }
      simpl. split; [apply NoDup_singleton|]. split; [reflexivity|].
      intros i k Hik. destruct i; simpl in Hik; [|done]. simplify_eq.
      eexists. split; [lk; reflexivity|]. simpl. done.
    - intros a n Ha.
      destruct (decide (a = c)) as [->|Hac]; [|destruct (decide (a = p)) as [->|Hap]];
        simplify_eq; (eexists; split; [lk; first [reflexivity|eassumption]|]); simpl;
        repeat split; intros; congruence. }
  assert (Hhd0 : ks !! 0 = Some hd) by (by rewrite <- head_lookup).
  destruct (Hks 0 hd Hhd0) as (hn & Hhd & Hown & Hhn & Hhp).
  assert (Hhdin : hd ∈ ks) by (eapply list_elem_of_lookup_2; eauto).
  assert (Hhdc : hd <> c) by (intros ->; done).
  assert (Hlast : exists tl, last ks = Some tl).
  { destruct (last ks) eqn:E; eauto. apply last_None in E. subst. done. }
  destruct Hlast as [tl Htl]. rewrite Htl in Hhp.
  assert (Htlin : tl ∈ ks) by (by apply last_Some_elem_of).
  assert (Htlc : tl <> c) by (intros ->; done).
  pose proof Htl as Htl'. rewrite last_lookup in Htl'. 
  destruct (Hks _ _ Htl') as (tn & Htn & Htown & Htnext & Htprev).
  assert (Hlen : 0 < length ks) by (eapply lookup_lt_Some; eauto).
  assert (Hrun : exists hn', (if decide (hd = tl) then hn' = with_nextSib (Some c) tn else hn' = hn) /\
     appendAttribute (Some c) (Some p) h = Ret (tt,
       <[hd := with_prevSib (Some c) hn']>
         (<[c := with_prevSib (Some tl) cn]>
            (<[tl := with_nextSib (Some c) tn]> h)))).
  { unfold appendAttribute, set_nextSib, set_prevSib, set_firstAttr.
    destruct (decide (hd = tl)) as [->|Hne]; eexists; (split; [reflexivity|]).
    - assert (hn = tn) by congruence. subst hn.
      step. rewrite Hfirst. cbv iota. step. rewrite Hhp. step. step.
      eapply modify_Ret. lk. reflexivity.
    - step. rewrite Hfirst. cbv iota. step. rewrite Hhp. step. step.
      eapply modify_Ret. lk. eauto. }
  destruct Hrun as (hn' & Hhn' & Hrun).
  eexists. split; [exact Hrun|]. clear Hrun.
  split; [|split; [by rewrite !length_insert|split]].
  2:{ intros a ? ? Hn.
      assert (a <> hd) by (intros ->; done). assert (a <> tl) by (intros ->; done). by lk. }
  2:{ intros a n Ha.
      assert (Hhn'' : value hn' = value hn /\ firstAttr hn' = firstAttr hn /\
                      firstChild hn' = firstChild hn /\ parent hn' = parent hn).
      { destruct (decide (hd = tl)); subst hn'; simpl; [|done].
        assert (hn = tn) by congruence. subst. done. }
      destruct Hhn'' as (Hv & Hfa & Hfc & Hpa).
      destruct (decide (a = hd)) as [->|Hah].
      { eexists; split; [lk; reflexivity|]. simpl. rewrite Hv, Hfa, Hfc, Hpa.
        assert (n = hn) by congruence. subst n. repeat split; intros; done. }
      destruct (decide (a = c)) as [->|Hac].
      { eexists; split; [lk; reflexivity|]. simpl.
        assert (n = cn) by congruence. subst n. repeat split; intros; done. }
      destruct (decide (a = tl)) as [->|Hat].
      { eexists; split; [lk; reflexivity|]. simpl.
        assert (n = tn) by congruence. subst n. repeat split; intros; done. }
      eexists; split; [lk; eassumption|]. repeat split; intros; done. }
  match goal with |- attributes ?X _ _ => set (h' := X) end.
  assert (Hp' : exists pn', h' !! p = Some pn' /\ firstAttr pn' = Some hd).
  { subst h'. destruct (decide (hd = p)) as [Hhp'|Hhp'].
    - eexists. split; [subst p; lk; reflexivity|]. simpl.
      destruct (decide (hd = tl)); subst hn'; simpl; congruence.
    - destruct (decide (tl = p)) as [Htp|Htp].
      + eexists. split; [subst p; lk; reflexivity|]. simpl. congruence.
      + eexists. split; [lk; exact Hp|]. congruence. }
  destruct Hp' as (pn' & Hpn' & Hfc'). subst h'.
  exists pn'. split; [exact Hpn'|].
  split.
  { apply NoDup_app. split; [done|]. split; [|apply NoDup_singleton].
    intros x Hx Hx'. apply list_elem_of_singleton in Hx'. by subst. }
  split. { rewrite Hfc'. destruct ks; simpl in *; congruence. }
  clear pn' Hpn' Hfc'.
  intros i k Hik.
  rewrite last_snoc.
  apply lookup_app_Some in Hik as [Hik|[Hge Hik]].
  + assert (Hkc : k <> c). { intros ->. apply Hnotin. eapply list_elem_of_lookup_2; eauto. }
    destruct (Hks i k Hik) as (kn & Hkn & Hkown & Hknext & Hkprev).
    pose proof (lookup_lt_Some _ _ _ Hik) as Hilt.
    assert (Hnexti : (ks ++ [c]) !! S i = if decide (k = tl) then Some c else nextSib kn).
    { destruct (decide (k = tl)) as [->|Hne].
      - assert (i = Init.Nat.pred (length ks)) as -> by (eapply NoDup_lookup; eauto).
        rewrite lookup_app_r by lia. replace (S (Init.Nat.pred (length ks)) - length ks) with 0 by lia. done.
      - destruct (decide (S i < length ks)).
        + rewrite lookup_app_l by done. done.
        + exfalso. apply Hne. assert (i = Init.Nat.pred (length ks)) by lia. subst i.
          congruence. }
    assert (Hprevi : match i with 0 => Some c | S j => (ks ++ [c]) !! j end
                     = if decide (k = hd) then Some c else prevSib kn).
    { destruct (decide (k = hd)) as [->|Hne].
      - assert (i = 0) as -> by (eapply NoDup_lookup; eauto). done.
      - destruct i as [|j]; [simpl in Hik; congruence|].
        rewrite lookup_app_l by lia. by rewrite Hkprev. }
    rewrite Hnexti, Hprevi.
    destruct (decide (k = hd)) as [Hkh|Hkh]; destruct (decide (hd = tl)) as [Hht|Hht].
    * subst k hn'. assert (kn = tn) by congruence. subst kn.
      eexists. split; [lk; reflexivity|]. simpl. rewrite decide_True by done. done.
    * subst k hn'. assert (kn = hn) by congruence. subst kn.
      eexists. split; [lk; reflexivity|]. simpl. rewrite decide_False by congruence. done.
    * eexists. split; [lk; eauto|]. simpl. rewrite decide_False by congruence. done.
    * destruct (decide (k = tl)) as [Hkt|Hkt].
      -- subst k. assert (kn = tn) by congruence. subst kn.
         eexists. split; [lk; reflexivity|]. simpl. done.
      -- eexists. split; [lk; eauto|]. done.
  + apply list_lookup_singleton_Some in Hik as [Hi ->].
    assert (i = length ks) as -> by lia.
    eexists. split; [lk; reflexivity|]. simpl.
    split; [done|]. split.
    * rewrite lookup_ge_None_2; [done|]. rewrite length_app. simpl. lia.
    * destruct (length ks) eqn:E; [lia|]. rewrite lookup_app_l by lia. rewrite <- Htl'. done.
Qed.

(** The loop [appendAttributes] allocates one attribute node per entry, at
    consecutive addresses, and links them behind the attributes already
    there. *)
Lemma appendAttributes_spec (attrs : list Attr) :
  forall (g : heap) p ks,
    attributes g p ks -> p ∉ ks ->
    exists g', appendAttributes attrs (Some p) g = Ret (tt, g') /\
      length g' = length g + length attrs /\
      attributes g' p (ks ++ seq (length g) (length attrs)) /\
      (forall i a, attrs !! i = Some a ->
         exists n, g' !! (length g + i) = Some n /\ value n = Some (VAttribute a)) /\
      (forall a, a < length g -> a <> p -> a ∉ ks -> g' !! a = g !! a) /\
      (forall a n, g !! a = Some n ->
         exists n', g' !! a = Some n' /\ value n' = value n /\
           firstChild n' = firstChild n /\ parent n' = parent n /\
           (a <> p -> firstAttr n' = firstAttr n) /\
           (a ∉ ks -> nextSib n' = nextSib n /\ prevSib n' = prevSib n)).
Proof.
  induction attrs as [|a rest IH]; intros g p ks Hat Hp.
  - exists g. simpl. rewrite Nat.add_0_r, app_nil_r.
    split; [reflexivity|]. split; [reflexivity|]. split; [exact Hat|].
    split; [intros i a Hi; discriminate Hi|]. split; [reflexivity|].
    intros a n Ha. exists n. repeat split; done.
  - set (fresh := mkNode None None None None None (Some (VAttribute a))).
    set (g1 := g ++ [fresh]).
    assert (Hplt : p < length g).
    { destruct Hat as (pn & Hpn & _). eapply lookup_lt_Some; eauto. }
    assert (Hkslt : forall k, k ∈ ks -> k < length g).
    { intros k Hk. destruct Hat as (pn & _ & Hc). eapply chain_allocated; eauto. }
    assert (Hfresh : g1 !! length g = Some fresh).
    { subst g1. rewrite lookup_app_r by lia. by rewrite Nat.sub_diag. }
    assert (Hnotin : length g ∉ ks) by (intros Hin; apply Hkslt in Hin; lia).
    destruct (appendAttribute_attributes g1 p ks (length g) fresh)
      as (g2 & Hrun & Hat2 & Hlen2 & Hsame2 & Hframe2);
      [by apply attributes_alloc | done | done | done | lia |].
    assert (Hlen2' : length g2 = S (length g)).
    { rewrite Hlen2. subst g1. rewrite length_app. simpl. lia. }
    destruct (IH g2 p (ks ++ [length g])) as (g' & Hrun' & Hlen' & Hat' & Hpay' & Hsame' & Hframe').
    { exact Hat2. }
    { intros Hin. apply elem_of_app in Hin as [Hin|Hin]; [done|].
      apply list_elem_of_singleton in Hin. lia. }
    exists g'. split.
    { simpl. unfold newAttribute, new_node, alloc. unfold bind at 1.
      fold fresh. fold g1. erewrite bind_Ret by exact Hrun. exact Hrun'. }
    split; [rewrite Hlen', Hlen2'; simpl; lia|].
    split.
    { rewrite Hlen2' in Hat'. rewrite <- app_assoc in Hat'. exact Hat'. }
    split.
    { intros i b Hi. destruct i as [|i]; simpl in Hi.
      - injection Hi as <-. rewrite Nat.add_0_r.
        destruct (Hframe2 _ _ Hfresh) as (n2 & Hn2 & Hv2 & _).
        destruct (Hframe' _ _ Hn2) as (n' & Hn' & Hv' & _).
        exists n'. split; [exact Hn'|]. rewrite Hv', Hv2. reflexivity.
      - destruct (Hpay' i b Hi) as (n & Hn & Hv). exists n.
        rewrite Hlen2' in Hn. replace (length g + S i) with (S (length g) + i) by lia. done. }
    split.
    { intros x Hx Hxp Hxks. rewrite Hsame'; [|lia|done|].
      - rewrite Hsame2; [|done|lia|done]. subst g1. by rewrite lookup_app_l.
      - intros Hin. apply elem_of_app in Hin as [Hin|Hin]; [done|].
        apply list_elem_of_singleton in Hin. lia. }
    intros x n Hx.
    assert (Hxlt : x < length g) by (eapply lookup_lt_Some; eauto).
    destruct (Hframe2 x n) as (n2 & Hn2 & Hv2 & Hfc2 & Hp2 & Hfa2 & Hsib2).
    { subst g1. by apply lookup_app_l_Some. }
    destruct (Hframe' x n2 Hn2) as (n' & Hn' & Hv' & Hfc' & Hp' & Hfa' & Hsib').
    exists n'. split; [exact Hn'|].
    split; [congruence|]. split; [congruence|]. split; [congruence|].
    split; [intros Hne; rewrite Hfa', Hfa2 by done; done|].
    intros Hxks.
    destruct Hsib2 as [Hn2x Hp2x]; [lia|done|].
    destruct Hsib' as [Hn'x Hp'x].
    { intros Hin. apply elem_of_app in Hin as [Hin|Hin]; [done|].
      apply list_elem_of_singleton in Hin. lia. }
    split; congruence.
Qed.

(** A node allocated together with its attributes, as [newStartElement]
    and [newDeclaration] do. *)
Definition new_with_attrs (v : payload) (attrs : list Attr) : M ptr :=
  do n <- new_node v; run appendAttributes attrs n; ret n.

Lemma new_with_attrs_spec (v : payload) (attrs : list Attr) (h : heap) :
  exists h' n,
    new_with_attrs v attrs h = Ret (Some (length h), h') /\
    length h' = S (length h) + length attrs /\
    (forall a, a < length h -> h' !! a = h !! a) /\
    h' !! length h = Some n /\
    value n = Some v /\ parent n = None /\ firstChild n = None /\
    nextSib n = None /\ prevSib n = None /\
    attributes h' (length h) (seq (S (length h)) (length attrs)) /\
    (forall i a, attrs !! i = Some a ->
       exists an, h' !! (S (length h) + i) = Some an /\ value an = Some (VAttribute a)).
Proof.
  set (fresh := mkNode None None None None None (Some v)).
  set (h1 := h ++ [fresh]).
  assert (Hfresh : h1 !! length h = Some fresh).
  { subst h1. rewrite lookup_app_r by lia. by rewrite Nat.sub_diag. }
  assert (Hlen1 : length h1 = S (length h)).
  { subst h1. rewrite length_app. simpl. lia. }
  destruct (appendAttributes_spec attrs h1 (length h) [])
    as (h' & Hrun & Hlen & Hat & Hpay & Hsame & Hframe).
  { exists fresh. split; [exact Hfresh|]. split; [apply NoDup_nil_2|].
    split; [reflexivity|]. intros i k Hik. destruct i; discriminate Hik. }
  { apply not_elem_of_nil. }
  destruct (Hframe _ _ Hfresh) as (n & Hn & Hv & Hfc & Hp & _ & Hsib).
  destruct Hsib as [Hnx Hpv]; [apply not_elem_of_nil|].
  exists h', n. split.
  { unfold new_with_attrs, new_node, alloc. unfold bind at 1. fold fresh. fold h1.
    erewrite bind_Ret by exact Hrun. reflexivity. }
  split; [rewrite Hlen, Hlen1; reflexivity|].
  split.
  { intros a Ha. rewrite Hsame; [|lia|lia|apply not_elem_of_nil].
    subst h1. by rewrite lookup_app_l. }
  split; [exact Hn|].
  split; [by rewrite Hv|]. split; [by rewrite Hp|]. split; [by rewrite Hfc|].
  split; [by rewrite Hnx|]. split; [by rewrite Hpv|].
  split; [rewrite Hlen1 in Hat; exact Hat|].
  intros i a Hi. rewrite Hlen1 in Hpay. exact (Hpay i a Hi).
Qed.


(** ** C7: what the Builder does with a CharData token *)

Section BuilderCharData.
Variable TrimSpace : list byte -> list byte.

(** The fate of the data of a CharData token in the words of the
    specification: [None] when it is dropped, otherwise the bytes of the
    Text node to append. *)
Definition empty {A} (l : list A) : bool :=
  match l with [] => true | _ => false end.

Definition CharData_kept (opts : bitflag) (cd : list byte) : option (list byte) :=
  let keepWS := Has opts parseWSPCData in
  if empty cd && negb keepWS then None
  else if Has opts parseTrimPCData then
    let stripped := TrimSpace cd in
    if empty stripped && negb keepWS then None else Some stripped
  else Some cd.

Lemma len_zero {A} (l : list A) : (len l =? 0)%Z = empty l.
Proof. destruct l; reflexivity. Qed.

Lemma len_pos {A} (l : list A) : (len l >? 0)%Z = negb (empty l).
Proof. destruct l; reflexivity. Qed.

(** Appending a freshly allocated Text node to the cursor. *)
Lemma append_new_text (h : heap) cur ct ks data :
  node_NodeType (Some cur) h = Ret (ct, h) ->
  allowInsertChild ct NodeTypeText = true ->
  children h cur ks ->
  exists h' tn,
    (do t <- newText data; node_AppendChild (Some cur) t) h = Ret (None, h') /\
    h' !! length h = Some tn /\
    value tn = Some (VText data) /\ parent tn = Some cur /\ firstChild tn = None /\
    children h' cur (ks ++ [length h]) /\
    length h' = S (length h) /\
    (forall a n, h !! a = Some n ->
       exists n', h' !! a = Some n' /\ value n' = value n /\ firstAttr n' = firstAttr n /\
                  parent n' = parent n /\ (a <> cur -> firstChild n' = firstChild n)).
Proof.
  intros Hct Hallow Hch.
  set (fresh := mkNode None None None None None (Some (VText data))).
  set (h1 := h ++ [fresh]).
  assert (Hcur : exists pn, h !! cur = Some pn) by (destruct Hch as (pn & ? & _); eauto).
  destruct Hcur as [pn Hpn].
  assert (Hlt : cur < length h) by (eapply lookup_lt_Some; eauto).
  assert (Hfresh : h1 !! length h = Some fresh).
  { subst h1. rewrite lookup_app_r by lia. by rewrite Nat.sub_diag. }
  assert (Hnotin : length h ∉ ks).
  { intros Hin. destruct Hch as (? & _ & Hc).
    pose proof (chain_allocated _ _ _ _ _ Hc Hin). lia. }
  destruct (appendNode_children h1 cur ks (length h) fresh)
    as (h' & Hrun & Hch' & Hlen & _ & Hframe);
    [by apply children_alloc | done | done | done | lia |].
  destruct (Hframe _ _ Hfresh) as (tn & Htn & Hv & _ & Hfc & _ & _).
  exists h', tn.
  split.
  { unfold newText, new_node, alloc, node_AppendChild. unfold bind at 1. fold fresh. fold h1.
    rewrite (node_NodeType_Ret h cur pn Hpn) in Hct. injection Hct as Hct.
    erewrite bind_Ret by (apply node_NodeType_Ret; subst h1; by apply lookup_app_l_Some).
    rewrite Hct.
    erewrite bind_Ret by (apply node_NodeType_Ret; exact Hfresh).
    change (value fresh) with (Some (VText data)). cbv beta iota.
    change (payload_nodeType (VText data)) with NodeTypeText.
    rewrite (allowInsertChildErr_None _ _ Hallow).
    erewrite bind_Ret by exact Hrun. reflexivity. }
  split; [exact Htn|]. split; [by rewrite Hv|].
  assert (Hpar : parent tn = Some cur).
  { destruct Hch' as (_ & _ & _ & _ & Hks').
    destruct (Hks' (length ks) (length h)) as (n & Hn & Hown & _).
    { rewrite lookup_app_r by lia. by rewrite Nat.sub_diag. }
    congruence. }
  split; [exact Hpar|]. split; [rewrite Hfc by lia; done|].
  split; [exact Hch'|].
  split; [rewrite Hlen; subst h1; rewrite length_app; simpl; lia|].
  intros a n Ha.
  assert (Halt : a < length h) by (eapply lookup_lt_Some; eauto).
  destruct (Hframe a n) as (n' & Hn' & Hv' & Hfa' & Hfc' & Hp' & _).
  { subst h1. by apply lookup_app_l_Some. }
  exists n'. split; [done|]. split; [done|]. split; [done|].
  split; [apply Hp'; lia|exact Hfc'].
Qed.

Lemma Builder_CharData_run (un : Builder) (cd : list byte) (h : heap) cur ct :
  Builder_Node un = Some cur ->
  node_NodeType (Some cur) h = Ret (ct, h) ->
  allowInsertChild ct NodeTypeText = true ->
  Builder_CharData TrimSpace un cd h =
  (if empty cd && negb (Has (Builder_opts un) parseWSPCData) then ret (None, un)
   else if negb (Has (Builder_opts un) parseTrimPCData) then
     do err <- (do t <- newText cd; node_AppendChild (Some cur) t); ret (err, un)
   else if Has (Builder_opts un) parseWSPCData || negb (empty (TrimSpace cd)) then
     do err <- (do t <- newText (TrimSpace cd); node_AppendChild (Some cur) t); ret (err, un)
   else ret (None, un)) h.
Proof.
  intros Hcur Hct Hallow.
  unfold Builder_CharData, cursor. rewrite Hcur.
  unfold bind at 1. unfold ret at 1.
  rewrite (bind_Ret _ _ _ _ _ Hct).
  rewrite (allowInsertChildErr_None _ _ Hallow).
  rewrite len_zero, len_pos.
  destruct (empty cd && negb (Has (Builder_opts un) parseWSPCData)); [reflexivity|].
  destruct (negb (Has (Builder_opts un) parseTrimPCData)).
  - unfold bind. destruct (newText cd h) as [[t h1]| |]; reflexivity.
  - destruct (Has (Builder_opts un) parseWSPCData || negb (empty (TrimSpace cd)));
      [|reflexivity].
    unfold bind. destruct (newText (TrimSpace cd) h) as [[t h1]| |]; reflexivity.
Qed.

(** C7. With the cursor on a node that may hold text and whose children are
    [ks]: a CharData token that the specification drops (empty data without
    the keep-whitespace flag; or, with the trim flag, data that strips to
    nothing without the keep-whitespace flag) leaves the store as it is;
    otherwise one Text node is allocated, it holds the stripped data when
    the trim flag is set and the data verbatim when it is not, and it is
    the new last child of the cursor.  The cursor does not move and no
    error is returned. *)
Theorem Builder_CharData_spec (un : Builder) (cd : list byte) (h : heap) cur ct ks :
  Builder_Node un = Some cur ->
  node_NodeType (Some cur) h = Ret (ct, h) ->
  allowInsertChild ct NodeTypeText = true ->
  children h cur ks ->
  match CharData_kept (Builder_opts un) cd with
  | None => Builder_CharData TrimSpace un cd h = Ret ((None, un), h)
  | Some data =>
      exists h' tn,
        Builder_CharData TrimSpace un cd h = Ret ((None, un), h') /\
        h' !! length h = Some tn /\
        value tn = Some (VText data) /\ parent tn = Some cur /\
        children h' cur (ks ++ [length h]) /\
        length h' = S (length h)
  end.
Proof.
  intros Hcur Hct Hallow Hch.
  rewrite (Builder_CharData_run un cd h cur ct Hcur Hct Hallow).
  unfold CharData_kept.
  destruct (empty cd && negb (Has (Builder_opts un) parseWSPCData)); [reflexivity|].
  destruct (Has (Builder_opts un) parseTrimPCData); cbn [negb]; cbv iota.
  - destruct (Has (Builder_opts un) parseWSPCData), (empty (TrimSpace cd));
      simpl; try reflexivity;
      destruct (append_new_text h cur ct ks (TrimSpace cd) Hct Hallow Hch)
        as (h' & tn & Hrun & Htn & Hv & Hp & _ & Hch' & Hlen & _);
      exists h', tn; (split; [|done]);
      rewrite (bind_Ret _ _ _ _ _ Hrun); reflexivity.
  - destruct (append_new_text h cur ct ks cd Hct Hallow Hch)
      as (h' & tn & Hrun & Htn & Hv & Hp & _ & Hch' & Hlen & _).
    exists h', tn. split; [|done].
    rewrite (bind_Ret _ _ _ _ _ Hrun). reflexivity.
Qed.

End BuilderCharData.

(** C7, at a concrete store: a document with the trim flag set receives
    the data " a " and gets the Text child "a". *)
Lemma Builder_CharData_spec_witness :
  let h := [mkNode None None None None None (Some VDocument)] in
  exists h' tn,
    Builder_CharData asciiTrimSpace (mkBuilder (Some 0) parseTrimPCData) (bytes_of " a ") h
    = Ret ((None, mkBuilder (Some 0) parseTrimPCData), h') /\
    h' !! 1 = Some tn /\
    value tn = Some (VText (bytes_of "a")) /\ parent tn = Some 0 /\
    children h' 0 [1] /\ length h' = 2.
Proof.
  intros h.
  refine (Builder_CharData_spec asciiTrimSpace (mkBuilder (Some 0) parseTrimPCData)
            (bytes_of " a ") h 0 NodeTypeDocument [] eq_refl eq_refl eq_refl _).
  exists (mkNode None None None None None (Some VDocument)).
  split; [reflexivity|]. split; [apply NoDup_nil_2|]. split; [reflexivity|].
  intros i k Hik. destruct i; discriminate Hik.
Defined.

(** ** C10: PreviousSibling on a well-formed sibling list *)

Lemma chain_last_Some own (h : heap) first ks i k :
  chain own h first ks -> ks !! i = Some k -> exists tl, last ks = Some tl.
Proof.
  intros _ Hik. destruct (last ks) as [tl|] eqn:E; [eauto|].
  apply last_None in E. subst ks. discriminate Hik.
Qed.

(** PreviousSibling where the sibling list is well formed, as AppendChild,
    PrependChild and InsertChildAfter leave it: for a node at position [i]
    it returns nil when [i] is zero (the node is the head) and the node at
    position [i-1] otherwise; for a node fresh from CreateElement or
    CreateText, whose prevSibling link is nil, the call dereferences nil
    and panics instead of returning nil. *)
Theorem PreviousSibling_linked_or_panics :
  (forall own (h : heap) first ks i k,
     chain own h first ks -> ks !! i = Some k ->
     node_PreviousSibling (Some k) h
     = Ret (match i with O => None | S j => ks !! j end, h)) /\
  (forall name attrs (h : heap),
     exists n h', CreateElement name attrs h = Ret (n, h')
                  /\ node_PreviousSibling n h' = Panic) /\
  (forall cd (h : heap),
     exists n h', CreateText cd h = Ret (n, h') /\ node_PreviousSibling n h' = Panic).
Proof.
  split; [|split].
  - intros own h first ks i k Hch Hik.
    destruct (chain_last_Some _ _ _ _ _ _ Hch Hik) as [tl Htl].
    pose proof Hch as (Hnd & Hfirst & Hks).
    destruct (Hks i k Hik) as (n & Hn & _ & Hnx & Hpv).
    unfold node_PreviousSibling.
    erewrite bind_Ret by (apply get_Ret; exact Hn). rewrite Hpv.
    destruct i as [|j].
    + rewrite Htl. pose proof Htl as Htl'. rewrite last_lookup in Htl'.
      destruct (Hks _ _ Htl') as (tn & Htn & _ & Htnx & _).
      erewrite bind_Ret by (apply get_Ret; exact Htn). rewrite Htnx.
      rewrite lookup_ge_None_2; [reflexivity|].
      pose proof (lookup_lt_Some _ _ _ Hik). lia.
    + assert (Hj : exists q, ks !! j = Some q).
      { apply lookup_lt_is_Some_2. pose proof (lookup_lt_Some _ _ _ Hik). lia. }
      destruct Hj as [q Hq]. rewrite Hq.
      destruct (Hks j q Hq) as (qn & Hqn & _ & Hqnx & _).
      erewrite bind_Ret by (apply get_Ret; exact Hqn). rewrite Hqnx, Hik. reflexivity.
  - intros name attrs h.
    destruct (new_with_attrs_spec (VElement name EmptyString) attrs h)
      as (h' & n & Hrun & _ & _ & Hn & _ & _ & _ & _ & Hpv & _).
    exists (Some (length h)), h'. split; [exact Hrun|].
    unfold node_PreviousSibling.
    erewrite bind_Ret by (apply get_Ret; exact Hn). rewrite Hpv. reflexivity.
  - intros cd h. do 2 eexists. split; [reflexivity|].
    unfold node_PreviousSibling.
    erewrite bind_Ret.
    2:{ apply get_Ret. rewrite lookup_app_r by lia. rewrite Nat.sub_diag. reflexivity. }
    reflexivity.
Qed.

(** On the three children of a root element built by AppendChild. *)
Lemma PreviousSibling_linked_or_panics_witness :
  let h := [mkNode None (Some 1) None None None (Some (VElement (mkName "" "root") ""));
            mkNode (Some 0) None (Some 2) (Some 3) None (Some (VText []));
            mkNode (Some 0) None (Some 3) (Some 1) None (Some (VText []));
            mkNode (Some 0) None None (Some 2) None (Some (VText []))] in
  node_PreviousSibling (Some 1) h = Ret (None, h) /\
  node_PreviousSibling (Some 3) h = Ret (Some 2, h).
Proof.
  intros h.
  assert (Hch : chain (fun n => parent n = Some 0) h (Some 1) [1; 2; 3]).
  { split; [apply NoDup_ListNoDup; repeat constructor; simpl; intuition lia|].
    split; [reflexivity|].
    intros i k Hik.
    destruct i as [|[|[|i]]]; simpl in Hik; try discriminate Hik;
      injection Hik as <-; eexists; (split; [reflexivity|]); repeat split. }
  split.
  - exact (proj1 PreviousSibling_linked_or_panics _ h _ _ 0 1 Hch eq_refl).
  - exact (proj1 PreviousSibling_linked_or_panics _ h _ _ 2 3 Hch eq_refl).
Defined.

(** ** C3 and C10: the sibling-list invariant and [insertNodeBefore] *)

(** The invariant of the specification, for the children of [p]: some list
    [ks] is the child list of [p].  It unfolds to the four statements of
    the specification. *)
Definition sibling_invariant (h : heap) (p : nat) : Prop :=
  exists ks, children h p ks.

(** Following [prevSib] links [i] times. *)
Fixpoint prev_times (h : heap) (i : nat) (k : ptr) : ptr :=
  match i with
  | O => k
  | S j => match k with
           | Some a => match h !! a with
                       | Some n => prev_times h j (prevSib n)
                       | None => None
                       end
           | None => None
           end
  end.

Lemma children_invariant_unfolded (h : heap) p ks pn :
  children h p ks -> h !! p = Some pn ->
  (forall i k, ks !! i = Some k -> prev_times h i (Some k) = firstChild pn) /\
  (forall hd hn, head ks = Some hd -> h !! hd = Some hn -> prevSib hn = last ks) /\
  (forall tl tn, last ks = Some tl -> h !! tl = Some tn -> nextSib tn = None) /\
  (forall k kn, k ∈ ks -> h !! k = Some kn -> parent kn = Some p).
Proof.
  intros (pn' & Hp' & Hnd & Hfirst & Hks) Hp.
  assert (pn' = pn) by congruence. subst pn'.
  split; [|split; [|split]].
  - induction i as [|i IH]; intros k Hik.
    + simpl. rewrite Hfirst, head_lookup. by rewrite Hik.
    + destruct (Hks _ _ Hik) as (n & Hn & _ & _ & Hpv). simpl. rewrite Hn, Hpv.
      assert (Hi : exists q, ks !! i = Some q).
      { apply lookup_lt_is_Some_2. pose proof (lookup_lt_Some _ _ _ Hik). lia. }
      destruct Hi as [q Hq]. rewrite Hq. by apply IH.
  - intros hd hn Hhd Hhn. rewrite head_lookup in Hhd.
    destruct (Hks _ _ Hhd) as (n & Hn & _ & _ & Hpv). congruence.
  - intros tl tn Htl Htn. rewrite last_lookup in Htl.
    destruct (Hks _ _ Htl) as (n & Hn & _ & Hnx & _).
    assert (n = tn) by congruence. subst n. rewrite Hnx.
    apply lookup_ge_None_2. pose proof (lookup_lt_Some _ _ _ Htl). lia.
  - intros k kn Hin Hkn. apply list_elem_of_lookup in Hin as [i Hi].
    destruct (Hks _ _ Hi) as (n & Hn & Hown & _). congruence.
Qed.

(** The store after [doc.AppendChild(root); root.AppendChild(a)] on fresh
    nodes, and a fresh element [c] at address 3. *)
Definition store_before_insert : heap :=
  [mkNode None (Some 1) None None None (Some VDocument);
   mkNode (Some 0) (Some 2) None (Some 1) None (Some (VElement (mkName "" "root") ""));
   mkNode (Some 1) None None (Some 2) None (Some (VElement (mkName "" "a") ""));
   mkNode None None None None None (Some (VElement (mkName "" "c") ""))].

Lemma store_before_insert_built :
  (do doc <- newDocument;
   do root <- CreateElement (mkName "" "root") [];
   run node_AppendChild doc root;
   do a <- CreateElement (mkName "" "a") [];
   run node_AppendChild root a;
   CreateElement (mkName "" "c") []) []
  = Ret (Some 3, store_before_insert).
Proof. reflexivity. Qed.

(** C3, where the code departs from it.  In the store built by
    [doc.AppendChild(root); root.AppendChild(a)], where the children of
    [root] satisfy the invariant, [root.InsertChildBefore(c, a)] with a
    fresh element [c] returns no error and leaves a store in which the
    parent link of [c] is [a] and not [root], the first child of [root] is
    still [a], and the next sibling of the old tail [a] is [c], whose next
    sibling is [a] again: the children of [root] no longer satisfy the
    invariant. *)
Theorem InsertChildBefore_breaks_invariant :
  sibling_invariant store_before_insert 1 /\
  exists h',
    node_InsertChildBefore (Some 1) (Some 3) (Some 2) store_before_insert = Ret (None, h') /\
    get parent (Some 3) h' = Ret (Some 2, h') /\
    get firstChild (Some 1) h' = Ret (Some 2, h') /\
    get nextSib (Some 2) h' = Ret (Some 3, h') /\
    get nextSib (Some 3) h' = Ret (Some 2, h') /\
    ~ sibling_invariant h' 1.
Proof.
  split.
  - exists [2]. eexists. split; [reflexivity|].
    split; [apply NoDup_singleton|]. split; [reflexivity|].
    intros i k Hik. destruct i as [|i]; simpl in Hik; [|discriminate Hik].
    injection Hik as <-. eexists. split; [reflexivity|]. repeat split.
  - eexists. split; [reflexivity|]. repeat split.
    intros (ks & pn & Hp & Hnd & Hfirst & Hks).
    injection Hp as <-. simpl in Hfirst.
    destruct ks as [|k0 ks]; [discriminate Hfirst|]. injection Hfirst as <-.
    destruct (Hks 0 2 eq_refl) as (n & Hn & _ & Hnx & _).
    injection Hn as <-. simpl in Hnx.
    destruct ks as [|k1 ks]; [discriminate Hnx|]. injection Hnx as <-.
    destruct (Hks 1 3 eq_refl) as (n & Hn & Hown & _).
    injection Hn as <-. discriminate Hown.
Qed.

(** The store after [root.InsertChildBefore(c, a)] on [store_before_insert]. *)
Definition store_after_insert : heap :=
  [mkNode None (Some 1) None None None (Some VDocument);
   mkNode (Some 0) (Some 2) None (Some 1) None (Some (VElement (mkName "" "root") ""));
   mkNode (Some 1) None (Some 3) (Some 3) None (Some (VElement (mkName "" "a") ""));
   mkNode (Some 2) None (Some 2) (Some 2) None (Some (VElement (mkName "" "c") ""))].

(** C10, where the code departs from it.  [root.InsertChildBefore(c, a)] on
    the only child [a] of [root] returns no error, so [c] and [a] have both
    been inserted into the sibling list of [root].  Afterwards [a] still
    is the first child of [root], yet [a.PreviousSibling()] returns [c]
    and not nil, and [c.PreviousSibling()] returns [a]: no node of the
    list answers nil. *)
Theorem PreviousSibling_after_InsertChildBefore :
  node_InsertChildBefore (Some 1) (Some 3) (Some 2) store_before_insert
  = Ret (None, store_after_insert) /\
  get firstChild (Some 1) store_after_insert = Ret (Some 2, store_after_insert) /\
  node_PreviousSibling (Some 2) store_after_insert = Ret (Some 3, store_after_insert) /\
  node_PreviousSibling (Some 3) store_after_insert = Ret (Some 2, store_after_insert).
Proof. repeat split. Qed.

(** ** C4: [allowMove] and cycles of parent links *)

(** The parent links of a store. *)
Definition parents (h : heap) : list ptr := parent <$> h.

(** The walk [for cur := a; cur != nil; cur = cur.parent] over the parent
    links [pm] ends within [fuel] steps. *)
Fixpoint reaches_root (pm : list ptr) (fuel : nat) (a : ptr) : bool :=
  match a with
  | None => true
  | Some x =>
      match fuel with
      | O => false
      | S fuel' =>
          match pm !! x with
          | Some p => reaches_root pm fuel' p
          | None => true
          end
      end
  end.

(** No walk along parent links goes on for ever. *)
Definition parent_acyclic (h : heap) : Prop :=
  forall a, exists fuel, reaches_root (parents h) fuel (Some a) = true.

(** The walk from [a] ends within [fuel] steps without meeting [c]. *)
Fixpoint avoids (pm : list ptr) (fuel : nat) (a : ptr) (c : nat) : bool :=
  match a with
  | None => true
  | Some x =>
      match fuel with
      | O => false
      | S fuel' =>
          if bool_decide (x = c) then false
          else match pm !! x with
               | Some p => avoids pm fuel' p c
               | None => true
               end
      end
  end.

(** [x] is [a] or one of the ancestors of [a]. *)
Inductive ancestor_or_self (h : heap) (x : nat) : nat -> Prop :=
| aos_self : ancestor_or_self h x x
| aos_parent a n p :
    h !! a = Some n -> parent n = Some p -> ancestor_or_self h x p ->
    ancestor_or_self h x a.

Lemma reaches_root_mono pm k k' a :
  reaches_root pm k a = true -> k <= k' -> reaches_root pm k' a = true.
Proof.
  revert k' a. induction k as [|k IH]; intros k' a Hr Hle.
  - destruct a; [discriminate Hr|]. destruct k'; reflexivity.
  - destruct a as [x|]; [|destruct k'; reflexivity].
    destruct k' as [|k']; [lia|]. simpl in *.
    destruct (pm !! x) as [p|]; [|reflexivity]. apply IH; [exact Hr|lia].
Qed.

Lemma avoids_reaches_after pm k a c v :
  avoids pm k a c = true -> reaches_root (<[c := v]> pm) k a = true.
Proof.
  revert a. induction k as [|k IH]; intros a Ha.
  - destruct a; [discriminate Ha|reflexivity].
  - destruct a as [x|]; [|reflexivity]. simpl in *.
    destruct (bool_decide (x = c)) eqn:E; [discriminate Ha|].
    apply bool_decide_eq_false in E.
    rewrite list_lookup_insert_ne by congruence.
    destruct (pm !! x) as [p|]; [|reflexivity]. by apply IH.
Qed.

Lemma reaches_root_relink pm k kp a c p :
  reaches_root pm k a = true ->
  avoids pm kp (Some p) c = true ->
  reaches_root (<[c := Some p]> pm) (k + S kp) a = true.
Proof.
  intros Hr Hav. revert a Hr. induction k as [|k IH]; intros a Hr.
  - destruct a; [discriminate Hr|reflexivity].
  - destruct a as [x|]; [|reflexivity]. simpl in Hr.
    change (S k + S kp) with (S (k + S kp)). simpl.
    destruct (decide (x = c)) as [->|Hne].
    + destruct (decide (c < length pm)) as [Hlt|Hge].
      * rewrite list_lookup_insert_eq by exact Hlt.
        eapply reaches_root_mono; [apply avoids_reaches_after; exact Hav|lia].
      * rewrite list_insert_ge by lia. rewrite lookup_ge_None_2 by lia. reflexivity.
    + rewrite list_lookup_insert_ne by congruence.
      destruct (pm !! x) as [q|]; [|reflexivity]. by apply IH.
Qed.

Lemma parents_insert_same (h : heap) a n f :
  h !! a = Some n -> parent (f n) = parent n -> parents (<[a := f n]> h) = parents h.
Proof.
  intros Hn Hf. unfold parents. rewrite list_fmap_insert.
  apply list_insert_id. rewrite list_lookup_fmap, Hn. simpl. by rewrite Hf.
Qed.

Lemma parents_insert_parent (h : heap) a n v :
  h !! a = Some n -> parents (<[a := with_parent v n]> h) = <[a := v]> (parents h).
Proof. intros Hn. unfold parents. by rewrite list_fmap_insert. Qed.

Lemma parents_lookup (h : heap) a n :
  h !! a = Some n -> parents h !! a = Some (parent n).
Proof. intros Hn. unfold parents. by rewrite list_lookup_fmap, Hn. Qed.

(** Unfolding a run that returned. *)
Ltac inv_run :=
  repeat match goal with
    | H : bind _ _ _ = Ret _ |- _ =>
        let a := fresh "a" in let h := fresh "h" in let Ha := fresh "Hrun" in
        apply bind_inv in H as (a & h & Ha & H)
    | H : get _ _ _ = Ret _ |- _ =>
        let a := fresh "a" in let n := fresh "n" in
        let E1 := fresh "E" in let E2 := fresh "Hlk" in let E3 := fresh "E" in
        let E4 := fresh "E" in
        apply get_inv in H as (a & n & E1 & E2 & E3 & E4); subst
    | H : modify _ _ _ = Ret _ |- _ =>
        let a := fresh "a" in let n := fresh "n" in
        let E1 := fresh "E" in let E2 := fresh "Hlk" in let E3 := fresh "E" in
        apply modify_inv in H as (a & n & E1 & E2 & E3); subst
    | H : ret _ _ = Ret _ |- _ => unfold ret in H; injection H as ? ?; subst
    | H : Some _ = Some _ |- _ => injection H as ?; subst
    end.

(** [appendNode] writes one parent link: the one of the child. *)
Lemma appendNode_parents (h h' : heap) c p u :
  appendNode (Some c) p h = Ret (u, h') -> parents h' = <[c := p]> (parents h).
Proof.
  unfold appendNode, set_parent, set_nextSib, set_prevSib, set_firstChild.
  intros Hrun. apply bind_inv in Hrun as (a0 & h0 & Hm & Hrun).
  apply modify_inv in Hm as (a & n & E1 & Hlk & ->). injection E1 as <-.
  rewrite <- (parents_insert_parent h c n p Hlk).
  apply bind_inv in Hrun as (hd & h1 & Hg & Hrun).
  apply get_inv in Hg as (? & ? & ? & ? & ? & ->). subst.
  destruct (firstChild _) as [hda|].
  - inv_run.
    repeat (erewrite parents_insert_same; [|eassumption|reflexivity]). reflexivity.
  - inv_run.
    repeat (erewrite parents_insert_same; [|eassumption|reflexivity]). reflexivity.
Qed.

#[local] Arguments implements : simpl never.

Lemma OwnerDocument_loop_heap fuel it (h h' : heap) d :
  OwnerDocument_loop fuel it h = Ret (d, h') -> h' = h.
Proof.
  revert it h. induction fuel as [|fuel IH]; intros it h Hrun.
  - destruct it; simpl in Hrun; [discriminate|]. by injection Hrun as _ <-.
  - destruct it as [a|]; simpl in Hrun; [|by injection Hrun as _ <-].
    apply bind_inv in Hrun as (v & h1 & Hg & Hrun).
    apply get_inv in Hg as (? & ? & ? & ? & ? & ->). subst.
    destruct (value _) as [doc|].
    + destruct (implements doc Document_methods).
      * unfold ret in Hrun. by injection Hrun as _ <-.
      * apply bind_inv in Hrun as (q & h1 & Hg & Hrun).
        apply get_inv in Hg as (? & ? & ? & ? & ? & ->). by apply IH in Hrun.
    + apply bind_inv in Hrun as (q & h1 & Hg & Hrun).
      apply get_inv in Hg as (? & ? & ? & ? & ? & ->). by apply IH in Hrun.
Qed.

(** No payload type has the methods of [Document]: the assertion
    [it.value.(Document)] never succeeds and [OwnerDocument] answers nil
    whenever it returns. *)
Lemma implements_Document_never (v : payload) : implements v Document_methods = false.
Proof. destruct v; reflexivity. Qed.

Lemma OwnerDocument_loop_nil fuel it (h h' : heap) d :
  OwnerDocument_loop fuel it h = Ret (d, h') -> d = None.
Proof.
  revert it h. induction fuel as [|fuel IH]; intros it h Hrun.
  - destruct it; simpl in Hrun; [discriminate|]. by injection Hrun as <- _.
  - destruct it as [a|]; simpl in Hrun; [|by injection Hrun as <- _].
    apply bind_inv in Hrun as (v & h1 & Hg & Hrun).
    apply get_inv in Hg as (? & ? & ? & ? & ? & ->). subst.
    destruct (value _) as [doc|].
    + rewrite implements_Document_never in Hrun.
      apply bind_inv in Hrun as (q & h1 & Hg & Hrun).
      apply get_inv in Hg as (? & ? & ? & ? & ? & ->). by apply IH in Hrun.
    + apply bind_inv in Hrun as (q & h1 & Hg & Hrun).
      apply get_inv in Hg as (? & ? & ? & ? & ? & ->). by apply IH in Hrun.
Qed.

Lemma allowMove_loop_avoids fuel cur c (h h' : heap) :
  allowMove_loop fuel cur (Some c) h = Ret (true, h') ->
  h' = h /\ avoids (parents h) fuel cur c = true.
Proof.
  revert cur h. induction fuel as [|fuel IH]; intros cur h Hrun.
  - destruct cur; simpl in Hrun; [discriminate|]. by injection Hrun as <-.
  - destruct cur as [a|]; simpl in Hrun; [|by injection Hrun as <-].
    simpl. destruct (decide (a = c)) as [->|Hne].
    + rewrite bool_decide_true in Hrun by reflexivity. discriminate Hrun.
    + rewrite bool_decide_false in Hrun by congruence.
      rewrite bool_decide_false by exact Hne.
      apply bind_inv in Hrun as (q & h1 & Hg & Hrun).
      apply get_inv in Hg as (? & n & E & Hlk & -> & ->). injection E as <-.
      rewrite (parents_lookup _ _ _ Hlk). by apply IH.
Qed.

Lemma avoids_not_ancestor (h : heap) fuel a c :
  avoids (parents h) fuel (Some a) c = true -> ~ ancestor_or_self h c a.
Proof.
  intros Hav Hanc. revert fuel Hav.
  induction Hanc as [|a n p Hn Hp Hanc IH]; intros fuel Hav.
  - destruct fuel; simpl in Hav; [discriminate|].
    rewrite bool_decide_true in Hav by reflexivity. discriminate.
  - destruct fuel as [|fuel]; simpl in Hav; [discriminate|].
    destruct (bool_decide (a = c)); [discriminate|].
    rewrite (parents_lookup _ _ _ Hn), Hp in Hav. by eapply IH.
Qed.

(** C4 as amended.  When [allowMove(parent, child)] answers true, the
    store is as before, the kinds of the two nodes are permitted, and the
    moved node [child] is neither the destination [parent] nor one of its
    ancestors; and then, in a store without cycles of parent links,
    [parent.AppendChild(child)] leaves a store without cycles of parent
    links.  (The mutation operations themselves never call [allowMove].) *)
Theorem allowMove_guards_acyclicity fuel (h h1 : heap) p c :
  allowMove fuel (Some p) (Some c) h = Ret (true, h1) ->
  h1 = h /\
  (exists pk ck, node_NodeType (Some p) h = Ret (pk, h) /\
                 node_NodeType (Some c) h = Ret (ck, h) /\ kinds_permitted pk ck) /\
  ~ ancestor_or_self h c p /\
  (parent_acyclic h ->
   forall e h', node_AppendChild (Some p) (Some c) h = Ret (e, h') -> parent_acyclic h').
Proof.
  intros Hrun. unfold allowMove in Hrun.
  apply bind_inv in Hrun as (pk & h2 & Hpk & Hrun).
  pose proof Hpk as Hpk'. unfold node_NodeType in Hpk'.
  apply bind_inv in Hpk' as (? & ? & Hg & Hr). apply get_inv in Hg as (? & ? & ? & ? & ? & ->).
  injection Hr as _ <-.
  apply bind_inv in Hrun as (ck & h3 & Hck & Hrun).
  pose proof Hck as Hck'. unfold node_NodeType in Hck'.
  apply bind_inv in Hck' as (? & ? & Hg & Hr). apply get_inv in Hg as (? & ? & ? & ? & ? & ->).
  injection Hr as _ <-.
  destruct (allowInsertChild pk ck) eqn:Hallow; simpl in Hrun; [|discriminate Hrun].
  apply bind_inv in Hrun as (pd & h4 & Hpd & Hrun).
  unfold node_OwnerDocument in Hpd.
  apply bind_inv in Hpd as (? & ? & Hg & Hpd). apply get_inv in Hg as (? & ? & ? & ? & ? & ->).
  apply OwnerDocument_loop_heap in Hpd as ->.
  apply bind_inv in Hrun as (cd & h5 & Hcd & Hrun).
  unfold node_OwnerDocument in Hcd.
  apply bind_inv in Hcd as (? & ? & Hg & Hcd). apply get_inv in Hg as (? & ? & ? & ? & ? & ->).
  apply OwnerDocument_loop_heap in Hcd as ->.
  destruct (bool_decide (pd <> cd)); [discriminate Hrun|].
  apply allowMove_loop_avoids in Hrun as [-> Hav].
  split; [reflexivity|].
  split. { exists pk, ck. split; [done|]. split; [done|]. by apply allowInsertChild_permitted. }
  split. { eapply avoids_not_ancestor; exact Hav. }
  intros Hacyc e h' Happ.
  unfold node_AppendChild in Happ.
  rewrite (bind_Ret _ _ _ _ _ Hpk), (bind_Ret _ _ _ _ _ Hck) in Happ.
  rewrite (allowInsertChildErr_None _ _ Hallow) in Happ.
  apply bind_inv in Happ as (u & h6 & Happ & Hr). injection Hr as _ <-.
  apply appendNode_parents in Happ.
  intros a. destruct (Hacyc a) as [k Hk].
  exists (k + S fuel). rewrite Happ. by apply reaches_root_relink.
Qed.

(** C4, at a concrete store: a document, its root element and a fresh
    element. *)
Lemma allowMove_guards_acyclicity_witness :
  let h := [mkNode None (Some 1) None None None (Some VDocument);
            mkNode (Some 0) None None (Some 1) None (Some (VElement (mkName "" "root") ""));
            mkNode None None None None None (Some (VElement (mkName "" "c") ""))] in
  ~ ancestor_or_self h 2 1.
Proof.
  intros h.
  exact (proj1 (proj2 (proj2 (allowMove_guards_acyclicity 5 h h 1 2 eq_refl)))).
Defined.

(** C4 as stated fails: appending an element to itself is accepted, and
    the store that had no cycle of parent links has one afterwards. *)
Lemma AppendChild_closes_a_cycle :
  exists e h h',
    CreateElement (mkName "" "e") [] [] = Ret (e, h) /\
    parent_acyclic h /\
    node_AppendChild e e h = Ret (None, h') /\
    get parent e h' = Ret (e, h') /\
    ~ parent_acyclic h'.
Proof.
  do 3 eexists. split; [reflexivity|]. split.
  { intros a. exists 1. destruct a as [|a]; reflexivity. }
  split; [reflexivity|]. split; [reflexivity|].
  intros Hacyc. destruct (Hacyc 0) as [fuel Hfuel].
  induction fuel as [|fuel IH]; [discriminate Hfuel|]. apply IH. exact Hfuel.
Qed.

(** The owner documents are never told apart: a node of one document may
    be moved under a node of another. *)
Lemma allowMove_across_documents :
  let h := [mkNode None (Some 1) None None None (Some VDocument);
            mkNode (Some 0) None None (Some 1) None (Some (VElement (mkName "" "x") ""));
            mkNode None (Some 3) None None None (Some VDocument);
            mkNode (Some 2) None None (Some 3) None (Some (VElement (mkName "" "y") ""))] in
  allowMove 5 (Some 3) (Some 1) h = Ret (true, h).
Proof. reflexivity. Qed.

(** ** C8: from JSON to XML *)

(** How [jsTagToName] splits a key. *)
Lemma IndexColon_app (ns rest : string) :
  IndexColon ns = None ->
  IndexColon (ns ++ String ":" rest)%string = Some (String.length ns).
Proof.
  induction ns as [|c ns IH]; simpl; intros Hns.
  - reflexivity.
  - destruct (bool_decide (c = ":"%char)); [discriminate Hns|].
    destruct (IndexColon ns); [discriminate Hns|]. rewrite IH by reflexivity. reflexivity.
Qed.

Lemma substring_prefix (s rest : string) :
  substring 0 (String.length s) (s ++ rest)%string = s.
Proof.
  induction s as [|c s IH]; simpl.
  - destruct rest; reflexivity.
  - by rewrite IH.
Qed.

Lemma substring_all (s : string) : substring 0 (String.length s) s = s.
Proof. induction s as [|c s IH]; simpl; [reflexivity|by rewrite IH]. Qed.

Lemma substring_after_colon (ns local : string) :
  substring (S (String.length ns)) (String.length local) (ns ++ String ":" local)%string
  = local.
Proof.
  induction ns as [|c ns IH].
  - cbn [String.length String.append substring]. apply substring_all.
  - cbn [String.length String.append]. exact IH.
Qed.

Lemma length_app_string (s t : string) :
  String.length (s ++ t)%string = String.length s + String.length t.
Proof. induction s as [|c s IH]; simpl; [reflexivity|by rewrite IH]. Qed.

(** A key [ns:local] whose part before the first colon is not empty becomes
    the name [local] in the namespace [ns]; a key without a colon, or one
    that starts with a colon, is a local name as it stands. *)
Lemma jsTagToName_split (ns local : string) :
  ns <> EmptyString -> IndexColon ns = None ->
  jsTagToName (ns ++ String ":" local)%string = mkName ns local.
Proof.
  intros Hne Hns. unfold jsTagToName. rewrite (IndexColon_app _ _ Hns).
  assert (Hpos : (0 <? String.length ns)%nat = true).
  { destruct ns; [done|reflexivity]. }
  rewrite Hpos. f_equal.
  - apply substring_prefix.
  - rewrite length_app_string. cbn [String.length].
    replace (String.length ns + S (String.length local) - S (String.length ns))
      with (String.length local) by lia.
    apply substring_after_colon.
Qed.

Lemma jsTagToName_plain (key : string) :
  IndexColon key = None -> jsTagToName key = mkName EmptyString key.
Proof. intros Hk. unfold jsTagToName. rewrite Hk. reflexivity. Qed.

Lemma jsTagToName_leading_colon (rest : string) :
  jsTagToName (String ":" rest) = mkName EmptyString (String ":" rest).
Proof. reflexivity. Qed.

(** An array directly inside an array stops the decoder with an error. *)
Lemma nested_array_rejected {T} `{TokenDecoder T} fuel (d : JSONDecoder) rest (h : heap) :
  jd_tokens d = JDelim LBracket :: rest ->
  exists d', run_jsDecodeArray (S fuel) d h = Ret ((None, d'), h) /\
             jd_error d' = Some (ErrNew "decoding of nested arrays unsupported") /\
             jd_td d' = jd_td d.
Proof.
  intros Hd. cbn [run_jsDecodeArray]. unfold jd_More, jd_Token. rewrite Hd.
  unfold jd_pop. cbn [jd_stack].
  destruct (jd_stack d) as [|jds st]; eexists; (split; [reflexivity|]); split; reflexivity.
Qed.

(** The part of flexml's [Encoder] that the example with the key ["a:"]
    meets.  The encoder is not part of this repository; like Go's
    [encoding/xml], of which it is a variant, it refuses a start tag whose
    local name is empty, and the repository's test "name prefix separation
    bad" expects the write to fail after the first element.  Other tokens
    are kept in order. *)
Record checkingEncoder : Type := mkChecking { written : list Token }.

#[global] Instance NameChecker : Encoder checkingEncoder := {
  EncodeToken enc t :=
    match t with
    | StartElement name _ =>
        if bool_decide (Local name = EmptyString)
        then (Some (ErrNew "xml: start tag with no name"), enc)
        else (None, mkChecking (written enc ++ [t]))
    | _ => (None, mkChecking (written enc ++ [t]))
    end;
  Flush enc := (None, enc)
}.

(** Decoding a JSON token stream into a fresh document with a Builder
    without options, then writing the document to the encoder [enc]: the
    error of the decoding, the error of the writing, and the encoder. *)
Definition json_to_xml {E} `{Encoder E} (enc : E) (tokens : list jsonToken)
  : M (option error * option error * E) :=
  do doc <- newDocument;
  do r <- UnmarshalJSON (H := Builder_TokenDecoder asciiTrimSpace asciiFields)
            100 tokens (mkBuilder doc 0%N);
  do w <- WriteTo 100 (NewMarshaler doc) enc;
  ret (fst r, fst w, snd w).

(** The token streams of [{"foo": []}], [{"foo": {}}] and
    [{"a:b": 1, "a:": 2}]. *)
Definition json_empty_array : list jsonToken :=
  [JDelim LBrace; JString "foo"; JDelim LBracket; JDelim RBracket; JDelim RBrace].
Definition json_empty_object : list jsonToken :=
  [JDelim LBrace; JString "foo"; JDelim LBrace; JDelim RBrace; JDelim RBrace].
Definition json_trailing_colon : list jsonToken :=
  [JDelim LBrace; JString "a:b"; JNumber "1"; JString "a:"; JNumber "2"; JDelim RBrace].

Definition result_of {A} (r : outcome (A * heap)) : option A :=
  match r with Ret (a, _) => Some a | _ => None end.

(** C8 as stated fails: the input [{"a:b": 1, "a:": 2}] decodes without an
    error. *)
Lemma trailing_colon_decodes_without_error :
  exists doc h un h',
    newDocument [] = Ret (doc, h) /\
    UnmarshalJSON (H := Builder_TokenDecoder asciiTrimSpace asciiFields)
      100 json_trailing_colon (mkBuilder doc 0%N) h = Ret ((None, un), h').
Proof. do 4 eexists. split; reflexivity. Qed.

(** C8 as amended.  [{"foo": []}] decodes without error and is written as
    nothing at all; [{"foo": {}}] is written as the start and end tag of
    [foo]; [{"a:b": 1, "a:": 2}] decodes without error into the element
    [b] of namespace [a] holding "1" and an element of namespace [a] with
    an empty local name holding "2", and it is the writing that fails, at
    the start tag without a name, after [<b xmlns="a">1</b>] has been
    written; a key [ns:local] is split at its first colon; an array inside
    an array stops the decoder with an error. *)
Theorem json_shape_mapping :
  result_of (json_to_xml ([] : list Token) json_empty_array []) = Some (None, None, []) /\
  result_of (json_to_xml ([] : list Token) json_empty_object [])
  = Some (None, None, [StartElement (mkName "" "foo") []; EndElement (mkName "" "foo")]) /\
  result_of (json_to_xml ([] : list Token) json_trailing_colon [])
  = Some (None, None,
          [StartElement (mkName "a" "b") []; CharData (bytes_of "1");
           EndElement (mkName "a" "b");
           StartElement (mkName "a" "") []; CharData (bytes_of "2");
           EndElement (mkName "a" "")]) /\
  result_of (json_to_xml (mkChecking []) json_trailing_colon [])
  = Some (None,
          Some (ErrWithStack (ErrWithStack (ErrNew "xml: start tag with no name"))),
          mkChecking [StartElement (mkName "a" "b") []; CharData (bytes_of "1");
                      EndElement (mkName "a" "b")]) /\
  (forall ns local, ns <> EmptyString -> IndexColon ns = None ->
     jsTagToName (ns ++ String ":" local)%string = mkName ns local) /\
  (forall fuel (d : JSONDecoder (T := Builder)) rest (h : heap),
     jd_tokens d = JDelim LBracket :: rest ->
     exists d',
       run_jsDecodeArray (H := Builder_TokenDecoder asciiTrimSpace asciiFields) (S fuel) d h
       = Ret ((None, d'), h) /\
       jd_error d' = Some (ErrNew "decoding of nested arrays unsupported")).
Proof.
  split; [reflexivity|]. split; [reflexivity|]. split; [reflexivity|].
  split; [reflexivity|]. split; [exact jsTagToName_split|].
  intros fuel d rest h Hd.
  destruct (nested_array_rejected (H := Builder_TokenDecoder asciiTrimSpace asciiFields)
              fuel d rest h Hd) as (d' & Hrun & Herr & _).
  exists d'. split; assumption.
Qed.

(** ** C9: the schema-guided decoder skips what it cannot resolve *)

Import modules datastore.

(** The schema of the test module [module1] (namespace [urn:mod1]) of the
    repository, as the entry tree that goyang builds from it. *)
Definition leaf (name : string) : string * Entry :=
  (name, mkEntry name LeafEntry "urn:mod1" []).

Definition module1_system : Entry :=
  mkEntry "system" DirectoryEntry "urn:mod1"
    [leaf "host-name"; leaf "domain-name-servers"].

Definition module1_config : Entry :=
  mkEntry "config" DirectoryEntry "urn:mod1"
    [leaf "interface-name";
     ("interface-type",
       mkEntry "interface-type" ChoiceEntry "urn:mod1"
         [("svi", mkEntry "svi" CaseEntry "urn:mod1" [leaf "ip-address"]);
          ("ethernet", mkEntry "ethernet" CaseEntry "urn:mod1" [leaf "ethernet-address"])])].

Definition module1_interfaces : Entry :=
  mkEntry "interfaces" DirectoryEntry "urn:mod1"
    [("interface",
       mkEntry "interface" DirectoryEntry "urn:mod1"
         [leaf "interface-name";
          ("config", module1_config);
          ("multi-choice",
            mkEntry "multi-choice" DirectoryEntry "urn:mod1"
              [("a", mkEntry "a" ChoiceEntry "urn:mod1"
                       [("a-foo", mkEntry "a-foo" CaseEntry "urn:mod1" [leaf "a-foo"])]);
               ("b", mkEntry "b" ChoiceEntry "urn:mod1"
                       [("b-foo", mkEntry "b-foo" CaseEntry "urn:mod1" [leaf "b-foo"])])]);
          ("status", mkEntry "status" DirectoryEntry "urn:mod1" [])])].

Definition module1 : Module :=
  mkModule (Some "urn:mod1")
    (mkEntry "module1" DirectoryEntry "urn:mod1"
       [("system", module1_system); ("interfaces", module1_interfaces)]).

Definition module1_collection : Collection :=
  mkCollection [("module1", module1)] true.



(** The resolution of the name of a start element fails with [err]: either
    the name lookup, or the search for the schema child. *)
Definition resolution_fails (un : Decoder) (lookup : nameLookup) (sename : Name)
  (err : error) : Prop :=
  snd (apply_lookup lookup (Modules un) sename) = Some err \/
  (snd (apply_lookup lookup (Modules un) sename) = None /\
   snd (Decoder_dataChild un (fst (apply_lookup lookup (Modules un) sename))) = Some err).



(** C8, at the key of the example: ["a:b"] is the name [b] in the
    namespace [a]. *)
Lemma json_shape_mapping_witness : jsTagToName "a:b" = mkName "a" "b".
Proof.
  exact (proj1 (proj2 (proj2 (proj2 (proj2 json_shape_mapping)))) "a" "b"
           ltac:(discriminate) eq_refl).
Defined.


(** * C1: decoding, marshaling, and doing both again

    The tokenizer and the encoder belong to the package
    [github.com/andaru/flexml]; the code of this repository starts at the
    tokens the tokenizer yields and ends at the tokens the encoder is
    handed.  The development below follows a document through the Builder
    and the marshaler between these two points; its last part takes the
    bytes of the encoder through the tokenizer again. *)

(** ** Trees in the store *)

Inductive tree : Type :=
| Tree (a : nat) (v : payload) (attrs : list (nat * Attr)) (kids : list tree).

Definition root (t : tree) : nat := match t with Tree a _ _ _ => a end.

Fixpoint addrs (t : tree) : list nat :=
  match t with
  | Tree a _ attrs kids => a :: (fst <$> attrs) ++ flat_map addrs kids
  end.

Lemma tree_induction (P : tree -> Prop) :
  (forall a v attrs kids, Forall P kids -> P (Tree a v attrs kids)) -> forall t, P t.
Proof.
  intros H. fix IH 1. intros [a v attrs kids]. apply H.
  induction kids as [|k ks IHks]; constructor; [apply IH | exact IHks].
Qed.

Lemma elem_of_flat_map {A B} (f : A -> list B) (l : list A) (x : B) :
  x ∈ flat_map f l <-> exists y, y ∈ l /\ x ∈ f y.
Proof.
  rewrite list_elem_of_In, in_flat_map. split; intros (y & H1 & H2); exists y.
  - by rewrite !list_elem_of_In.
  - by rewrite <- !list_elem_of_In.
Qed.

Lemma root_in_addrs t : root t ∈ addrs t.
Proof. destruct t. simpl. apply elem_of_cons. by left. Qed.

Definition holds_attr (h : heap) (ka : nat * Attr) : Prop :=
  exists an, h !! ka.1 = Some an /\ value an = Some (VAttribute ka.2).

Inductive repr (h : heap) : tree -> Prop :=
| repr_node a v attrs kids n :
    h !! a = Some n -> value n = Some v ->
    attributes h a ((fst <$> attrs)) -> Forall (holds_attr h) attrs ->
    children h a ((root <$> kids)) ->
    Forall (repr h) kids ->
    repr h (Tree a v attrs kids).

Lemma repr_same (h h' : heap) t :
  repr h t -> (forall x, x ∈ addrs t -> h' !! x = h !! x) -> repr h' t.
Proof.
  induction t as [a v attrs kids IH] using tree_induction.
  intros Hr Hsame. inversion Hr as [a0 v0 attrs0 kids0 n Hn Hv Hat Hpay Hch Hkids]; subst.
  simpl in Hsame.
  assert (Ha : h' !! a = Some n) by (rewrite Hsame; [done | apply elem_of_cons; by left]).
  econstructor; [exact Ha | exact Hv | | | |].
  - destruct Hat as (pn & Hpn & Hc). exists pn. split; [congruence|].
    eapply chain_frame; [exact Hc|]. intros k m Hk Hm _. exists m.
    split; [|done]. rewrite Hsame; [done|].
    apply elem_of_cons. right. apply elem_of_app. by left.
  - apply Forall_forall. intros ka Hka.
    rewrite Forall_forall in Hpay. destruct (Hpay ka Hka) as (an & Han & Hva).
    exists an. split; [|done]. rewrite Hsame; [done|].
    apply elem_of_cons. right. apply elem_of_app. left.
    apply list_elem_of_fmap. by exists ka.
  - destruct Hch as (pn & Hpn & Hc). exists pn. split; [congruence|].
    eapply chain_frame; [exact Hc|]. intros k m Hk Hm Hown. exists m.
    split; [|done]. rewrite Hsame; [done|].
    apply elem_of_cons. right. apply elem_of_app. right.
    apply list_elem_of_fmap in Hk as (t & -> & Ht).
    apply elem_of_flat_map. exists t. split; [done | apply root_in_addrs].
  - rewrite Forall_forall in IH, Hkids. apply Forall_forall. intros t Ht.
    apply IH; [done | by apply Hkids |].
    intros x Hx. apply Hsame. apply elem_of_cons. right. apply elem_of_app. right.
    apply elem_of_flat_map. by exists t.
Qed.

Lemma repr_allocated (h : heap) t x : repr h t -> x ∈ addrs t -> x < length h.
Proof.
  revert x. induction t as [a v attrs kids IH] using tree_induction.
  intros x Hr Hx. inversion Hr as [a0 v0 attrs0 kids0 n Hn Hv Hat Hpay Hch Hkids]; subst.
  simpl in Hx. apply elem_of_cons in Hx as [->|Hx]; [by eapply lookup_lt_Some|].
  apply elem_of_app in Hx as [Hx|Hx].
  - destruct Hat as (pn & _ & Hc). eapply chain_allocated; eauto.
  - apply elem_of_flat_map in Hx as (t & Ht & Hx).
    rewrite Forall_forall in IH, Hkids. eapply IH; eauto.
Qed.

(** A tree survives a change of the store that keeps the payload and the
    heads of the two lists of its root and leaves every other node of the
    tree alone. *)
Lemma repr_frame (h h' : heap) t :
  NoDup (addrs t) -> repr h t ->
  (forall n, h !! root t = Some n ->
     exists n', h' !! root t = Some n' /\ value n' = value n /\
                firstAttr n' = firstAttr n /\ firstChild n' = firstChild n) ->
  (forall x, x ∈ addrs t -> x <> root t -> h' !! x = h !! x) ->
  repr h' t.
Proof.
  intros Hnd Hr Hroot Hsame. destruct t as [a v attrs kids].
  inversion Hr as [a0 v0 attrs0 kids0 n Hn Hv Hat Hpay Hch Hkids]; subst.
  simpl in *. apply NoDup_cons in Hnd as [Hnotin Hnd].
  destruct (Hroot n Hn) as (n' & Hn' & Hv' & Hfa' & Hfc').
  assert (Hin : forall x, x ∈ (fst <$> attrs) ++ flat_map addrs kids -> h' !! x = h !! x).
  { intros x Hx. apply Hsame; [apply elem_of_cons; by right|]. intros ->. done. }
  econstructor; [exact Hn' | congruence | | | |].
  - destruct Hat as (pn & Hpn & Hc). exists n'. split; [done|].
    assert (pn = n) as -> by congruence. rewrite Hfa'.
    eapply chain_frame; [exact Hc|]. intros k m Hk Hm _. exists m.
    split; [|done]. rewrite Hin; [done|]. apply elem_of_app. by left.
  - apply Forall_forall. intros ka Hka.
    rewrite Forall_forall in Hpay. destruct (Hpay ka Hka) as (an & Han & Hva).
    exists an. split; [|done]. rewrite Hin; [done|].
    apply elem_of_app. left. apply list_elem_of_fmap. by exists ka.
  - destruct Hch as (pn & Hpn & Hc). exists n'. split; [done|].
    assert (pn = n) as -> by congruence. rewrite Hfc'.
    eapply chain_frame; [exact Hc|]. intros k m Hk Hm Hown. exists m.
    split; [|done]. rewrite Hin; [done|]. apply elem_of_app. right.
    apply list_elem_of_fmap in Hk as (t & -> & Ht).
    apply elem_of_flat_map. exists t. split; [done | apply root_in_addrs].
  - rewrite Forall_forall in Hkids. apply Forall_forall. intros t Ht.
    eapply repr_same; [by apply Hkids|].
    intros x Hx. apply Hin. apply elem_of_app. right.
    apply elem_of_flat_map. by exists t.
Qed.

Definition add_kid (t c : tree) : tree :=
  match t with Tree a v attrs kids => Tree a v attrs (kids ++ [c]) end.

Lemma roots_in_addrs (l : list tree) k : k ∈ (root <$> l) -> k ∈ flat_map addrs l.
Proof.
  intros Hk. apply list_elem_of_fmap in Hk as (t & -> & Ht).
  apply elem_of_flat_map. exists t. split; [done | apply root_in_addrs].
Qed.

Lemma NoDup_flat_map_part {A B} (f : A -> list B) (l : list A) y :
  NoDup (flat_map f l) -> y ∈ l -> NoDup (f y).
Proof.
  induction l as [|a l IH]; simpl; intros Hnd Hy; [by apply elem_of_nil in Hy|].
  apply NoDup_app in Hnd as (H1 & _ & H2).
  apply elem_of_cons in Hy as [->|Hy]; [done | by apply IH].
Qed.

Lemma NoDup_flat_map_apart {A B} (f : A -> list B) (l : list A) i j a b x :
  NoDup (flat_map f l) -> l !! i = Some a -> l !! j = Some b ->
  x ∈ f a -> x ∈ f b -> i = j.
Proof.
  revert i j. induction l as [|c l IH]; intros i j Hnd Hi Hj Ha Hb; [done|].
  simpl in Hnd. apply NoDup_app in Hnd as (H1 & H12 & H2).
  destruct i as [|i], j as [|j]; simpl in Hi, Hj.
  - done.
  - injection Hi as ->. exfalso. apply (H12 x Ha).
    apply elem_of_flat_map. exists b. split; [by eapply list_elem_of_lookup_2 | done].
  - injection Hj as ->. exfalso. apply (H12 x Hb).
    apply elem_of_flat_map. exists a. split; [by eapply list_elem_of_lookup_2 | done].
  - f_equal. by apply IH.
Qed.

Lemma NoDup_roots (l : list tree) : NoDup (flat_map addrs l) -> NoDup ((root <$> l)).
Proof.
  intros Hnd. apply NoDup_alt. intros i j x Hi Hj.
  apply list_lookup_fmap_Some in Hi as (a & -> & Ha).
  apply list_lookup_fmap_Some in Hj as (b & Hab & Hb).
  eapply NoDup_flat_map_apart; eauto using root_in_addrs.
  rewrite Hab. apply root_in_addrs.
Qed.

(** Linking the free-standing tree [tc] behind the children of the root of
    [tp]: the combined tree is in the store afterwards and every other tree
    is as before. *)
Lemma append_tree (h : heap) (tp tc : tree) (others : list tree) cn :
  NoDup (addrs tp ++ addrs tc ++ flat_map addrs others) ->
  repr h tp -> repr h tc -> Forall (repr h) others ->
  h !! root tc = Some cn -> nextSib cn = None ->
  exists h', appendNode (Some (root tc)) (Some (root tp)) h = Ret (tt, h') /\
    repr h' (add_kid tp tc) /\ Forall (repr h') others /\
    length h' = length h /\
    (exists cn', h' !! root tc = Some cn' /\ parent cn' = Some (root tp)) /\
    (forall a n, h !! a = Some n ->
       exists n', h' !! a = Some n' /\ value n' = value n /\
         (a ∉ addrs tc -> a ∉ flat_map addrs (match tp with Tree _ _ _ kids => kids end) ->
          parent n' = parent n /\ nextSib n' = nextSib n)).
Proof.
  intros Hnd Hp Hc Hothers Hcn Hnx.
  destruct tp as [p vp pattrs pkids]. simpl root. unfold add_kid.
  set (c := root tc) in *. set (ks := (root <$> pkids)).
  inversion Hp as [a0 v0 attrs0 kids0 pn Hpn Hpv Hpat Hppay Hpch Hpkids]; subst.
  simpl addrs in Hnd. rewrite <- app_comm_cons in Hnd.
  apply NoDup_cons in Hnd as [Hp_fresh Hnd].
  rewrite <- app_assoc in Hnd, Hp_fresh.
  apply NoDup_app in Hnd as (Hnd_at & Hat_dis & Hnd).
  apply NoDup_app in Hnd as (Hnd_kids & Hkids_dis & Hnd).
  apply NoDup_app in Hnd as (Hnd_c & Hc_dis & Hnd_o).
  assert (Hc_in : c ∈ addrs tc) by apply root_in_addrs.
  assert (Hks_in : forall k, k ∈ ks -> k ∈ flat_map addrs pkids) by apply roots_in_addrs.
  assert (Hcp : c <> p).
  { intros ->. apply Hp_fresh. rewrite !elem_of_app. auto. }
  assert (Hcks : c ∉ ks).
  { intros Hin. apply (Hkids_dis c); [by apply Hks_in|]. apply elem_of_app. by left. }
  destruct (appendNode_children h p ks c cn Hpch Hcn Hnx Hcks Hcp)
    as (h' & Hrun & Hch' & Hlen & Hsame & Hframe).
  exists h'. split; [exact Hrun|].
  destruct (Hframe p pn Hpn) as (pn' & Hpn' & Hv' & Hfa' & _).
  split.
  { econstructor; [exact Hpn' | congruence | | | |].
    - destruct Hpat as (pn0 & Hpn0 & Hchain). assert (pn0 = pn) as -> by congruence.
      exists pn'. split; [done|]. rewrite Hfa'.
      eapply chain_frame; [exact Hchain|]. intros k m Hk Hm _. exists m.
      split; [|done]. rewrite Hsame; [done| | |].
      + intros ->. apply Hp_fresh. apply elem_of_app. by left.
      + intros ->. apply (Hat_dis c Hk). rewrite !elem_of_app. auto.
      + intros Hin. apply (Hat_dis k Hk). apply elem_of_app. left. by apply Hks_in.
    - apply Forall_forall. intros ka Hka.
      rewrite Forall_forall in Hppay. destruct (Hppay ka Hka) as (an & Han & Hva).
      assert (Hk : ka.1 ∈ (fst <$> pattrs)) by (apply list_elem_of_fmap; by exists ka).
      exists an. split; [|done]. rewrite Hsame; [done| | |].
      + intros E. apply Hp_fresh. apply elem_of_app. left. by rewrite <- E.
      + intros E. apply (Hat_dis _ Hk). rewrite E, !elem_of_app. auto.
      + intros Hin. apply (Hat_dis _ Hk). apply elem_of_app. left. by apply Hks_in.
    - rewrite fmap_app. exact Hch'.
    - apply Forall_app. split; [|apply Forall_cons; split; [|apply Forall_nil_2]].
      + apply Forall_lookup. intros i k Hik.
        assert (Hk : k ∈ pkids) by (by eapply list_elem_of_lookup_2).
        assert (Hsub : forall x, x ∈ addrs k -> x ∈ flat_map addrs pkids).
        { intros x Hx. apply elem_of_flat_map. by exists k. }
        rewrite Forall_forall in Hpkids.
        apply (repr_frame h); [exact (NoDup_flat_map_part addrs pkids k Hnd_kids Hk) | by apply Hpkids | |].
        * intros n Hn. destruct (Hframe _ _ Hn) as (n' & Hn' & Hvn & Hfan & Hfcn & _).
          exists n'. split; [done|]. split; [done|]. split; [done|]. apply Hfcn.
          intros E. apply Hp_fresh. apply elem_of_app. right. apply elem_of_app. left.
          rewrite <- E. apply Hsub, root_in_addrs.
        * intros x Hx Hxr. apply Hsame.
          -- intros ->. apply Hp_fresh. rewrite !elem_of_app. auto.
          -- intros ->. apply (Hkids_dis c); [by apply Hsub|]. apply elem_of_app. by left.
          -- intros Hin. apply list_elem_of_lookup in Hin as [j Hj].
             apply list_lookup_fmap_Some in Hj as (k' & Hxk' & Hk').
             assert (i = j).
             { eapply (NoDup_flat_map_apart addrs pkids i j k k' x); eauto.
               rewrite Hxk'. apply root_in_addrs. }
             subst j. assert (k' = k) by congruence. subst k'. done.
      + apply (repr_frame h); [done | done | |].
        * intros n Hn. destruct (Hframe _ _ Hn) as (n' & Hn' & Hvn & Hfan & Hfcn & _).
          exists n'. split; [done|]. split; [done|]. split; [done|]. by apply Hfcn.
        * intros x Hx Hxr. apply Hsame; [| done |].
          -- intros ->. apply Hp_fresh. rewrite !elem_of_app. auto.
          -- intros Hin. apply (Hkids_dis x); [by apply Hks_in|]. apply elem_of_app. by left. }
  split.
  { apply Forall_forall. intros o Ho. rewrite Forall_forall in Hothers.
    eapply repr_same; [by apply Hothers|].
    assert (Hsub : forall x, x ∈ addrs o -> x ∈ flat_map addrs others).
    { intros x Hx. apply elem_of_flat_map. by exists o. }
    intros x Hx. apply Hsame.
    - intros ->. apply Hp_fresh. rewrite !elem_of_app. auto.
    - intros ->. apply (Hc_dis c Hc_in). by apply Hsub.
    - intros Hin. apply (Hkids_dis x); [by apply Hks_in|]. apply elem_of_app. right. by apply Hsub. }
  split; [exact Hlen|].
  split.
  { destruct Hch' as (pn1 & _ & _ & _ & Hks').
    destruct (Hks' (length ks) c) as (n & Hn & Hown & _).
    { rewrite lookup_app_r by lia. by rewrite Nat.sub_diag. }
    by exists n. }
  intros a n Ha. destruct (Hframe a n Ha) as (n' & Hn' & Hvn & _ & _ & Hpar & Hsib).
  exists n'. split; [done|]. split; [done|]. intros Hac Hak.
  assert (a <> c) by (intros ->; done).
  split; [by apply Hpar|]. apply Hsib; [done|]. intros Hin. by apply Hak, Hks_in.
Qed.

(** The contents of a tree, without the addresses. *)
Inductive xtree : Type :=
| XNode (v : payload) (attrs : list Attr) (kids : list xtree).

Fixpoint erase (t : tree) : xtree :=
  match t with
  | Tree _ v attrs kids => XNode v (snd <$> attrs) (erase <$> kids)
  end.

Definition xpayload (x : xtree) : payload := match x with XNode v _ _ => v end.

Definition xadd_kid (p c : xtree) : xtree :=
  match p with XNode v attrs kids => XNode v attrs (kids ++ [c]) end.

Lemma erase_add_kid p c : erase (add_kid p c) = xadd_kid (erase p) (erase c).
Proof. destruct p. simpl. by rewrite fmap_app. Qed.

Lemma addrs_add_kid p c : addrs (add_kid p c) = addrs p ++ addrs c.
Proof.
  destruct p as [a v attrs kids]. simpl. rewrite flat_map_app. simpl.
  by rewrite app_nil_r, app_assoc.
Qed.

Lemma root_add_kid p c : root (add_kid p c) = root p.
Proof. by destruct p. Qed.

Lemma xpayload_erase (h : heap) t :
  repr h t -> exists n, h !! root t = Some n /\ value n = Some (xpayload (erase t)).
Proof. intros Hr. inversion Hr; subst. simpl. eauto. Qed.

(** The tree that [new_with_attrs] allocates in the store [h]. *)
Definition fresh_tree (h : heap) (v : payload) (attrs : list Attr) : tree :=
  Tree (length h) v (zip (seq (S (length h)) (length attrs)) attrs) [].

Lemma fresh_tree_spec (v : payload) (attrs : list Attr) (h : heap) :
  exists h1 n,
    new_with_attrs v attrs h = Ret (Some (length h), h1) /\
    (forall a, a < length h -> h1 !! a = h !! a) /\
    h1 !! length h = Some n /\ parent n = None /\ nextSib n = None /\
    repr h1 (fresh_tree h v attrs) /\
    addrs (fresh_tree h v attrs) = seq (length h) (S (length attrs)) /\
    erase (fresh_tree h v attrs) = XNode v attrs [].
Proof.
  destruct (new_with_attrs_spec v attrs h)
    as (h1 & n & Hrun & Hlen & Hsame & Hn & Hv & Hpar & Hfc & Hnx & Hpv & Hat & Hpay).
  assert (Hfst : (zip (seq (S (length h)) (length attrs)) attrs).*1
                 = seq (S (length h)) (length attrs)).
  { apply fst_zip. by rewrite length_seq. }
  exists h1, n. split; [exact Hrun|]. split; [exact Hsame|]. split; [exact Hn|].
  split; [exact Hpar|]. split; [exact Hnx|]. split; [|split].
  - econstructor; [exact Hn | exact Hv | | | |].
    + by rewrite Hfst.
    + apply Forall_lookup. intros i [k a] Hi.
      apply lookup_zip_Some in Hi as [Hk Ha].
      apply lookup_seq in Hk as [-> _]. exact (Hpay i a Ha).
    + exists n. split; [exact Hn|]. rewrite Hfc. split; [apply NoDup_nil_2|].
      split; [reflexivity|]. intros i k Hik. destruct i; discriminate Hik.
    + apply Forall_nil_2.
  - unfold fresh_tree. simpl. rewrite Hfst. by rewrite app_nil_r.
  - unfold fresh_tree. simpl. rewrite snd_zip; [done|]. by rewrite length_seq.
Qed.

(** ** The Builder's open elements

    While the Builder reads the tokens of a document, the store holds one
    tree per element that is still open, innermost first, and the document
    last: an open element already names the enclosing one as its parent but
    is not yet in its child list. *)

Fixpoint spine (h : heap) (rs : list nat) : Prop :=
  match rs with
  | [] => True
  | r :: rest =>
      (exists n, h !! r = Some n /\ nextSib n = None /\ parent n = head rest)
      /\ spine h rest
  end.

Definition open_trees (h : heap) (ts : list tree) : Prop :=
  NoDup (flat_map addrs ts) /\ Forall (repr h) ts /\ spine h (root <$> ts).

Lemma spine_frame (h h' : heap) rs :
  spine h rs ->
  (forall r n, r ∈ rs -> h !! r = Some n ->
     exists n', h' !! r = Some n' /\ parent n' = parent n /\ nextSib n' = nextSib n) ->
  spine h' rs.
Proof.
  induction rs as [|r rest IH]; [done|]. intros [(n & Hn & Hnx & Hpar) Hrest] Hsame.
  split.
  - destruct (Hsame r n) as (n' & Hn' & Hp' & Hx'); [apply elem_of_cons; by left | done |].
    exists n'. split; [done|]. split; congruence.
  - apply IH; [done|]. intros t' n' Ht'. apply Hsame. apply elem_of_cons. by right.
Qed.

Lemma open_trees_allocated (h : heap) ts x :
  open_trees h ts -> x ∈ flat_map addrs ts -> x < length h.
Proof.
  intros (_ & Hr & _) Hx. apply elem_of_flat_map in Hx as (t & Ht & Hx).
  rewrite Forall_forall in Hr. eapply repr_allocated; eauto.
Qed.

Definition xkind (x : xtree) : NodeType := payload_nodeType (xpayload x).

Lemma node_NodeType_repr (h : heap) t :
  repr h t -> node_NodeType (Some (root t)) h = Ret (xkind (erase t), h).
Proof.
  intros Hr. destruct (xpayload_erase h t Hr) as (n & Hn & Hv).
  rewrite (node_NodeType_Ret h _ n Hn), Hv. reflexivity.
Qed.

Lemma node_AppendChild_run (h : heap) (tp tc : tree) (h' : heap) :
  repr h tp -> repr h tc ->
  allowInsertChild (xkind (erase tp)) (xkind (erase tc)) = true ->
  appendNode (Some (root tc)) (Some (root tp)) h = Ret (tt, h') ->
  node_AppendChild (Some (root tp)) (Some (root tc)) h = Ret (None, h').
Proof.
  intros Hp Hc Hallow Hrun. unfold node_AppendChild.
  rewrite (bind_Ret _ _ _ _ _ (node_NodeType_repr h tp Hp)).
  rewrite (bind_Ret _ _ _ _ _ (node_NodeType_repr h tc Hc)).
  rewrite (allowInsertChildErr_None _ _ Hallow).
  rewrite (bind_Ret _ _ _ _ _ Hrun). reflexivity.
Qed.

Lemma node_AppendChild_refused (h : heap) (tp tc : tree) :
  repr h tp -> repr h tc ->
  allowInsertChild (xkind (erase tp)) (xkind (erase tc)) = false ->
  exists e, node_AppendChild (Some (root tp)) (Some (root tc)) h = Ret (Some e, h).
Proof.
  intros Hp Hc Hallow. unfold node_AppendChild.
  rewrite (bind_Ret _ _ _ _ _ (node_NodeType_repr h tp Hp)).
  rewrite (bind_Ret _ _ _ _ _ (node_NodeType_repr h tc Hc)).
  rewrite (allowInsertChildErr_Some _ _ Hallow). eexists. reflexivity.
Qed.

Lemma open_trees_roots_apart (tp : tree) (l : list nat) (others : list tree) r :
  NoDup (addrs tp ++ l ++ flat_map addrs others) ->
  r ∈ root <$> (tp :: others) ->
  (r ∉ l) /\ (r ∉ flat_map addrs (match tp with Tree _ _ _ kids => kids end)).
Proof.
  intros Hnd Hr. rewrite fmap_cons in Hr. apply elem_of_cons in Hr as [->|Hr].
  - split.
    + apply NoDup_app in Hnd as (_ & Hdis & _). intros Hin.
      apply (Hdis (root tp)); [apply root_in_addrs|]. apply elem_of_app. by left.
    + apply NoDup_app in Hnd as (Hnd & _ & _). destruct tp as [a v attrs kids].
      simpl in *. apply NoDup_cons in Hnd as [Hnotin _]. intros Hin. apply Hnotin.
      apply elem_of_app. by right.
  - apply roots_in_addrs in Hr. apply NoDup_app in Hnd as (_ & Hdis & Hnd).
    apply NoDup_app in Hnd as (_ & Hdis2 & _). split.
    + intros Hin. by apply (Hdis2 r).
    + intros Hin. apply (Hdis r).
      * destruct tp as [a v attrs kids]. simpl. apply elem_of_cons. right.
        apply elem_of_app. by right.
      * apply elem_of_app. by right.
Qed.

(** Closing the innermost open element. *)
Lemma close_element (h : heap) (tc tp : tree) (others : list tree) :
  open_trees h (tc :: tp :: others) ->
  allowInsertChild (xkind (erase tp)) (xkind (erase tc)) = true ->
  exists h',
    node_AppendChild (Some (root tp)) (Some (root tc)) h = Ret (None, h') /\
    node_Parent (Some (root tc)) h' = Ret (Some (root tp), h') /\
    open_trees h' (add_kid tp tc :: others).
Proof.
  intros (Hnd & Hr & Hsp) Hallow.
  apply Forall_cons in Hr as [Hc Hr]. apply Forall_cons in Hr as [Hp Ho].
  simpl in Hsp. destruct Hsp as [(cn & Hcn & Hnx & Hpar) Hsp].
  simpl in Hnd.
  assert (Hnd' : NoDup (addrs tp ++ addrs tc ++ flat_map addrs others)).
  { eapply NoDup_Permutation_proper; [|exact Hnd]. apply Permutation_app_swap_app. }
  destruct (append_tree h tp tc others cn Hnd' Hp Hc Ho Hcn Hnx)
    as (h' & Hrun & Hrepr & Ho' & Hlen & (cn' & Hcn' & Hpar') & Hframe).
  exists h'. split; [by apply node_AppendChild_run|]. split.
  { unfold node_Parent. rewrite (get_Ret _ _ _ _ Hcn'), Hpar'. reflexivity. }
  split; [|split].
  - simpl. rewrite addrs_add_kid, <- app_assoc. exact Hnd'.
  - by apply Forall_cons.
  - rewrite fmap_cons, root_add_kid. eapply spine_frame; [exact Hsp|].
    intros r n Hr' Hn. destruct (Hframe r n Hn) as (n' & Hn' & _ & Hkeep).
    destruct (open_trees_roots_apart tp (addrs tc) others r Hnd' Hr') as [H1 H2].
    destruct (Hkeep H1 H2) as [Hk1 Hk2]. by exists n'.
Qed.

Lemma open_trees_extend (h h1 : heap) ts :
  open_trees h ts -> (forall a, a < length h -> h1 !! a = h !! a) -> open_trees h1 ts.
Proof.
  intros Hopen Hsame. pose proof (fun x => open_trees_allocated h ts x Hopen) as Hlt.
  destruct Hopen as (Hnd & Hr & Hsp). split; [done|]. split.
  - apply Forall_forall. intros t Ht. rewrite Forall_forall in Hr.
    eapply repr_same; [by apply Hr|]. intros x Hx. apply Hsame, Hlt.
    apply elem_of_flat_map. by exists t.
  - eapply spine_frame; [exact Hsp|]. intros r n Hr' Hn. exists n.
    split; [|done]. rewrite Hsame; [done|]. by eapply lookup_lt_Some.
Qed.

Lemma NoDup_with_fresh (h : heap) ts n :
  open_trees h ts -> NoDup (seq (length h) n ++ flat_map addrs ts).
Proof.
  intros Hopen. apply NoDup_app. split; [apply NoDup_seq|]. split; [|by destruct Hopen].
  intros x Hx Hin. apply elem_of_seq in Hx.
  pose proof (open_trees_allocated h ts x Hopen Hin). lia.
Qed.

(** Allocating a node with its attributes and appending it to the cursor. *)
Lemma append_fresh (h : heap) (tp : tree) (others : list tree) v attrs :
  open_trees h (tp :: others) ->
  allowInsertChild (xkind (erase tp)) (payload_nodeType v) = true ->
  exists h',
    (do t <- new_with_attrs v attrs; node_AppendChild (Some (root tp)) t) h = Ret (None, h') /\
    open_trees h' (add_kid tp (fresh_tree h v attrs) :: others).
Proof.
  intros Hopen Hallow.
  destruct (fresh_tree_spec v attrs h) as (h1 & n & Hnew & Hsame & Hn & Hpar & Hnx & Hrc & Haddrs & Her).
  set (tc := fresh_tree h v attrs) in *.
  pose proof (NoDup_with_fresh h _ (S (length attrs)) Hopen) as Hnd0.
  destruct (open_trees_extend h h1 _ Hopen Hsame) as (Hnd & Hr & Hsp).
  apply Forall_cons in Hr as [Hp Ho].
  assert (Hnd' : NoDup (addrs tp ++ addrs tc ++ flat_map addrs others)).
  { rewrite Haddrs.
    change (flat_map addrs (tp :: others)) with (addrs tp ++ flat_map addrs others) in Hnd0.
    eapply NoDup_Permutation_proper; [|exact Hnd0]. apply Permutation_app_swap_app. }
  assert (Hroot : root tc = length h) by reflexivity.
  destruct (append_tree h1 tp tc others n Hnd' Hp Hrc Ho Hn Hnx)
    as (h' & Hrun & Hrepr & Ho' & Hlen & _ & Hframe).
  exists h'. split.
  { rewrite (bind_Ret _ _ _ _ _ Hnew). rewrite <- Hroot.
    apply node_AppendChild_run; [done | done | | done].
    rewrite Her. exact Hallow. }
  split; [|split].
  - simpl. rewrite addrs_add_kid, <- app_assoc. exact Hnd'.
  - by apply Forall_cons.
  - rewrite fmap_cons, root_add_kid. eapply spine_frame; [exact Hsp|].
    intros r m Hr' Hm. destruct (Hframe r m Hm) as (m' & Hm' & _ & Hkeep).
    destruct (open_trees_roots_apart tp (addrs tc) others r Hnd' Hr') as [H1 H2].
    destruct (Hkeep H1 H2) as [Hk1 Hk2]. by exists m'.
Qed.

(** Opening an element. *)
Lemma open_element (h : heap) (tp : tree) (others : list tree) name attrs :
  open_trees h (tp :: others) ->
  exists h',
    (do newNode <- newStartElement name attrs;
     run set_parent newNode (Some (root tp));
     ret newNode) h = Ret (Some (length h), h') /\
    open_trees h' (fresh_tree h (VElement name "") attrs :: tp :: others).
Proof.
  intros Hopen.
  destruct (fresh_tree_spec (VElement name "") attrs h)
    as (h1 & n & Hnew & Hsame & Hn & Hpar & Hnx & Hrc & Haddrs & Her).
  set (tc := fresh_tree h (VElement name "") attrs) in *.
  pose proof (NoDup_with_fresh h _ (S (length attrs)) Hopen) as Hnd0.
  pose proof (fun x => open_trees_allocated h _ x Hopen) as Hlt.
  destruct (open_trees_extend h h1 _ Hopen Hsame) as (Hnd & Hr & Hsp).
  set (h' := <[length h := with_parent (Some (root tp)) n]> h1).
  assert (Hn' : h' !! length h = Some (with_parent (Some (root tp)) n)).
  { subst h'. apply list_lookup_insert_eq. by eapply lookup_lt_Some. }
  assert (Hother : forall a, a <> length h -> h' !! a = h1 !! a).
  { intros a Ha. subst h'. by apply list_lookup_insert_ne. }
  exists h'. split.
  { change (newStartElement name attrs) with (new_with_attrs (VElement name "") attrs).
    rewrite (bind_Ret _ _ _ _ _ Hnew).
    unfold set_parent. rewrite (bind_Ret _ _ _ _ _ (modify_Ret _ _ _ _ Hn)). reflexivity. }
  split; [|split].
  - change (flat_map addrs (tc :: tp :: others))
      with (addrs tc ++ flat_map addrs (tp :: others)).
    rewrite Haddrs. exact Hnd0.
  - apply Forall_cons. split.
    + apply (repr_frame h1); [rewrite Haddrs; apply NoDup_seq | exact Hrc | |].
      * intros m Hm. change (root tc) with (length h) in *.
        assert (m = n) as -> by congruence.
        eexists. split; [exact Hn'|]. done.
      * intros x _ Hx. by apply Hother.
    + apply Forall_forall. intros t Ht. rewrite Forall_forall in Hr.
      eapply repr_same; [by apply Hr|]. intros x Hx. apply Hother.
      assert (x < length h); [|lia]. apply Hlt. apply elem_of_flat_map. by exists t.
  - rewrite fmap_cons. split.
    + exists (with_parent (Some (root tp)) n). split; [exact Hn'|]. split; [exact Hnx|].
      reflexivity.
    + eapply spine_frame; [exact Hsp|]. intros r m Hr' Hm. exists m. split; [|done].
      rewrite Hother; [done|]. assert (r < length h); [|lia].
      apply Hlt. by apply roots_in_addrs.
Qed.

Lemma erase_fresh_tree (h : heap) v attrs : erase (fresh_tree h v attrs) = XNode v attrs [].
Proof. unfold fresh_tree. simpl. rewrite snd_zip; [done|]. by rewrite length_seq. Qed.

Section Refinement.
Variable TrimSpace : list byte -> list byte.
Variable Fields : list byte -> list (list byte).

(** The attributes [newDeclaration] gives a declaration node. *)
Definition decl_attrs (pi : ProcInst) : list Attr :=
  map (fun kv => mkAttr (mkName "" (fst kv)) (snd kv)) (kvPairs Fields (Inst pi)).

(** What the Builder does to the open trees, on their contents: [None]
    when the token is refused. *)
Definition xappend (xs : list xtree) (c : xtree) : option (list xtree) :=
  match xs with
  | p :: rest =>
      if allowInsertChild (xkind p) (xkind c) then Some (xadd_kid p c :: rest) else None
  | [] => None
  end.

Definition xstep (opts : bitflag) (xs : list xtree) (t : Token) : option (list xtree) :=
  match xs with
  | [] => None
  | p :: rest =>
      match t with
      | StartElement name attrs => Some (XNode (VElement name "") attrs [] :: xs)
      | EndElement _ => xappend rest p
      | CharData cd =>
          if allowInsertChild (xkind p) NodeTypeText then
            match CharData_kept TrimSpace opts cd with
            | None => Some xs
            | Some data => xappend xs (XNode (VText data) [] [])
            end
          else None
      | Comment c =>
          if negb (Has opts parseComments) then Some xs
          else if allowInsertChild (xkind p) NodeTypeComment
               then xappend xs (XNode (VComment c) [] [])
               else None
      | ProcInstTok pi =>
          if bool_decide (Target pi = "xml") then
            if allowInsertChild (xkind p) NodeTypeDeclaration then
              if Has opts parseDeclaration
              then xappend xs (XNode (VDeclaration pi) (decl_attrs pi) [])
              else Some xs
            else None
          else
            if allowInsertChild (xkind p) NodeTypeProcessingInstruction then
              if Has opts parsePI then xappend xs (XNode (VProcInst pi) [] [])
              else Some xs
            else None
      | Directive _ => None
      end
  end.

Definition builder_at (opts : bitflag) (ts : list tree) : Builder :=
  mkBuilder (root <$> head ts) opts.

Definition refines (opts : bitflag) (h : heap) (ts : list tree)
    (m : M (option error * Builder)) (xs' : option (list xtree)) : Prop :=
  match xs' with
  | Some xs' =>
      exists h' ts', m h = Ret ((None, builder_at opts ts'), h') /\
                     open_trees h' ts' /\ erase <$> ts' = xs' /\
                     ts' <> [] /\ last (root <$> ts') = last (root <$> ts)
  | None => forall r h', m h = Ret (r, h') -> r.1 <> None
  end.

Lemma refines_skip opts h ts un :
  open_trees h ts -> ts <> [] -> un = builder_at opts ts ->
  refines opts h ts (ret (None, un)) (Some (erase <$> ts)).
Proof. intros Hopen Hne ->. exists h, ts. done. Qed.

Lemma last_roots_add_kid tp tc others :
  last (root <$> (add_kid tp tc :: others)) = last (root <$> (tp :: others)).
Proof. by rewrite !fmap_cons, root_add_kid. Qed.

Lemma refines_append opts (h : heap) tp others v attrs :
  open_trees h (tp :: others) ->
  refines opts h (tp :: others)
    (do t <- new_with_attrs v attrs;
     do err <- node_AppendChild (Some (root tp)) t;
     ret (err, builder_at opts (tp :: others)))
    (xappend (erase <$> (tp :: others)) (XNode v attrs [])).
Proof.
  intros Hopen. rewrite fmap_cons. unfold xappend.
  change (xkind (XNode v attrs [])) with (payload_nodeType v).
  destruct (allowInsertChild (xkind (erase tp)) (payload_nodeType v)) eqn:Hallow.
  - destruct (append_fresh h tp others v attrs Hopen Hallow) as (h' & Hrun & Hopen').
    exists h', (add_kid tp (fresh_tree h v attrs) :: others).
    split; [|split; [exact Hopen'|split; [|split; [done|apply last_roots_add_kid]]]].
    + unfold bind in Hrun |- *. destruct (new_with_attrs v attrs h) as [[t h1]| |]; try done.
      rewrite Hrun. unfold ret, builder_at. simpl. by rewrite root_add_kid.
    + rewrite fmap_cons, erase_add_kid, erase_fresh_tree. reflexivity.
  - intros r h' Hrun.
    destruct (fresh_tree_spec v attrs h)
      as (h1 & n & Hnew & Hsame & Hn & Hpar & Hnx & Hrc & Haddrs & Her).
    destruct (open_trees_extend h h1 _ Hopen Hsame) as (_ & Hr & _).
    apply Forall_cons in Hr as [Hp _].
    destruct (node_AppendChild_refused h1 tp (fresh_tree h v attrs) Hp Hrc) as [e He].
    { rewrite Her. exact Hallow. }
    rewrite (bind_Ret _ _ _ _ _ Hnew) in Hrun.
    change (root (fresh_tree h v attrs)) with (length h) in He.
    rewrite (bind_Ret _ _ _ _ _ He) in Hrun. injection Hrun as <- _. done.
Qed.

Lemma cursor_at opts (h : heap) tp others :
  cursor (builder_at opts (tp :: others)) h = Ret (Some (root tp), h).
Proof. reflexivity. Qed.

Lemma refines_ext opts (h : heap) ts (m m' : M (option error * Builder)) xs' :
  m h = m' h -> refines opts h ts m xs' -> refines opts h ts m' xs'.
Proof. unfold refines. intros ->. done. Qed.

(** The kind check that precedes the work of CharData, Comment and
    ProcInst. *)
Lemma refines_checked opts (h : heap) tp others nt
    (body : ptr -> M (option error * Builder)) xs' :
  open_trees h (tp :: others) ->
  (allowInsertChild (xkind (erase tp)) nt = true ->
   refines opts h (tp :: others) (body (Some (root tp))) xs') ->
  refines opts h (tp :: others)
    (do cur <- cursor (builder_at opts (tp :: others));
     do ct <- node_NodeType cur;
     match allowInsertChildErr ct nt with
     | Some err => ret (Some err, builder_at opts (tp :: others))
     | None => body cur
     end)
    (if allowInsertChild (xkind (erase tp)) nt then xs' else None).
Proof.
  intros Hopen Hbody.
  assert (Hp : repr h tp).
  { destruct Hopen as (_ & Hr & _). by apply Forall_cons in Hr as [Hp _]. }
  eapply refines_ext.
  { symmetry. rewrite (bind_Ret _ _ _ _ _ (cursor_at opts h tp others)).
    rewrite (bind_Ret _ _ _ _ _ (node_NodeType_repr h tp Hp)). reflexivity. }
  destruct (allowInsertChild (xkind (erase tp)) nt) eqn:Hallow.
  - rewrite (allowInsertChildErr_None _ _ Hallow). by apply Hbody.
  - rewrite (allowInsertChildErr_Some _ _ Hallow). intros r h' [= <- _]. done.
Qed.

Lemma Builder_refines opts tok (h : heap) tp others :
  open_trees h (tp :: others) ->
  refines opts h (tp :: others)
    (td_Token (H := Builder_TokenDecoder TrimSpace Fields) (builder_at opts (tp :: others)) tok)
    (xstep opts (erase <$> (tp :: others)) tok).
Proof.
  intros Hopen. rewrite fmap_cons.
  pose proof Hopen as (Hnd & Hr & Hsp). apply Forall_cons in Hr as [Hp Ho].
  destruct tok as [name attrs | name | cd | c | pi | d]; simpl td_Token; cbn [xstep].
  - (* StartElement *)
    destruct (open_element h tp others name attrs Hopen) as (h' & Hrun & Hopen').
    exists h', (fresh_tree h (VElement name "") attrs :: tp :: others).
    split; [|split; [exact Hopen'|split; [|split; [done|reflexivity]]]].
    + unfold Builder_StartElement. unfold bind in Hrun |- *.
      destruct (newStartElement name attrs h) as [[t h1]| |]; try done.
      rewrite cursor_at.
      destruct (set_parent t (Some (root tp)) h1) as [[u h2]| |]; try done.
      injection Hrun as -> ->. reflexivity.
    + rewrite !fmap_cons, erase_fresh_tree. reflexivity.
  - (* EndElement *)
    simpl in Hsp. destruct Hsp as [(cn & Hcn & Hnx & Hpar) Hsp].
    unfold Builder_EndElement.
    eapply refines_ext.
    { symmetry. rewrite (bind_Ret _ _ _ _ _ (cursor_at opts h tp others)).
      rewrite (bind_Ret _ _ _ _ _ (get_Ret parent h _ _ Hcn)). reflexivity. }
    destruct others as [|t2 rest].
    + rewrite Hpar. simpl. intros r h' Hrun. unfold ret in Hrun. injection Hrun as <- _. done.
    + rewrite Hpar. simpl head. cbn [fmap option_fmap option_map].
      apply Forall_cons in Ho as [Hp2 Ho]. rewrite !fmap_cons.
      change (head (root t2 :: (root <$> rest))) with (Some (root t2)).
      cbv beta iota. unfold xappend.
      destruct (allowInsertChild (xkind (erase t2)) (xkind (erase tp))) eqn:Hallow;
        unfold refines.
      * destruct (close_element h tp t2 rest Hopen Hallow) as (h' & Hrun & Hpar' & Hopen').
        exists h', (add_kid t2 tp :: rest).
        split; [|split; [exact Hopen'|split; [|split; [done|]]]].
        -- rewrite (bind_Ret _ _ _ _ _ Hrun). rewrite (bind_Ret _ _ _ _ _ Hpar').
           unfold builder_at. simpl. by rewrite root_add_kid.
        -- by rewrite fmap_cons, erase_add_kid.
        -- rewrite last_roots_add_kid. reflexivity.
      * destruct (node_AppendChild_refused h t2 tp Hp2 Hp Hallow) as [e He].
        intros r h'. rewrite (bind_Ret _ _ _ _ _ He). intros Hrun. unfold ret in Hrun.
        injection Hrun as <- _. done.
  - (* CharData *)
    unfold Builder_CharData.
    apply (refines_checked opts h tp others NodeTypeText
             (fun cur =>
                if (len cd =? 0)%Z && negb (Has opts parseWSPCData)
                then ret (None, builder_at opts (tp :: others))
                else if negb (Has opts parseTrimPCData) then
                  do t <- newText cd; do err <- node_AppendChild cur t;
                  ret (err, builder_at opts (tp :: others))
                else if Has opts parseWSPCData || (len (TrimSpace cd) >? 0)%Z then
                  do t <- newText (TrimSpace cd); do err <- node_AppendChild cur t;
                  ret (err, builder_at opts (tp :: others))
                else ret (None, builder_at opts (tp :: others)))); [exact Hopen|].
    intros Hallow. unfold CharData_kept. rewrite len_zero, len_pos.
    destruct (empty cd && negb (Has opts parseWSPCData)).
    { by apply (refines_skip opts h (tp :: others)). }
    destruct (Has opts parseTrimPCData); cbn [negb].
    + destruct (Has opts parseWSPCData), (empty (TrimSpace cd)); cbn [orb andb negb];
        first [ by apply (refines_skip opts h (tp :: others))
              | apply (refines_append opts h tp others (VText (TrimSpace cd)) []); exact Hopen ].
    + apply (refines_append opts h tp others (VText cd) []); exact Hopen.
  - (* Comment *)
    unfold Builder_Comment. simpl Builder_opts.
    destruct (negb (Has opts parseComments)).
    { by apply (refines_skip opts h (tp :: others)). }
    apply (refines_checked opts h tp others NodeTypeComment
             (fun cur => do cn <- newComment c; do err <- node_AppendChild cur cn;
                         ret (err, builder_at opts (tp :: others)))); [exact Hopen|].
    intros _. apply (refines_append opts h tp others (VComment c) []); exact Hopen.
  - (* ProcInst *)
    unfold Builder_ProcInst. simpl Builder_opts.
    destruct (bool_decide (Target pi = "xml")).
    + apply (refines_checked opts h tp others NodeTypeDeclaration
               (fun cur =>
                  if bool_decide (NodeTypeDeclaration = NodeTypeDeclaration)
                     && Has opts parseDeclaration then
                    do decl <- newDeclaration Fields pi;
                    do err <- node_AppendChild cur decl;
                    ret (err, builder_at opts (tp :: others))
                  else if bool_decide (NodeTypeDeclaration = NodeTypeProcessingInstruction)
                          && Has opts parsePI then
                    do pn <- newProcInst pi; do err <- node_AppendChild cur pn;
                    ret (err, builder_at opts (tp :: others))
                  else ret (None, builder_at opts (tp :: others)))); [exact Hopen|].
      intros _. cbn [bool_decide decide_rel andb]. rewrite bool_decide_eq_true_2 by done.
      rewrite bool_decide_eq_false_2 by done. cbn [andb].
      destruct (Has opts parseDeclaration).
      * apply (refines_append opts h tp others (VDeclaration pi) (decl_attrs pi)); exact Hopen.
      * by apply (refines_skip opts h (tp :: others)).
    + apply (refines_checked opts h tp others NodeTypeProcessingInstruction
               (fun cur =>
                  if bool_decide (NodeTypeProcessingInstruction = NodeTypeDeclaration)
                     && Has opts parseDeclaration then
                    do decl <- newDeclaration Fields pi;
                    do err <- node_AppendChild cur decl;
                    ret (err, builder_at opts (tp :: others))
                  else if bool_decide (NodeTypeProcessingInstruction
                                       = NodeTypeProcessingInstruction)
                          && Has opts parsePI then
                    do pn <- newProcInst pi; do err <- node_AppendChild cur pn;
                    ret (err, builder_at opts (tp :: others))
                  else ret (None, builder_at opts (tp :: others)))); [exact Hopen|].
      intros _. rewrite bool_decide_eq_false_2 by done.
      rewrite bool_decide_eq_true_2 by done. cbn [andb].
      destruct (Has opts parsePI).
      * apply (refines_append opts h tp others (VProcInst pi) []); exact Hopen.
      * by apply (refines_skip opts h (tp :: others)).
  - (* Directive *)
    intros r h' Hrun. unfold Builder_Directive, ret in Hrun. injection Hrun as <- _. done.
Qed.

End Refinement.

(** ** What the marshaler emits for a tree *)

Fixpoint keep_attrs (attrs : list Attr) : list Attr :=
  match attrs with
  | [] => []
  | a :: rest =>
      if bool_decide (AttrName a <> xmlnsDefault) then a :: keep_attrs rest
      else keep_attrs rest
  end.

Definition xname (v : option payload) : Name :=
  match v with
  | Some (VElement name _) => name
  | Some (VAttribute a) => AttrName a
  | _ => mkName "" ""
  end.

(** The name of an element below a parent of namespace [ps]. *)
Definition emitted_name (explicitNS : bool) (ps : string) (name : Name) : Name :=
  if negb explicitNS then
    if bool_decide (ps = Space name) then mkName "" (Local name) else name
  else name.

Definition start_toks (es : bool) (ps : string) (v : payload) (attrs : list Attr)
  : list Token :=
  match v with
  | VElement name _ => [StartElement (emitted_name es ps name) (keep_attrs attrs)]
  | VText s => [CharData s]
  | VComment c => [Comment c]
  | VDeclaration pi => [ProcInstTok pi]
  | VProcInst pi => [ProcInstTok pi]
  | _ => []
  end.

Definition end_toks (ee : bool) (ps : string) (v : payload) : list Token :=
  match v with
  | VElement name _ => [EndElement (emitted_name ee ps name)]
  | _ => []
  end.

Fixpoint xemit (es ee : bool) (ps : string) (x : xtree) : list Token :=
  match x with
  | XNode v attrs kids =>
      start_toks es ps v attrs
        ++ flat_map (xemit es ee (Space (xname (Some v)))) kids
        ++ end_toks ee ps v
  end.

(** No node of the tree is an attribute. *)
Fixpoint plain (x : xtree) : bool :=
  match x with
  | XNode v _ kids =>
      match v with VAttribute _ => false | _ => true end && forallb plain kids
  end.

Fixpoint count (t : tree) : nat :=
  match t with Tree _ _ _ kids => S (list_sum (map count kids)) end.

Fixpoint width (t : tree) : nat :=
  match t with
  | Tree _ _ attrs kids =>
      Nat.max (length attrs) (Nat.max (length kids) (list_max (map width kids)))
  end.

Lemma collectAttrs_chain own (h : heap) first (attrs : list (nat * Attr)) :
  chain own h first (fst <$> attrs) -> Forall (holds_attr h) attrs ->
  forall n i fuel, length attrs = i + n -> n <= fuel ->
    collectAttrs fuel ((fst <$> attrs) !! i) h
    = Ret (keep_attrs (snd <$> drop i attrs), h).
Proof.
  intros (_ & _ & Hks) Hpay. induction n as [|n IH]; intros i fuel Hlen Hfuel.
  - rewrite lookup_ge_None_2 by (rewrite length_fmap; lia).
    rewrite drop_ge by lia. by destruct fuel.
  - destruct (lookup_lt_is_Some_2 attrs i) as [[k a] Hi]; [lia|].
    assert (Hk : (fst <$> attrs) !! i = Some k) by (by rewrite list_lookup_fmap, Hi).
    destruct (Hks i k Hk) as (m & Hm & _ & Hnx & _).
    rewrite Forall_lookup in Hpay. destruct (Hpay i (k, a) Hi) as (an & Han & Hv).
    simpl in Han, Hv. assert (an = m) as -> by congruence.
    destruct fuel as [|fuel]; [lia|]. rewrite Hk. simpl.
    rewrite (bind_Ret _ _ _ _ _ (get_Ret value h k m Hm)). rewrite Hv.
    rewrite (bind_Ret _ _ _ _ _ (get_Ret nextSib h k m Hm)). rewrite Hnx.
    rewrite (bind_Ret _ _ _ _ _ (IH (S i) fuel ltac:(lia) ltac:(lia))).
    rewrite (drop_S _ _ _ Hi). reflexivity.
Qed.

Lemma pushSiblings_chain own (h : heap) first ks tl s :
  chain own h first ks -> last ks = Some tl ->
  forall j fuel, S j < length ks -> j + 2 <= fuel ->
    pushSiblings fuel (ks !! j)
      ((encodeNodeValueStart ∘ Some <$> drop (S j) ks) ++ s) h
    = Ret ((encodeNodeValueStart ∘ Some <$> ks) ++ s, h).
Proof.
  intros (_ & _ & Hks) Hlast. induction j as [|j IH]; intros fuel Hj Hfuel.
  - destruct (lookup_lt_is_Some_2 ks 0) as [k Hk]; [lia|].
    destruct (Hks 0 k Hk) as (m & Hm & _ & Hnx & Hpv).
    destruct (lookup_lt_is_Some_2 ks 1) as [k1 Hk1]; [lia|].
    destruct fuel as [|[|fuel]]; try lia. rewrite Hk. simpl pushSiblings.
    rewrite (bind_Ret _ _ _ _ _ (get_Ret nextSib h k m Hm)). rewrite Hnx, Hk1.
    rewrite (bind_Ret _ _ _ _ _ (get_Ret prevSib h k m Hm)). rewrite Hpv, Hlast.
    rewrite last_lookup in Hlast.
    destruct (Hks _ tl Hlast) as (mt & Hmt & _ & Hnxt & _).
    rewrite (bind_Ret _ _ _ _ _ (get_Ret nextSib h tl mt Hmt)). rewrite Hnxt.
    rewrite lookup_ge_None_2 by lia. unfold ret. do 2 f_equal.
    rewrite app_comm_cons. f_equal.
    change (encodeNodeValueStart (Some k)) with ((encodeNodeValueStart ∘ Some) k).
    rewrite <- fmap_cons, <- (drop_S _ _ _ Hk). reflexivity.
  - destruct (lookup_lt_is_Some_2 ks (S j)) as [k Hk]; [lia|].
    destruct (Hks (S j) k Hk) as (m & Hm & _ & Hnx & Hpv).
    destruct (lookup_lt_is_Some_2 ks (S (S j))) as [k1 Hk1]; [lia|].
    destruct fuel as [|fuel]; try lia. rewrite Hk. simpl pushSiblings.
    rewrite (bind_Ret _ _ _ _ _ (get_Ret nextSib h k m Hm)). rewrite Hnx, Hk1.
    rewrite (bind_Ret _ _ _ _ _ (get_Ret prevSib h k m Hm)). rewrite Hpv.
    rewrite <- (IH fuel ltac:(lia) ltac:(lia)).
    rewrite (drop_S _ _ _ Hk), fmap_cons. reflexivity.
Qed.

(** The namespace [ps] is the one of the parent of the element at [a]. *)
Definition below (h : heap) (a : nat) (ps : string) : Prop :=
  forall n name pfx, h !! a = Some n -> value n = Some (VElement name pfx) ->
    exists p pn, parent n = Some p /\ h !! p = Some pn /\ Space (xname (value pn)) = ps.

Lemma node_xmlName_Ret (h : heap) a n :
  h !! a = Some n -> node_xmlName (Some a) h = Ret (xname (value n), h).
Proof.
  intros Hn. unfold node_xmlName. rewrite (bind_Ret _ _ _ _ _ (get_Ret value h a n Hn)).
  reflexivity.
Qed.

Lemma elidedName_Ret (h : heap) a n name pfx ps explicitNS :
  h !! a = Some n -> value n = Some (VElement name pfx) -> below h a ps ->
  elidedName explicitNS (Some a) h = Ret (emitted_name explicitNS ps name, h).
Proof.
  intros Hn Hv Hbelow. destruct (Hbelow n name pfx Hn Hv) as (p & pn & Hpar & Hpn & Hps).
  unfold elidedName, emitted_name.
  rewrite (bind_Ret _ _ _ _ _ (node_xmlName_Ret h a n Hn)). rewrite Hv. simpl xname.
  rewrite (bind_Ret _ _ _ _ _ (get_Ret parent h a n Hn)). rewrite Hpar.
  destruct (negb explicitNS); [|reflexivity].
  rewrite (bind_Ret _ _ _ _ _ (node_xmlName_Ret h p pn Hpn)). rewrite Hps.
  by destruct (bool_decide (ps = Space name)).
Qed.

Section TreeOrder.
Variable e : Marshaler.
Variable h : heap.

Definition start_flag : bool := Has (Marshaler_opts e) marshalExplicitNS.

Lemma call_start a v attrs kids ps fuel (enc : list Token) :
  repr h (Tree a v attrs kids) -> plain (erase (Tree a v attrs kids)) = true ->
  below h a ps -> length attrs <= fuel ->
  call fuel e enc (encodeNodeValueStart (Some a)) h
  = Ret ((Some a, None, enc ++ start_toks start_flag ps v (snd <$> attrs)), h).
Proof.
  intros Hr Hplain Hbelow Hfuel.
  inversion Hr as [a0 v0 attrs0 kids0 n Hn Hv Hat Hpay Hch Hkids]; subst.
  unfold call. rewrite (bind_Ret _ _ _ _ _ (node_NodeType_Ret h a n Hn)). rewrite Hv.
  destruct v as [name pfx|at0|s|c| | |pi|pi]; simpl payload_nodeType; cbv iota;
    try (simpl in Hplain; discriminate Hplain);
    try (cbv [bind get load ret]; rewrite ?Hn; cbv beta iota; rewrite ?Hv, ?app_nil_r;
         reflexivity).
  assert (Hinner :
    (do name0 <- elidedName (Has (Marshaler_opts e) marshalExplicitNS) (Some a);
     do fa <- get firstAttr (Some a);
     do attrs0 <- collectAttrs fuel fa;
     ret (EncodeToken enc (StartElement name0 attrs0))) h
    = Ret (EncodeToken enc (StartElement (emitted_name start_flag ps name)
                              (keep_attrs (snd <$> attrs))), h)).
  { rewrite (bind_Ret _ _ _ _ _ (elidedName_Ret h a n name pfx ps _ Hn Hv Hbelow)).
    rewrite (bind_Ret _ _ _ _ _ (get_Ret firstAttr h a n Hn)).
    destruct Hat as (pn & Hpn & Hchain). assert (pn = n) as -> by congruence.
    pose proof (collectAttrs_chain _ h _ attrs Hchain Hpay (length attrs) 0 fuel
                  ltac:(lia) Hfuel) as Hcol.
    destruct Hchain as (_ & Hfirst & _). rewrite <- head_lookup, <- Hfirst in Hcol.
    rewrite (bind_Ret _ _ _ _ _ Hcol). rewrite drop_0. reflexivity. }
  rewrite (bind_Ret _ _ _ _ _ Hinner). reflexivity.
Qed.

Lemma call_end a v attrs kids ps fuel (enc : list Token) :
  repr h (Tree a v attrs kids) -> below h a ps ->
  call fuel e enc (encodeNodeValueEnd (Some a)) h
  = Ret ((None, None, enc ++ end_toks (emitExplicitNS e) ps v), h).
Proof.
  intros Hr Hbelow.
  inversion Hr as [a0 v0 attrs0 kids0 n Hn Hv Hat Hpay Hch Hkids]; subst.
  unfold call. rewrite (bind_Ret _ _ _ _ _ (node_NodeType_Ret h a n Hn)). rewrite Hv.
  destruct v as [name pfx|at0|s|c| | |pi|pi]; cbn [payload_nodeType]; cbv iota;
    try (unfold ret; simpl; rewrite app_nil_r; reflexivity).
  assert (Hinner : endElementForNode (Some a) (emitExplicitNS e) h
                   = Ret (EndElement (emitted_name (emitExplicitNS e) ps name), h)).
  { unfold endElementForNode.
    rewrite (bind_Ret _ _ _ _ _ (elidedName_Ret h a n name pfx ps _ Hn Hv Hbelow)).
    reflexivity. }
  rewrite (bind_Ret _ _ _ _ _ Hinner). reflexivity.
Qed.

Lemma loop_start fuel (enc enc' : list Token) a ks s :
  call (S fuel) e enc (encodeNodeValueStart (Some a)) h = Ret ((Some a, None, enc'), h) ->
  children h a ks -> length ks <= S fuel ->
  treeOrder_loop (S fuel) e enc (encodeNodeValueStart (Some a) :: s) h
  = treeOrder_loop fuel e enc'
      ((encodeNodeValueStart ∘ Some <$> ks) ++ encodeNodeValueEnd (Some a) :: s) h.
Proof.
  intros Hcall (pn & Hpn & Hchain) Hlen. cbn [treeOrder_loop].
  rewrite (bind_Ret _ _ _ _ _ Hcall). cbv iota beta.
  rewrite (bind_Ret _ _ _ _ _ (get_Ret firstChild h a pn Hpn)).
  pose proof Hchain as (_ & Hfirst & Hks). rewrite Hfirst.
  destruct ks as [|k ks']; [reflexivity|].
  change (head (k :: ks')) with (Some k). cbv iota.
  destruct (Hks 0 k eq_refl) as (m & Hm & _ & _ & Hpv).
  destruct (chain_last_Some _ h _ _ 0 k Hchain eq_refl) as [tl Htl].
  rewrite Htl in Hpv. pose proof Htl as Htl'. rewrite last_lookup in Htl'.
  destruct (Hks _ tl Htl') as (mt & Hmt & _ & Hnxt & Hpvt).
  rewrite (bind_Ret _ _ _ _ _ (get_Ret prevSib h k m Hm)). rewrite Hpv.
  rewrite (bind_Ret _ _ _ _ _ (get_Ret prevSib h tl mt Hmt)).
  destruct ks' as [|k1 ks''].
  - simpl in Htl'. injection Htl' as <-. simpl in Hpvt. rewrite Hpvt.
    assert (Hpush : forall s3, pushSiblings (S fuel) (Some k) s3 h = Ret (s3, h)).
    { intros s3. simpl pushSiblings.
      rewrite (bind_Ret _ _ _ _ _ (get_Ret nextSib h k mt Hmt)). rewrite Hnxt. reflexivity. }
    rewrite (bind_Ret _ _ _ _ _ (Hpush _)). reflexivity.
  - set (ks := k :: k1 :: ks'') in *.
    assert (Hpv' : prevSib mt = ks !! (pred (pred (length ks)))).
    { rewrite Hpvt. subst ks. reflexivity. }
    rewrite Hpv'.
    pose proof (pushSiblings_chain _ h _ ks tl (encodeNodeValueEnd (Some a) :: s)
                  Hchain Htl (pred (pred (length ks))) (S fuel)) as Hpush.
    assert (Hdrop : drop (S (pred (pred (length ks)))) ks = [tl]).
    { replace (S (pred (pred (length ks)))) with (pred (length ks)) by (subst ks; simpl; lia).
      rewrite (drop_S _ _ _ Htl'). rewrite drop_ge by (subst ks; simpl; lia). reflexivity. }
    rewrite Hdrop in Hpush.
    rewrite (bind_Ret _ _ _ _ _ (Hpush ltac:(subst ks; simpl; lia) ltac:(subst ks; simpl in *; lia))).
    reflexivity.
Qed.

Lemma loop_end fuel (enc enc' : list Token) a s :
  call (S fuel) e enc (encodeNodeValueEnd (Some a)) h = Ret ((None, None, enc'), h) ->
  treeOrder_loop (S fuel) e enc (encodeNodeValueEnd (Some a) :: s) h
  = treeOrder_loop fuel e enc' s h.
Proof.
  intros Hcall. cbn [treeOrder_loop]. rewrite (bind_Ret _ _ _ _ _ Hcall). reflexivity.
Qed.

Definition loop_emits (W : nat) (ps : string) (t : tree) : Prop :=
  forall fuel (enc : list Token) s, 2 * count t + W <= fuel ->
    treeOrder_loop fuel e enc (encodeNodeValueStart (Some (root t)) :: s) h
    = treeOrder_loop (fuel - 2 * count t) e
        (enc ++ xemit start_flag (emitExplicitNS e) ps (erase t)) s h.

Lemma loop_kids W ps kids :
  Forall (loop_emits W ps) kids ->
  forall fuel (enc : list Token) s, 2 * list_sum (map count kids) + W <= fuel ->
    treeOrder_loop fuel e enc ((encodeNodeValueStart ∘ Some <$> (root <$> kids)) ++ s) h
    = treeOrder_loop (fuel - 2 * list_sum (map count kids)) e
        (enc ++ flat_map (xemit start_flag (emitExplicitNS e) ps) (erase <$> kids)) s h.
Proof.
  induction 1 as [|k kids Hk _ IH]; intros fuel enc s Hfuel.
  - simpl. by rewrite Nat.sub_0_r, app_nil_r.
  - rewrite !fmap_cons.
    change (list_sum (map count (k :: kids))) with (count k + list_sum (map count kids)) in *.
    change (flat_map (xemit start_flag (emitExplicitNS e) ps) (erase k :: (erase <$> kids)))
      with (xemit start_flag (emitExplicitNS e) ps (erase k)
              ++ flat_map (xemit start_flag (emitExplicitNS e) ps) (erase <$> kids)).
    change (((encodeNodeValueStart ∘ Some) (root k)
               :: (encodeNodeValueStart ∘ Some <$> (root <$> kids))) ++ s)
      with (encodeNodeValueStart (Some (root k))
              :: ((encodeNodeValueStart ∘ Some <$> (root <$> kids)) ++ s)).
    rewrite Hk by lia. rewrite IH by lia. rewrite <- app_assoc.
    replace (fuel - 2 * count k - 2 * list_sum (map count kids))
      with (fuel - 2 * (count k + list_sum (map count kids))) by lia.
    reflexivity.
Qed.

Lemma width_kid a v attrs kids k :
  k ∈ kids -> width k <= width (Tree a v attrs kids).
Proof.
  intros Hk. simpl. assert (width k <= list_max (map width kids)); [|lia].
  induction kids as [|x kids IH]; [by apply elem_of_nil in Hk|].
  simpl. apply elem_of_cons in Hk as [->|Hk]; [lia|]. specialize (IH Hk). lia.
Qed.

Lemma loop_tree W t :
  repr h t -> plain (erase t) = true -> width t <= W ->
  forall ps, below h (root t) ps -> loop_emits W ps t.
Proof.
  induction t as [a v attrs kids IH] using tree_induction.
  intros Hr Hplain Hw ps Hbelow fuel enc s Hfuel.
  inversion Hr as [a0 v0 attrs0 kids0 n Hn Hv Hat Hpay Hch Hkids]; subst.
  assert (Hkidsok : Forall (loop_emits W (Space (xname (Some v)))) kids).
  { apply Forall_forall. intros k Hk. rewrite Forall_forall in IH, Hkids.
    apply IH; [done | by apply Hkids | | |].
    - simpl in Hplain. apply andb_true_iff in Hplain as [_ Hplain].
      rewrite forallb_forall in Hplain. apply Hplain.
      apply list_elem_of_In. apply list_elem_of_fmap. by exists k.
    - pose proof (width_kid a v attrs kids k Hk). lia.
    - intros m name pfx Hm _. destruct Hch as (pn & Hpn & _ & _ & Hks).
      assert (Hin : root k ∈ (root <$> kids)) by (apply list_elem_of_fmap; by exists k).
      apply list_elem_of_lookup in Hin as [i Hi].
      destruct (Hks i _ Hi) as (m' & Hm' & Hown & _).
      assert (m' = m) as -> by congruence.
      exists a, n. split; [done|]. split; [done|]. by rewrite Hv. }
  simpl root.
  change (count (Tree a v attrs kids)) with (S (list_sum (map count kids))) in *.
  change (width (Tree a v attrs kids))
    with (Nat.max (length attrs) (Nat.max (length kids) (list_max (map width kids)))) in Hw.
  destruct fuel as [|f]; [lia|].
  rewrite (loop_start f enc _ a (root <$> kids) s
             (call_start a v attrs kids ps (S f) enc Hr Hplain Hbelow ltac:(lia)) Hch)
    by (rewrite length_fmap; lia).
  rewrite (loop_kids W _ kids Hkidsok) by lia.
  replace (f - 2 * list_sum (map count kids))
    with (S (f - 2 * list_sum (map count kids) - 1)) by lia.
  rewrite (loop_end _ _ _ a s (call_end a v attrs kids ps _ _ Hr Hbelow)).
  replace (f - 2 * list_sum (map count kids) - 1)
    with (S f - 2 * S (list_sum (map count kids))) by lia.
  simpl xemit. by rewrite <- !app_assoc.
Qed.

(** Enough fuel makes [WriteTo] hand the encoder the tokens of the tree. *)
Lemma WriteTo_tree t ps fuel :
  repr h t -> plain (erase t) = true -> below h (root t) ps ->
  Marshaler_Node e = Some (root t) ->
  2 * count t + width t <= fuel ->
  WriteTo fuel e ([] : list Token) h
  = Ret ((None, xemit start_flag (emitExplicitNS e) ps (erase t)), h).
Proof.
  intros Hr Hplain Hbelow Hnode Hfuel.
  assert (Horder : treeOrder fuel e ([] : list Token) h
                   = Ret ((None, xemit start_flag (emitExplicitNS e) ps (erase t)), h)).
  { unfold treeOrder. rewrite Hnode.
    rewrite (loop_tree (width t) t Hr Hplain ltac:(lia) ps Hbelow fuel [] [] Hfuel).
    by destruct (fuel - 2 * count t). }
  unfold WriteTo. rewrite (bind_Ret _ _ _ _ _ Horder). reflexivity.
Qed.

End TreeOrder.

Lemma xtree_induction (P : xtree -> Prop) :
  (forall v attrs kids, Forall P kids -> P (XNode v attrs kids)) -> forall x, P x.
Proof.
  intros H. fix IH 1. intros [v attrs kids]. apply H.
  induction kids as [|k ks IHks]; constructor; [apply IH | exact IHks].
Qed.

Lemma keep_attrs_idem attrs : keep_attrs (keep_attrs attrs) = keep_attrs attrs.
Proof.
  induction attrs as [|a rest IH]; [done|]. simpl.
  destruct (bool_decide (AttrName a <> xmlnsDefault)) eqn:E; [|done].
  simpl. by rewrite E, IH.
Qed.

(** The tree that decoding the tokens of [x] builds again. *)
Fixpoint norm (es : bool) (ps : string) (x : xtree) : xtree :=
  match x with
  | XNode v attrs kids =>
      match v with
      | VElement name _ =>
          XNode (VElement (emitted_name es ps name) "") (keep_attrs attrs)
            (norm es (Space name) <$> kids)
      | _ => x
      end
  end.

Definition xadd_kids (p : xtree) (l : list xtree) : xtree :=
  match p with XNode v attrs kids => XNode v attrs (kids ++ l) end.

Definition holder (p : xtree) : Prop :=
  xkind p = NodeTypeElement \/ xkind p = NodeTypeDocument.

Section Pure.
Variable TrimSpace : list byte -> list byte.
Variable Fields : list byte -> list (list byte).
Hypothesis TrimSpace_idem : forall b, TrimSpace (TrimSpace b) = TrimSpace b.
Variable opts : bitflag.

Fixpoint xrun (xs : list xtree) (toks : list Token) : option (list xtree) :=
  match toks with
  | [] => Some xs
  | t :: rest =>
      match xstep TrimSpace Fields opts xs t with
      | Some xs' => xrun xs' rest
      | None => None
      end
  end.

Lemma xrun_app xs l1 l2 :
  xrun xs (l1 ++ l2) = match xrun xs l1 with Some xs' => xrun xs' l2 | None => None end.
Proof.
  revert xs. induction l1 as [|t l1 IH]; intros xs; [done|]. simpl.
  destruct (xstep TrimSpace Fields opts xs t); [apply IH | done].
Qed.

(** The trees the Builder makes below a parent of kind [pk]. *)
Inductive built : NodeType -> xtree -> Prop :=
| built_element pk name attrs kids :
    Forall (built NodeTypeElement) kids ->
    built pk (XNode (VElement name "") attrs kids)
| built_text pk s :
    CharData_kept TrimSpace opts s = Some s -> built pk (XNode (VText s) [] [])
| built_comment pk c :
    Has opts parseComments = true -> built pk (XNode (VComment c) [] [])
| built_declaration pi :
    Target pi = "xml" -> Has opts parseDeclaration = true ->
    built NodeTypeDocument (XNode (VDeclaration pi) (decl_attrs Fields pi) [])
| built_procinst pk pi :
    Target pi <> "xml" -> Has opts parsePI = true ->
    built pk (XNode (VProcInst pi) [] []).

Inductive zbuilt : list xtree -> Prop :=
| zbuilt_doc kids :
    Forall (built NodeTypeDocument) kids -> zbuilt [XNode VDocument [] kids]
| zbuilt_open name attrs kids rest :
    Forall (built NodeTypeElement) kids -> zbuilt rest ->
    zbuilt (XNode (VElement name "") attrs kids :: rest).

Lemma CharData_kept_stable cd data :
  CharData_kept TrimSpace opts cd = Some data ->
  CharData_kept TrimSpace opts data = Some data.
Proof.
  unfold CharData_kept.
  destruct (empty cd && negb (Has opts parseWSPCData)) eqn:E1; [done|].
  destruct (Has opts parseTrimPCData).
  - destruct (empty (TrimSpace cd) && negb (Has opts parseWSPCData)) eqn:E2; [done|].
    intros [= <-]. by rewrite TrimSpace_idem, E2.
  - intros [= <-]. by rewrite E1.
Qed.

Lemma zbuilt_holder p rest : zbuilt (p :: rest) -> holder p.
Proof. inversion 1; subst; [by right | by left]. Qed.

Lemma zbuilt_append p rest c :
  zbuilt (p :: rest) -> built (xkind p) c -> zbuilt (xadd_kid p c :: rest).
Proof.
  inversion 1; subst; intros Hc; simpl.
  - apply zbuilt_doc. apply Forall_app. split; [done|]. by apply Forall_cons.
  - apply zbuilt_open; [|done]. apply Forall_app. split; [done|]. by apply Forall_cons.
Qed.

Lemma xappend_zbuilt xs c xs' :
  zbuilt xs -> (forall p rest, xs = p :: rest -> built (xkind p) c) ->
  xappend xs c = Some xs' -> zbuilt xs'.
Proof.
  intros Hz Hc. destruct xs as [|p rest]; [done|]. simpl.
  destruct (allowInsertChild (xkind p) (xkind c)); [|done].
  intros [= <-]. apply zbuilt_append; [done | by eapply Hc].
Qed.

Lemma xstep_zbuilt xs t xs' :
  zbuilt xs -> xstep TrimSpace Fields opts xs t = Some xs' -> zbuilt xs'.
Proof.
  intros Hz. destruct xs as [|p rest]; [done|].
  destruct t as [name attrs | name | cd | c | pi | d]; cbn [xstep].
  - intros [= <-]. apply zbuilt_open; [apply Forall_nil_2 | done].
  - inversion Hz; subst; [done|]. apply xappend_zbuilt; [done|].
    intros p rest' _. by apply built_element.
  - destruct (allowInsertChild (xkind p) NodeTypeText); [|done].
    destruct (CharData_kept TrimSpace opts cd) as [data|] eqn:Hk.
    + apply xappend_zbuilt; [done|]. intros p' rest' _. apply built_text.
      by eapply CharData_kept_stable.
    + by intros [= <-].
  - destruct (Has opts parseComments) eqn:Hc; cbn [negb]; [|by intros [= <-]].
    destruct (allowInsertChild (xkind p) NodeTypeComment); [|done].
    apply xappend_zbuilt; [done|]. intros p' rest' _. by apply built_comment.
  - destruct (bool_decide (Target pi = "xml")) eqn:Ht.
    + apply bool_decide_eq_true in Ht.
      destruct (allowInsertChild (xkind p) NodeTypeDeclaration) eqn:Hallow; [|done].
      destruct (Has opts parseDeclaration) eqn:Hf; [|by intros [= <-]].
      apply xappend_zbuilt; [done|]. intros p' rest' [= <- <-].
      inversion Hz; subst; [by apply built_declaration | discriminate Hallow].
    + apply bool_decide_eq_false in Ht.
      destruct (allowInsertChild (xkind p) NodeTypeProcessingInstruction); [|done].
      destruct (Has opts parsePI) eqn:Hf; [|by intros [= <-]].
      apply xappend_zbuilt; [done|]. intros p' rest' _. by apply built_procinst.
  - done.
Qed.

Lemma xrun_zbuilt toks : forall xs xs', zbuilt xs -> xrun xs toks = Some xs' -> zbuilt xs'.
Proof.
  induction toks as [|t toks IH]; intros xs xs' Hz; simpl; [by intros [= <-]|].
  destruct (xstep TrimSpace Fields opts xs t) as [xs1|] eqn:Hs; [|done].
  apply IH. by eapply xstep_zbuilt.
Qed.

Lemma zbuilt_last xs :
  zbuilt xs -> exists kids, last xs = Some (XNode VDocument [] kids)
                            /\ Forall (built NodeTypeDocument) kids.
Proof.
  induction 1 as [kids Hk | name attrs kids rest Hk Hz (K & Hlast & HK)].
  - by exists kids.
  - exists K. split; [|done]. destruct rest; [done|]. exact Hlast.
Qed.

Lemma built_plain x : forall pk, built pk x -> plain x = true.
Proof.
  induction x as [v attrs kids IH] using xtree_induction. intros pk Hb.
  inversion Hb as [pk0 name attrs0 kids0 Hkids| | | |]; subst; try reflexivity. simpl.
  apply forallb_forall. intros k Hk. apply list_elem_of_In in Hk.
  rewrite Forall_forall in IH, Hkids. eapply IH; eauto.
Qed.

Variable es : bool.

(** The namespace [ps'] of the parent after decoding again, against the
    namespace [ps] it had before. *)
Definition elided_or_same (ps ps' : string) : Prop :=
  ps' = ps \/ (es = false /\ ps' = "").

Lemma emitted_name_again ps ps' name :
  elided_or_same ps ps' ->
  emitted_name es ps' (emitted_name es ps name) = emitted_name es ps name.
Proof.
  unfold emitted_name, elided_or_same. destruct name as [sp lc], es; simpl; [done|].
  intros [->| [_ ->]]; repeat case_bool_decide; simpl in *; congruence.
Qed.

Lemma emitted_end_again ps ps' name :
  elided_or_same ps ps' ->
  emitted_name false ps' (emitted_name es ps name) = emitted_name false ps name.
Proof.
  unfold emitted_name, elided_or_same. destruct name as [sp lc], es; simpl.
  - intros [->| [? _]]; [done | discriminate].
  - intros [->| [_ ->]]; repeat case_bool_decide; simpl in *; congruence.
Qed.

Lemma emitted_space ps name :
  elided_or_same (Space name) (Space (emitted_name es ps name)).
Proof.
  unfold emitted_name, elided_or_same. destruct name as [sp lc], es; simpl; [by left|].
  case_bool_decide; simpl; [by right | by left].
Qed.

Lemma holder_allows p nt :
  holder p ->
  nt = NodeTypeElement \/ nt = NodeTypeText \/ nt = NodeTypeComment
  \/ nt = NodeTypeProcessingInstruction ->
  allowInsertChild (xkind p) nt = true.
Proof. intros [-> | ->] [-> | [-> | [-> | ->]]]; reflexivity. Qed.

Lemma xkind_add_kid p c : xkind (xadd_kid p c) = xkind p.
Proof. by destruct p. Qed.

Definition feeds (x : xtree) : Prop :=
  forall pk, built pk x ->
  forall p rest ps, xkind p = pk -> holder p ->
    xrun (p :: rest) (xemit es false ps x) = Some (xadd_kid p (norm es ps x) :: rest).

Lemma feed_kids pk ps kids :
  Forall feeds kids -> Forall (built pk) kids ->
  forall q rest, xkind q = pk -> holder q ->
    xrun (q :: rest) (flat_map (xemit es false ps) kids)
    = Some (xadd_kids q (norm es ps <$> kids) :: rest).
Proof.
  induction 1 as [|k kids Hk _ IH]; intros Hb q rest Hq Hh.
  - simpl. destruct q. simpl. by rewrite app_nil_r.
  - apply Forall_cons in Hb as [Hbk Hb].
    change (flat_map (xemit es false ps) (k :: kids))
      with (xemit es false ps k ++ flat_map (xemit es false ps) kids).
    rewrite xrun_app, (Hk pk Hbk q rest ps Hq Hh).
    rewrite IH; [|done | by rewrite xkind_add_kid |].
    + destruct q. simpl. by rewrite <- app_assoc.
    + unfold holder. by rewrite xkind_add_kid.
Qed.

Lemma feed_tree x : feeds x.
Proof.
  induction x as [v attrs kids IH] using xtree_induction.
  intros pk Hb.
  inversion Hb as [pk0 name attrs0 kids0 Hkids | pk0 s Hs | pk0 c Hc | pi Ht Hf
                  | pk0 pi Ht Hf]; subst; intros p rest ps Hp Hh.
  - change (xemit es false ps (XNode (VElement name "") attrs kids))
      with (StartElement (emitted_name es ps name) (keep_attrs attrs)
              :: (flat_map (xemit es false (Space name)) kids
                    ++ [EndElement (emitted_name false ps name)])).
    cbn [xrun xstep]. rewrite xrun_app.
    rewrite (feed_kids NodeTypeElement (Space name) kids IH Hkids); [|done | by left].
    cbn [xrun xstep xadd_kids xappend app].
    change (xkind (XNode (VElement (emitted_name es ps name) "") (keep_attrs attrs)
                     (norm es (Space name) <$> kids))) with NodeTypeElement.
    rewrite (holder_allows p NodeTypeElement Hh) by auto. reflexivity.
  - cbn [xemit start_toks end_toks flat_map app xrun xstep].
    rewrite (holder_allows p NodeTypeText Hh) by auto. rewrite Hs.
    cbn [xappend]. change (xkind (XNode (VText s) [] [])) with NodeTypeText.
    rewrite (holder_allows p NodeTypeText Hh) by auto. reflexivity.
  - cbn [xemit start_toks end_toks flat_map app xrun xstep]. rewrite Hc. cbn [negb].
    rewrite (holder_allows p NodeTypeComment Hh) by auto.
    cbn [xappend]. change (xkind (XNode (VComment c) [] [])) with NodeTypeComment.
    rewrite (holder_allows p NodeTypeComment Hh) by auto. reflexivity.
  - cbn [xemit start_toks end_toks flat_map app xrun xstep].
    rewrite bool_decide_eq_true_2 by done. rewrite Hp. cbn [allowInsertChild].
    change (allowInsertChild NodeTypeDocument NodeTypeDeclaration) with true. cbv iota.
    rewrite Hf. cbn [xappend].
    change (xkind (XNode (VDeclaration pi) (decl_attrs Fields pi) []))
      with NodeTypeDeclaration.
    rewrite Hp. change (allowInsertChild NodeTypeDocument NodeTypeDeclaration) with true.
    reflexivity.
  - cbn [xemit start_toks end_toks flat_map app xrun xstep].
    rewrite bool_decide_eq_false_2 by done.
    rewrite (holder_allows p NodeTypeProcessingInstruction Hh) by auto. rewrite Hf.
    cbn [xappend]. change (xkind (XNode (VProcInst pi) [] []))
      with NodeTypeProcessingInstruction.
    rewrite (holder_allows p NodeTypeProcessingInstruction Hh) by auto. reflexivity.
Qed.

Definition emits_again (x : xtree) : Prop :=
  forall pk, built pk x ->
  forall ps ps', elided_or_same ps ps' ->
    xemit es false ps' (norm es ps x) = xemit es false ps x.

Lemma emit_norm x : emits_again x.
Proof.
  induction x as [v attrs kids IH] using xtree_induction.
  intros pk Hb ps ps' Hps.
  inversion Hb as [pk0 name attrs0 kids0 Hkids | | | |]; subst; try reflexivity.
  cbn [norm xemit start_toks end_toks xname].
  rewrite (emitted_name_again ps ps' name Hps), (emitted_end_again ps ps' name Hps).
  rewrite keep_attrs_idem. do 2 f_equal.
  pose proof (emitted_space ps name) as Hsp.
  revert Hsp. generalize (Space (emitted_name es ps name)). intros sp Hsp.
  clear Hb. induction IH as [|k kids Hk _ IHk]; [done|].
  apply Forall_cons in Hkids as [Hbk Hkids]. rewrite fmap_cons. simpl.
  rewrite (Hk _ Hbk _ _ Hsp). f_equal. by apply IHk.
Qed.

Lemma emit_norm_kids pk kids :
  Forall (built pk) kids ->
  flat_map (xemit es false "") (norm es "" <$> kids) = flat_map (xemit es false "") kids.
Proof.
  induction 1 as [|k kids Hk _ IH]; [done|]. rewrite fmap_cons. simpl.
  rewrite (emit_norm k pk Hk "" ""); [by rewrite IH | by left].
Qed.

End Pure.

(** ** Decoding and encoding a document, as the tests of the package do *)

Section RoundTrip.
Variable TrimSpace : list byte -> list byte.
Variable Fields : list byte -> list (list byte).

(** [doc := NewDocument(); err := NewUnmarshaler(doc, opts).UnmarshalXML(d)]
    for a token source [d] that yields [toks] and then [io.EOF]. *)
Definition decode (opts : bitflag) (toks : list Token) : M (option error * ptr) :=
  do doc <- newDocument;
  do r <- UnmarshalXML (H := Builder_TokenDecoder TrimSpace Fields) toks EOF
            (mkBuilder doc opts);
  ret (r.1, doc).

(** [NewMarshaler(doc, opts).WriteTo(w)] with an encoder that records the
    tokens it is given. *)
Definition encode (fuel : nat) (mopts : bitflag) (doc : ptr)
  : M (option error * list Token) :=
  WriteTo fuel (mkMarshaler doc mopts false) [].

Lemma loop_refines opts toks :
  forall (h : heap) ts, open_trees h ts -> ts <> [] ->
    refines opts h ts
      (UnmarshalXML_loop (H := Builder_TokenDecoder TrimSpace Fields) toks EOF
         (builder_at opts ts))
      (xrun TrimSpace Fields opts (erase <$> ts) toks).
Proof.
  induction toks as [|t toks IH]; intros h ts Hopen Hne.
  - exists h, ts. done.
  - destruct ts as [|tp others]; [done|].
    pose proof (Builder_refines TrimSpace Fields opts t h tp others Hopen) as Hstep.
    cbn [xrun UnmarshalXML_loop].
    destruct (xstep TrimSpace Fields opts (erase <$> tp :: others) t) as [xs1|].
    + destruct Hstep as (h1 & ts1 & Hrun & Hopen1 & <- & Hne1 & Hlast1).
      specialize (IH h1 ts1 Hopen1 Hne1). unfold refines in IH |- *.
      destruct (xrun TrimSpace Fields opts (erase <$> ts1) toks) as [xs2|].
      * destruct IH as (h2 & ts2 & Hrun2 & Hopen2 & <- & Hne2 & Hlast2).
        exists h2, ts2. split; [by rewrite (bind_Ret _ _ _ _ _ Hrun)|].
        split; [done|]. split; [done|]. split; [done | congruence].
      * intros r h'. rewrite (bind_Ret _ _ _ _ _ Hrun). apply IH.
    + unfold refines in Hstep |- *. intros r h'. unfold bind.
      destruct (td_Token (builder_at opts (tp :: others)) t h)
        as [[[[err|] td'] h1]| |] eqn:Hrun; try done.
      * unfold ret. intros [= <- _]. done.
      * by destruct (Hstep _ _ eq_refl).
Qed.

Definition document_node : node := mkNode None None None None None (Some VDocument).

Lemma open_trees_document (g : heap) :
  open_trees (g ++ [document_node]) [Tree (length g) VDocument [] []].
Proof.
  assert (Hd : (g ++ [document_node]) !! length g = Some document_node).
  { rewrite lookup_app_r by lia. by rewrite Nat.sub_diag. }
  assert (Hchain : forall own, chain own (g ++ [document_node]) None []).
  { intros own. split; [apply NoDup_nil_2|]. split; [reflexivity|].
    intros i k Hik. destruct i; discriminate Hik. }
  split; [|split].
  - simpl. apply NoDup_singleton.
  - apply Forall_cons. split; [|apply Forall_nil_2].
    econstructor; [exact Hd | reflexivity | | apply Forall_nil_2 | | apply Forall_nil_2].
    + exists document_node. split; [exact Hd | apply Hchain].
    + exists document_node. split; [exact Hd | apply Hchain].
  - simpl. split; [|done]. exists document_node. done.
Qed.

Lemma decode_refines opts toks (g : heap) :
  match xrun TrimSpace Fields opts [XNode VDocument [] []] toks with
  | Some xs' =>
      exists h' ts' dt,
        decode opts toks g = Ret ((None, Some (length g)), h') /\
        Forall (repr h') ts' /\ erase <$> ts' = xs' /\
        last ts' = Some dt /\ root dt = length g
  | None => forall r h', decode opts toks g = Ret (r, h') -> r.1 <> None
  end.
Proof.
  pose proof (loop_refines opts toks _ _ (open_trees_document g) ltac:(done)) as Hloop.
  change (erase <$> [Tree (length g) VDocument [] []]) with [XNode VDocument [] []] in Hloop.
  assert (Hdec :
    decode opts toks g
    = match UnmarshalXML_loop (H := Builder_TokenDecoder TrimSpace Fields) toks EOF
              (builder_at opts [Tree (length g) VDocument [] []]) (g ++ [document_node])
      with
      | Ret (r, h') => Ret ((r.1, Some (length g)), h')
      | Panic => Panic
      | OutOfFuel => OutOfFuel
      end) by reflexivity.
  rewrite Hdec. unfold refines in Hloop.
  destruct (xrun TrimSpace Fields opts [XNode VDocument [] []] toks) as [xs'|].
  - destruct Hloop as (h' & ts' & Hrun & (_ & Hr & _) & Her & Hne & Hlast).
    destruct (last ts') as [dt|] eqn:Hdt.
    2:{ apply last_None in Hdt. done. }
    exists h', ts', dt. split; [|split; [done|split; [done|split; [done|]]]].
    + by rewrite Hrun.
    + rewrite fmap_last, Hdt in Hlast. simpl in Hlast. congruence.
  - intros r h'.
    destruct (UnmarshalXML_loop toks EOF
                (builder_at opts [Tree (length g) VDocument [] []]) (g ++ [document_node]))
      as [[r1 h1]| |] eqn:Hrun; [|done|done].
    intros Heq. inversion Heq; subst. simpl. exact (Hloop _ _ eq_refl).
Qed.

Lemma encode_document mopts (h : heap) dt kids fuel :
  repr h dt -> erase dt = XNode VDocument [] kids ->
  Forall (fun k => plain k = true) kids ->
  2 * count dt + width dt <= fuel ->
  encode fuel mopts (Some (root dt)) h
  = Ret ((None, flat_map (xemit (Has mopts marshalExplicitNS) false "") kids), h).
Proof.
  intros Hr Her Hplain Hfuel. unfold encode.
  rewrite (WriteTo_tree _ h dt "" fuel Hr); [| | |reflexivity|exact Hfuel].
  - rewrite Her. unfold start_flag. simpl. by rewrite app_nil_r.
  - rewrite Her. simpl. apply forallb_forall. intros k Hk.
    rewrite Forall_forall in Hplain. by apply Hplain, list_elem_of_In.
  - intros n name pfx Hn Hv. destruct (xpayload_erase h dt Hr) as (n' & Hn' & Hv').
    rewrite Her in Hv'. simpl in Hv'. congruence.
Qed.

Hypothesis TrimSpace_idem : forall b, TrimSpace (TrimSpace b) = TrimSpace b.

(** Round-trip stability at the token interface of the tokenizer and the
    encoder, where the second decoding reads the very tokens that were
    handed to the encoder.  A token stream is decoded into a new document; when that
    succeeds, marshaling the document hands the encoder a token sequence
    [out] (enough fuel for the traversal gives this result), decoding [out]
    into a new document of any store succeeds, and marshaling that second
    document hands the encoder the same sequence [out]. *)
Theorem roundtrip_fixed_point opts mopts toks (g : heap) doc h1 :
  decode opts toks g = Ret ((None, doc), h1) ->
  exists out,
    (exists F, forall fuel, F <= fuel ->
       encode fuel mopts doc h1 = Ret ((None, out), h1)) /\
    forall g' : heap, exists doc2 h2,
      decode opts out g' = Ret ((None, doc2), h2) /\
      exists F, forall fuel, F <= fuel ->
        encode fuel mopts doc2 h2 = Ret ((None, out), h2).
Proof.
  intros Hdec.
  pose proof (decode_refines opts toks g) as Hfirst.
  destruct (xrun TrimSpace Fields opts [XNode VDocument [] []] toks) as [xs1|] eqn:Hrun1.
  2:{ by destruct (Hfirst _ _ Hdec). }
  destruct Hfirst as (h1' & ts1 & dt & Hdec' & Hr1 & Her1 & Hlast1 & Hroot1).
  rewrite Hdec in Hdec'. inversion Hdec'; subst doc h1'. clear Hdec'.
  assert (Hz0 : zbuilt TrimSpace Fields opts [XNode VDocument [] []]).
  { apply zbuilt_doc. apply Forall_nil_2. }
  pose proof (xrun_zbuilt TrimSpace Fields TrimSpace_idem opts toks _ _ Hz0 Hrun1) as Hz1.
  destruct (zbuilt_last _ _ _ _ Hz1) as (K & HlastK & HK).
  assert (HerK : erase dt = XNode VDocument [] K).
  { rewrite <- Her1, fmap_last, Hlast1 in HlastK. simpl in HlastK. congruence. }
  assert (Hrdt : repr h1 dt).
  { rewrite Forall_forall in Hr1. apply Hr1. rewrite last_lookup in Hlast1.
    by eapply list_elem_of_lookup_2. }
  set (es := Has mopts marshalExplicitNS).
  exists (flat_map (xemit es false "") K). split.
  { exists (2 * count dt + width dt). intros fuel Hfuel. rewrite <- Hroot1.
    apply (encode_document mopts h1 dt K fuel Hrdt HerK); [|exact Hfuel].
    eapply Forall_impl; [exact HK|]. intros k Hk. by eapply built_plain. }
  intros g'.
  pose proof (decode_refines opts (flat_map (xemit es false "") K) g') as Hsecond.
  assert (Hrun2 : xrun TrimSpace Fields opts [XNode VDocument [] []]
                    (flat_map (xemit es false "") K)
                  = Some [XNode VDocument [] (norm es "" <$> K)]).
  { rewrite (feed_kids TrimSpace Fields opts es NodeTypeDocument "" K); [done| |done|done|by right].
    apply Forall_forall. intros k _. apply feed_tree. }
  rewrite Hrun2 in Hsecond.
  destruct Hsecond as (h2 & ts2 & dt2 & Hdec2 & Hr2 & Her2 & Hlast2 & Hroot2).
  pose proof (xrun_zbuilt TrimSpace Fields TrimSpace_idem opts _ _ _ Hz0 Hrun2) as Hz2.
  assert (HK2 : Forall (built TrimSpace Fields opts NodeTypeDocument) (norm es "" <$> K)).
  { by inversion Hz2. }
  assert (HerK2 : erase dt2 = XNode VDocument [] (norm es "" <$> K)).
  { assert (Hl : last (erase <$> ts2) = Some (XNode VDocument [] (norm es "" <$> K)))
      by (by rewrite Her2).
    rewrite fmap_last, Hlast2 in Hl. simpl in Hl. congruence. }
  assert (Hrdt2 : repr h2 dt2).
  { rewrite Forall_forall in Hr2. apply Hr2. rewrite last_lookup in Hlast2.
    by eapply list_elem_of_lookup_2. }
  exists (Some (length g')), h2. split; [exact Hdec2|].
  exists (2 * count dt2 + width dt2). intros fuel Hfuel. rewrite <- Hroot2.
  rewrite <- (emit_norm_kids TrimSpace Fields opts es NodeTypeDocument K HK).
  apply (encode_document mopts h2 dt2 _ fuel Hrdt2 HerK2); [|exact Hfuel].
  eapply Forall_impl; [exact HK2|]. intros k Hk. by eapply built_plain.
Qed.

End RoundTrip.

(** [asciiTrimSpace] strips nothing from what it returns. *)
Definition starts_clean (s : list byte) : Prop :=
  match s with [] => True | b :: _ => asciiSpace b = false end.

Lemma trimLeft_clean s : starts_clean (trimLeft s).
Proof.
  induction s as [|b s IH]; [done|]. simpl.
  destruct (asciiSpace b) eqn:E; [exact IH | exact E].
Qed.

Lemma trimLeft_fixed s : starts_clean s -> trimLeft s = s.
Proof. destruct s as [|b s]; [done|]. simpl. by intros ->. Qed.

Lemma trimLeft_suffix s : exists pre, s = pre ++ trimLeft s.
Proof.
  induction s as [|b s [pre IH]]; [by exists []|]. simpl.
  destruct (asciiSpace b); [|by exists []].
  exists (b :: pre). simpl. by rewrite <- IH.
Qed.

Lemma starts_clean_app s t : starts_clean (s ++ t) -> starts_clean s.
Proof. by destruct s. Qed.

Lemma asciiTrimSpace_idem b : asciiTrimSpace (asciiTrimSpace b) = asciiTrimSpace b.
Proof.
  unfold asciiTrimSpace.
  set (u := trimLeft b). set (v := trimLeft (rev u)).
  assert (Hu : starts_clean u) by apply trimLeft_clean.
  assert (Hv : starts_clean v) by apply trimLeft_clean.
  destruct (trimLeft_suffix (rev u)) as [pre Hpre]. fold v in Hpre.
  assert (Hrv : starts_clean (rev v)).
  { apply (starts_clean_app _ (rev pre)). rewrite <- rev_app_distr, <- Hpre.
    by rewrite rev_involutive. }
  rewrite (trimLeft_fixed (rev v) Hrv), rev_involutive.
  by rewrite (trimLeft_fixed v Hv).
Qed.

(** The tokens of
    [<a xmlns="urn:x"><b xmlns="urn:x"> hello </b><!--c--></a>]. *)
Definition sample_tokens : list Token :=
  [ StartElement (mkName "urn:x" "a") [mkAttr (mkName "" "xmlns") "urn:x"];
    StartElement (mkName "urn:x" "b") [mkAttr (mkName "" "xmlns") "urn:x"];
    CharData (bytes_of " hello ");
    EndElement (mkName "urn:x" "b");
    Comment (bytes_of "c");
    EndElement (mkName "urn:x" "a") ].

(** The store after decoding [sample_tokens] into a new document of the
    empty store, with the trim flag set. *)
Definition sample_store : heap :=
  Eval vm_compute in
    match decode asciiTrimSpace asciiFields parseTrimPCData sample_tokens [] with
    | Ret (_, h) => h
    | _ => []
    end.

Lemma roundtrip_fixed_point_witness :
  decode asciiTrimSpace asciiFields parseTrimPCData sample_tokens []
  = Ret ((None, Some 0), sample_store) /\
  exists out,
    (exists F, forall fuel, F <= fuel ->
       encode fuel 0%N (Some 0) sample_store = Ret ((None, out), sample_store)) /\
    forall g' : heap, exists doc2 h2,
      decode asciiTrimSpace asciiFields parseTrimPCData out g' = Ret ((None, doc2), h2) /\
      exists F, forall fuel, F <= fuel ->
        encode fuel 0%N doc2 h2 = Ret ((None, out), h2).
Proof.
  split; [vm_compute; reflexivity|].
  apply (roundtrip_fixed_point asciiTrimSpace asciiFields asciiTrimSpace_idem
           parseTrimPCData 0%N sample_tokens [] (Some 0) sample_store).
  vm_compute. reflexivity.
Defined.

(** What the encoder is handed for the sample: the namespace of [b] and the
    two [xmlns] attributes are gone, the text is stripped, the comment was
    never stored. *)
Lemma sample_encoding :
  encode 20 0%N (Some 0) sample_store
  = Ret ((None, [ StartElement (mkName "urn:x" "a") [];
                  StartElement (mkName "" "b") [];
                  CharData (bytes_of "hello");
                  EndElement (mkName "" "b");
                  EndElement (mkName "urn:x" "a") ]), sample_store).
Proof. vm_compute. reflexivity. Qed.

(** ** C1: the bytes of the encoder, read again by the tokenizer

    The tokenizer and the encoder are package [github.com/andaru/flexml],
    a variant of Go's [encoding/xml] that is not part of this repository.
    The definitions below are the part of the two that a document meets
    which is made of elements only, with plain names without prefix and no
    attribute but a declaration of the default namespace; outside that
    part they answer [None].  Their behaviour is that of [encoding/xml],
    and the tests of the repository rely on it: in TestYANGDecoder the
    input [<system xmlns='urn:mod1'><hostname>abc123</hostname></system>]
    is expected to give the error that names [hostname] in the namespace
    [urn:mod1] (an element without declaration takes the default namespace
    in scope), and the expected output
    [<system xmlns='urn:mod1'><host-name>abc123</host-name></system>],
    written there with double quotes, has a declaration on the element
    whose name was handed over with a namespace and none on the element
    whose name was handed over without one. *)

Definition name_char (c : ascii) : bool :=
  let n := nat_of_ascii c in
  ((65 <=? n)%nat && (n <=? 90)%nat) || ((97 <=? n)%nat && (n <=? 122)%nat)
  || ((48 <=? n)%nat && (n <=? 57)%nat)
  || bool_decide (c = "-"%char) || bool_decide (c = "_"%char) || bool_decide (c = "."%char).

Definition space_char (c : ascii) : bool :=
  name_char c || bool_decide (c = ":"%char) || bool_decide (c = "/"%char).

Fixpoint all_chars (p : ascii -> bool) (s : string) : bool :=
  match s with
  | EmptyString => true
  | String c rest => p c && all_chars p rest
  end.

(** A name of letters, digits, [-], [_] and [.]: the encoder writes it as
    it is and the tokenizer reads it as one name. *)
Definition plain_name (s : string) : bool :=
  negb (bool_decide (s = EmptyString)) && all_chars name_char s.

(** The double quote, as a string. *)
Definition dquote : string := String (ascii_of_nat 34) EmptyString.

(** [Encoder.EncodeToken], token after token: the bytes written.  A start
    element is written as its local name, followed by a declaration of the
    default namespace when [Name.Space] is not empty (an empty [Space]
    writes no declaration); an end element must carry the name of the
    innermost open start element and is written as its local name.
    [open] are the names of the open elements, innermost first. *)
Fixpoint Encoder_bytes (open : list Name) (ts : list Token) : option string :=
  match ts with
  | [] => Some EmptyString
  | StartElement name [] :: rest =>
      if plain_name (Local name) && all_chars space_char (Space name) then
        option_map
          (fun s => "<" ++ Local name
                    ++ (if bool_decide (Space name = EmptyString) then EmptyString
                        else " xmlns=" ++ dquote ++ Space name ++ dquote)
                    ++ ">" ++ s)%string
          (Encoder_bytes (name :: open) rest)
      else None
  | EndElement name :: rest =>
      match open with
      | top :: open' =>
          if bool_decide (top = name)
          then option_map (fun s => "</" ++ Local name ++ ">" ++ s)%string
                 (Encoder_bytes open' rest)
          else None
      | [] => None
      end
  | _ => None
  end.

(** The longest prefix of [s] of characters that satisfy [p], and the
    rest. *)
Fixpoint read_while (p : ascii -> bool) (s : string) : string * string :=
  match s with
  | EmptyString => (EmptyString, EmptyString)
  | String c rest =>
      if p c then let '(a, b) := read_while p rest in (String c a, b)
      else (EmptyString, s)
  end.

Fixpoint strip_prefix (pre s : string) : option string :=
  match pre, s with
  | EmptyString, _ => Some s
  | String a pre', String b s' => if bool_decide (a = b) then strip_prefix pre' s' else None
  | _, _ => None
  end.

(** The attributes of a start tag: none, or one declaration of the
    default namespace in single or double quotes. *)
Definition read_xmlns (s : string) : option (option string * string) :=
  match s with
  | String " " rest =>
      match strip_prefix "xmlns=" rest with
      | Some (String q rest1) =>
          if bool_decide (q = "'"%char) || bool_decide (q = ascii_of_nat 34) then
            let '(v, rest2) := read_while space_char rest1 in
            match rest2 with
            | String q' rest3 => if bool_decide (q' = q) then Some (Some v, rest3) else None
            | EmptyString => None
            end
          else None
      | _ => None
      end
  | _ => Some (None, s)
  end.

(** [Decoder.Token] until [io.EOF]: the tokens read from [s].  The name of
    an element is translated: its [Space] is the default namespace that
    the element declares, or else the one in scope, which is that of the
    enclosing element, or empty at the top.  A declaration with the empty
    value puts the element and what it encloses back into the empty
    namespace.  The declaration stays in the attribute list, under the
    name [xmlns] without a namespace.  An end tag takes the translated
    name of the start tag it closes; a tag that closes itself gives a
    start and an end element.  [open] are the translated names of the
    open elements, innermost first. *)
Fixpoint Decoder_tokens (fuel : nat) (open : list Name) (s : string) : option (list Token) :=
  match fuel with
  | O => None
  | S fuel' =>
      match s with
      | EmptyString => match open with [] => Some [] | _ => None end
      | String "<" (String "/" rest) =>
          let '(local, rest1) := read_while name_char rest in
          match rest1, open with
          | String ">" rest2, top :: open' =>
              if bool_decide (Local top = local)
              then option_map (cons (EndElement top)) (Decoder_tokens fuel' open' rest2)
              else None
          | _, _ => None
          end
      | String "<" rest =>
          let '(local, rest1) := read_while name_char rest in
          if plain_name local then
            match read_xmlns rest1 with
            | Some (decl, rest2) =>
                let inherited :=
                  match open with top :: _ => Space top | [] => EmptyString end in
                let name := mkName (default inherited decl) local in
                let attrs :=
                  match decl with Some v => [mkAttr xmlnsDefault v] | None => [] end in
                match rest2 with
                | String "/" (String ">" rest3) =>
                    option_map (fun ts => StartElement name attrs :: EndElement name :: ts)
                      (Decoder_tokens fuel' open rest3)
                | String ">" rest3 =>
                    option_map (cons (StartElement name attrs))
                      (Decoder_tokens fuel' (name :: open) rest3)
                | _ => None
                end
            | None => None
            end
          else None
      | _ => None
      end
  end.

(** Every step of [Decoder_tokens] reads at least one byte. *)
Definition tokens_of (s : string) : option (list Token) :=
  Decoder_tokens (S (String.length s)) [] s.

(** The options of the Builder in TestNodeUnmarshalMarshalEquality:
    [WithTrimPCData(), WithComments(), WithProcInst(), WithDeclaration()]. *)
Definition test_options : bitflag :=
  Add (Add (Add (Add 0%N parseTrimPCData) parseComments) parsePI) parseDeclaration.

(** One round of TestNodeUnmarshalMarshalEquality: the document [s] is
    read into a new document by
    [NewUnmarshaler(NewBuilder(doc, opts...)).XMLReader().ReadFrom], and
    that document is written by [NewMarshaler(doc).XMLWriter().WriteTo];
    the bytes written.  [None] stands for an error of either step and for
    a document outside the part of the tokenizer and the encoder that is
    modelled. *)
Definition unmarshal_marshal (opts : bitflag) (s : string) : option string :=
  match tokens_of s with
  | Some toks =>
      match decode asciiTrimSpace asciiFields opts toks [] with
      | Ret ((None, doc), h) =>
          match encode (2 * length h) 0%N doc h with
          | Ret ((None, out), _) => Encoder_bytes [] out
          | _ => None
          end
      | _ => None
      end
  | None => None
  end.

(** The document on which the second marshal differs from the first. *)
Definition nested_namespaces : string :=
  "<g xmlns='ns'><p xmlns=''><c xmlns='ns'/></p></g>".

(** Its first marshal: [g] and [c] with a declaration of [ns] in double
    quotes, [p] without any. *)
Definition first_marshal : string :=
  ("<g xmlns=" ++ dquote ++ "ns" ++ dquote ++ "><p><c xmlns=" ++ dquote ++ "ns" ++ dquote
   ++ "></c></p></g>")%string.

(** Its second marshal: only [g] has a declaration. *)
Definition second_marshal : string :=
  ("<g xmlns=" ++ dquote ++ "ns" ++ dquote ++ "><p><c></c></p></g>")%string.

(** The tokenizer gives [p] the empty namespace in the document, ... *)
Lemma nested_namespaces_tokens :
  tokens_of nested_namespaces
  = Some [ StartElement (mkName "ns" "g") [mkAttr (mkName "" "xmlns") "ns"];
           StartElement (mkName "" "p") [mkAttr (mkName "" "xmlns") ""];
           StartElement (mkName "ns" "c") [mkAttr (mkName "" "xmlns") "ns"];
           EndElement (mkName "ns" "c");
           EndElement (mkName "" "p");
           EndElement (mkName "ns" "g") ].
Proof. vm_compute. reflexivity. Qed.

(** ... the marshaler hands the encoder [p] without a namespace and without
    the attribute, ... *)
Lemma nested_namespaces_encoding :
  exists doc h,
    decode asciiTrimSpace asciiFields test_options
      [ StartElement (mkName "ns" "g") [mkAttr (mkName "" "xmlns") "ns"];
        StartElement (mkName "" "p") [mkAttr (mkName "" "xmlns") ""];
        StartElement (mkName "ns" "c") [mkAttr (mkName "" "xmlns") "ns"];
        EndElement (mkName "ns" "c");
        EndElement (mkName "" "p");
        EndElement (mkName "ns" "g") ] []
    = Ret ((None, doc), h) /\
    encode (2 * length h) 0%N doc h
    = Ret ((None, [ StartElement (mkName "ns" "g") [];
                    StartElement (mkName "" "p") [];
                    StartElement (mkName "ns" "c") [];
                    EndElement (mkName "ns" "c");
                    EndElement (mkName "" "p");
                    EndElement (mkName "ns" "g") ]), h).
Proof. do 2 eexists. split; vm_compute; reflexivity. Qed.

(** ... and in the bytes of the first marshal the tokenizer finds [p] in
    the namespace of [g]. *)
Lemma first_marshal_tokens :
  tokens_of first_marshal
  = Some [ StartElement (mkName "ns" "g") [mkAttr (mkName "" "xmlns") "ns"];
           StartElement (mkName "ns" "p") [];
           StartElement (mkName "ns" "c") [mkAttr (mkName "" "xmlns") "ns"];
           EndElement (mkName "ns" "c");
           EndElement (mkName "ns" "p");
           EndElement (mkName "ns" "g") ].
Proof. vm_compute. reflexivity. Qed.

(** C1, where the code departs from it.  The document
    [<g xmlns='ns'><p xmlns=''><c xmlns='ns'/></p></g>] decodes without
    error.  Its first marshal writes [p] without a declaration: the
    marshaler drops the attribute [xmlns] of [p] and the encoder declares
    a namespace only when it is not empty.  Read again, [p] is in the
    namespace of [g]; so in the second marshal [c] has the namespace of its
    parent and the marshaler leaves its namespace out.  The second marshal
    is not the first. *)
Theorem second_marshal_differs :
  unmarshal_marshal test_options nested_namespaces = Some first_marshal /\
  unmarshal_marshal test_options first_marshal = Some second_marshal /\
  first_marshal <> second_marshal.
Proof.
  split; [vm_compute; reflexivity|]. split; [vm_compute; reflexivity|].
  vm_compute. discriminate.
Qed.

(** The same without any option of the Builder. *)
Lemma second_marshal_differs_without_options :
  unmarshal_marshal 0%N nested_namespaces = Some first_marshal /\
  unmarshal_marshal 0%N first_marshal = Some second_marshal.
Proof. split; vm_compute; reflexivity. Qed.

(** The second marshal is stable: a third one writes the same bytes. *)
Lemma third_marshal_is_second :
  unmarshal_marshal test_options second_marshal = Some second_marshal.
Proof. vm_compute. reflexivity. Qed.

(** * Further properties of the code

    ** json_decoder.go: element names as JSON member names *)

Lemma IndexColon_lt (s : string) i : IndexColon s = Some i -> i < String.length s.
Proof.
  revert i. induction s as [|c s IH]; intros i; simpl; [discriminate|].
  destruct (bool_decide (c = ":"%char)).
  - intros [= <-]. lia.
  - destruct (IndexColon s) as [j|]; [|discriminate].
    intros [= <-]. specialize (IH j eq_refl). lia.
Qed.

Lemma IndexColon_app_l (s t : string) i :
  IndexColon s = Some i -> IndexColon (s ++ t)%string = Some i.
Proof.
  revert i. induction s as [|c s IH]; intros i; simpl; [discriminate|].
  destruct (bool_decide (c = ":"%char)); [done|].
  destruct (IndexColon s) as [j|]; [|discriminate].
  intros [= <-]. by rewrite (IH j eq_refl).
Qed.

Lemma string_app_assoc (s t u : string) : ((s ++ t) ++ u = s ++ (t ++ u))%string.
Proof.
  induction s as [|c s IH]; [reflexivity|].
  change (String c ((s ++ t) ++ u) = String c (s ++ (t ++ u)))%string. by rewrite IH.
Qed.

Lemma length_substring_le (s : string) k : String.length (substring 0 k s) <= k.
Proof.
  revert k. induction s as [|c s IH]; intros [|k]; simpl; try lia.
  specialize (IH k). lia.
Qed.

(** The names that survive [jsTagToName (xmlNameToTag n)]: a namespace
    that is not empty and holds no colon; or an empty namespace and a local
    name that holds no colon or begins with one ([strings.Index] answers 0;
    colons further on, as in [:a:b], do no harm then). *)
Definition tag_faithful (n : Name) : Prop :=
  (Space n <> EmptyString /\ IndexColon (Space n) = None) \/
  (Space n = EmptyString /\
   (IndexColon (Local n) = None \/ IndexColon (Local n) = Some 0)).

(** X1. [xmlNameToTag] followed by [jsTagToName] gives the name back exactly
    when the namespace is not empty and holds no colon, or the namespace is
    empty and the local name either holds no colon or begins with a colon
    (it may then hold further colons, as [:a:b] does).  A namespace such as
    [urn:mod1] is cut at its first colon. *)
Theorem xmlNameToTag_jsTagToName (n : Name) :
  jsTagToName (xmlNameToTag n) = n <-> tag_faithful n.
Proof.
  destruct n as [sp lc]. unfold tag_faithful, xmlNameToTag. simpl. split.
  - intros Hrt. case_bool_decide as Hsp.
    + left. split; [done|].
      destruct (IndexColon sp) as [i|] eqn:Hi; [exfalso|done].
      pose proof (IndexColon_lt _ _ Hi) as Hlt.
      unfold jsTagToName in Hrt.
      rewrite string_app_assoc, (IndexColon_app_l sp _ i Hi) in Hrt.
      destruct i as [|i]; simpl in Hrt.
      * apply (f_equal Space) in Hrt. simpl in Hrt. congruence.
      * apply (f_equal Space) in Hrt. simpl in Hrt.
        pose proof (length_substring_le ((sp ++ ":" ++ lc)%string) (S i)) as Hle.
        rewrite Hrt in Hle. lia.
    + right. assert (sp = EmptyString) as -> by (destruct sp; [done|by destruct Hsp]).
      split; [done|]. change (jsTagToName lc = mkName EmptyString lc) in Hrt.
      unfold jsTagToName in Hrt.
      destruct (IndexColon lc) as [[|i]|] eqn:Hi; [by right| |by left].
      exfalso. simpl in Hrt. apply (f_equal Space) in Hrt. simpl in Hrt.
      destruct lc as [|c lc]; [discriminate Hi|]. simpl in Hrt. discriminate Hrt.
  - intros [[Hne Hcolon] | [-> Hlc]].
    + rewrite bool_decide_eq_true_2 by done.
      rewrite string_app_assoc. by apply jsTagToName_split.
    + change (jsTagToName lc = mkName EmptyString lc). destruct Hlc as [Hlc|Hlc].
      * by apply jsTagToName_plain.
      * unfold jsTagToName. rewrite Hlc. reflexivity.
Qed.

(** ** text.go: how the CharacterData operations compose *)

Lemma len_app {A} (l k : list A) : len (l ++ k) = (len l + len k)%Z.
Proof. unfold len. rewrite length_app. lia. Qed.

Lemma len_nonneg {A} (l : list A) : (0 <= len l)%Z.
Proof. unfold len. lia. Qed.

Lemma slice_to_Some {A} (s : list A) (i : Z) :
  (0 <= i <= len s)%Z -> slice_to s i = Some (take (Z.to_nat i) s).
Proof.
  intros Hi. unfold slice_to.
  assert ((0 <=? i)%Z = true) as -> by lia. assert ((i <=? len s)%Z = true) as -> by lia.
  reflexivity.
Qed.

Lemma slice_from_Some {A} (s : list A) (i : Z) :
  (0 <= i <= len s)%Z -> slice_from s i = Some (drop (Z.to_nat i) s).
Proof.
  intros Hi. unfold slice_from.
  assert ((0 <=? i)%Z = true) as -> by lia. assert ((i <=? len s)%Z = true) as -> by lia.
  reflexivity.
Qed.

Lemma slice_to_negative {A} (s : list A) (i : Z) : (i < 0)%Z -> slice_to s i = None.
Proof. intros Hi. unfold slice_to. by assert ((0 <=? i)%Z = false) as -> by lia. Qed.

Lemma slice_from_negative {A} (s : list A) (i : Z) : (i < 0)%Z -> slice_from s i = None.
Proof. intros Hi. unfold slice_from. by assert ((0 <=? i)%Z = false) as -> by lia. Qed.

Lemma text_DeleteData_inserted (t : list byte) (offset : Z) (arg : list byte) :
  (0 <= offset <= len t)%Z -> (len t + len arg < 2 ^ 63)%Z ->
  text_DeleteData (take (Z.to_nat offset) t ++ arg ++ drop (Z.to_nat offset) t)
    offset (len arg)
  = Ret (None, t).
Proof.
  intros Ho Hsmall. pose proof (len_nonneg arg) as Harg. pose proof (len_nonneg t) as Ht.
  set (o := Z.to_nat offset).
  assert (Hlo : length (take o t) = o).
  { rewrite length_take. unfold len in Ho. lia. }
  unfold text_DeleteData, add_int. rewrite wrap64_small by lia.
  assert (Hlen : len (take o t ++ arg ++ drop o t) = (len t + len arg)%Z).
  { rewrite !len_app. unfold len. rewrite length_take, length_drop. unfold len in Ho. lia. }
  rewrite Hlen.
  assert ((len arg <? 0)%Z = false) as -> by lia.
  assert ((offset + len arg >? len t + len arg)%Z = false) as -> by lia. simpl.
  rewrite slice_to_Some by lia. rewrite slice_from_Some by lia. fold o.
  rewrite take_app_le by lia. rewrite take_ge by lia.
  replace (Z.to_nat (offset + len arg)) with (o + length arg) by (unfold len; lia).
  rewrite drop_app_ge by lia. rewrite Hlo.
  replace (o + length arg - o) with (length arg + 0) by lia.
  rewrite drop_app_add'; [|done]. rewrite drop_0. by rewrite take_drop.
Qed.

Lemma node_with_value_same (n : node) v : value n = v -> with_value v n = n.
Proof. intros <-. by destruct n. Qed.

(** X2. On a Text node, [InsertData(offset, arg)] at a position inside the data
    puts [arg] between the bytes before and from [offset] on, and
    [DeleteData(offset, len(arg))] then gives back the store as it was. *)
Theorem InsertData_DeleteData_roundtrip (h : heap) a n (t : list byte) (offset : Z)
    (arg : string) :
  h !! a = Some n -> value n = Some (VText t) ->
  (0 <= offset < len t)%Z -> (len t + len (bytes_of arg) < 2 ^ 63)%Z ->
  exists h1,
    InsertData (Some a) offset arg h = Ret (None, h1) /\
    node_Value (Some a) h1
    = Ret (string_of (take (Z.to_nat offset) t ++ bytes_of arg ++ drop (Z.to_nat offset) t),
           h1) /\
    DeleteData (Some a) offset (len (bytes_of arg)) h1 = Ret (None, h).
Proof.
  intros Hn Hv Ho Hsmall.
  destruct (text_InsertData_bounds t offset arg) as [_ Hins]. specialize (Hins Ho).
  set (t1 := take (Z.to_nat offset) t ++ bytes_of arg ++ drop (Z.to_nat offset) t) in *.
  set (n1 := with_value (Some (VText t1)) n).
  assert (Hlt : a < length h) by (by eapply lookup_lt_Some).
  assert (Hn1 : <[a := n1]> h !! a = Some n1) by (by apply list_lookup_insert_eq).
  exists (<[a := n1]> h). split; [|split].
  - unfold InsertData, on_text. rewrite (bind_Ret _ _ _ _ _ (get_Ret value h a n Hn)).
    rewrite Hv, Hins. unfold set_value.
    rewrite (bind_Ret _ _ _ _ _ (modify_Ret _ h a n Hn)). reflexivity.
  - unfold node_Value. rewrite (bind_Ret _ _ _ _ _ (get_Ret value _ a n1 Hn1)). reflexivity.
  - unfold DeleteData, on_text. rewrite (bind_Ret _ _ _ _ _ (get_Ret value _ a n1 Hn1)).
    change (value n1) with (Some (VText t1)). cbv iota.
    subst t1. rewrite (text_DeleteData_inserted t offset (bytes_of arg)) by lia.
    unfold set_value. rewrite (bind_Ret _ _ _ _ _ (modify_Ret _ _ a n1 Hn1)).
    unfold ret. do 2 f_equal. rewrite list_insert_insert_eq.
    apply list_insert_id. rewrite Hn. f_equal. subst n1. symmetry.
    destruct n; simpl in *. by rewrite Hv.
Qed.

Lemma InsertData_DeleteData_roundtrip_witness :
  let h := [mkNode None None None None None (Some (VText (bytes_of "abc")))] in
  exists h1,
    InsertData (Some 0) 1 "xy" h = Ret (None, h1) /\
    node_Value (Some 0) h1 = Ret ("axybc", h1) /\
    DeleteData (Some 0) 1 2 h1 = Ret (None, h).
Proof.
  intros h.
  refine (InsertData_DeleteData_roundtrip h 0 _ (bytes_of "abc") 1 "xy" eq_refl eq_refl _ _).
  - vm_compute. split; [discriminate | reflexivity].
  - vm_compute. reflexivity.
Defined.

(** X3. On data shorter than 2^63 bytes (the range of a Go [int], which
    every slice length is in), [ReplaceData(offset, count, arg)] with
    [offset] and [count] not negative, [offset+count] at most the length
    of the data and [arg] at least [count] bytes long returns nil and
    overwrites [count] bytes from [offset] on with the first [count] bytes
    of [arg]; what [arg] has beyond them is dropped, and the length of the
    data stays the same. *)
Theorem text_ReplaceData_overwrites (t : list byte) (offset count : Z) (arg : string) :
  (0 <= offset)%Z -> (0 <= count)%Z -> (offset + count <= len t)%Z ->
  (count <= len (bytes_of arg))%Z -> (len t < 2 ^ 63)%Z ->
  exists t',
    text_ReplaceData t offset count arg = Ret (None, t') /\
    t' = take (Z.to_nat offset) t ++ take (Z.to_nat count) (bytes_of arg)
           ++ drop (Z.to_nat (offset + count)) t /\
    len t' = len t.
Proof.
  intros Ho Hc Hoc Harg Hsmall. eexists. split; [|split; [reflexivity|]].
  - unfold text_ReplaceData, add_int. rewrite wrap64_small by lia.
    assert ((count <? 0)%Z = false) as -> by lia.
    assert ((offset + count >? len t)%Z = false) as -> by lia.
    assert ((len (bytes_of arg) <? count)%Z = false) as -> by lia. simpl.
    rewrite slice_from_Some by lia. rewrite slice_to_Some by lia.
    unfold copy_into. rewrite length_drop, length_take.
    unfold len in *. rewrite take_take.
    replace (Z.to_nat count `min` length (bytes_of arg)) with (Z.to_nat count) by lia.
    replace ((length t - Z.to_nat offset) `min` Z.to_nat count) with (Z.to_nat count) by lia.
    rewrite drop_drop.
    replace (Z.to_nat offset + Z.to_nat count) with (Z.to_nat (offset + count)) by lia.
    reflexivity.
  - unfold len in *. rewrite !length_app, !length_take, length_drop. lia.
Qed.

Lemma text_ReplaceData_overwrites_witness :
  exists t',
    text_ReplaceData (bytes_of "abcde") 1 2 "XYZ" = Ret (None, t') /\
    t' = take 1 (bytes_of "abcde") ++ take 2 (bytes_of "XYZ") ++ drop 3 (bytes_of "abcde") /\
    len t' = len (bytes_of "abcde").
Proof.
  refine (text_ReplaceData_overwrites (bytes_of "abcde") 1 2 "XYZ" _ _ _ _ _);
    vm_compute; first [reflexivity | discriminate].
Defined.

(** X4. A negative offset is not refused.  For Go [int]s [offset] and
    [count] with [-2^63 <= offset < 0] and [0 <= count < 2^63], when
    [offset+count] is at most the length of the data, [DeleteData] goes on
    to slice at the negative index and panics, and so does [ReplaceData]
    when [arg] is at least [count] bytes long. *)
Theorem negative_offset_panics (t : list byte) (offset count : Z) (arg : string) :
  (- (2 ^ 63) <= offset < 0)%Z -> (0 <= count < 2 ^ 63)%Z -> (offset + count <= len t)%Z ->
  text_DeleteData t offset count = Panic /\
  ((count <= len (bytes_of arg))%Z -> text_ReplaceData t offset count arg = Panic).
Proof.
  intros Ho Hc Hoc. split.
  - unfold text_DeleteData, add_int. rewrite wrap64_small by lia.
    assert ((count <? 0)%Z = false) as -> by lia.
    assert ((offset + count >? len t)%Z = false) as -> by lia. simpl.
    by rewrite slice_to_negative by lia.
  - intros Harg. unfold text_ReplaceData, add_int. rewrite wrap64_small by lia.
    assert ((count <? 0)%Z = false) as -> by lia.
    assert ((offset + count >? len t)%Z = false) as -> by lia.
    assert ((len (bytes_of arg) <? count)%Z = false) as -> by lia. simpl.
    by rewrite slice_from_negative by lia.
Qed.

Lemma negative_offset_panics_witness :
  text_DeleteData (bytes_of "abc") (-1) 1 = Panic /\
  ((1 <= len (bytes_of "x"))%Z -> text_ReplaceData (bytes_of "abc") (-1) 1 "x" = Panic).
Proof.
  refine (negative_offset_panics (bytes_of "abc") (-1) 1 "x" _ _ _);
    vm_compute; repeat split; discriminate.
Defined.

(** ** modules.go and decoder.go: looking names up in the schema *)

Lemma lookup_dir_elem_of {A} (key : string) (m : list (string * A)) v :
  lookup_dir key m = Some v -> (key, v) ∈ m.
Proof.
  induction m as [|[k x] m IH]; simpl; [discriminate|].
  case_bool_decide as Hk.
  - intros [= <-]. subst k. apply elem_of_cons. by left.
  - intros Hm. apply elem_of_cons. right. by apply IH.
Qed.

(** Where [dataChild] may have found an entry: under the key [n.Local] of
    the entry itself, of a choice or case child, or of a case grandchild. *)
Definition found_below (e : Entry) (n : Name) (next : Entry) : Prop :=
  lookup_dir (Local n) (Dir e) = Some next \/
  exists k ch, (k, ch) ∈ Dir e /\
    (((Kind ch = ChoiceEntry \/ Kind ch = CaseEntry)
      /\ lookup_dir (Local n) (Dir ch) = Some next) \/
     exists k2 chch, (k2, chch) ∈ Dir ch /\ Kind chch = CaseEntry /\
                     lookup_dir (Local n) (Dir chch) = Some next).

Lemma dataChild_inner_sound chchs n next :
  dataChild_inner chchs n = Some next ->
  isData next = true /\
  exists k2 chch, (k2, chch) ∈ chchs /\ Kind chch = CaseEntry /\
                  lookup_dir (Local n) (Dir chch) = Some next.
Proof.
  induction chchs as [|[k2 chch] rest IH]; simpl; [discriminate|].
  case_bool_decide as Hk.
  - destruct (lookup_dir (Local n) (Dir chch)) as [x|] eqn:Hx.
    + destruct (isData x) eqn:Hd.
      * intros [= <-]. split; [done|]. exists k2, chch.
        split; [apply elem_of_cons; by left | done].
      * intros Hrest. destruct (IH Hrest) as (? & a & b & Hin & ?).
        split; [done|]. exists a, b. split; [apply elem_of_cons; by right | done].
    + intros Hrest. destruct (IH Hrest) as (? & a & b & Hin & ?).
      split; [done|]. exists a, b. split; [apply elem_of_cons; by right | done].
  - intros Hrest. destruct (IH Hrest) as (? & a & b & Hin & ?).
    split; [done|]. exists a, b. split; [apply elem_of_cons; by right | done].
Qed.

Lemma dataChild_outer_sound chs n next :
  dataChild_outer chs n = Some next ->
  isData next = true /\
  exists k ch, (k, ch) ∈ chs /\
    (((Kind ch = ChoiceEntry \/ Kind ch = CaseEntry)
      /\ lookup_dir (Local n) (Dir ch) = Some next) \/
     exists k2 chch, (k2, chch) ∈ Dir ch /\ Kind chch = CaseEntry /\
                     lookup_dir (Local n) (Dir chch) = Some next).
Proof.
  induction chs as [|[k ch] rest IH]; simpl; [discriminate|].
  assert (Hlater : dataChild_outer rest n = Some next ->
    isData next = true /\
    exists k0 ch0, (k0, ch0) ∈ (k, ch) :: rest /\
      (((Kind ch0 = ChoiceEntry \/ Kind ch0 = CaseEntry)
        /\ lookup_dir (Local n) (Dir ch0) = Some next) \/
       exists k2 chch, (k2, chch) ∈ Dir ch0 /\ Kind chch = CaseEntry /\
                       lookup_dir (Local n) (Dir chch) = Some next)).
  { intros Hrest. destruct (IH Hrest) as (? & a & b & Hin & ?).
    split; [done|]. exists a, b. split; [apply elem_of_cons; by right | done]. }
  assert (Hinner : forall x, dataChild_inner (Dir ch) n = Some x -> x = next ->
    isData next = true /\
    exists k0 ch0, (k0, ch0) ∈ (k, ch) :: rest /\
      (((Kind ch0 = ChoiceEntry \/ Kind ch0 = CaseEntry)
        /\ lookup_dir (Local n) (Dir ch0) = Some next) \/
       exists k2 chch, (k2, chch) ∈ Dir ch0 /\ Kind chch = CaseEntry /\
                       lookup_dir (Local n) (Dir chch) = Some next)).
  { intros x Hx ->. destruct (dataChild_inner_sound _ _ _ Hx) as (? & Hex).
    split; [done|]. exists k, ch. split; [apply elem_of_cons; by left | by right]. }
  destruct (bool_decide (Kind ch = ChoiceEntry) || bool_decide (Kind ch = CaseEntry)) eqn:Hkind.
  - destruct (lookup_dir (Local n) (Dir ch)) as [x|] eqn:Hx.
    + destruct (isData x) eqn:Hd.
      * intros [= <-]. split; [done|]. exists k, ch.
        split; [apply elem_of_cons; by left|]. left. split; [|done].
        apply orb_true_iff in Hkind as [Hk|Hk]; apply bool_decide_eq_true in Hk; auto.
      * destruct (dataChild_inner (Dir ch) n) as [y|] eqn:Hy; [|exact Hlater].
        intros [= <-]. by apply (Hinner y).
    + destruct (dataChild_inner (Dir ch) n) as [y|] eqn:Hy; [|exact Hlater].
      intros [= <-]. by apply (Hinner y).
  - destruct (dataChild_inner (Dir ch) n) as [y|] eqn:Hy; [|exact Hlater].
    intros [= <-]. by apply (Hinner y).
Qed.

(** X5. What [dataChild] returns is a data entry (leaf, directory, anyxml or
    anydata) stored under the key [n.Local], and it lies at most behind a
    choice or case child and a case grandchild of the schema entry. *)
Theorem dataChild_sound (e : option Entry) (n : Name) (next : Entry) :
  dataChild e n = Some next ->
  isData next = true /\ exists e0, e = Some e0 /\ found_below e0 n next.
Proof.
  destruct e as [e0|]; simpl; [|discriminate]. intros Hfound.
  assert (Houter : dataChild_outer (Dir e0) n = Some next ->
                   isData next = true /\ exists e1, Some e0 = Some e1 /\ found_below e1 n next).
  { intros H. destruct (dataChild_outer_sound _ _ _ H) as (? & Hex).
    split; [done|]. exists e0. split; [done | by right]. }
  destruct (lookup_dir (Local n) (Dir e0)) as [x|] eqn:Hx; [|by apply Houter].
  destruct (isData x) eqn:Hd; [|by apply Houter].
  injection Hfound as <-. split; [done|]. exists e0. split; [done | by left].
Qed.

(** A container whose leaf [x] sits in a case of a choice. *)
Definition choice_schema : Entry :=
  mkEntry "top" DirectoryEntry "urn:m"
    [("pick", mkEntry "pick" ChoiceEntry "urn:m"
                [("one", mkEntry "one" CaseEntry "urn:m"
                           [("x", mkEntry "x" LeafEntry "urn:m" [])])])].

Lemma dataChild_sound_witness :
  isData (mkEntry "x" LeafEntry "urn:m" []) = true /\
  exists e0, Some choice_schema = Some e0 /\
             found_below e0 (mkName "urn:m" "x") (mkEntry "x" LeafEntry "urn:m" []).
Proof.
  exact (dataChild_sound (Some choice_schema) (mkName "urn:m" "x")
           (mkEntry "x" LeafEntry "urn:m" []) eq_refl).
Defined.

(** A module that [RootEntry] can answer from: a latest version (no [@] in
    its key) with the namespace [name.Space] and a child [name.Local]. *)
Definition answers (ms : list (string * Module)) (name : Name) (e : Entry) : Prop :=
  exists key m, (key, m) ∈ ms /\ containsAt key = false /\
                mod_Namespace m = Some (Space name) /\
                lookup_dir (Local name) (Dir (mod_Entry m)) = Some e.

Lemma RootEntry_iter_sound ms name e :
  RootEntry_iter ms name = Some e -> answers ms name e.
Proof.
  induction ms as [|[key m] rest IH]; simpl; [discriminate|].
  assert (Hlater : RootEntry_iter rest name = Some e -> answers ((key, m) :: rest) name e).
  { intros H. destruct (IH H) as (k & m0 & Hin & ?). exists k, m0.
    split; [apply elem_of_cons; by right | done]. }
  destruct (containsAt key) eqn:Hat; [exact Hlater|].
  destruct (mod_Namespace m) as [ns|] eqn:Hns; [|exact Hlater].
  case_bool_decide as Hsp; [exact Hlater|].
  destruct (lookup_dir (Local name) (Dir (mod_Entry m))) as [x|] eqn:Hx; [|exact Hlater].
  intros [= <-]. exists key, m. split; [apply elem_of_cons; by left|].
  split; [done|]. split; [|done]. rewrite Hns. f_equal.
  by destruct (decide (ns = Space name)).
Qed.

Lemma RootEntry_iter_complete ms name e :
  answers ms name e -> exists e', RootEntry_iter ms name = Some e'.
Proof.
  intros (key & m & Hin & Hat & Hns & Hx).
  induction ms as [|[k0 m0] rest IH]; [by apply elem_of_nil in Hin|]. simpl.
  destruct (RootEntry_iter rest name) as [e1|] eqn:Hrest.
  - destruct (containsAt k0); [by eexists|].
    destruct (mod_Namespace m0); [|by eexists].
    case_bool_decide; [by eexists|].
    destruct (lookup_dir (Local name) (Dir (mod_Entry m0))); by eexists.
  - apply elem_of_cons in Hin as [[= <- <-]|Hin].
    + rewrite Hat, Hns, bool_decide_eq_false_2 by (by intros H; apply H).
      rewrite Hx. by eexists.
    + destruct (IH Hin) as [e' He']. discriminate He'.
Qed.

(** X6. On a processed collection [RootEntry] answers with an entry exactly
    when some latest-version module has the namespace of the name and a
    child under its local name, and the entry it returns is such a child;
    modules registered under a key with [@] are never consulted. *)
Theorem RootEntry_finds (c : Collection) (name : Name) :
  processed c = true ->
  (forall e, RootEntry c name = (Some e, None) -> answers (ms_Modules c) name e) /\
  ((exists e, answers (ms_Modules c) name e) ->
   exists e, RootEntry c name = (Some e, None)) /\
  ((forall e, ~ answers (ms_Modules c) name e) ->
   RootEntry c name = (None, Some (ErrNew "not found"))).
Proof.
  intros Hp. unfold RootEntry. rewrite Hp. simpl. split; [|split].
  - intros e. destruct (RootEntry_iter (ms_Modules c) name) as [e'|] eqn:Hit; [|discriminate].
    intros [= <-]. by apply RootEntry_iter_sound.
  - intros [e He]. destruct (RootEntry_iter_complete _ _ _ He) as [e' ->]. by exists e'.
  - intros Hnone. destruct (RootEntry_iter (ms_Modules c) name) as [e'|] eqn:Hit; [|done].
    exfalso. apply (Hnone e'). by apply RootEntry_iter_sound.
Qed.

Lemma RootEntry_finds_witness :
  let c := mkCollection [("m@2019-01-01", mkModule (Some "urn:m") choice_schema);
                         ("m", mkModule (Some "urn:m") choice_schema)] true in
  let name := mkName "urn:m" "pick" in
  (forall e, RootEntry c name = (Some e, None) -> answers (ms_Modules c) name e) /\
  ((exists e, answers (ms_Modules c) name e) ->
   exists e, RootEntry c name = (Some e, None)) /\
  ((forall e, ~ answers (ms_Modules c) name e) ->
   RootEntry c name = (None, Some (ErrNew "not found"))).
Proof.
  intros c name. exact (RootEntry_finds c name eq_refl).
Defined.

(** ** decoder.go: [Initialize] *)

Definition recognised (key : string) : Prop :=
  key = "name.resolver" \/ key = "mediatype" \/ key = "format".

Lemma Initialize_scan_last (kv : list string) :
  forall n, length kv = 2 * n ->
  forall key v format k, recognised key ->
    Initialize_scan (kv ++ [key; v]) format k = (ToLower v, key).
Proof.
  intros n. revert kv. induction n as [|n IH]; intros kv Hlen key v format k Hkey.
  - destruct kv; [|discriminate Hlen]. simpl.
    destruct Hkey as [-> | [-> | ->]]; reflexivity.
  - destruct kv as [|k1 [|v1 rest]]; [discriminate Hlen | simpl in Hlen; lia |].
    simpl in Hlen. cbn [app Initialize_scan].
    destruct (bool_decide (k1 = "name.resolver") || bool_decide (k1 = "mediatype")
              || bool_decide (k1 = "format")); apply IH; (lia || done).
Qed.

Lemma Initialize_scan_none (kv : list string) :
  forall n, length kv = 2 * n ->
  (forall i key, kv !! (2 * i) = Some key -> ~ recognised key) ->
  forall format k, exists k', Initialize_scan kv format k = (format, k').
Proof.
  intros n. revert kv. induction n as [|n IH]; intros kv Hlen Hnone format k.
  - destruct kv; [|discriminate Hlen]. by exists k.
  - destruct kv as [|k1 [|v1 rest]]; [discriminate Hlen | simpl in Hlen; lia |].
    simpl in Hlen. cbn [Initialize_scan].
    assert (Hk1 : ~ recognised k1) by (apply (Hnone 0); reflexivity).
    assert (bool_decide (k1 = "name.resolver") || bool_decide (k1 = "mediatype")
            || bool_decide (k1 = "format") = false) as ->.
    { unfold recognised in Hk1. repeat case_bool_decide; try reflexivity; exfalso; auto. }
    apply IH; [lia|]. intros i key Hi. apply (Hnone (S i)).
    replace (2 * S i) with (S (S (2 * i))) by lia. exact Hi.
Qed.

(** X7. The loop of [Initialize] does not stop at the first recognised key (its
    [break] leaves the [switch] only): the last recognised pair decides, so
    a call that ends in such a pair behaves like the call with that pair
    alone. *)
Theorem Initialize_last_pair_wins (un : Decoder) (kv : list string) (key v : string) :
  Nat.even (length kv) = true -> recognised key ->
  Decoder_Initialize un (kv ++ [key; v]) = Decoder_Initialize un [key; v].
Proof.
  intros Heven Hkey. apply Nat.even_spec in Heven as [n Hn].
  unfold Decoder_Initialize. rewrite length_app. simpl length.
  assert (Nat.even (length kv + 2) = true) as ->.
  { apply Nat.even_spec. exists (S n). lia. }
  cbn [negb Nat.even].
  rewrite (Initialize_scan_last kv n Hn key v EmptyString EmptyString Hkey).
  pose proof (Initialize_scan_last [] 0 eq_refl key v EmptyString EmptyString Hkey) as Hone.
  change ([] ++ [key; v]) with [key; v] in Hone. rewrite Hone. reflexivity.
Qed.

(** A decoder as it is before [Initialize]: a cursor, no modules, nothing
    decoded yet. *)
Definition new_decoder : Decoder :=
  mkDecoder (Some 0) (mkCollection [] true) None [] false [] None.

Lemma Initialize_last_pair_wins_witness :
  Decoder_Initialize new_decoder
    (["format"; "xml"] ++ ["mediatype"; "application/yang-data+json"])
  = Decoder_Initialize new_decoder ["mediatype"; "application/yang-data+json"].
Proof.
  apply (Initialize_last_pair_wins new_decoder ["format"; "xml"] "mediatype"
           "application/yang-data+json" eq_refl).
  right. left. reflexivity.
Defined.

(** X8. Without a recognised key among its (evenly many) arguments, and so for
    the call without arguments that [XMLReader().ReadFrom] makes when no
    [InitializeArgs] are set, [Initialize] returns an error; the resolver is
    nevertheless set to the pass-through one. *)
Theorem Initialize_needs_a_format (un : Decoder) (kv : list string) :
  Nat.even (length kv) = true ->
  (forall i key, kv !! (2 * i) = Some key -> ~ recognised key) ->
  exists k, Decoder_Initialize un kv
            = (Some (ErrNew ("unsupported '" ++ k ++ "' key value: ")),
               with_childname un (Some rfc6020Lookup)).
Proof.
  intros Heven Hnone. pose proof Heven as Heven'.
  apply Nat.even_spec in Heven as [n Hn].
  destruct (Initialize_scan_none kv n Hn Hnone EmptyString EmptyString) as [k Hk].
  exists k. unfold Decoder_Initialize. rewrite Heven', Hk. reflexivity.
Qed.

Lemma Initialize_needs_a_format_witness :
  exists k,
    Decoder_Initialize new_decoder []
    = (Some (ErrNew ("unsupported '" ++ k ++ "' key value: ")),
       with_childname new_decoder (Some rfc6020Lookup)).
Proof.
  apply (Initialize_needs_a_format new_decoder [] eq_refl).
  intros i key Hi. discriminate Hi.
Defined.

(** ** Creating a node and appending it *)

(** [AppendChild] of a node fresh from [new_with_attrs] to a node with a
    well-formed child list. *)
Lemma append_created (h : heap) cur ct ks v attrs :
  node_NodeType (Some cur) h = Ret (ct, h) ->
  allowInsertChild ct (payload_nodeType v) = true ->
  children h cur ks ->
  exists h' cn,
    (do c <- new_with_attrs v attrs; node_AppendChild (Some cur) c) h = Ret (None, h') /\
    length h' = S (length h) + length attrs /\
    children h' cur (ks ++ [length h]) /\
    h' !! length h = Some cn /\ value cn = Some v /\ parent cn = Some cur /\
    firstChild cn = None /\
    attributes h' (length h) (seq (S (length h)) (length attrs)) /\
    (forall i a, attrs !! i = Some a ->
       exists an, h' !! (S (length h) + i) = Some an /\ value an = Some (VAttribute a)) /\
    (forall a, a < length h -> a <> cur -> a ∉ ks -> h' !! a = h !! a) /\
    (forall a n, h !! a = Some n ->
       exists n', h' !! a = Some n' /\ value n' = value n /\ firstAttr n' = firstAttr n /\
                  parent n' = parent n /\
                  (a <> cur -> firstChild n' = firstChild n) /\
                  (a ∉ ks -> nextSib n' = nextSib n /\ prevSib n' = prevSib n)).
Proof.
  intros Hct Hallow Hch.
  destruct (new_with_attrs_spec v attrs h)
    as (h1 & n & Hnew & Hlen1 & Hsame1 & Hn & Hv & Hpar & Hfc & Hnx & Hpv & Hat & Hpay).
  assert (Hcur : exists pn, h !! cur = Some pn) by (destruct Hch as (pn & ? & _); eauto).
  destruct Hcur as [pn Hpn].
  assert (Hlt : cur < length h) by (by eapply lookup_lt_Some).
  assert (Hkslt : forall k, k ∈ ks -> k < length h).
  { intros k Hk. destruct Hch as (? & _ & Hc). eapply chain_allocated; eauto. }
  assert (Hnotin : length h ∉ ks) by (intros Hin; apply Hkslt in Hin; lia).
  assert (Hch1 : children h1 cur ks).
  { destruct Hch as (pn0 & Hpn0 & Hc). exists pn0. split; [by rewrite Hsame1|].
    eapply chain_frame; [exact Hc|]. intros k m Hk Hm Hown. exists m.
    split; [|done]. rewrite Hsame1; [done|]. by apply Hkslt. }
  destruct (appendNode_children h1 cur ks (length h) n Hch1 Hn Hnx Hnotin ltac:(lia))
    as (h' & Hrun & Hch' & Hlen & Hsame & Hframe).
  destruct (Hframe _ _ Hn) as (cn & Hcn & Hvcn & Hfacn & Hfccn & _ & _).
  exists h', cn. split.
  { rewrite (bind_Ret _ _ _ _ _ Hnew). unfold node_AppendChild.
    rewrite (node_NodeType_Ret h cur pn Hpn) in Hct. injection Hct as Hct.
    assert (Hpn1 : h1 !! cur = Some pn) by (by rewrite Hsame1).
    rewrite (bind_Ret _ _ _ _ _ (node_NodeType_Ret h1 cur pn Hpn1)). rewrite Hct.
    rewrite (bind_Ret _ _ _ _ _ (node_NodeType_Ret h1 _ n Hn)). rewrite Hv.
    rewrite (allowInsertChildErr_None _ _ Hallow).
    rewrite (bind_Ret _ _ _ _ _ Hrun). reflexivity. }
  split; [lia|]. split; [exact Hch'|]. split; [exact Hcn|].
  split; [congruence|]. split.
  { destruct Hch' as (_ & _ & _ & _ & Hks').
    destruct (Hks' (length ks) (length h)) as (m & Hm & Hown & _).
    { rewrite lookup_app_r by lia. by rewrite Nat.sub_diag. }
    congruence. }
  split; [rewrite Hfccn by lia; done|].
  assert (Hattrs_lt : forall k, k ∈ seq (S (length h)) (length attrs) -> length h < k).
  { intros k Hk. apply elem_of_seq in Hk. lia. }
  split.
  { destruct Hat as (an & Han & Hc). assert (an = n) as -> by congruence.
    exists cn. split; [exact Hcn|]. rewrite Hfacn.
    eapply chain_frame; [exact Hc|]. intros k m Hk Hm _. exists m.
    split; [|done]. apply Hattrs_lt in Hk. rewrite Hsame; [done|lia|lia|].
    intros Hin. apply Hkslt in Hin. lia. }
  split.
  { intros i a Hi. destruct (Hpay i a Hi) as (an & Han & Hva). exists an.
    split; [|done]. rewrite Hsame; [done|lia|lia|].
    intros Hin. apply Hkslt in Hin. lia. }
  split.
  { intros a Ha Hac Hak. rewrite Hsame; [by apply Hsame1 | done | lia | done]. }
  intros a m Ha.
  assert (Halt : a < length h) by (by eapply lookup_lt_Some).
  destruct (Hframe a m) as (m' & Hm' & Hv' & Hfa' & Hfc' & Hp' & Hsib').
  { by rewrite Hsame1. }
  exists m'. split; [done|]. split; [done|]. split; [done|].
  split; [apply Hp'; lia|]. split; [exact Hfc'|].
  intros Hak. apply Hsib'; [lia | done].
Qed.

(** ** Checking a concrete store *)

Definition chain_okb (ownb : node -> bool) (h : heap) (first : ptr) (ks : list nat) : bool :=
  bool_decide (NoDup ks) && bool_decide (first = head ks) &&
  forallb (fun i =>
             match ks !! i with
             | Some k =>
                 match h !! k with
                 | Some n =>
                     ownb n && bool_decide (nextSib n = ks !! S i)
                     && bool_decide (prevSib n = match i with O => last ks | S j => ks !! j end)
                 | None => false
                 end
             | None => true
             end) (seq 0 (length ks)).

Lemma chain_okb_sound (ownb : node -> bool) (own : node -> Prop) (h : heap) first ks :
  (forall n, ownb n = true -> own n) ->
  chain_okb ownb h first ks = true -> chain own h first ks.
Proof.
  intros Hown Hok. unfold chain_okb in Hok.
  apply andb_true_iff in Hok as [Hok Hall]. apply andb_true_iff in Hok as [Hnd Hfirst].
  apply bool_decide_eq_true in Hnd, Hfirst.
  split; [done|]. split; [done|]. intros i k Hik.
  rewrite forallb_forall in Hall. specialize (Hall i).
  rewrite Hik in Hall.
  assert (Hin : In i (seq 0 (length ks))).
  { apply in_seq. apply lookup_lt_Some in Hik. lia. }
  specialize (Hall Hin). destruct (h !! k) as [n|]; [|discriminate].
  apply andb_true_iff in Hall as [Hall Hpv]. apply andb_true_iff in Hall as [Ho Hnx].
  apply bool_decide_eq_true in Hpv, Hnx. exists n. auto.
Qed.

Definition children_okb (h : heap) (p : nat) (ks : list nat) : bool :=
  match h !! p with
  | Some pn => chain_okb (fun n => bool_decide (parent n = Some p)) h (firstChild pn) ks
  | None => false
  end.

Lemma children_okb_sound (h : heap) p ks : children_okb h p ks = true -> children h p ks.
Proof.
  unfold children_okb. destruct (h !! p) as [pn|] eqn:Hp; [|discriminate].
  intros Hok. exists pn. split; [done|].
  eapply chain_okb_sound; [|exact Hok]. intros n Hn. by apply bool_decide_eq_true in Hn.
Qed.

Definition attributes_okb (h : heap) (p : nat) (ks : list nat) : bool :=
  match h !! p with
  | Some pn => chain_okb (fun _ => true) h (firstAttr pn) ks
  | None => false
  end.

Lemma attributes_okb_sound (h : heap) p ks :
  attributes_okb h p ks = true -> attributes h p ks.
Proof.
  unfold attributes_okb. destruct (h !! p) as [pn|] eqn:Hp; [|discriminate].
  intros Hok. exists pn. split; [done|].
  eapply chain_okb_sound; [|exact Hok]. done.
Qed.

(** ** decoder.go: the schema-guided decoder on a name the schema has *)

Lemma new_node_as_new_with_attrs {A} (v : payload) (k : ptr -> M A) (h : heap) :
  (do c <- new_node v; k c) h = (do c <- new_with_attrs v []; k c) h.
Proof. reflexivity. Qed.

(** [StartElement] on a name that resolves: the element is created and
    appended to the cursor at once, the cursor and the schema move to it,
    and the frame that restores both is pushed. *)
Lemma Decoder_StartElement_resolved (un : Decoder) (h : heap) lookup sename name attrs s
    cur ct ks :
  childname un = Some lookup ->
  apply_lookup lookup (Modules un) sename = (name, None) ->
  Decoder_dataChild un name = (Some s, None) ->
  skip un = false -> Node un = Some cur ->
  node_NodeType (Some cur) h = Ret (ct, h) ->
  allowInsertChild ct NodeTypeElement = true ->
  children h cur ks ->
  exists h1 en,
    Decoder_StartElement un sename attrs h
    = Ret ((None, mkDecoder (Some (length h)) (Modules un) (Some s)
                    (Restore (schema un) (Some cur) :: stack un) false (errors un)
                    (childname un)), h1) /\
    length h1 = S (length h) + length attrs /\
    children h1 cur (ks ++ [length h]) /\ children h1 (length h) [] /\
    h1 !! length h = Some en /\ value en = Some (VElement name "") /\
    parent en = Some cur /\
    attributes h1 (length h) (seq (S (length h)) (length attrs)) /\
    (forall i a, attrs !! i = Some a ->
       exists an, h1 !! (S (length h) + i) = Some an /\ value an = Some (VAttribute a)).
Proof.
  intros Hcn Hlook Hdc Hskip Hnode Hct Hallow Hch.
  destruct (append_created h cur ct ks (VElement name "") attrs Hct Hallow Hch)
    as (h1 & en & Hrun & Hlen & Hch1 & Hen & Hv & Hpar & Hfc & Hat & Hpay & _ & _).
  exists h1, en. split.
  { unfold Decoder_StartElement. rewrite Hcn, Hlook, Hdc, Hskip, Hnode. cbn [negb].
    change (CreateElement name attrs) with (new_with_attrs (VElement name "") attrs).
    unfold bind in Hrun |- *.
    destruct (new_with_attrs (VElement name "") attrs h) as [[c h0]| |] eqn:Hnew; try done.
    unfold ret at 1.
    destruct (new_with_attrs_spec (VElement name "") attrs h) as (? & ? & Hnew' & _).
    rewrite Hnew in Hnew'. injection Hnew' as -> _.
    rewrite Hrun. reflexivity. }
  split; [exact Hlen|]. split; [exact Hch1|]. split.
  { exists en. split; [exact Hen|]. rewrite Hfc. split; [apply NoDup_nil_2|].
    split; [reflexivity|]. intros i k Hik. destruct i; discriminate Hik. }
  done.
Qed.

(** [CharData] under an element without children: the text becomes its
    only child; the frame on top of the stack stays there and is run. *)
Lemma Decoder_CharData_appends (h1 : heap) e ms s sch nd st errs0 cn cd :
  node_NodeType (Some e) h1 = Ret (NodeTypeElement, h1) ->
  children h1 e [] ->
  let errs := if bool_decide (Kind s <> LeafEntry)
              then errs0 ++ [ErrWrap ErrHierarchyRequest "schema node is not a leaf"]
              else errs0 in
  exists h2 tn,
    Decoder_CharData (mkDecoder (Some e) ms (Some s) (Restore sch nd :: st) false errs0 cn)
                     cd h1
    = Ret ((None, mkDecoder nd ms sch (Restore sch nd :: st) false errs cn), h2) /\
    length h2 = S (length h1) /\
    children h2 e [length h1] /\
    h2 !! length h1 = Some tn /\ value tn = Some (VText cd) /\ firstChild tn = None /\
    (forall a n, h1 !! a = Some n ->
       exists n', h2 !! a = Some n' /\ value n' = value n /\ firstAttr n' = firstAttr n /\
         parent n' = parent n /\ (a <> e -> firstChild n' = firstChild n) /\
         nextSib n' = nextSib n /\ prevSib n' = prevSib n).
Proof.
  intros Hcte Hche errs.
  destruct (append_created h1 e NodeTypeElement [] (VText cd) [] Hcte eq_refl Hche)
    as (h2 & tn & Hrun & Hlen2 & Hch2 & Htn & Hvtn & Hptn & Hfctn & _ & _ & Hsame & Hframe).
  exists h2, tn. split.
  { unfold Decoder_CharData. cbn [skip schema stack Node Modules errors childname].
    subst errs.
    assert (Hgo : forall d,
      (do r <- pop (mkDecoder (Some e) ms (Some s) (Restore sch nd :: st) false d cn);
       let update := fst r in
       let un2 := push (snd r) update in
       do text <- CreateText cd;
       do cur <- match Node un2 with None => panic | Some a => ret (Some a) end;
       do crit <- node_AppendChild cur text;
       match crit with
       | Some e0 => ret (Some e0, un2)
       | None => ret (None, apply_frame update un2)
       end) h1
      = Ret ((None, mkDecoder nd ms sch (Restore sch nd :: st) false d cn), h2)).
    { intros d.
      change (pop (mkDecoder (Some e) ms (Some s) (Restore sch nd :: st) false d cn))
        with (ret (Restore sch nd, mkDecoder (Some e) ms (Some s) st false d cn)
              : M (frame * Decoder)).
      unfold bind at 1, ret at 1. cbn [fst snd push Node].
      change (CreateText cd) with (new_node (VText cd)).
      rewrite new_node_as_new_with_attrs.
      unfold bind in Hrun |- *.
      destruct (new_with_attrs (VText cd) [] h1) as [[c h0]| |] eqn:Hnew; try done.
      unfold ret at 1.
      rewrite Hrun. reflexivity. }
    destruct (bool_decide (Kind s <> LeafEntry)); apply Hgo. }
  split; [simpl in Hlen2; lia|]. split; [exact Hch2|].
  split; [exact Htn|]. split; [exact Hvtn|]. split; [exact Hfctn|].
  intros a n Han. destruct (Hframe a n Han) as (n' & Hn' & Hv & Hfa & Hp & Hfc & Hsib).
  exists n'. split; [done|]. split; [done|]. split; [done|]. split; [done|].
  split; [done|]. apply Hsib, not_elem_of_nil.
Qed.

(** X9. A leaf element: [StartElement], [CharData], [EndElement] with a name
    the schema resolves.  The element becomes the last child of the cursor
    and the text its only child.  [CharData] already runs the restoring
    frame, so the cursor and the schema are back at their old values before
    the end tag arrives, and [EndElement] runs the same frame again; a
    schema entry that is not a leaf costs one recorded error, nothing
    else. *)
Theorem Decoder_leaf_element (un : Decoder) (h : heap) lookup sename name attrs s
    cur ct ks cd ename :
  childname un = Some lookup ->
  apply_lookup lookup (Modules un) sename = (name, None) ->
  Decoder_dataChild un name = (Some s, None) ->
  skip un = false -> Node un = Some cur ->
  node_NodeType (Some cur) h = Ret (ct, h) ->
  allowInsertChild ct NodeTypeElement = true ->
  children h cur ks ->
  let e := length h in
  let t := S (length h) + length attrs in
  let errs := if bool_decide (Kind s <> LeafEntry)
              then errors un ++ [ErrWrap ErrHierarchyRequest "schema node is not a leaf"]
              else errors un in
  let opened := Restore (schema un) (Some cur) :: stack un in
  let un1 := mkDecoder (Some e) (Modules un) (Some s) opened false (errors un)
               (childname un) in
  let un2 := mkDecoder (Some cur) (Modules un) (schema un) opened false errs
               (childname un) in
  let un3 := mkDecoder (Some cur) (Modules un) (schema un) (stack un) false errs
               (childname un) in
  exists h1 h2 en tn,
    Decoder_StartElement un sename attrs h = Ret ((None, un1), h1) /\
    Decoder_CharData un1 cd h1 = Ret ((None, un2), h2) /\
    Decoder_EndElement un2 ename h2 = Ret ((None, un3), h2) /\
    children h2 cur (ks ++ [e]) /\ children h2 e [t] /\ children h2 t [] /\
    h2 !! e = Some en /\ value en = Some (VElement name "") /\
    h2 !! t = Some tn /\ value tn = Some (VText cd).
Proof.
  intros Hcn Hlook Hdc Hskip Hnode Hct Hallow Hch e t errs opened un1 un2 un3.
  destruct (Decoder_StartElement_resolved un h lookup sename name attrs s cur ct ks
              Hcn Hlook Hdc Hskip Hnode Hct Hallow Hch)
    as (h1 & en & Hstart & Hlen1 & Hch1 & Hche & Hen & Hven & Hpen & Hat & Hpay).
  fold e in Hstart, Hch1, Hche, Hen, Hat.
  assert (Hcte : node_NodeType (Some e) h1 = Ret (NodeTypeElement, h1)).
  { rewrite (node_NodeType_Ret h1 e en Hen), Hven. reflexivity. }
  destruct (Decoder_CharData_appends h1 e (Modules un) s (schema un) (Some cur) (stack un)
              (errors un) (childname un) cd Hcte Hche)
    as (h2 & tn & Hcd & Hlen2 & Hch2 & Htn & Hvtn & Hfctn & Hframe).
  assert (Ht : length h1 = t) by (subst t; lia).
  rewrite Ht in Hch2, Htn.
  destruct (Hframe e en Hen) as (en' & Hen' & Hven' & _).
  exists h1, h2, en', tn.
  split; [exact Hstart|]. split; [exact Hcd|]. split; [reflexivity|].
  split.
  { destruct Hch1 as (pn & Hpn & Hc).
    assert (Hcure : cur <> e).
    { destruct Hch as (? & Hc0 & _). apply lookup_lt_Some in Hc0. subst e. lia. }
    destruct (Hframe cur pn Hpn) as (pn' & Hpn' & _ & _ & _ & Hfc' & _).
    exists pn'. split; [exact Hpn'|]. rewrite Hfc' by done.
    eapply chain_frame; [exact Hc|]. intros k m Hk Hm Hown.
    destruct (Hframe k m Hm) as (m' & Hm' & _ & _ & Hp' & _ & Hns & Hps).
    exists m'. split; [done|]. split; [congruence|]. done. }
  split; [exact Hch2|]. split.
  { exists tn. split; [exact Htn|]. rewrite Hfctn. split; [apply NoDup_nil_2|].
    split; [reflexivity|]. intros i k Hik. destruct i; discriminate Hik. }
  split; [exact Hen'|]. split; [congruence|]. split; [exact Htn|]. exact Hvtn.
Qed.

(** The leaf [host-name] of [module1] under a document with the schema
    cursor on [system]. *)
Lemma Decoder_leaf_element_witness :
  let un := mkDecoder (Some 0) module1_collection (Some module1_system) [] false []
              (Some rfc6020Lookup) in
  let h := [mkNode None None None None None (Some VDocument)] in
  exists h1 h2,
    Decoder_StartElement un (mkName "urn:mod1" "host-name") [] h
    = Ret ((None, mkDecoder (Some 1) module1_collection
                    (Some (mkEntry "host-name" LeafEntry "urn:mod1" []))
                    [Restore (Some module1_system) (Some 0)] false []
                    (Some rfc6020Lookup)), h1) /\
    Decoder_CharData (mkDecoder (Some 1) module1_collection
                        (Some (mkEntry "host-name" LeafEntry "urn:mod1" []))
                        [Restore (Some module1_system) (Some 0)] false []
                        (Some rfc6020Lookup)) (bytes_of "abc") h1
    = Ret ((None, mkDecoder (Some 0) module1_collection (Some module1_system)
                    [Restore (Some module1_system) (Some 0)] false []
                    (Some rfc6020Lookup)), h2) /\
    children h2 0 [1] /\ children h2 1 [2].
Proof.
  intros un h.
  destruct (Decoder_leaf_element un h rfc6020Lookup (mkName "urn:mod1" "host-name")
              (mkName "urn:mod1" "host-name") [] (mkEntry "host-name" LeafEntry "urn:mod1" [])
              0 NodeTypeDocument [] (bytes_of "abc") (mkName "urn:mod1" "host-name")
              eq_refl eq_refl eq_refl eq_refl eq_refl eq_refl eq_refl
              (children_okb_sound h 0 [] eq_refl))
    as (h1 & h2 & en & tn & Hs & Hc & _ & Hk & Hk' & _).
  exists h1, h2. split; [exact Hs|]. split; [exact Hc|]. split; [exact Hk|exact Hk'].
Defined.

(** X10. An unknown element nested in an unknown element ends the skipping:
    the frame pushed by the inner failure clears the skip flag when the
    inner end tag runs it, although the frame of the outer element is still
    on the stack.  What follows inside the outer element is decoded again,
    at the cursor and against the schema of the outer element's parent. *)
Theorem nested_unknown_element_ends_skipping (un : Decoder) lookup a b attrsa attrsb
    (h : heap) erra errb ename :
  childname un = Some lookup ->
  resolution_fails un lookup a erra ->
  resolution_fails un lookup b errb ->
  exists un1 un2,
    Decoder_StartElement un a attrsa h = Ret ((None, un1), h) /\ skip un1 = true /\
    Decoder_StartElement un1 b attrsb h = Ret ((None, un2), h) /\
    Decoder_EndElement un2 ename h
    = Ret ((None, mkDecoder (datastore.Node un) (Modules un) (schema un)
                    (RestoreUnskip (schema un) (datastore.Node un) :: stack un)
                    false (errors un ++ [erra; errb]) (childname un)), h).
Proof.
  intros Hcn Ha Hb.
  assert (Hfail : forall (d : Decoder) n attrs err,
    childname d = Some lookup -> resolution_fails d lookup n err ->
    Decoder_StartElement d n attrs h = Ret ((None, record_failure d err), h)).
  { intros d n attrs err Hd Hn. unfold Decoder_StartElement. rewrite Hd.
    destruct Hn as [Hn | [Hn1 Hn2]].
    - destruct (apply_lookup lookup (Modules d) n) as [nm [e|]]; simpl in Hn; [|discriminate].
      injection Hn as ->. reflexivity.
    - destruct (apply_lookup lookup (Modules d) n) as [nm [e|]]; simpl in Hn1, Hn2;
        [discriminate|].
      destruct (Decoder_dataChild d nm) as [c [e|]]; simpl in Hn2; [|discriminate].
      injection Hn2 as ->. reflexivity. }
  exists (record_failure un erra), (record_failure (record_failure un erra) errb).
  split; [apply Hfail; assumption|]. split; [reflexivity|]. split.
  { apply Hfail; [exact Hcn|].
    unfold resolution_fails, Decoder_dataChild in Hb |- *. exact Hb. }
  unfold Decoder_EndElement, record_failure; cbn. rewrite <- app_assoc. reflexivity.
Qed.

Lemma nested_unknown_element_ends_skipping_witness :
  let un := mkDecoder (Some 0) module1_collection (Some module1_system) [] false []
              (Some rfc6020Lookup) in
  exists un1 un2 un3,
    Decoder_StartElement un (mkName "" "a") [] [] = Ret ((None, un1), []) /\
    skip un1 = true /\
    Decoder_StartElement un1 (mkName "" "b") [] [] = Ret ((None, un2), []) /\
    Decoder_EndElement un2 (mkName "" "b") [] = Ret ((None, un3), []) /\
    skip un3 = false /\ length (stack un3) = 1.
Proof.
  intros un.
  destruct (nested_unknown_element_ends_skipping un rfc6020Lookup (mkName "" "a")
              (mkName "" "b") [] [] [] (ErrNew "unexpected child element <a>")
              (ErrNew "unexpected child element <b>") (mkName "" "b")
              eq_refl (or_intror (conj eq_refl eq_refl)) (or_intror (conj eq_refl eq_refl)))
    as (un1 & un2 & H1 & Hs & H2 & H3).
  exists un1, un2. eexists. split; [exact H1|]. split; [exact Hs|]. split; [exact H2|].
  split; [exact H3|]. split; reflexivity.
Defined.

(** X11. Character data or an end tag that arrives while no element is open
    reaches the pop of an empty stack: decoding panics instead of
    answering an error. *)
Theorem Decoder_without_open_element_panics (un : Decoder) (h : heap) rest final a cd name :
  datastore.Node un = Some a -> stack un = [] ->
  (skip un = false -> UnmarshalXML (CharData cd :: rest) final un h = Panic) /\
  UnmarshalXML (EndElement name :: rest) final un h = Panic.
Proof.
  intros Hnode Hstack.
  assert (Hbegin : Decoder_Begin un h = Ret ((None, un), h)).
  { unfold Decoder_Begin. rewrite Hnode. reflexivity. }
  split.
  - intros Hskip. unfold UnmarshalXML. cbn [td_Begin Decoder_TokenDecoder].
    rewrite (bind_Ret _ _ _ _ _ Hbegin). cbn [UnmarshalXML_loop td_Token].
    cbn [td_CharData Decoder_TokenDecoder]. unfold Decoder_CharData. rewrite Hskip.
    cbv zeta.
    destruct (match schema un with None => true | Some e => bool_decide (Kind e <> LeafEntry) end);
      unfold bind, pop; cbn [stack]; rewrite Hstack; reflexivity.
  - unfold UnmarshalXML. cbn [td_Begin Decoder_TokenDecoder].
    rewrite (bind_Ret _ _ _ _ _ Hbegin). cbn [UnmarshalXML_loop td_Token].
    cbn [td_EndElement Decoder_TokenDecoder]. unfold Decoder_EndElement, bind, pop.
    rewrite Hstack. reflexivity.
Qed.

Lemma Decoder_without_open_element_panics_witness :
  let un := mkDecoder (Some 0) module1_collection None [] false [] (Some rfc6020Lookup) in
  let h := [mkNode None None None None None (Some VDocument)] in
  UnmarshalXML [CharData (bytes_of "abc")] EOF un h = Panic /\
  UnmarshalXML [EndElement (mkName "" "a")] EOF un h = Panic.
Proof.
  intros un h.
  destruct (Decoder_without_open_element_panics un h [] EOF 0 (bytes_of "abc") (mkName "" "a")
              eq_refl eq_refl) as [Hc He].
  split; [exact (Hc eq_refl)|exact He].
Defined.

(** X12. A stream that ends while a decoded element is open: [End] finds a
    parent above the cursor and answers [io.ErrUnexpectedEOF]; the element
    stays in the document. *)
Theorem Decoder_unclosed_element (un : Decoder) (h : heap) lookup sename name attrs s
    cur ct ks :
  childname un = Some lookup ->
  apply_lookup lookup (Modules un) sename = (name, None) ->
  Decoder_dataChild un name = (Some s, None) ->
  skip un = false -> datastore.Node un = Some cur ->
  node_NodeType (Some cur) h = Ret (ct, h) ->
  allowInsertChild ct NodeTypeElement = true ->
  children h cur ks ->
  exists un1 h1,
    UnmarshalXML [StartElement sename attrs] EOF un h
    = Ret ((Some ErrUnexpectedEOF, un1), h1) /\
    datastore.Node un1 = Some (length h) /\
    children h1 cur (ks ++ [length h]).
Proof.
  intros Hcn Hlook Hdc Hskip Hnode Hct Hallow Hch.
  destruct (Decoder_StartElement_resolved un h lookup sename name attrs s cur ct ks
              Hcn Hlook Hdc Hskip Hnode Hct Hallow Hch)
    as (h1 & en & Hstart & Hlen1 & Hch1 & Hche & Hen & Hven & Hpen & Hat & Hpay).
  exists (mkDecoder (Some (length h)) (Modules un) (Some s)
            (Restore (schema un) (Some cur) :: stack un) false (errors un) (childname un)), h1.
  split; [|split; [reflexivity|exact Hch1]].
  unfold UnmarshalXML. cbn [td_Begin Decoder_TokenDecoder].
  assert (Hbegin : Decoder_Begin un h = Ret ((None, un), h)).
  { unfold Decoder_Begin. rewrite Hnode. reflexivity. }
  rewrite (bind_Ret _ _ _ _ _ Hbegin). cbn [UnmarshalXML_loop td_Token].
  cbn [td_StartElement Decoder_TokenDecoder].
  rewrite (bind_Ret _ _ _ _ _ Hstart). cbv beta iota.
  cbn [td_End Decoder_TokenDecoder]. unfold Decoder_End.
  rewrite bool_decide_eq_true_2 by reflexivity. cbn [datastore.Node].
  unfold node_Parent.
  rewrite (bind_Ret _ _ _ _ _ (eq_refl : ret (Some (length h)) h1 = Ret (Some (length h), h1))).
  erewrite bind_Ret by (apply get_Ret; exact Hen). rewrite Hpen. reflexivity.
Qed.

Lemma Decoder_unclosed_element_witness :
  let un := mkDecoder (Some 0) module1_collection None [] false [] (Some rfc6020Lookup) in
  let h := [mkNode None None None None None (Some VDocument)] in
  exists un1 h1,
    UnmarshalXML [StartElement (mkName "urn:mod1" "system") []] EOF un h
    = Ret ((Some ErrUnexpectedEOF, un1), h1) /\
    datastore.Node un1 = Some 1 /\ children h1 0 [1].
Proof.
  intros un h.
  exact (Decoder_unclosed_element un h rfc6020Lookup (mkName "urn:mod1" "system")
           (mkName "urn:mod1" "system") [] module1_system 0 NodeTypeDocument []
           eq_refl eq_refl eq_refl eq_refl eq_refl eq_refl eq_refl
           (children_okb_sound h 0 [] eq_refl)).
Defined.

(** ** node.go: [PrependChild] and [InsertChildAfter] on a child list *)

Lemma chain_nonempty own (h : heap) first hd rest :
  chain own h first (hd :: rest) ->
  exists hn tl, h !! hd = Some hn /\ own hn /\ last (hd :: rest) = Some tl /\
    prevSib hn = Some tl /\ nextSib hn = head rest.
Proof.
  intros (_ & _ & Hks). destruct (Hks 0 hd eq_refl) as (hn & Hhn & Hown & Hnx & Hpv).
  destruct (last (hd :: rest)) as [tl|] eqn:Hl.
  - exists hn, tl. rewrite Hnx. destruct rest; done.
  - apply last_None in Hl. discriminate.
Qed.

Lemma bind_bind {A B C} (m : M A) (f : A -> M B) (g : B -> M C) (h : heap) :
  bind (bind m f) g h = bind m (fun x => bind (f x) g) h.
Proof. unfold bind. destruct (m h) as [[a h1]| |]; reflexivity. Qed.

(** [prependNode] on a well-formed child list: a node that is not in the
    list becomes the new head; the payloads and the attribute lists of the
    store are untouched. *)
Lemma prependNode_children h p ks c cn :
  children h p ks -> h !! c = Some cn -> c ∉ ks -> c <> p -> p ∉ ks ->
  exists h', prependNode (Some c) (Some p) h = Ret (tt, h') /\
             children h' p (c :: ks) /\
             length h' = length h /\
             (forall a, a <> p -> a <> c -> a ∉ ks -> h' !! a = h !! a) /\
             (forall a n, h !! a = Some n ->
                exists n', h' !! a = Some n' /\ value n' = value n /\ firstAttr n' = firstAttr n /\
                  (a <> p -> firstChild n' = firstChild n) /\
                  (a <> c -> parent n' = parent n) /\
                  (a <> c -> a ∉ ks -> nextSib n' = nextSib n /\ prevSib n' = prevSib n)).
Proof.
  intros (pn & Hp & Hchain) Hc Hnotin Hcp Hpks.
  destruct ks as [|hd rest].
  - destruct Hchain as (_ & Hfirst & _). simpl in Hfirst.
    unfold prependNode, set_parent, set_nextSib, set_prevSib, set_firstChild.
    eexists. split.
    { step. step. rewrite Hfirst. cbv iota. step. step. eapply modify_Ret. lk. eauto. }
    split; [|split; [by rewrite !length_insert|split; [intros a ? ? ?; by lk|]]].
    + eexists. split; [lk; reflexivity|]. simpl.
      split; [apply NoDup_singleton|]. split; [reflexivity|].
      intros i k Hik. destruct i; simpl in Hik; [|done]. simplify_eq.
      eexists. split; [lk; reflexivity|]. simpl. done.
    + intros a n Ha.
      destruct (decide (a = c)) as [->|Hac]; [|destruct (decide (a = p)) as [->|Hap]];
        simplify_eq; (eexists; split; [lk; first [reflexivity|eassumption]|]); simpl;
        repeat split; intros; congruence.
  - destruct (chain_nonempty _ _ _ _ _ Hchain) as (hn & tl & Hhn & Hown & Htl & Hhp & Hhnx).
    destruct Hchain as (Hnd & Hfirst & Hks). simpl in Hfirst.
    assert (Hhdc : hd <> c) by (intros ->; apply Hnotin; left).
    assert (Hhdp : hd <> p) by (intros ->; apply Hpks; left).
    unfold prependNode, set_parent, set_nextSib, set_prevSib, set_firstChild.
    eexists. split.
    { step. step. rewrite Hfirst. cbv iota. rewrite !bind_bind. step. rewrite Hhp.
      rewrite !bind_bind. step. step. step. eapply modify_Ret. lk. eauto. }
    split; [|split; [by rewrite !length_insert|split]].
    2:{ intros a ? ? Hn. assert (a <> hd) by (intros ->; apply Hn; left). by lk. }
    2:{ intros a n Ha.
        destruct (decide (a = p)) as [->|Hap].
        { eexists; split; [lk; reflexivity|]. simpl. assert (n = pn) by congruence. subst n.
          repeat split; intros; done. }
        destruct (decide (a = c)) as [->|Hac].
        { eexists; split; [lk; reflexivity|]. simpl. assert (n = cn) by congruence. subst n.
          repeat split; intros; done. }
        destruct (decide (a = hd)) as [->|Hah].
        { eexists; split; [lk; reflexivity|]. simpl. assert (n = hn) by congruence. subst n.
          repeat split; intros; try done. exfalso.
          match goal with H : _ ∉ _ |- _ => apply H end. left. }
        eexists; split; [lk; eassumption|]. repeat split; intros; done. }
    eexists. split; [lk; reflexivity|]. simpl.
    split. { apply NoDup_cons. split; done. }
    split; [reflexivity|].
    intros i k Hik.
    change (last (c :: hd :: rest)) with (last (hd :: rest)). rewrite Htl.
    destruct i as [|i]; simpl in Hik.
    + simplify_eq. eexists. split; [lk; reflexivity|]. simpl. done.
    + destruct (Hks i k Hik) as (kn & Hkn & Hkown & Hknx & Hkpv).
      assert (Hkin : k ∈ hd :: rest) by (eapply list_elem_of_lookup_2; eauto).
      assert (Hkc : k <> c) by (intros ->; done).
      assert (Hkp : k <> p) by (intros ->; done).
      destruct (decide (k = hd)) as [->|Hkh].
      * assert (i = 0) as -> by (eapply NoDup_lookup; eauto; reflexivity).
        assert (kn = hn) by congruence. subst kn.
        eexists. split; [lk; reflexivity|]. simpl. done.
      * destruct i as [|i]; [simpl in Hik; congruence|].
        eexists. split; [lk; eassumption|]. done.
Qed.

(** X13. PrependChild on a well-formed child list puts the new node in front:
    the child list of the parent is the old one behind the new child, the
    parent's first child is the new child, no payload of the store changes;
    InsertChildBefore without a reference node is the same operation. *)
Theorem PrependChild_children (h : heap) p ks c cn pt ct :
  children h p ks -> h !! c = Some cn -> c ∉ ks -> c <> p -> p ∉ ks ->
  node_NodeType (Some p) h = Ret (pt, h) ->
  node_NodeType (Some c) h = Ret (ct, h) ->
  allowInsertChild pt ct = true ->
  exists h',
    node_PrependChild (Some p) (Some c) h = Ret (None, h') /\
    node_InsertChildBefore (Some p) (Some c) None h = Ret (None, h') /\
    children h' p (c :: ks) /\
    node_FirstChild (Some p) h' = Ret (Some c, h') /\
    length h' = length h /\
    (forall a n, h !! a = Some n ->
       exists n', h' !! a = Some n' /\ value n' = value n /\ firstAttr n' = firstAttr n).
Proof.
  intros Hch Hc Hnotin Hcp Hpks Hpt Hct Hallow.
  destruct (prependNode_children h p ks c cn Hch Hc Hnotin Hcp Hpks)
    as (h' & Hrun & Hch' & Hlen & _ & Hframe).
  exists h'.
  assert (Hgo : node_PrependChild (Some p) (Some c) h = Ret (None, h')).
  { unfold node_PrependChild. rewrite (bind_Ret _ _ _ _ _ Hpt), (bind_Ret _ _ _ _ _ Hct).
    rewrite (allowInsertChildErr_None _ _ Hallow).
    rewrite (bind_Ret _ _ _ _ _ Hrun). reflexivity. }
  split; [exact Hgo|]. split; [exact Hgo|]. split; [exact Hch'|].
  split.
  { destruct Hch' as (pn' & Hpn' & _ & Hfirst & _). unfold node_FirstChild.
    rewrite (get_Ret firstChild h' p pn' Hpn'), Hfirst. reflexivity. }
  split; [exact Hlen|].
  intros a n Ha. destruct (Hframe a n Ha) as (n' & Hn' & Hv & Hfa & _).
  exists n'. done.
Qed.

Lemma lookup_insert_after {A} (l1 l2 : list A) (r c : A) (i : nat) :
  (l1 ++ r :: c :: l2) !! i
  = if decide (i <= length l1) then (l1 ++ r :: l2) !! i
    else if decide (i = S (length l1)) then Some c
    else (l1 ++ r :: l2) !! (i - 1).
Proof.
  destruct (decide (i <= length l1)) as [Hle|Hgt].
  - destruct (decide (i < length l1)) as [Hlt|Hge].
    + by rewrite !lookup_app_l.
    + assert (i = length l1) as -> by lia.
      rewrite !lookup_app_r by lia. rewrite Nat.sub_diag. reflexivity.
  - destruct (decide (i = S (length l1))) as [->|Hne].
    + rewrite lookup_app_r by lia.
      replace (S (length l1) - length l1) with 1 by lia. reflexivity.
    + rewrite !lookup_app_r by lia.
      replace (i - length l1) with (S (S (i - length l1 - 2))) by lia.
      replace (i - 1 - length l1) with (S (i - length l1 - 2)) by lia. reflexivity.
Qed.

Lemma last_insert_after {A} (l1 l2 : list A) (r c : A) :
  last (l1 ++ r :: c :: l2) = match l2 with [] => Some c | _ => last (l1 ++ r :: l2) end.
Proof.
  destruct l2 as [|x l2].
  - change (l1 ++ [r; c]) with (l1 ++ [r] ++ [c]). rewrite app_assoc. apply last_snoc.
  - rewrite !last_app. simpl. reflexivity.
Qed.

(** [insertNodeAfter] on a well-formed child list: the new node takes the
    place behind the reference node [r]. *)
Lemma insertNodeAfter_children h p l1 r l2 c cn :
  children h p (l1 ++ r :: l2) -> h !! c = Some cn ->
  c ∉ l1 ++ r :: l2 -> c <> p -> p ∉ l1 ++ r :: l2 ->
  exists h', insertNodeAfter (Some c) (Some r) h = Ret (tt, h') /\
             children h' p (l1 ++ r :: c :: l2) /\
             length h' = length h /\
             (forall a n, h !! a = Some n ->
                exists n', h' !! a = Some n' /\ value n' = value n /\
                  firstAttr n' = firstAttr n /\ firstChild n' = firstChild n /\
                  (a <> c -> parent n' = parent n) /\
                  (a <> c -> a ∉ l1 ++ r :: l2 ->
                     nextSib n' = nextSib n /\ prevSib n' = prevSib n)).
Proof.
  set (ks := l1 ++ r :: l2).
  intros (pn & Hp & Hnd & Hfirst & Hks) Hc Hnotin Hcp Hpks.
  assert (Hr : ks !! length l1 = Some r).
  { subst ks. rewrite lookup_app_r by lia. by rewrite Nat.sub_diag. }
  destruct (Hks _ _ Hr) as (rn & Hrn & Hrpar & Hrnx & Hrpv).
  assert (Hrin : r ∈ ks) by (eapply list_elem_of_lookup_2; eauto).
  assert (Hrc : r <> c) by (intros ->; done).
  assert (Hrp : r <> p) by (intros ->; done).
  assert (Hnext : ks !! S (length l1) = head l2).
  { subst ks. rewrite lookup_app_r by lia.
    replace (S (length l1) - length l1) with 1 by lia. by destruct l2. }
  rewrite Hnext in Hrnx.
  destruct (head ks) as [hd|] eqn:Hhead; [|apply head_None in Hhead; by rewrite Hhead in Hr].
  assert (Hhd0 : ks !! 0 = Some hd) by (by rewrite <- head_lookup).
  destruct (Hks 0 hd Hhd0) as (hn & Hhn & Hhpar & Hhnx & Hhpv).
  assert (Hhdin : hd ∈ ks) by (eapply list_elem_of_lookup_2; eauto).
  assert (Hhdc : hd <> c) by (intros ->; done).
  assert (Hhdp : hd <> p) by (intros ->; done).
  (* the store after the call *)
  assert (Hrun : exists h',
    insertNodeAfter (Some c) (Some r) h = Ret (tt, h') /\
    length h' = length h /\
    h' !! c = Some (mkNode (Some p) (firstChild cn) (head l2) (Some r) (firstAttr cn)
                           (value cn)) /\
    h' !! p = Some pn /\
    (forall k kn, k ∈ ks -> h !! k = Some kn ->
       h' !! k = Some (mkNode (parent kn) (firstChild kn)
                        (if decide (k = r) then Some c else nextSib kn)
                        (if decide (Some k = match l2 with [] => Some hd | x :: _ => Some x end)
                         then Some c else prevSib kn)
                        (firstAttr kn) (value kn))) /\
    (forall a, a <> c -> a ∉ ks -> h' !! a = h !! a)).
  { unfold insertNodeAfter, set_parent, set_nextSib, set_prevSib, set_firstChild.
    destruct l2 as [|nx l2'].
    - simpl in Hrnx.
      destruct (decide (hd = r)) as [->|Hhr].
      + assert (hn = rn) by congruence. subst hn.
        eexists. split.
        { step. rewrite Hrpar. step. step. rewrite Hrnx. cbv iota. rewrite !bind_bind.
          step. rewrite Hfirst. step. step. step. step.
          eapply modify_Ret. lk. eauto. }
        split; [by rewrite !length_insert|].
        split; [lk; unfold with_prevSib, with_nextSib, with_parent; simpl; rewrite ?Hrnx;
                reflexivity|].
        split; [by lk|]. split; [|intros a ? Ha; assert (a <> r) by (intros ->; done); by lk].
        intros k kn Hk Hkn. assert (k <> c) by (intros ->; done).
        destruct (decide (k = r)) as [->|Hkr].
        * assert (kn = rn) by congruence. subst kn. lk.
          rewrite decide_True by done. by destruct rn.
        * lk. rewrite Hkn. rewrite decide_False by congruence. by destruct kn.
      + eexists. split.
        { step. rewrite Hrpar. step. step. rewrite Hrnx. cbv iota. rewrite !bind_bind.
          step. rewrite Hfirst. step. step. step. step.
          eapply modify_Ret. lk. eauto. }
        split; [by rewrite !length_insert|].
        split; [lk; unfold with_prevSib, with_nextSib, with_parent; simpl; rewrite ?Hrnx;
                reflexivity|].
        split; [by lk|].
        split; [|intros a ? Ha; assert (a <> r) by (intros ->; done);
                 assert (a <> hd) by (intros ->; done); by lk].
        intros k kn Hk Hkn. assert (k <> c) by (intros ->; done).
        destruct (decide (k = r)) as [->|Hkr].
        * assert (kn = rn) by congruence. subst kn. lk.
          rewrite decide_False by congruence. by destruct rn.
        * destruct (decide (k = hd)) as [->|Hkh].
          -- assert (kn = hn) by congruence. subst kn. lk.
             rewrite decide_True by done. by destruct hn.
          -- lk. rewrite Hkn. rewrite decide_False by congruence. by destruct kn.
    - simpl in Hrnx.
      assert (Hnx : ks !! S (length l1) = Some nx) by (by rewrite Hnext).
      destruct (Hks _ _ Hnx) as (nn & Hnn & Hnpar & Hnnx & Hnpv).
      assert (Hnxin : nx ∈ ks) by (eapply list_elem_of_lookup_2; eauto).
      assert (Hnxc : nx <> c) by (intros ->; done).
      assert (Hnxr : nx <> r).
      { intros ->. assert (S (length l1) = length l1) by (eapply NoDup_lookup; eauto). lia. }
      eexists. split.
      { step. rewrite Hrpar. step. step. rewrite Hrnx. cbv iota.
        step. step. step. step. eapply modify_Ret. lk. eauto. }
      split; [by rewrite !length_insert|].
      split; [lk; unfold with_prevSib, with_nextSib, with_parent; simpl; rewrite ?Hrnx;
              reflexivity|].
      split; [assert (p <> nx) by (intros ->; done); by lk|].
      split; [|intros a ? Ha; assert (a <> r) by (intros ->; done);
               assert (a <> nx) by (intros ->; done); by lk].
      intros k kn Hk Hkn. assert (k <> c) by (intros ->; done).
      destruct (decide (k = r)) as [->|Hkr].
      * assert (kn = rn) by congruence. subst kn. lk.
        rewrite decide_False by congruence. by destruct rn.
      * destruct (decide (k = nx)) as [->|Hkn'].
        -- assert (kn = nn) by congruence. subst kn. lk.
           rewrite decide_True by done. by destruct nn.
        -- lk. rewrite Hkn. rewrite decide_False by congruence. by destruct kn. }
  destruct Hrun as (h' & Hrun & Hlen & Hc' & Hp' & Hin & Hout).
  exists h'. split; [exact Hrun|]. split; [|split; [exact Hlen|]].
  2:{ intros a n Ha.
      destruct (decide (a = c)) as [->|Hac].
      { eexists. split; [exact Hc'|]. assert (n = cn) by congruence. subst n. simpl.
        repeat split; intros; done. }
      destruct (decide (a ∈ ks)) as [Hain|Hanot].
      { eexists. split; [exact (Hin a n Hain Ha)|]. simpl. repeat split; intros; done. }
      exists n. rewrite (Hout a Hac Hanot). repeat split; intros; done. }
  exists pn. split; [exact Hp'|].
  split.
  { apply NoDup_app in Hnd as (Hnd1 & Hnd12 & Hnd2). apply NoDup_cons in Hnd2 as [Hr2 Hnd2].
    apply NoDup_app. split; [done|]. split.
    - intros x Hx Hx'. apply elem_of_cons in Hx' as [->|Hx'].
      + apply (Hnd12 r Hx). left.
      + apply elem_of_cons in Hx' as [->|Hx'].
        * apply Hnotin. subst ks. apply elem_of_app. by left.
        * apply (Hnd12 x Hx). by right.
    - apply NoDup_cons. split.
      + intros Hx. apply elem_of_cons in Hx as [->|Hx]; [done|]. done.
      + apply NoDup_cons. split; [|done].
        intros Hx. apply Hnotin. subst ks. apply elem_of_app. right. by right. }
  split.
  { rewrite Hfirst. subst ks. by destruct l1. }
  intros i k Hik. rewrite last_insert_after. rewrite lookup_insert_after in Hik.
  rewrite (lookup_insert_after l1 l2 r c (S i)). fold ks in Hik |- *.
  assert (Hlast : last ks = match l2 with [] => Some r | _ => last ks end).
  { destruct l2; [|done]. subst ks. apply last_snoc. }
  destruct (decide (i <= length l1)) as [Hle|Hgt].
  - destruct (Hks i k Hik) as (kn & Hkn & Hkpar & Hknx & Hkpv).
    assert (Hkin : k ∈ ks) by (eapply list_elem_of_lookup_2; eauto).
    eexists. split; [exact (Hin k kn Hkin Hkn)|]. simpl. split; [done|]. split.
    + destruct (decide (k = r)) as [->|Hkr].
      * assert (i = length l1) as -> by (eapply NoDup_lookup; eauto).
        rewrite decide_False by lia. rewrite decide_True by done. done.
      * assert (i <> length l1) by (intros ->; congruence).
        rewrite decide_True by lia. done.
    + destruct i as [|i].
      * assert (k = hd) as -> by congruence.
        destruct l2 as [|nx l2'].
        -- rewrite decide_True by done. done.
        -- rewrite decide_False; [done|]. intros [= ->].
           assert (0 = S (length l1)); [|lia].
           eapply NoDup_lookup; eauto; by rewrite Hnext.
      * assert (Hne : Some k <> match l2 with [] => Some hd | x :: _ => Some x end).
        { destruct l2 as [|nx l2'].
          - intros [= ->]. assert (S i = 0) by (eapply NoDup_lookup; eauto). lia.
          - intros [= ->]. assert (S i = S (length l1)); [|lia].
            eapply NoDup_lookup; eauto; by rewrite Hnext. }
        rewrite decide_False by done. rewrite Hkpv.
        rewrite lookup_insert_after. fold ks. rewrite decide_True by lia. done.
  - destruct (decide (i = S (length l1))) as [->|Hne].
    + simplify_eq. eexists. split; [exact Hc'|]. simpl. split; [done|].
      rewrite decide_False by lia. rewrite decide_False by lia.
      replace (S (S (length l1)) - 1) with (S (length l1)) by lia. rewrite Hnext.
      split; [done|]. rewrite lookup_insert_after. fold ks. rewrite decide_True by lia. done.
    + destruct i as [|m]; [lia|].
      replace (S m - 1) with m in Hik by lia.
      destruct (Hks _ _ Hik) as (kn & Hkn & Hkpar & Hknx & Hkpv).
      assert (Hkin : k ∈ ks) by (eapply list_elem_of_lookup_2; eauto).
      assert (Hkr : k <> r).
      { intros ->. assert (m = length l1) by (eapply NoDup_lookup; eauto). lia. }
      eexists. split; [exact (Hin k kn Hkin Hkn)|]. cbn [parent nextSib prevSib].
      split; [done|].
      rewrite (decide_False (P := k = r)) by done.
      rewrite (decide_False (P := S (S m) <= length l1)) by lia.
      rewrite (decide_False (P := S (S m) = S (length l1))) by lia.
      replace (S (S m) - 1) with (S m) by lia. split; [done|].
      rewrite lookup_insert_after. fold ks.
      rewrite (decide_False (P := m <= length l1)) by lia.
      destruct m as [|q]; [lia|]. rewrite Hkpv.
      destruct (decide (S q = S (length l1))) as [Heq|Hneq].
      * rewrite Heq, Hnext in Hik.
        destruct l2 as [|nx l2']; [discriminate Hik|]. simpl in Hik.
        rewrite decide_True by congruence. done.
      * replace (S q - 1) with q by lia.
        rewrite decide_False; [done|].
        destruct l2 as [|nx l2'].
        -- intros [= ->]. assert (S q = 0) by (eapply NoDup_lookup; eauto). lia.
        -- intros [= ->]. assert (S q = S (length l1)); [|lia].
           eapply NoDup_lookup; eauto; by rewrite Hnext.
Qed.

(** X14. InsertChildAfter with a reference node of the parent's child list puts
    the new node right behind it: the child list is the old one with the
    new child after the reference, the reference's next sibling is the new
    child and the new child's previous sibling is the reference; no payload
    of the store changes. *)
Theorem InsertChildAfter_children (h : heap) p l1 r l2 c cn pt ct :
  children h p (l1 ++ r :: l2) -> h !! c = Some cn ->
  c ∉ l1 ++ r :: l2 -> c <> p -> p ∉ l1 ++ r :: l2 ->
  node_NodeType (Some p) h = Ret (pt, h) ->
  node_NodeType (Some c) h = Ret (ct, h) ->
  allowInsertChild pt ct = true ->
  exists h',
    node_InsertChildAfter (Some p) (Some c) (Some r) h = Ret (None, h') /\
    children h' p (l1 ++ r :: c :: l2) /\
    node_NextSibling (Some r) h' = Ret (Some c, h') /\
    node_PreviousSibling (Some c) h' = Ret (Some r, h') /\
    length h' = length h /\
    (forall a n, h !! a = Some n ->
       exists n', h' !! a = Some n' /\ value n' = value n /\ firstAttr n' = firstAttr n).
Proof.
  intros Hch Hc Hnotin Hcp Hpks Hpt Hct Hallow.
  destruct (insertNodeAfter_children h p l1 r l2 c cn Hch Hc Hnotin Hcp Hpks)
    as (h' & Hrun & Hch' & Hlen & Hframe).
  exists h'.
  assert (Hr : (l1 ++ r :: l2) !! length l1 = Some r).
  { rewrite lookup_app_r by lia. by rewrite Nat.sub_diag. }
  split.
  { unfold node_InsertChildAfter.
    rewrite (bind_Ret _ _ _ _ _ Hpt), (bind_Ret _ _ _ _ _ Hct).
    rewrite (allowInsertChildErr_None _ _ Hallow).
    destruct Hch as (pn & Hp & _ & _ & Hks). destruct (Hks _ _ Hr) as (rn & Hrn & Hrpar & _).
    unfold node_Parent. rewrite (bind_Ret _ _ _ _ _ (get_Ret parent h r rn Hrn)). rewrite Hrpar.
    rewrite bool_decide_eq_false_2 by (intros Hne; by apply Hne).
    rewrite (bind_Ret _ _ _ _ _ Hrun). reflexivity. }
  split; [exact Hch'|].
  destruct Hch' as (pn' & Hpn' & _ & _ & Hks').
  assert (Hr' : (l1 ++ r :: c :: l2) !! length l1 = Some r).
  { rewrite lookup_app_r by lia. by rewrite Nat.sub_diag. }
  assert (Hc' : (l1 ++ r :: c :: l2) !! S (length l1) = Some c).
  { rewrite lookup_app_r by lia. by replace (S (length l1) - length l1) with 1 by lia. }
  destruct (Hks' _ _ Hr') as (rn' & Hrn' & _ & Hrnx' & _).
  destruct (Hks' _ _ Hc') as (cn' & Hcn' & _ & _ & Hcpv').
  rewrite Hc' in Hrnx'. rewrite Hr' in Hcpv'.
  split.
  { unfold node_NextSibling. rewrite (get_Ret nextSib h' r rn' Hrn'), Hrnx'. reflexivity. }
  split.
  { unfold node_PreviousSibling.
    rewrite (bind_Ret _ _ _ _ _ (get_Ret prevSib h' c cn' Hcn')). rewrite Hcpv'.
    rewrite (bind_Ret _ _ _ _ _ (get_Ret nextSib h' r rn' Hrn')). rewrite Hrnx'. reflexivity. }
  split; [exact Hlen|].
  intros a n Ha. destruct (Hframe a n Ha) as (n' & Hn' & Hv & Hfa & _).
  exists n'. done.
Qed.

(** X15. A reference node that is not a child of the receiver: InsertChildAfter
    and InsertChildBefore answer the bare [ErrHierarchyRequest] and leave
    the store as it is.  A node that was never linked has no parent, so it
    is such a reference for every receiver. *)
Theorem foreign_reference_refused (h : heap) p c q qn pt ct :
  node_NodeType (Some p) h = Ret (pt, h) ->
  node_NodeType (Some c) h = Ret (ct, h) ->
  allowInsertChild pt ct = true ->
  h !! q = Some qn -> parent qn <> Some p ->
  node_InsertChildAfter (Some p) (Some c) (Some q) h = Ret (Some ErrHierarchyRequest, h) /\
  node_InsertChildBefore (Some p) (Some c) (Some q) h = Ret (Some ErrHierarchyRequest, h).
Proof.
  intros Hpt Hct Hallow Hq Hpar.
  unfold node_InsertChildAfter, node_InsertChildBefore.
  rewrite !(bind_Ret _ _ _ _ _ Hpt), !(bind_Ret _ _ _ _ _ Hct).
  rewrite (allowInsertChildErr_None _ _ Hallow). unfold node_Parent.
  rewrite !(bind_Ret _ _ _ _ _ (get_Ret parent h q qn Hq)).
  rewrite bool_decide_eq_true_2 by exact Hpar. done.
Qed.

(** A document with the two element children [a] and [b], and a fresh
    element [c]. *)
Definition two_children : heap :=
  [mkNode None (Some 1) None None None (Some VDocument);
   mkNode (Some 0) None (Some 2) (Some 2) None (Some (VElement (mkName "" "a") ""));
   mkNode (Some 0) None None (Some 1) None (Some (VElement (mkName "" "b") ""));
   mkNode None None None None None (Some (VElement (mkName "" "c") ""))].

Lemma PrependChild_children_witness :
  exists h', node_PrependChild (Some 0) (Some 3) two_children = Ret (None, h') /\
             children h' 0 [3; 1; 2].
Proof.
  destruct (PrependChild_children two_children 0 [1; 2] 3
              (mkNode None None None None None (Some (VElement (mkName "" "c") "")))
              NodeTypeDocument NodeTypeElement
              (children_okb_sound two_children 0 [1; 2] eq_refl) eq_refl
              ltac:(apply (bool_decide_unpack _); vm_compute; exact I) ltac:(lia)
              ltac:(apply (bool_decide_unpack _); vm_compute; exact I)
              eq_refl eq_refl eq_refl)
    as (h' & Hrun & _ & Hch & _).
  exists h'. split; [exact Hrun|exact Hch].
Defined.

Lemma InsertChildAfter_children_witness :
  exists h', node_InsertChildAfter (Some 0) (Some 3) (Some 1) two_children = Ret (None, h') /\
             children h' 0 [1; 3; 2].
Proof.
  destruct (InsertChildAfter_children two_children 0 [] 1 [2] 3
              (mkNode None None None None None (Some (VElement (mkName "" "c") "")))
              NodeTypeDocument NodeTypeElement
              (children_okb_sound two_children 0 [1; 2] eq_refl) eq_refl
              ltac:(apply (bool_decide_unpack _); vm_compute; exact I) ltac:(lia)
              ltac:(apply (bool_decide_unpack _); vm_compute; exact I)
              eq_refl eq_refl eq_refl)
    as (h' & Hrun & Hch & _).
  exists h'. split; [exact Hrun|exact Hch].
Defined.

Lemma foreign_reference_refused_witness :
  node_InsertChildAfter (Some 1) (Some 3) (Some 2) two_children
  = Ret (Some ErrHierarchyRequest, two_children) /\
  node_InsertChildBefore (Some 1) (Some 3) (Some 2) two_children
  = Ret (Some ErrHierarchyRequest, two_children).
Proof.
  exact (foreign_reference_refused two_children 1 3 2
           (mkNode (Some 0) None None (Some 1) None (Some (VElement (mkName "" "b") "")))
           NodeTypeElement NodeTypeElement eq_refl eq_refl eq_refl eq_refl
           ltac:(discriminate)).
Defined.

(** ** Searching a well-formed child list *)

Lemma chain_at own (h : heap) first ks i k :
  chain own h first ks -> ks !! i = Some k ->
  exists m, h !! k = Some m /\ own m /\ nextSib m = ks !! S i.
Proof.
  intros (_ & _ & Hks) Hk. destruct (Hks i k Hk) as (m & Hm & Hown & Hnx & _).
  exists m. done.
Qed.

(** The child at [k] passes the test of [ChildrenByName]. *)
Definition named (h : heap) (name : Name) (k : nat) : bool :=
  match h !! k with
  | Some m => bool_decide (Namer_Name (value m) = Some name)
  | None => false
  end.

Lemma ChildrenByName_chain own (h : heap) first ks name :
  chain own h first ks ->
  forall n i fuel acc, length ks = i + n -> n <= fuel ->
    iter_loop fuel (ks !! i)
      (fun it nodeset =>
         do v <- get value it;
         ret (@None error, if bool_decide (Namer_Name v = Some name)
                           then nodeset ++ [it] else nodeset))
      acc h
    = Ret ((None, acc ++ (Some <$> List.filter (named h name) (drop i ks))), h).
Proof.
  intros Hchain. induction n as [|n IH]; intros i fuel acc Hlen Hfuel.
  - rewrite lookup_ge_None_2 by lia. rewrite drop_ge by lia.
    simpl. rewrite app_nil_r. by destruct fuel.
  - destruct (lookup_lt_is_Some_2 ks i) as [k Hk]; [lia|].
    destruct (chain_at _ _ _ _ _ _ Hchain Hk) as (m & Hm & _ & Hnx).
    destruct fuel as [|fuel]; [lia|]. rewrite Hk. cbn [iter_loop].
    rewrite !bind_bind.
    rewrite (bind_Ret _ _ _ _ _ (get_Ret value h k m Hm)).
    rewrite (bind_Ret _ _ _ _ _ (eq_refl : ret _ h = Ret (_, h))). cbv beta iota.
    rewrite (bind_Ret _ _ _ _ _ (get_Ret nextSib h k m Hm)). rewrite Hnx.
    rewrite (IH (S i) fuel _ ltac:(lia) ltac:(lia)).
    rewrite (drop_S _ _ _ Hk). cbn [List.filter]. unfold named at 2. rewrite Hm.
    destruct (bool_decide (Namer_Name (value m) = Some name)).
    + rewrite <- app_assoc. reflexivity.
    + reflexivity.
Qed.

(** X16. ChildrenByName answers exactly the children that carry the name, in
    the order of the child list, and ChildByName the first of them (nil
    when there is none); neither changes the store. *)
Theorem ChildrenByName_filters (h : heap) p ks name fuel :
  children h p ks -> length ks <= fuel ->
  node_ChildrenByName fuel (Some p) name h
  = Ret (Some <$> List.filter (named h name) ks, h) /\
  node_ChildByName fuel (Some p) name h
  = Ret (head (List.filter (named h name) ks), h).
Proof.
  intros (pn & Hp & Hchain) Hfuel.
  assert (Hall : node_ChildrenByName fuel (Some p) name h
                 = Ret (Some <$> List.filter (named h name) ks, h)).
  { unfold node_ChildrenByName, iterChildren. rewrite !bind_bind.
    rewrite (bind_Ret _ _ _ _ _ (get_Ret firstChild h p pn Hp)).
    destruct Hchain as (Hnd & Hfirst & Hks). rewrite Hfirst, head_lookup.
    rewrite (bind_Ret _ _ _ _ _
               (ChildrenByName_chain _ h (head ks) ks name (conj Hnd (conj eq_refl Hks))
                  (length ks) 0 fuel [] eq_refl Hfuel)).
    reflexivity. }
  split; [exact Hall|].
  unfold node_ChildByName. rewrite (bind_Ret _ _ _ _ _ Hall).
  by destruct (List.filter (named h name) ks).
Qed.

(** The first text among the children, if any. *)
Fixpoint first_text (h : heap) (ks : list nat) : string :=
  match ks with
  | [] => EmptyString
  | k :: rest =>
      match h !! k with
      | Some m =>
          match value m with
          | Some (VText t) => string_of t
          | _ => first_text h rest
          end
      | None => first_text h rest
      end
  end.

Lemma ChildValue_chain own (h : heap) first ks :
  chain own h first ks ->
  forall n i fuel, length ks = i + n -> n <= fuel ->
    ChildValue_loop fuel (ks !! i) h = Ret (first_text h (drop i ks), h).
Proof.
  intros Hchain. induction n as [|n IH]; intros i fuel Hlen Hfuel.
  - rewrite lookup_ge_None_2 by lia. rewrite drop_ge by lia. by destruct fuel.
  - destruct (lookup_lt_is_Some_2 ks i) as [k Hk]; [lia|].
    destruct (chain_at _ _ _ _ _ _ Hchain Hk) as (m & Hm & _ & Hnx).
    destruct fuel as [|fuel]; [lia|]. rewrite Hk. cbn [ChildValue_loop].
    rewrite (bind_Ret _ _ _ _ _ (node_NodeType_Ret h k m Hm)).
    rewrite (drop_S _ _ _ Hk). cbn [first_text]. rewrite Hm.
    destruct (value m) as [[]|] eqn:Hv; cbn [payload_nodeType];
      first [ rewrite bool_decide_eq_true_2 by reflexivity;
              rewrite (bind_Ret _ _ _ _ _ (get_Ret value h k m Hm)); rewrite Hv; reflexivity
            | rewrite bool_decide_eq_false_2 by discriminate;
              rewrite (bind_Ret _ _ _ _ _ (get_Ret nextSib h k m Hm)); rewrite Hnx;
              apply IH; lia ].
Qed.

(** X17. ChildValue answers the data of the first Text child, whatever stands
    before it, and the empty string when no child is a Text. *)
Theorem ChildValue_first_text (h : heap) p ks fuel :
  children h p ks -> length ks <= fuel ->
  node_ChildValue fuel (Some p) h = Ret (first_text h ks, h).
Proof.
  intros (pn & Hp & Hchain) Hfuel. unfold node_ChildValue.
  rewrite (bind_Ret _ _ _ _ _ (get_Ret firstChild h p pn Hp)).
  destruct Hchain as (Hnd & Hfirst & Hks). rewrite Hfirst, head_lookup.
  exact (ChildValue_chain _ h (head ks) ks (conj Hnd (conj eq_refl Hks))
           (length ks) 0 fuel eq_refl Hfuel).
Qed.

(** The child at [k] is an element. *)
Definition is_element (h : heap) (k : nat) : bool :=
  match h !! k with
  | Some m => match value m with Some (VElement _ _) => true | _ => false end
  | None => false
  end.

Lemma DocumentElement_chain own (h : heap) first ks :
  chain own h first ks ->
  forall n i fuel, length ks = i + n -> n <= fuel ->
    DocumentElement_loop fuel (ks !! i) h
    = Ret (head (List.filter (is_element h) (drop i ks)), h).
Proof.
  intros Hchain. induction n as [|n IH]; intros i fuel Hlen Hfuel.
  - rewrite lookup_ge_None_2 by lia. rewrite drop_ge by lia. by destruct fuel.
  - destruct (lookup_lt_is_Some_2 ks i) as [k Hk]; [lia|].
    destruct (chain_at _ _ _ _ _ _ Hchain Hk) as (m & Hm & _ & Hnx).
    destruct fuel as [|fuel]; [lia|]. rewrite Hk. cbn [DocumentElement_loop].
    rewrite (bind_Ret _ _ _ _ _ (node_NodeType_Ret h k m Hm)).
    rewrite (drop_S _ _ _ Hk). cbn [List.filter]. unfold is_element at 1. rewrite Hm.
    destruct (value m) as [[]|] eqn:Hv; cbn [payload_nodeType];
      first [ rewrite bool_decide_eq_true_2 by reflexivity;
              rewrite (bind_Ret _ _ _ _ _ (get_Ret value h k m Hm)); rewrite Hv; reflexivity
            | rewrite bool_decide_eq_false_2 by discriminate;
              rewrite (bind_Ret _ _ _ _ _ (get_Ret nextSib h k m Hm)); rewrite Hnx;
              apply IH; lia ].
Qed.

(** X18. DocumentElement answers the first Element among the children of the
    document, skipping comments, processing instructions and the
    declaration, and nil when there is none. *)
Theorem DocumentElement_first_element (h : heap) d ks fuel :
  children h d ks -> length ks <= fuel ->
  DocumentElement fuel (Some d) h = Ret (head (List.filter (is_element h) ks), h).
Proof.
  intros (pn & Hp & Hchain) Hfuel. unfold DocumentElement.
  rewrite (bind_Ret _ _ _ _ _ (get_Ret firstChild h d pn Hp)).
  destruct Hchain as (Hnd & Hfirst & Hks). rewrite Hfirst, head_lookup.
  exact (DocumentElement_chain _ h (head ks) ks (conj Hnd (conj eq_refl Hks))
           (length ks) 0 fuel eq_refl Hfuel).
Qed.

(** A document whose children are a comment, the element [a], the text
    [abc] and a second element [a]. *)
Definition mixed_children : heap :=
  [mkNode None (Some 1) None None None (Some VDocument);
   mkNode (Some 0) None (Some 2) (Some 4) None (Some (VComment (bytes_of "c")));
   mkNode (Some 0) None (Some 3) (Some 1) None (Some (VElement (mkName "" "a") ""));
   mkNode (Some 0) None (Some 4) (Some 2) None (Some (VText (bytes_of "abc")));
   mkNode (Some 0) None None (Some 3) None (Some (VElement (mkName "" "a") ""))].

Lemma ChildrenByName_filters_witness :
  node_ChildrenByName 4 (Some 0) (mkName "" "a") mixed_children
  = Ret ([Some 2; Some 4], mixed_children) /\
  node_ChildByName 4 (Some 0) (mkName "" "a") mixed_children = Ret (Some 2, mixed_children).
Proof.
  exact (ChildrenByName_filters mixed_children 0 [1; 2; 3; 4] (mkName "" "a") 4
           (children_okb_sound mixed_children 0 [1; 2; 3; 4] eq_refl) ltac:(simpl; lia)).
Defined.

Lemma ChildValue_first_text_witness :
  node_ChildValue 4 (Some 0) mixed_children = Ret ("abc", mixed_children).
Proof.
  exact (ChildValue_first_text mixed_children 0 [1; 2; 3; 4] 4
           (children_okb_sound mixed_children 0 [1; 2; 3; 4] eq_refl) ltac:(simpl; lia)).
Defined.

Lemma DocumentElement_first_element_witness :
  DocumentElement 4 (Some 0) mixed_children = Ret (Some 2, mixed_children).
Proof.
  exact (DocumentElement_first_element mixed_children 0 [1; 2; 3; 4] 4
           (children_okb_sound mixed_children 0 [1; 2; 3; 4] eq_refl) ltac:(simpl; lia)).
Defined.

(** ** The attribute list *)

(** [prependAttribute] on a well-formed attribute list. *)
Lemma prependAttribute_attributes h p ks c cn :
  attributes h p ks -> h !! c = Some cn -> c ∉ ks -> c <> p -> p ∉ ks ->
  exists h', prependAttribute (Some c) (Some p) h = Ret (tt, h') /\
             attributes h' p (c :: ks) /\
             length h' = length h /\
             (forall a n, h !! a = Some n ->
                exists n', h' !! a = Some n' /\ value n' = value n /\
                  firstChild n' = firstChild n /\ parent n' = parent n /\
                  (a <> p -> firstAttr n' = firstAttr n) /\
                  (a <> c -> a ∉ ks -> nextSib n' = nextSib n /\ prevSib n' = prevSib n)).
Proof.
  intros (pn & Hp & Hchain) Hc Hnotin Hcp Hpks.
  destruct ks as [|hd rest].
  - destruct Hchain as (_ & Hfirst & _). simpl in Hfirst.
    unfold prependAttribute, set_nextSib, set_prevSib, set_firstAttr.
    eexists. split.
    { step. rewrite Hfirst. cbv iota. step. step. eapply modify_Ret. lk. eauto. }
    split; [|split; [by rewrite !length_insert|]].
    + eexists. split; [lk; reflexivity|]. simpl.
      split; [apply NoDup_singleton|]. split; [reflexivity|].
      intros i k Hik. destruct i; simpl in Hik; [|done]. simplify_eq.
      eexists. split; [lk; reflexivity|]. simpl. done.
    + intros a n Ha.
      destruct (decide (a = c)) as [->|Hac]; [|destruct (decide (a = p)) as [->|Hap]];
        simplify_eq; (eexists; split; [lk; first [reflexivity|eassumption]|]); simpl;
        repeat split; intros; congruence.
  - destruct (chain_nonempty _ _ _ _ _ Hchain) as (hn & tl & Hhn & _ & Htl & Hhp & Hhnx).
    destruct Hchain as (Hnd & Hfirst & Hks). simpl in Hfirst.
    assert (Hhdc : hd <> c) by (intros ->; apply Hnotin; left).
    assert (Hhdp : hd <> p) by (intros ->; apply Hpks; left).
    unfold prependAttribute, set_nextSib, set_prevSib, set_firstAttr.
    eexists. split.
    { step. rewrite Hfirst. cbv iota. rewrite !bind_bind. step. rewrite Hhp.
      rewrite !bind_bind. step. step. step. eapply modify_Ret. lk. eauto. }
    split; [|split; [by rewrite !length_insert|]].
    2:{ intros a n Ha.
        destruct (decide (a = p)) as [->|Hap].
        { eexists; split; [lk; reflexivity|]. simpl. assert (n = pn) by congruence. subst n.
          repeat split; intros; done. }
        destruct (decide (a = c)) as [->|Hac].
        { eexists; split; [lk; reflexivity|]. simpl. assert (n = cn) by congruence. subst n.
          repeat split; intros; done. }
        destruct (decide (a = hd)) as [->|Hah].
        { eexists; split; [lk; reflexivity|]. simpl. assert (n = hn) by congruence. subst n.
          repeat split; intros; try done. exfalso.
          match goal with H : _ ∉ _ |- _ => apply H end. left. }
        eexists; split; [lk; eassumption|]. repeat split; intros; done. }
    eexists. split; [lk; reflexivity|]. simpl.
    split. { apply NoDup_cons. split; done. }
    split; [reflexivity|].
    intros i k Hik.
    change (last (c :: hd :: rest)) with (last (hd :: rest)). rewrite Htl.
    destruct i as [|i]; simpl in Hik.
    + simplify_eq. eexists. split; [lk; reflexivity|]. simpl. done.
    + destruct (Hks i k Hik) as (kn & Hkn & Hkown & Hknx & Hkpv).
      assert (Hkin : k ∈ hd :: rest) by (eapply list_elem_of_lookup_2; eauto).
      assert (Hkc : k <> c) by (intros ->; done).
      assert (Hkp : k <> p) by (intros ->; done).
      destruct (decide (k = hd)) as [->|Hkh].
      * assert (i = 0) as -> by (eapply NoDup_lookup; eauto; reflexivity).
        assert (kn = hn) by congruence. subst kn.
        eexists. split; [lk; reflexivity|]. simpl. done.
      * destruct i as [|i]; [simpl in Hik; congruence|].
        eexists. split; [lk; eassumption|]. done.
Qed.

Lemma allowInsertAttributeErr_None nt :
  allowInsertAttribute nt = true -> allowInsertAttributeErr nt = None.
Proof. unfold allowInsertAttributeErr. intros ->. reflexivity. Qed.

Lemma attributes_allocated (h : heap) p ks k : attributes h p ks -> k ∈ ks -> k < length h.
Proof. intros (pn & _ & Hc) Hk. eapply chain_allocated; eauto. Qed.

(** X19. AppendAttribute and PrependAttribute on an Element or a Declaration:
    a new attribute node with the given attribute is allocated and becomes
    the last, respectively the first, of the attribute list, which
    LastAttribute and FirstAttribute then answer; the child lists and the
    payloads of the store stay as they were. *)
Theorem attribute_added (h : heap) p ks nt a :
  attributes h p ks -> p ∉ ks ->
  node_NodeType (Some p) h = Ret (nt, h) ->
  allowInsertAttribute nt = true ->
  exists h1 h2 n1 n2,
    node_AppendAttribute (Some p) a h = Ret (None, h1) /\
    attributes h1 p (ks ++ [length h]) /\
    h1 !! length h = Some n1 /\ value n1 = Some (VAttribute a) /\
    node_LastAttribute (Some p) h1 = Ret (Some (length h), h1) /\
    node_PrependAttribute (Some p) a h = Ret (None, h2) /\
    attributes h2 p (length h :: ks) /\
    h2 !! length h = Some n2 /\ value n2 = Some (VAttribute a) /\
    node_FirstAttribute (Some p) h2 = Ret (Some (length h), h2) /\
    (forall x n, h !! x = Some n ->
       exists m1 m2, h1 !! x = Some m1 /\ h2 !! x = Some m2 /\
         value m1 = value n /\ value m2 = value n /\
         firstChild m1 = firstChild n /\ firstChild m2 = firstChild n /\
         parent m1 = parent n /\ parent m2 = parent n).
Proof.
  intros Hat Hpks Hnt Hallow.
  set (fresh := mkNode None None None None None (Some (VAttribute a))).
  set (g := h ++ [fresh]).
  assert (Hfresh : g !! length h = Some fresh).
  { subst g. rewrite lookup_app_r by lia. by rewrite Nat.sub_diag. }
  assert (Hplt : p < length h).
  { destruct Hat as (pn & Hpn & _). eapply lookup_lt_Some; eauto. }
  assert (Hnotin : length h ∉ ks).
  { intros Hin. apply (attributes_allocated h p ks _ Hat) in Hin. lia. }
  destruct (appendAttribute_attributes g p ks (length h) fresh)
    as (h1 & Hrun1 & Hat1 & Hlen1 & _ & Hframe1);
    [by apply attributes_alloc | done | done | done | lia |].
  destruct (prependAttribute_attributes g p ks (length h) fresh)
    as (h2 & Hrun2 & Hat2 & Hlen2 & Hframe2);
    [by apply attributes_alloc | done | done | lia | done |].
  destruct (Hframe1 _ _ Hfresh) as (n1 & Hn1 & Hv1 & _).
  destruct (Hframe2 _ _ Hfresh) as (n2 & Hn2 & Hv2 & _).
  exists h1, h2, n1, n2.
  split.
  { unfold node_AppendAttribute. rewrite (bind_Ret _ _ _ _ _ Hnt).
    rewrite (allowInsertAttributeErr_None _ Hallow).
    unfold newAttribute, new_node, alloc. unfold bind at 1. fold fresh. fold g.
    rewrite (bind_Ret _ _ _ _ _ Hrun1). reflexivity. }
  split; [exact Hat1|]. split; [exact Hn1|]. split; [by rewrite Hv1|].
  split.
  { destruct Hat1 as (pn1 & Hpn1 & Hnd1 & Hfirst1 & Hks1).
    unfold node_LastAttribute.
    rewrite (bind_Ret _ _ _ _ _ (get_Ret firstAttr h1 p pn1 Hpn1)). rewrite Hfirst1.
    destruct (head (ks ++ [length h])) as [hd|] eqn:Hhd.
    2:{ apply head_None in Hhd. by destruct ks. }
    assert (Hhd0 : (ks ++ [length h]) !! 0 = Some hd) by (by rewrite <- head_lookup).
    destruct (Hks1 0 hd Hhd0) as (hn & Hhn & _ & _ & Hpv). rewrite last_snoc in Hpv.
    rewrite (bind_Ret _ _ _ _ _ (get_Ret prevSib h1 hd hn Hhn)). rewrite Hpv.
    unfold asAttribute. rewrite (bind_Ret _ _ _ _ _ (get_Ret value h1 _ n1 Hn1)).
    rewrite Hv1. reflexivity. }
  split.
  { unfold node_PrependAttribute. rewrite (bind_Ret _ _ _ _ _ Hnt).
    rewrite (allowInsertAttributeErr_None _ Hallow).
    unfold newAttribute, new_node, alloc. unfold bind at 1. fold fresh. fold g.
    rewrite (bind_Ret _ _ _ _ _ Hrun2). reflexivity. }
  split; [exact Hat2|]. split; [exact Hn2|]. split; [by rewrite Hv2|].
  split.
  { destruct Hat2 as (pn2 & Hpn2 & Hnd2 & Hfirst2 & Hks2).
    unfold node_FirstAttribute.
    rewrite (bind_Ret _ _ _ _ _ (get_Ret firstAttr h2 p pn2 Hpn2)). rewrite Hfirst2.
    cbn [head]. unfold asAttribute.
    rewrite (bind_Ret _ _ _ _ _ (get_Ret value h2 _ n2 Hn2)). rewrite Hv2. reflexivity. }
  intros x n Hx.
  assert (Hxg : g !! x = Some n) by (subst g; by apply lookup_app_l_Some).
  destruct (Hframe1 x n Hxg) as (m1 & Hm1 & Hvm1 & Hfc1 & Hp1 & _).
  destruct (Hframe2 x n Hxg) as (m2 & Hm2 & Hvm2 & Hfc2 & Hp2 & _).
  exists m1, m2. done.
Qed.

Lemma Attribute_chain own (h : heap) first (attrs : list (nat * Attr)) name :
  chain own h first (fst <$> attrs) -> Forall (holds_attr h) attrs ->
  forall n i fuel, length attrs = i + n -> n <= fuel ->
    Attribute_loop fuel ((fst <$> attrs) !! i) name h
    = Ret (fst <$> head (List.filter (fun ka => bool_decide (AttrName ka.2 = name))
                           (drop i attrs)), h).
Proof.
  intros Hchain Hpay. induction n as [|n IH]; intros i fuel Hlen Hfuel.
  - rewrite lookup_ge_None_2 by (rewrite length_fmap; lia).
    rewrite drop_ge by lia. by destruct fuel.
  - destruct (lookup_lt_is_Some_2 attrs i) as [[k a] Hi]; [lia|].
    assert (Hk : (fst <$> attrs) !! i = Some k) by (by rewrite list_lookup_fmap, Hi).
    destruct (chain_at _ _ _ _ _ _ Hchain Hk) as (m & Hm & _ & Hnx).
    rewrite Forall_lookup in Hpay. destruct (Hpay i (k, a) Hi) as (an & Han & Hv).
    simpl in Han, Hv. assert (an = m) as -> by congruence.
    destruct fuel as [|fuel]; [lia|]. rewrite Hk. cbn [Attribute_loop].
    rewrite (bind_Ret _ _ _ _ _ (get_Ret value h k m Hm)). rewrite Hv.
    rewrite (drop_S _ _ _ Hi). cbn [List.filter snd].
    destruct (bool_decide (AttrName a = name)).
    + unfold asAttribute. rewrite (bind_Ret _ _ _ _ _ (get_Ret value h k m Hm)). rewrite Hv.
      reflexivity.
    + rewrite (bind_Ret _ _ _ _ _ (get_Ret nextSib h k m Hm)). rewrite Hnx.
      apply IH; lia.
Qed.

(** X20. Attribute(name) answers the first attribute of the list that carries
    the name, nil when there is none, and leaves the store alone. *)
Theorem Attribute_finds_first (h : heap) p (attrs : list (nat * Attr)) name fuel :
  attributes h p (fst <$> attrs) -> Forall (holds_attr h) attrs ->
  length attrs <= fuel ->
  node_Attribute fuel (Some p) name h
  = Ret (fst <$> head (List.filter (fun ka => bool_decide (AttrName ka.2 = name)) attrs), h).
Proof.
  intros (pn & Hp & Hchain) Hpay Hfuel. unfold node_Attribute.
  rewrite (bind_Ret _ _ _ _ _ (get_Ret firstAttr h p pn Hp)).
  destruct Hchain as (Hnd & Hfirst & Hks). rewrite Hfirst, head_lookup.
  exact (Attribute_chain _ h (head (fst <$> attrs)) attrs name
           (conj Hnd (conj eq_refl Hks)) Hpay (length attrs) 0 fuel eq_refl Hfuel).
Qed.

(** The attribute nodes that [appendAttributes] allocates never get a
    parent. *)
Lemma appendAttributes_parent (attrs : list Attr) :
  forall (g : heap) p ks,
    attributes g p ks -> p ∉ ks ->
    exists g', appendAttributes attrs (Some p) g = Ret (tt, g') /\
      forall i, i < length attrs ->
        exists n, g' !! (length g + i) = Some n /\ parent n = None.
Proof.
  induction attrs as [|a rest IH]; intros g p ks Hat Hp.
  - exists g. split; [reflexivity|]. intros i Hi. simpl in Hi. lia.
  - set (fresh := mkNode None None None None None (Some (VAttribute a))).
    set (g1 := g ++ [fresh]).
    assert (Hplt : p < length g).
    { destruct Hat as (pn & Hpn & _). eapply lookup_lt_Some; eauto. }
    assert (Hfresh : g1 !! length g = Some fresh).
    { subst g1. rewrite lookup_app_r by lia. by rewrite Nat.sub_diag. }
    assert (Hnotin : length g ∉ ks).
    { intros Hin. apply (attributes_allocated g p ks _ Hat) in Hin. lia. }
    destruct (appendAttribute_attributes g1 p ks (length g) fresh)
      as (g2 & Hrun & Hat2 & Hlen2 & _ & Hframe2);
      [by apply attributes_alloc | done | done | done | lia |].
    assert (Hlen2' : length g2 = S (length g)).
    { rewrite Hlen2. subst g1. rewrite length_app. simpl. lia. }
    assert (Hp2 : p ∉ ks ++ [length g]).
    { intros Hin. apply elem_of_app in Hin as [Hin|Hin]; [done|].
      apply list_elem_of_singleton in Hin. lia. }
    destruct (IH g2 p (ks ++ [length g]) Hat2 Hp2) as (g' & Hrun' & Hnew).
    destruct (appendAttributes_spec rest g2 p (ks ++ [length g]) Hat2 Hp2)
      as (g'' & Hrun'' & _ & _ & _ & _ & Hframe').
    assert (g'' = g') as -> by congruence.
    exists g'. split.
    { simpl. unfold newAttribute, new_node, alloc. unfold bind at 1.
      fold fresh. fold g1. erewrite bind_Ret by exact Hrun. exact Hrun'. }
    intros i Hi. destruct i as [|i].
    + rewrite Nat.add_0_r.
      destruct (Hframe2 _ _ Hfresh) as (n2 & Hn2 & _ & _ & Hpar2 & _).
      destruct (Hframe' _ _ Hn2) as (n' & Hn' & _ & _ & Hpar' & _).
      exists n'. split; [exact Hn'|]. rewrite Hpar', Hpar2. reflexivity.
    + destruct (Hnew i) as (n & Hn & Hpar); [simpl in Hi; lia|].
      exists n. rewrite Hlen2' in Hn.
      replace (length g + S i) with (S (length g) + i) by lia. done.
Qed.

(** X21. The attributes of a created element can never serve as the reference
    of an insertion: the attribute operations do not set the parent of an
    attribute node, so InsertAttributeAfter and InsertAttributeBefore find
    that the reference's parent differs from the receiver, answer
    [ErrHierarchyRequest] and leave the store as it is. *)
Theorem attribute_reference_refused (h : heap) name attrs b i :
  i < length attrs ->
  exists h1,
    CreateElement name attrs h = Ret (Some (length h), h1) /\
    node_InsertAttributeAfter (Some (length h)) b (Some (S (length h) + i)) h1
    = Ret (Some ErrHierarchyRequest, h1) /\
    node_InsertAttributeBefore (Some (length h)) b (Some (S (length h) + i)) h1
    = Ret (Some ErrHierarchyRequest, h1).
Proof.
  intros Hi.
  set (fresh := mkNode None None None None None (Some (VElement name ""))).
  set (g := h ++ [fresh]).
  assert (Hfresh : g !! length h = Some fresh).
  { subst g. rewrite lookup_app_r by lia. by rewrite Nat.sub_diag. }
  assert (Hlen : length g = S (length h)).
  { subst g. rewrite length_app. simpl. lia. }
  assert (Hat : attributes g (length h) []).
  { exists fresh. split; [exact Hfresh|]. split; [apply NoDup_nil_2|].
    split; [reflexivity|]. intros j k Hjk. destruct j; discriminate Hjk. }
  destruct (appendAttributes_parent attrs g (length h) [] Hat (not_elem_of_nil _))
    as (h1 & Hrun & Hnew).
  destruct (appendAttributes_spec attrs g (length h) [] Hat (not_elem_of_nil _))
    as (h1' & Hrun' & _ & _ & _ & _ & Hframe).
  assert (h1' = h1) as -> by congruence.
  destruct (Hframe _ _ Hfresh) as (en & Hen & Hven & _).
  destruct (Hnew i Hi) as (an & Han & Hpar). rewrite Hlen in Han.
  exists h1. split.
  { unfold CreateElement, newStartElement, new_node, alloc. unfold bind at 1.
    fold fresh. fold g. rewrite (bind_Ret _ _ _ _ _ Hrun). reflexivity. }
  assert (Hnt : node_NodeType (Some (length h)) h1 = Ret (NodeTypeElement, h1)).
  { rewrite (node_NodeType_Ret h1 _ en Hen), Hven. reflexivity. }
  unfold node_InsertAttributeAfter, node_InsertAttributeBefore.
  rewrite !(bind_Ret _ _ _ _ _ Hnt). cbn [allowInsertAttributeErr allowInsertAttribute].
  unfold allowInsertAttributeErr, allowInsertAttribute.
  rewrite bool_decide_eq_true_2 by reflexivity. cbn [orb negb].
  unfold node_Parent. rewrite !(bind_Ret _ _ _ _ _ (get_Ret parent h1 _ an Han)).
  rewrite Hpar. rewrite bool_decide_eq_true_2 by discriminate. done.
Qed.

Lemma attribute_reference_refused_witness :
  exists h1,
    CreateElement (mkName "" "e") [mkAttr (mkName "" "k") "v"] [] = Ret (Some 0, h1) /\
    node_InsertAttributeAfter (Some 0) (mkAttr (mkName "" "l") "w") (Some 1) h1
    = Ret (Some ErrHierarchyRequest, h1) /\
    node_InsertAttributeBefore (Some 0) (mkAttr (mkName "" "l") "w") (Some 1) h1
    = Ret (Some ErrHierarchyRequest, h1).
Proof.
  exact (attribute_reference_refused [] (mkName "" "e") [mkAttr (mkName "" "k") "v"]
           (mkAttr (mkName "" "l") "w") 0 ltac:(simpl; lia)).
Defined.

(** The element [e] with the attributes [k="v"] and [l="w"]. *)
Definition two_attributes : heap :=
  [mkNode None None None None (Some 1) (Some (VElement (mkName "" "e") ""));
   mkNode None None (Some 2) (Some 2) None (Some (VAttribute (mkAttr (mkName "" "k") "v")));
   mkNode None None None (Some 1) None (Some (VAttribute (mkAttr (mkName "" "l") "w")))].

Lemma attribute_added_witness :
  exists h1 h2,
    node_AppendAttribute (Some 0) (mkAttr (mkName "" "m") "x") two_attributes
    = Ret (None, h1) /\
    attributes h1 0 [1; 2; 3] /\
    node_PrependAttribute (Some 0) (mkAttr (mkName "" "m") "x") two_attributes
    = Ret (None, h2) /\
    attributes h2 0 [3; 1; 2].
Proof.
  destruct (attribute_added two_attributes 0 [1; 2] NodeTypeElement
              (mkAttr (mkName "" "m") "x")
              (attributes_okb_sound two_attributes 0 [1; 2] eq_refl)
              ltac:(apply (bool_decide_unpack _); vm_compute; exact I)
              eq_refl eq_refl)
    as (h1 & h2 & n1 & n2 & Ha & Hat1 & _ & _ & _ & Hp & Hat2 & _).
  exists h1, h2. split; [exact Ha|]. split; [exact Hat1|]. split; [exact Hp|exact Hat2].
Defined.

Lemma Attribute_finds_first_witness :
  node_Attribute 2 (Some 0) (mkName "" "l") two_attributes = Ret (Some 2, two_attributes).
Proof.
  exact (Attribute_finds_first two_attributes 0
           [(1, mkAttr (mkName "" "k") "v"); (2, mkAttr (mkName "" "l") "w")]
           (mkName "" "l") 2
           (attributes_okb_sound two_attributes 0 [1; 2] eq_refl)
           ltac:(repeat constructor; eexists; split; reflexivity)
           ltac:(simpl; lia)).
Defined.

(** ** SetValue and Value *)

Definition settable (v : payload) : bool :=
  match v with
  | VText _ | VComment _ | VAttribute _ => true
  | _ => false
  end.

Lemma string_of_bytes_of (s : string) : string_of (bytes_of s) = s.
Proof. apply string_of_list_byte_of_string. Qed.

(** X22. SetValue on a Text, a Comment or an Attribute replaces the value that
    Value answers, and nothing else: the kind, the name and the links of
    the node and every other node stay as they were.  On every other kind
    of node it answers an error naming the kind and changes nothing. *)
Theorem SetValue_then_Value (h : heap) a n pv v :
  h !! a = Some n -> value n = Some pv ->
  if settable pv then
    exists h' n',
      node_SetValue (Some a) v h = Ret (None, h') /\
      node_Value (Some a) h' = Ret (v, h') /\
      h' = <[a := n']> h /\
      option_map payload_nodeType (value n') = Some (payload_nodeType pv) /\
      Namer_Name (value n') = Namer_Name (Some pv) /\
      parent n' = parent n /\ firstChild n' = firstChild n /\ nextSib n' = nextSib n /\
      prevSib n' = prevSib n /\ firstAttr n' = firstAttr n
  else
    node_SetValue (Some a) v h
    = Ret (Some (ErrNew ("cannot call SetValue on a "
                           ++ NodeType_String (payload_nodeType pv))), h).
Proof.
  intros Hn Hv.
  assert (Hlt : a < length h) by (eapply lookup_lt_Some; eauto).
  destruct pv; cbn [settable]; unfold node_SetValue, set_value;
    rewrite (bind_Ret _ _ _ _ _ (get_Ret value h a n Hn)); rewrite Hv.
  2, 3, 4: eexists _, _; split;
    [ rewrite (bind_Ret _ _ _ _ _ (modify_Ret _ h a n Hn)); reflexivity | ];
    split;
    [ unfold node_Value;
      erewrite bind_Ret by (apply get_Ret; apply list_lookup_insert_eq; exact Hlt);
      cbn; rewrite ?string_of_bytes_of; reflexivity
    | split; [reflexivity|]; cbn; done ].
  all: rewrite (bind_Ret _ _ _ _ _ (node_NodeType_Ret h a n Hn)); rewrite Hv; reflexivity.
Qed.

Lemma SetValue_then_Value_witness :
  exists h',
    node_SetValue (Some 1) "new" two_attributes = Ret (None, h') /\
    node_Value (Some 1) h' = Ret ("new", h').
Proof.
  destruct (SetValue_then_Value two_attributes 1
              (mkNode None None (Some 2) (Some 2) None
                 (Some (VAttribute (mkAttr (mkName "" "k") "v"))))
              (VAttribute (mkAttr (mkName "" "k") "v")) "new" eq_refl eq_refl)
    as (h' & n' & Hs & Hv & _).
  exists h'. split; [exact Hs|exact Hv].
Defined.

(** ** The child iterator *)

Lemma NextSibling_chain own (h : heap) first ks (it : nodeIterator) (f : nat -> bool) :
  chain own h first ks ->
  (forall k, k ∈ ks -> it_match it (Some k) h = Ret (f k, h)) ->
  forall n i fuel w, length ks = i + n -> n <= fuel ->
    NextSibling_loop fuel (with_wrap it w) (ks !! i) h
    = Ret ((head (List.filter f (drop i ks)),
            with_wrap it (head (List.filter f (drop i ks)))), h).
Proof.
  intros Hchain Hmatch. induction n as [|n IH]; intros i fuel w Hlen Hfuel.
  - rewrite lookup_ge_None_2 by lia. rewrite drop_ge by lia. by destruct fuel.
  - destruct (lookup_lt_is_Some_2 ks i) as [k Hk]; [lia|].
    destruct (chain_at _ _ _ _ _ _ Hchain Hk) as (m & Hm & _ & Hnx).
    destruct fuel as [|fuel]; [lia|]. rewrite Hk. cbn [NextSibling_loop].
    cbn [it_match with_wrap].
    rewrite (bind_Ret _ _ _ _ _ (Hmatch k (list_elem_of_lookup_2 _ _ _ Hk))).
    rewrite (drop_S _ _ _ Hk). cbn [List.filter].
    destruct (f k); [reflexivity|].
    rewrite (bind_Ret _ _ _ _ _ (get_Ret nextSib h k m Hm)). rewrite Hnx.
    apply (IH (S i) fuel w); lia.
Qed.

(** X23. NextSibling of an iterator over a well-formed child list, with a
    filter that only reads the store.  The candidates are the whole list
    for an iterator without a current node, and the children behind the
    current node otherwise.  If there is no candidate at all (the parent
    has no child, or the current node is the last child) the call panics;
    otherwise it answers the first candidate that passes the filter and
    makes it the current node, or answers nil and forgets the current
    node when none passes. *)
Theorem iterator_NextSibling (h : heap) p ks (it : nodeIterator) (f : nat -> bool)
    (pos : option nat) fuel :
  children h p ks -> it_parent it = Some p ->
  (forall k, k ∈ ks -> it_match it (Some k) h = Ret (f k, h)) ->
  it_wrap it = match pos with None => None | Some i => ks !! i end ->
  match pos with None => True | Some i => i < length ks end ->
  length ks <= fuel ->
  let candidates := match pos with None => ks | Some i => drop (S i) ks end in
  nodeIterator_NextSibling fuel it h
  = match candidates with
    | [] => Panic
    | _ => Ret ((head (List.filter f candidates),
                 with_wrap it (head (List.filter f candidates))), h)
    end.
Proof.
  intros (pn & Hp & Hchain) Hpar Hmatch Hwrap Hpos Hfuel candidates.
  unfold nodeIterator_NextSibling. rewrite Hwrap, Hpar.
  destruct pos as [i|].
  - destruct (lookup_lt_is_Some_2 ks i Hpos) as [k Hk]. rewrite Hk.
    destruct (chain_at _ _ _ _ _ _ Hchain Hk) as (m & Hm & _ & Hnx).
    unfold node_NextSibling. rewrite (bind_Ret _ _ _ _ _ (get_Ret nextSib h k m Hm)).
    rewrite Hnx. subst candidates.
    destruct (ks !! S i) as [k'|] eqn:Hk'.
    + rewrite (drop_S _ _ _ Hk'). rewrite <- (drop_S _ _ _ Hk'). rewrite <- Hk'.
      apply lookup_lt_Some in Hk'.
      apply (NextSibling_chain _ h _ ks it f Hchain Hmatch (length ks - S i) (S i) fuel);
        lia.
    + apply lookup_ge_None_1 in Hk'. rewrite drop_ge by lia. reflexivity.
  - unfold node_FirstChild. rewrite (bind_Ret _ _ _ _ _ (get_Ret firstChild h p pn Hp)).
    pose proof Hchain as (_ & Hfirst & _). rewrite Hfirst. subst candidates.
    destruct ks as [|k ks']; [reflexivity|].
    change (head (k :: ks')) with ((k :: ks') !! 0).
    apply (NextSibling_chain _ h _ (k :: ks') it f Hchain Hmatch (length (k :: ks')) 0 fuel);
      [reflexivity|exact Hfuel].
Qed.

Lemma PreviousSibling_chain own (h : heap) first ks (it : nodeIterator) (f : nat -> bool) :
  chain own h first ks ->
  (forall k, k ∈ ks -> it_match it (Some k) h = Ret (f k, h)) ->
  forall j fuel w, S j < length ks -> j + 2 <= fuel ->
    PreviousSibling_loop fuel (with_wrap it w) (ks !! j) h
    = Ret ((head (List.filter f (rev (take (S j) ks))),
            with_wrap it (head (List.filter f (rev (take (S j) ks))))), h).
Proof.
  intros Hchain Hmatch. pose proof Hchain as (_ & _ & Hks).
  induction j as [|j IH]; intros fuel w Hj Hfuel.
  - destruct (lookup_lt_is_Some_2 ks 0) as [k Hk]; [lia|].
    destruct (Hks 0 k Hk) as (m & Hm & _ & Hnx & Hpv).
    destruct (lookup_lt_is_Some_2 ks 1) as [k1 Hk1]; [lia|].
    destruct fuel as [|[|fuel]]; try lia. rewrite Hk. cbn [PreviousSibling_loop].
    rewrite (bind_Ret _ _ _ _ _ (get_Ret nextSib h k m Hm)). rewrite Hnx, Hk1.
    cbn [it_match with_wrap].
    rewrite (bind_Ret _ _ _ _ _ (Hmatch k (list_elem_of_lookup_2 _ _ _ Hk))).
    rewrite (take_S_r _ _ _ Hk), rev_app_distr, take_0. cbn [rev app List.filter].
    destruct (f k); [reflexivity|].
    rewrite (bind_Ret _ _ _ _ _ (get_Ret prevSib h k m Hm)). rewrite Hpv.
    destruct (last ks) as [tl|] eqn:Hl; [|apply last_None in Hl; subst; simpl in Hj; lia].
    rewrite last_lookup in Hl.
    destruct (Hks _ tl Hl) as (mt & Hmt & _ & Hnxt & _).
    rewrite (bind_Ret _ _ _ _ _ (get_Ret nextSib h tl mt Hmt)). rewrite Hnxt.
    rewrite lookup_ge_None_2 by lia. reflexivity.
  - destruct (lookup_lt_is_Some_2 ks (S j)) as [k Hk]; [lia|].
    destruct (Hks (S j) k Hk) as (m & Hm & _ & Hnx & Hpv).
    destruct (lookup_lt_is_Some_2 ks (S (S j))) as [k1 Hk1]; [lia|].
    destruct fuel as [|fuel]; try lia. rewrite Hk. cbn [PreviousSibling_loop].
    rewrite (bind_Ret _ _ _ _ _ (get_Ret nextSib h k m Hm)). rewrite Hnx, Hk1.
    cbn [it_match with_wrap].
    rewrite (bind_Ret _ _ _ _ _ (Hmatch k (list_elem_of_lookup_2 _ _ _ Hk))).
    rewrite (take_S_r _ _ _ Hk). rewrite rev_app_distr. cbn [rev app List.filter].
    destruct (f k); [reflexivity|].
    rewrite (bind_Ret _ _ _ _ _ (get_Ret prevSib h k m Hm)). rewrite Hpv.
    apply (IH fuel w); lia.
Qed.

(** X24. PreviousSibling of an iterator over a well-formed child list, with a
    filter that only reads the store.  An iterator without a current node
    starts at the last child, whose next sibling is nil, so the loop ends
    at once: the call answers nil whatever the children are, and panics
    when there is none.  With the first child as the current node the call
    panics.  Otherwise it answers the nearest child before the current
    node that passes the filter and makes it the current node, or answers
    nil and forgets the current node when none passes. *)
Theorem iterator_PreviousSibling (h : heap) p ks (it : nodeIterator) (f : nat -> bool)
    (pos : option nat) fuel :
  children h p ks -> it_parent it = Some p ->
  (forall k, k ∈ ks -> it_match it (Some k) h = Ret (f k, h)) ->
  it_wrap it = match pos with None => None | Some i => ks !! i end ->
  match pos with None => True | Some i => i < length ks end ->
  S (length ks) <= fuel ->
  nodeIterator_PreviousSibling fuel it h
  = match pos with
    | None => match ks with [] => Panic | _ => Ret ((None, with_wrap it None), h) end
    | Some 0 => Panic
    | Some (S j) =>
        Ret ((head (List.filter f (rev (take (S j) ks))),
              with_wrap it (head (List.filter f (rev (take (S j) ks))))), h)
    end.
Proof.
  intros (pn & Hp & Hchain) Hpar Hmatch Hwrap Hpos Hfuel.
  pose proof Hchain as (_ & Hfirst & Hks).
  unfold nodeIterator_PreviousSibling. rewrite Hwrap, Hpar.
  destruct pos as [i|].
  - destruct (lookup_lt_is_Some_2 ks i Hpos) as [k Hk]. rewrite Hk.
    destruct (Hks i k Hk) as (m & Hm & _ & Hnx & Hpv).
    unfold node_PreviousSibling. rewrite !bind_bind.
    rewrite (bind_Ret _ _ _ _ _ (get_Ret prevSib h k m Hm)). rewrite Hpv.
    destruct i as [|j].
    + destruct (last ks) as [tl|] eqn:Hl; [|apply last_None in Hl; subst; simpl in Hpos; lia].
      rewrite last_lookup in Hl.
      destruct (Hks _ tl Hl) as (mt & Hmt & _ & Hnxt & _).
      rewrite !bind_bind.
      rewrite (bind_Ret _ _ _ _ _ (get_Ret nextSib h tl mt Hmt)). rewrite Hnxt.
      rewrite lookup_ge_None_2 by lia. reflexivity.
    + destruct (lookup_lt_is_Some_2 ks j) as [k0 Hk0]; [lia|]. rewrite Hk0.
      destruct (Hks j k0 Hk0) as (m0 & Hm0 & _ & Hnx0 & _).
      rewrite !bind_bind.
      rewrite (bind_Ret _ _ _ _ _ (get_Ret nextSib h k0 m0 Hm0)). rewrite Hnx0, Hk.
      unfold bind at 1, ret at 1. rewrite <- Hk0.
      apply (PreviousSibling_chain _ h _ ks it f Hchain Hmatch j fuel); lia.
  - unfold node_LastChild. rewrite !bind_bind.
    rewrite (bind_Ret _ _ _ _ _ (get_Ret firstChild h p pn Hp)). rewrite Hfirst.
    destruct ks as [|k ks']; [reflexivity|].
    destruct (chain_nonempty _ _ _ _ _ Hchain) as (hn & tl & Hhn & _ & Htl & Hhp & _).
    cbn [head]. rewrite (bind_Ret _ _ _ _ _ (get_Ret prevSib h k hn Hhn)). rewrite Hhp.
    rewrite last_lookup in Htl.
    destruct (Hks _ tl Htl) as (mt & Hmt & _ & Hnxt & _).
    destruct fuel as [|fuel]; [lia|]. cbn [PreviousSibling_loop].
    rewrite (bind_Ret _ _ _ _ _ (get_Ret nextSib h tl mt Hmt)). rewrite Hnxt.
    rewrite lookup_ge_None_2 by lia. reflexivity.
Qed.

(** An iterator over all children that stands on the last child. *)
Lemma iterator_NextSibling_witness :
  nodeIterator_NextSibling 4 (with_wrap (NewChildIterator (Some 0)) (Some 4)) mixed_children
  = Panic.
Proof.
  exact (iterator_NextSibling mixed_children 0 [1; 2; 3; 4]
           (with_wrap (NewChildIterator (Some 0)) (Some 4)) (fun _ => true) (Some 3) 4
           (children_okb_sound mixed_children 0 [1; 2; 3; 4] eq_refl) eq_refl
           (fun _ _ => eq_refl) eq_refl ltac:(simpl; lia) ltac:(simpl; lia)).
Defined.

(** A new iterator over all children, asked for the previous sibling. *)
Lemma iterator_PreviousSibling_witness :
  nodeIterator_PreviousSibling 5 (NewChildIterator (Some 0)) mixed_children
  = Ret ((None, NewChildIterator (Some 0)), mixed_children).
Proof.
  exact (iterator_PreviousSibling mixed_children 0 [1; 2; 3; 4]
           (NewChildIterator (Some 0)) (fun _ => true) None 5
           (children_okb_sound mixed_children 0 [1; 2; 3; 4] eq_refl) eq_refl
           (fun _ _ => eq_refl) eq_refl I ltac:(simpl; lia)).
Defined.

(** ** The Builder on whole token streams *)

Section Streams.
Variable TrimSpace : list byte -> list byte.
Variable Fields : list byte -> list (list byte).
Hypothesis TrimSpace_idem : forall b, TrimSpace (TrimSpace b) = TrimSpace b.

(** What a successful decoding is, on the contents of the open trees, and
    what marshaling the document then hands the encoder. *)
Lemma decode_then_encode opts mopts toks (g : heap) doc h1 :
  decode TrimSpace Fields opts toks g = Ret ((None, doc), h1) ->
  exists xs K,
    xrun TrimSpace Fields opts [XNode VDocument [] []] toks = Some xs /\
    last xs = Some (XNode VDocument [] K) /\
    Forall (built TrimSpace Fields opts NodeTypeDocument) K /\
    doc = Some (length g) /\
    exists F, forall fuel, F <= fuel ->
      encode fuel mopts doc h1
      = Ret ((None, flat_map (xemit (Has mopts marshalExplicitNS) false "") K), h1).
Proof.
  intros Hdec.
  pose proof (decode_refines TrimSpace Fields opts toks g) as Hfirst.
  destruct (xrun TrimSpace Fields opts [XNode VDocument [] []] toks) as [xs1|] eqn:Hrun1.
  2:{ by destruct (Hfirst _ _ Hdec). }
  destruct Hfirst as (h1' & ts1 & dt & Hdec' & Hr1 & Her1 & Hlast1 & Hroot1).
  rewrite Hdec in Hdec'. inversion Hdec'; subst doc h1'. clear Hdec'.
  assert (Hz0 : zbuilt TrimSpace Fields opts [XNode VDocument [] []]).
  { apply zbuilt_doc. apply Forall_nil_2. }
  pose proof (xrun_zbuilt TrimSpace Fields TrimSpace_idem opts toks _ _ Hz0 Hrun1) as Hz1.
  destruct (zbuilt_last _ _ _ _ Hz1) as (K & HlastK & HK).
  assert (HerK : erase dt = XNode VDocument [] K).
  { rewrite <- Her1, fmap_last, Hlast1 in HlastK. simpl in HlastK. congruence. }
  assert (Hrdt : repr h1 dt).
  { rewrite Forall_forall in Hr1. apply Hr1. rewrite last_lookup in Hlast1.
    by eapply list_elem_of_lookup_2. }
  exists xs1, K. split; [reflexivity|]. split; [exact HlastK|]. split; [exact HK|].
  split; [reflexivity|].
  exists (2 * count dt + width dt). intros fuel Hfuel. rewrite <- Hroot1.
  apply (encode_document mopts h1 dt K fuel Hrdt HerK); [|exact Hfuel].
  eapply Forall_impl; [exact HK|]. intros k Hk. by eapply built_plain.
Qed.

(** A run that succeeds on a stack of open trees succeeds on the same
    stack with more trees below it, and leaves those alone. *)
Lemma xstep_frame opts ys t ys' below :
  xstep TrimSpace Fields opts ys t = Some ys' ->
  xstep TrimSpace Fields opts (ys ++ below) t = Some (ys' ++ below).
Proof.
  destruct ys as [|p rest]; [done|]. cbn [app].
  assert (Happ : forall l c l', xappend l c = Some l' ->
                                xappend (l ++ below) c = Some (l' ++ below)).
  { intros l c l'. destruct l as [|q l]; [done|]. cbn [app xappend].
    destruct (allowInsertChild (xkind q) (xkind c)); [|done]. by intros [= <-]. }
  destruct t as [name attrs | name | cd | c | pi | d]; cbn [xstep].
  - by intros [= <-].
  - apply Happ.
  - destruct (allowInsertChild (xkind p) NodeTypeText); [|done].
    destruct (CharData_kept TrimSpace opts cd); [apply (Happ (p :: rest))|by intros [= <-]].
  - destruct (negb (Has opts parseComments)); [by intros [= <-]|].
    destruct (allowInsertChild (xkind p) NodeTypeComment); [apply (Happ (p :: rest))|done].
  - destruct (bool_decide (Target pi = "xml")).
    + destruct (allowInsertChild (xkind p) NodeTypeDeclaration); [|done].
      destruct (Has opts parseDeclaration); [apply (Happ (p :: rest))|by intros [= <-]].
    + destruct (allowInsertChild (xkind p) NodeTypeProcessingInstruction); [|done].
      destruct (Has opts parsePI); [apply (Happ (p :: rest))|by intros [= <-]].
  - done.
Qed.

Lemma xrun_frame opts body : forall ys ys' below,
  xrun TrimSpace Fields opts ys body = Some ys' ->
  xrun TrimSpace Fields opts (ys ++ below) body = Some (ys' ++ below).
Proof.
  induction body as [|t body IH]; intros ys ys' below; simpl.
  - by intros [= <-].
  - destruct (xstep TrimSpace Fields opts ys t) as [ys1|] eqn:Hs; [|done].
    rewrite (xstep_frame _ _ _ _ below Hs). apply IH.
Qed.

(** The tokens stay inside an element that is open at depth [d] below the
    element they follow: no end tag closes that element, and there is no
    directive and no XML declaration among them. *)
Fixpoint inside (d : nat) (body : list Token) : bool :=
  match body with
  | [] => true
  | StartElement _ _ :: rest => inside (S d) rest
  | EndElement _ :: rest =>
      match d with
      | O => false
      | S d' => inside d' rest
      end
  | CharData _ :: rest => inside d rest
  | Comment _ :: rest => inside d rest
  | ProcInstTok pi :: rest => negb (bool_decide (Target pi = "xml")) && inside d rest
  | Directive _ :: _ => false
  end.

Lemma inside_runs opts body : forall d ys,
  inside d body = true -> length ys = S d ->
  Forall (fun y => xkind y = NodeTypeElement) ys ->
  exists ys', xrun TrimSpace Fields opts ys body = Some ys'.
Proof.
  induction body as [|t body IH]; intros d ys Hin Hlen Hel; [by exists ys|].
  destruct ys as [|p rest]; [done|].
  apply Forall_cons in Hel as [Hp Hrest].
  assert (Hstay : inside d body = true ->
            exists ys', xrun TrimSpace Fields opts (p :: rest) body = Some ys').
  { intros Hb. apply (IH d); [done|done|by apply Forall_cons]. }
  assert (Hadd : forall c, allowInsertChild NodeTypeElement (xkind c) = true ->
            inside d body = true ->
            exists ys', match xappend (p :: rest) c with
                        | Some xs1 => xrun TrimSpace Fields opts xs1 body
                        | None => None
                        end = Some ys').
  { intros c Hc Hb. cbn [xappend]. rewrite Hp, Hc.
    apply (IH d); [done|done|]. apply Forall_cons. by rewrite xkind_add_kid. }
  destruct t as [name attrs | name | cd | c | pi | dd]; cbn [inside] in Hin;
    cbn [xrun xstep].
  - apply (IH (S d)); [done|cbn [length] in Hlen |- *; lia|].
    apply Forall_cons; split; [reflexivity|]. by apply Forall_cons.
  - destruct d as [|d']; [done|]. destruct rest as [|q rest']; [simpl in Hlen; lia|].
    apply Forall_cons in Hrest as [Hq Hrest']. cbn [xappend]. rewrite Hq, Hp.
    cbn [allowInsertChild bool_decide]. change (allowInsertChild NodeTypeElement NodeTypeElement)
      with true. cbv iota.
    apply (IH d'); [done|cbn [length] in Hlen |- *; lia|].
    apply Forall_cons. by rewrite xkind_add_kid.
  - rewrite Hp. change (allowInsertChild NodeTypeElement NodeTypeText) with true. cbv iota.
    destruct (CharData_kept TrimSpace opts cd) as [data|]; [|by apply Hstay].
    by apply (Hadd (XNode (VText data) [] [])).
  - destruct (negb (Has opts parseComments)); [by apply Hstay|].
    rewrite Hp. change (allowInsertChild NodeTypeElement NodeTypeComment) with true. cbv iota.
    by apply (Hadd (XNode (VComment c) [] [])).
  - apply andb_true_iff in Hin as [Hpi Hin]. apply negb_true_iff in Hpi. rewrite Hpi.
    rewrite Hp. change (allowInsertChild NodeTypeElement NodeTypeProcessingInstruction)
      with true. cbv iota.
    destruct (Has opts parsePI); [|by apply Hstay].
    by apply (Hadd (XNode (VProcInst pi) [] [])).
  - done.
Qed.

(** X25. An element that is never closed is lost without a word.  When a
    stream decodes without error, so does the stream followed by a start
    tag and any tokens that stay inside that element ([inside]): [End]
    accepts the
    end of the input although an element is open.  The open element is
    linked to the document only by its own parent pointer, so marshaling
    the document hands the encoder exactly what it is handed without the
    extra tokens. *)
Theorem unclosed_element_is_dropped opts mopts toks name attrs body (g : heap) doc h1 :
  decode TrimSpace Fields opts toks g = Ret ((None, doc), h1) ->
  inside 0 body = true ->
  exists h2 out,
    decode TrimSpace Fields opts (toks ++ StartElement name attrs :: body) g
    = Ret ((None, doc), h2) /\
    exists F, forall fuel, F <= fuel ->
      encode fuel mopts doc h1 = Ret ((None, out), h1) /\
      encode fuel mopts doc h2 = Ret ((None, out), h2).
Proof.
  intros Hdec Hin.
  destruct (inside_runs opts body 0 [XNode (VElement name "") attrs []] Hin eq_refl)
    as (ys & Hbody); [by apply Forall_cons|].
  destruct (decode_then_encode opts mopts toks g doc h1 Hdec)
    as (xs & K & Hrun & Hlast & HK & Hdoc & F1 & Henc1).
  assert (Hxs : xs <> []) by (intros ->; done).
  assert (Hrun2 : xrun TrimSpace Fields opts [XNode VDocument [] []]
                    (toks ++ StartElement name attrs :: body)
                  = Some (ys ++ xs)).
  { rewrite xrun_app, Hrun. destruct xs as [|p rest]; [done|].
    cbn [xrun xstep].
    exact (xrun_frame opts body [XNode (VElement name "") attrs []] ys (p :: rest) Hbody). }
  pose proof (decode_refines TrimSpace Fields opts
                (toks ++ StartElement name attrs :: body) g) as Hsecond.
  rewrite Hrun2 in Hsecond.
  destruct Hsecond as (h2 & ts2 & dt2 & Hdec2 & _).
  rewrite <- Hdoc in Hdec2.
  destruct (decode_then_encode opts mopts _ g doc h2 Hdec2)
    as (xs2 & K2 & Hrun2' & Hlast2 & _ & _ & F2 & Henc2).
  assert (xs2 = ys ++ xs) as -> by congruence.
  assert (K2 = K).
  { rewrite last_app in Hlast2. rewrite Hlast in Hlast2. congruence. }
  subst K2.
  exists h2, (flat_map (xemit (Has mopts marshalExplicitNS) false "") K).
  split; [exact Hdec2|].
  exists (Nat.max F1 F2). intros fuel Hfuel. split; [apply Henc1|apply Henc2]; lia.
Qed.


(** The Builder's [End] accepts the end of the input in every state, so
    what the loop does on a stream that decodes is what it does on that
    stream as a prefix. *)
Lemma Builder_loop_app toks : forall (un : Builder) (h : heap) un' h' rest,
  UnmarshalXML_loop (H := Builder_TokenDecoder TrimSpace Fields) toks EOF un h
  = Ret ((None, un'), h') ->
  UnmarshalXML_loop (H := Builder_TokenDecoder TrimSpace Fields) (toks ++ rest) EOF un h
  = UnmarshalXML_loop (H := Builder_TokenDecoder TrimSpace Fields) rest EOF un' h'.
Proof.
  induction toks as [|t toks IH]; intros un h un' h' rest.
  - cbn [UnmarshalXML_loop td_End Builder_TokenDecoder]. unfold Builder_End.
    rewrite bool_decide_eq_true_2 by reflexivity. unfold ret. by intros [= <- <-].
  - cbn [app UnmarshalXML_loop]. unfold bind.
    destruct (td_Token un t h) as [[[[err|] un1] h1]| |]; try done.
    apply IH.
Qed.

Lemma decode_inv opts toks (g : heap) r doc h1 :
  decode TrimSpace Fields opts toks g = Ret ((r, doc), h1) ->
  doc = Some (length g) /\
  exists un,
    UnmarshalXML_loop (H := Builder_TokenDecoder TrimSpace Fields) toks EOF
      (mkBuilder (Some (length g)) opts) (g ++ [document_node])
    = Ret ((r, un), h1).
Proof.
  assert (Hdec :
    decode TrimSpace Fields opts toks g
    = match UnmarshalXML_loop (H := Builder_TokenDecoder TrimSpace Fields) toks EOF
              (mkBuilder (Some (length g)) opts) (g ++ [document_node])
      with
      | Ret (r, h') => Ret ((r.1, Some (length g)), h')
      | Panic => Panic
      | OutOfFuel => OutOfFuel
      end) by reflexivity.
  rewrite Hdec.
  destruct (UnmarshalXML_loop toks EOF (mkBuilder (Some (length g)) opts)
              (g ++ [document_node])) as [[[r1 un] h']| |]; try done.
  simpl. intros [= <- <- <-]. split; [reflexivity|]. by exists un.
Qed.

(** X26. A directive ends the decoding: whatever decodes without error before
    it, the directive (a DOCTYPE, for one) is answered with the error
    "TODO", the tokens behind it are never looked at, and the store is the
    one the tokens before it have built. *)
Theorem directive_stops_decoding opts toks d rest (g : heap) doc h1 :
  decode TrimSpace Fields opts toks g = Ret ((None, doc), h1) ->
  decode TrimSpace Fields opts (toks ++ Directive d :: rest) g
  = Ret ((Some (ErrNew "TODO"), doc), h1).
Proof.
  intros Hdec. destruct (decode_inv _ _ _ _ _ _ Hdec) as (-> & un & Hloop).
  assert (Hdec2 :
    decode TrimSpace Fields opts (toks ++ Directive d :: rest) g
    = match UnmarshalXML_loop (H := Builder_TokenDecoder TrimSpace Fields)
              (toks ++ Directive d :: rest) EOF
              (mkBuilder (Some (length g)) opts) (g ++ [document_node])
      with
      | Ret (r, h') => Ret ((r.1, Some (length g)), h')
      | Panic => Panic
      | OutOfFuel => OutOfFuel
      end) by reflexivity.
  rewrite Hdec2, (Builder_loop_app _ _ _ _ _ _ Hloop). reflexivity.
Qed.

Definition is_comment (t : Token) : bool :=
  match t with Comment _ => true | _ => false end.

(** X27. Without the comments option the comments of the input do not exist
    for the Builder: decoding a stream and decoding it with its comments
    taken out give the same answer and the same store. *)
Theorem comments_are_invisible opts toks (g : heap) :
  Has opts parseComments = false ->
  decode TrimSpace Fields opts toks g
  = decode TrimSpace Fields opts (List.filter (fun t => negb (is_comment t)) toks) g.
Proof.
  intros Hopt.
  assert (Hloop : forall (un : Builder) (h : heap), Builder_opts un = opts ->
    UnmarshalXML_loop (H := Builder_TokenDecoder TrimSpace Fields) toks EOF un h
    = UnmarshalXML_loop (H := Builder_TokenDecoder TrimSpace Fields)
        (List.filter (fun t => negb (is_comment t)) toks) EOF un h).
  { induction toks as [|t toks IH]; intros un h Hun; [reflexivity|].
    destruct t as [name attrs | name | cd | c | pi | dd];
      cbn [List.filter is_comment negb UnmarshalXML_loop td_Token].
    4:{ cbn [td_Comment Builder_TokenDecoder]. unfold Builder_Comment.
        rewrite Hun, Hopt. cbn [negb]. unfold bind at 1, ret at 1. cbv beta iota.
        by apply IH. }
    - unfold bind.
      destruct (td_StartElement un name attrs h) as [[[[err|] un1] h1]| |] eqn:Hm;
        try reflexivity. apply IH.
      cbn [td_StartElement Builder_TokenDecoder] in Hm. unfold Builder_StartElement in Hm.
      repeat (apply bind_inv in Hm as (? & ? & _ & Hm)). unfold ret in Hm.
      by injection Hm as <- _.
    - unfold bind.
      destruct (td_EndElement un name h) as [[[[err|] un1] h1]| |] eqn:Hm;
        try reflexivity. apply IH.
      cbn [td_EndElement Builder_TokenDecoder] in Hm. unfold Builder_EndElement in Hm.
      apply bind_inv in Hm as (? & ? & _ & Hm). apply bind_inv in Hm as (np & ? & _ & Hm).
      destruct np; [|by injection Hm].
      apply bind_inv in Hm as (e & ? & _ & Hm). destruct e; [by injection Hm|].
      apply bind_inv in Hm as (? & ? & _ & Hm). unfold ret in Hm. by injection Hm as <- _.
    - unfold bind.
      destruct (td_CharData un cd h) as [[[[err|] un1] h1]| |] eqn:Hm;
        try reflexivity. apply IH.
      cbn [td_CharData Builder_TokenDecoder] in Hm. unfold Builder_CharData in Hm.
      apply bind_inv in Hm as (? & ? & _ & Hm). apply bind_inv in Hm as (ct & ? & _ & Hm).
      destruct (allowInsertChildErr ct NodeTypeText); [by injection Hm|].
      repeat match type of Hm with
             | (if ?b then _ else _) _ = _ => destruct b
             | bind _ _ _ = _ => apply bind_inv in Hm as (? & ? & _ & Hm)
             end; unfold ret in Hm; inversion Hm; congruence.
    - unfold bind.
      destruct (td_ProcInst un pi h) as [[[[err|] un1] h1]| |] eqn:Hm;
        try reflexivity. apply IH.
      cbn [td_ProcInst Builder_TokenDecoder] in Hm. unfold Builder_ProcInst in Hm.
      apply bind_inv in Hm as (? & ? & _ & Hm). apply bind_inv in Hm as (ct & ? & _ & Hm).
      destruct (allowInsertChildErr ct _); [by injection Hm|].
      repeat match type of Hm with
             | (if ?b then _ else _) _ = _ => destruct b
             | bind _ _ _ = _ => apply bind_inv in Hm as (? & ? & _ & Hm)
             end; unfold ret in Hm; inversion Hm; congruence.
    - reflexivity. }
  unfold decode, newDocument, new_node, alloc. unfold bind at 1 3.
  unfold UnmarshalXML. cbn [td_Begin Builder_TokenDecoder Builder_Begin Builder_Node].
  unfold bind at 2 4, ret at 1 3. cbv beta iota. unfold bind.
  by rewrite Hloop.
Qed.


Lemma Root_loop_spine (h : heap) : forall rs fuel,
  spine h rs -> length rs <= fuel -> Root_loop fuel (head rs) h = Ret (last rs, h).
Proof.
  induction rs as [|r rest IH]; intros fuel Hsp Hfuel; [by destruct fuel|].
  destruct Hsp as [(n & Hn & _ & Hpar) Hrest].
  destruct fuel as [|fuel]; [simpl in Hfuel; lia|]. cbn [head Root_loop].
  rewrite (bind_Ret _ _ _ _ _ (get_Ret parent h r n Hn)). rewrite Hpar.
  destruct rest as [|r' rest']; [reflexivity|].
  cbn [head]. change (Some r') with (head (r' :: rest')).
  rewrite (IH fuel Hrest); [reflexivity|simpl in Hfuel |- *; lia].
Qed.

(** X28. Root answers the document at every point of a decoding that began at
    a new document: each open element names the element it was opened in
    as its parent, although it is not yet among that element's children,
    and the chain of parents ends at the document.  The decoder stands in
    [un] after any tokens that the Builder accepted. *)
Theorem Builder_Root_is_document opts toks (g : heap) un h1 :
  UnmarshalXML (H := Builder_TokenDecoder TrimSpace Fields) toks EOF
    (mkBuilder (Some (length g)) opts) (g ++ [document_node])
  = Ret ((None, un), h1) ->
  exists F, forall fuel, F <= fuel ->
    Builder_Root fuel un h1 = Ret (Some (length g), h1).
Proof.
  intros Hrun.
  pose proof (loop_refines TrimSpace Fields opts toks _ _ (open_trees_document g)
                ltac:(done)) as Hloop.
  change (builder_at opts [Tree (length g) VDocument [] []])
    with (mkBuilder (Some (length g)) opts) in Hloop.
  assert (Hrun' : UnmarshalXML_loop (H := Builder_TokenDecoder TrimSpace Fields) toks EOF
                    (mkBuilder (Some (length g)) opts) (g ++ [document_node])
                  = Ret ((None, un), h1)) by exact Hrun.
  unfold refines in Hloop.
  destruct (xrun TrimSpace Fields opts (erase <$> [Tree (length g) VDocument [] []]) toks)
    as [xs'|].
  2:{ by destruct (Hloop _ _ Hrun'). }
  destruct Hloop as (h' & ts' & Hrun2 & (_ & _ & Hspine) & _ & Hne & Hlast).
  rewrite Hrun' in Hrun2. inversion Hrun2; subst un h'. clear Hrun2.
  exists (length ts'). intros fuel Hfuel.
  destruct ts' as [|tp others]; [done|].
  unfold Builder_Root, cursor, builder_at. cbn [head fmap option_fmap option_map Builder_Node].
  unfold bind at 1, ret at 1.
  change (Some (root tp)) with (head (root <$> tp :: others)).
  rewrite (Root_loop_spine h1 _ fuel Hspine); [|by rewrite length_fmap].
  rewrite Hlast. reflexivity.
Qed.

End Streams.

Lemma unclosed_element_is_dropped_witness :
  exists h2 out,
    decode asciiTrimSpace asciiFields parseTrimPCData
      (sample_tokens ++ StartElement (mkName "" "late") []
                          :: [CharData (bytes_of "lost"); StartElement (mkName "" "x") [];
                              EndElement (mkName "" "x")]) []
    = Ret ((None, Some 0), h2) /\
    exists F, forall fuel, F <= fuel ->
      encode fuel 0%N (Some 0) sample_store = Ret ((None, out), sample_store) /\
      encode fuel 0%N (Some 0) h2 = Ret ((None, out), h2).
Proof.
  apply (unclosed_element_is_dropped asciiTrimSpace asciiFields asciiTrimSpace_idem
           parseTrimPCData 0%N sample_tokens (mkName "" "late") []
           [CharData (bytes_of "lost"); StartElement (mkName "" "x") [];
            EndElement (mkName "" "x")] [] (Some 0) sample_store).
  - vm_compute. reflexivity.
  - reflexivity.
Defined.

Lemma directive_stops_decoding_witness :
  decode asciiTrimSpace asciiFields parseTrimPCData
    (sample_tokens ++ Directive (bytes_of "DOCTYPE a") :: [Comment (bytes_of "c")]) []
  = Ret ((Some (ErrNew "TODO"), Some 0), sample_store).
Proof.
  apply (directive_stops_decoding asciiTrimSpace asciiFields parseTrimPCData sample_tokens
           (bytes_of "DOCTYPE a") [Comment (bytes_of "c")] [] (Some 0) sample_store).
  vm_compute. reflexivity.
Defined.

Lemma comments_are_invisible_witness :
  decode asciiTrimSpace asciiFields parseTrimPCData sample_tokens []
  = decode asciiTrimSpace asciiFields parseTrimPCData
      (List.filter (fun t => negb (is_comment t)) sample_tokens) [].
Proof.
  apply (comments_are_invisible asciiTrimSpace asciiFields parseTrimPCData sample_tokens []).
  reflexivity.
Defined.

Lemma Builder_Root_is_document_witness :
  exists F, forall fuel, F <= fuel ->
    Builder_Root fuel (mkBuilder (Some 1) 0%N)
      [document_node; mkNode (Some 0) None None None None (Some (VElement (mkName "" "a") ""))]
    = Ret (Some 0,
           [document_node;
            mkNode (Some 0) None None None None (Some (VElement (mkName "" "a") ""))]).
Proof.
  apply (Builder_Root_is_document asciiTrimSpace asciiFields 0%N
           [StartElement (mkName "" "a") []] [] (mkBuilder (Some 1) 0%N)).
  vm_compute. reflexivity.
Defined.

(** ** What the marshaler hands the encoder *)

(** The elements left open after the tokens, given the elements open
    before them; [None] when an end tag does not name the innermost open
    element. *)
Fixpoint closes (toks : list Token) (open : list Name) : option (list Name) :=
  match toks with
  | [] => Some open
  | StartElement name _ :: rest => closes rest (name :: open)
  | EndElement name :: rest =>
      match open with
      | inner :: open' => if bool_decide (inner = name) then closes rest open' else None
      | [] => None
      end
  | _ :: rest => closes rest open
  end.

(** No start tag carries an attribute named [xmlns]. *)
Definition no_xmlns (t : Token) : Prop :=
  match t with
  | StartElement _ attrs => Forall (fun a => AttrName a <> xmlnsDefault) attrs
  | _ => True
  end.

Lemma closes_app l1 l2 open :
  closes (l1 ++ l2) open
  = match closes l1 open with Some open' => closes l2 open' | None => None end.
Proof.
  revert open. induction l1 as [|t l1 IH]; intros open; [reflexivity|].
  destruct t; cbn [app closes]; try apply IH.
  destruct open as [|inner open']; [reflexivity|].
  destruct (bool_decide (inner = name)); [apply IH|reflexivity].
Qed.

Lemma closes_xemit es x : forall ps open, closes (xemit es es ps x) open = Some open.
Proof.
  induction x as [v attrs kids IH] using xtree_induction. intros ps open.
  assert (Hkids : forall ps' open', closes (flat_map (xemit es es ps') kids) open' = Some open').
  { intros ps' open'. induction IH as [|k kids Hk _ IHk]; [reflexivity|].
    cbn [flat_map]. rewrite closes_app, Hk. apply IHk. }
  cbn [xemit]. destruct v; cbn [start_toks end_toks app closes];
    rewrite ?app_nil_r; try apply Hkids.
  rewrite closes_app, Hkids. cbn [closes].
  rewrite bool_decide_eq_true_2 by reflexivity. reflexivity.
Qed.

Lemma keep_attrs_no_xmlns attrs :
  Forall (fun a => AttrName a <> xmlnsDefault) (keep_attrs attrs).
Proof.
  induction attrs as [|a attrs IH]; [apply Forall_nil_2|]. cbn [keep_attrs].
  destruct (bool_decide (AttrName a <> xmlnsDefault)) eqn:Ha; [|exact IH].
  apply bool_decide_eq_true in Ha. apply Forall_cons. split; [exact Ha|exact IH].
Qed.

Lemma no_xmlns_xemit es ee x : forall ps, Forall no_xmlns (xemit es ee ps x).
Proof.
  induction x as [v attrs kids IH] using xtree_induction. intros ps.
  assert (Hkids : forall ps', Forall no_xmlns (flat_map (xemit es ee ps') kids)).
  { intros ps'. induction IH as [|k kids Hk _ IHk]; [apply Forall_nil_2|].
    cbn [flat_map]. apply Forall_app. split; [apply Hk|apply IHk]. }
  cbn [xemit]. apply Forall_app. split; [|apply Forall_app; split; [apply Hkids|]].
  - destruct v; cbn [start_toks]; repeat (apply Forall_cons; split); try apply Forall_nil_2;
      try exact I. apply keep_attrs_no_xmlns.
  - destruct v; cbn [end_toks]; repeat (apply Forall_cons; split); try apply Forall_nil_2;
      exact I.
Qed.

Section Output.
Variable TrimSpace : list byte -> list byte.
Variable Fields : list byte -> list (list byte).
Hypothesis TrimSpace_idem : forall b, TrimSpace (TrimSpace b) = TrimSpace b.

(** X29. Whatever token stream was decoded, with end tags of any name (the
    Builder does not look at them), marshaling the document without the
    explicit-namespace option hands the encoder a well-nested sequence:
    every end tag names the innermost open element and nothing is left
    open.  With or without that option no start tag carries an [xmlns]
    attribute. *)
Theorem marshaled_document_is_well_nested opts mopts toks (g : heap) doc h1 :
  decode TrimSpace Fields opts toks g = Ret ((None, doc), h1) ->
  exists out F,
    (forall fuel, F <= fuel -> encode fuel mopts doc h1 = Ret ((None, out), h1)) /\
    Forall no_xmlns out /\
    (Has mopts marshalExplicitNS = false -> closes out [] = Some []).
Proof.
  intros Hdec.
  destruct (decode_then_encode TrimSpace Fields TrimSpace_idem opts mopts toks g doc h1 Hdec)
    as (xs & K & _ & _ & _ & _ & F & Henc).
  exists (flat_map (xemit (Has mopts marshalExplicitNS) false "") K), F.
  split; [exact Henc|]. split.
  - clear Henc. induction K as [|k K IH]; [apply Forall_nil_2|].
    cbn [flat_map]. apply Forall_app. split; [apply no_xmlns_xemit|exact IH].
  - intros ->. clear Henc. generalize (@nil Name).
    induction K as [|k K IH]; intros open; [reflexivity|].
    cbn [flat_map]. rewrite closes_app, closes_xemit. apply IH.
Qed.

End Output.

Lemma marshaled_document_is_well_nested_witness :
  exists out F,
    (forall fuel, F <= fuel ->
       encode fuel 0%N (Some 0) sample_store = Ret ((None, out), sample_store)) /\
    Forall no_xmlns out /\
    (Has 0%N marshalExplicitNS = false -> closes out [] = Some []).
Proof.
  apply (marshaled_document_is_well_nested asciiTrimSpace asciiFields asciiTrimSpace_idem
           parseTrimPCData 0%N sample_tokens [] (Some 0) sample_store).
  vm_compute. reflexivity.
Defined.

(** ** json_decoder.go: an object of scalar members *)

Section FlatObject.
Context {T : Type} `{TokenDecoder T}.

(** The callbacks for a sequence of tokens, in order, up to the first
    error. *)
Fixpoint feed (toks : list Token) (td : T) : M (option error * T) :=
  match toks with
  | [] => ret (None, td)
  | t :: rest =>
      do r <- td_Token td t;
      match r with
      | (Some err, td') => ret (Some err, td')
      | (None, td') => feed rest td'
      end
  end.

(** The text of a scalar JSON value as the decoder passes it on. *)
Definition scalar_text (t : jsonToken) : option string :=
  match t with
  | JString value => Some value
  | JBool value => Some (Sprint_bool value)
  | JNumber value => Some value
  | JNull => Some EmptyString
  | JDelim _ => None
  end.

Definition member_json (kv : string * jsonToken) : list jsonToken := [JString kv.1; kv.2].

Definition member_xml (kv : string * jsonToken) : list Token :=
  [StartElement (jsTagToName kv.1) [];
   CharData (bytes_of (default EmptyString (scalar_text kv.2)));
   EndElement (jsTagToName kv.1)].

(** Two computations agree up to the JSON decoder around the token
    decoder. *)
Definition carries (d : JSONDecoder) (m : M (option error * T))
    (mj : M (option error * JSONDecoder)) (h : heap) : Prop :=
  match m h with
  | Ret ((e, td'), h') => mj h = Ret ((e, with_td d td'), h')
  | Panic => mj h = Panic
  | OutOfFuel => mj h = OutOfFuel
  end.

Lemma jd_decode_feed (d : JSONDecoder) name value (h : heap) :
  carries d (feed [StartElement name []; CharData (bytes_of value); EndElement name] (jd_td d))
    (jd_decode d name value) h.
Proof.
  unfold carries, jd_decode, jd_StartElement, jd_CharData, jd_EndElement.
  cbn [feed td_Token]. unfold bind, ret, with_td. cbn [jd_td].
  destruct (td_StartElement (jd_td d) name [] h) as [[[[e1|] td1] h1]| |]; try reflexivity.
  cbn [fst snd jd_td jd_tokens jd_error jd_stack].
  destruct (td_CharData td1 (bytes_of value) h1) as [[[[e2|] td2] h2]| |]; try reflexivity.
  cbn [fst snd jd_td jd_tokens jd_error jd_stack].
  destruct (td_EndElement td2 name h2) as [[[[e3|] td3] h3]| |]; reflexivity.
Qed.

Lemma feed_app l1 l2 (td : T) (h : heap) :
  feed (l1 ++ l2) td h
  = match feed l1 td h with
    | Ret ((None, td'), h') => feed l2 td' h'
    | other => other
    end.
Proof.
  revert td h. induction l1 as [|t l1 IH]; intros td h; [reflexivity|].
  cbn [app feed]. unfold bind.
  destruct (td_Token td t h) as [[[[e|] td'] h']| |]; try reflexivity. apply IH.
Qed.

(** The state [jsDecodeObject] on the members of an object and its closing
    brace, with nothing on the stack. *)
Lemma object_members kvs :
  Forall (fun kv => scalar_text kv.2 <> None) kvs ->
  forall fuel (d : JSONDecoder) (h : heap),
    length kvs < fuel ->
    jd_tokens d = flat_map member_json kvs ++ [JDelim RBrace] ->
    jd_stack d = [] -> jd_error d = None ->
    match feed (flat_map member_xml kvs) (jd_td d) h with
    | Ret ((e, td'), h') =>
        exists d', run_jsDecodeObject fuel d h = Ret ((None, d'), h') /\
                   jd_td d' = td' /\ jd_error d' = e
    | Panic => run_jsDecodeObject fuel d h = Panic
    | OutOfFuel => run_jsDecodeObject fuel d h = OutOfFuel
    end.
Proof.
  induction 1 as [|[k t] kvs Hkv _ IH]; intros fuel d h Hfuel Htoks Hstack Herr.
  - destruct fuel as [|fuel]; [lia|]. cbn [flat_map app feed] in Htoks |- *.
    cbn [run_jsDecodeObject]. unfold jd_More, jd_Token. rewrite Htoks.
    unfold jd_pop. cbn [jd_stack]. rewrite Hstack. cbn [jdKey].
    rewrite bool_decide_eq_false_2 by (intros Hne; by apply Hne).
    eexists. split; [reflexivity|]. split; [reflexivity|exact Herr].
  - destruct fuel as [|fuel]; [simpl in Hfuel; lia|].
    cbn [flat_map member_json member_xml fst snd app] in Htoks |- *.
    change (?a :: ?b :: ?c :: flat_map member_xml kvs)
      with ([a; b; c] ++ flat_map member_xml kvs).
    rewrite feed_app.
    cbn [run_jsDecodeObject]. unfold jd_More, jd_Token. rewrite Htoks.
    cbn [jd_tokens jd_td jd_error jd_stack].
    set (d2 := mkJSONDecoder (flat_map member_json kvs ++ [JDelim RBrace]) (jd_td d)
                 (jd_error d) (jd_stack d)).
    simpl in Hkv.
    set (step := fun value : string =>
      do r <- (do r <- jd_decode d2 (jsTagToName k) value; ret (@None jsonDecoderFn, r));
      match r with
      | (_, (Some e0, d5)) => ret (bail d5 (Some e0))
      | (Some next, (None, d5)) => ret (Some next, d5)
      | (None, (None, d5)) => run_jsDecodeObject fuel d5
      end).
    assert (Hbody : forall value,
      step value h
      = match jd_decode d2 (jsTagToName k) value h with
        | Ret ((Some e0, d5), h') => Ret (bail d5 (Some e0), h')
        | Ret ((None, d5), h') => run_jsDecodeObject fuel d5 h'
        | Panic => Panic
        | OutOfFuel => OutOfFuel
        end).
    { intros value. subst step. cbv beta. unfold bind, ret.
      destruct (jd_decode d2 (jsTagToName k) value h) as [[[[e0|] d5] h']| |]; reflexivity. }
    assert (Hstep : forall value,
      match
        match feed [StartElement (jsTagToName k) []; CharData (bytes_of value);
                    EndElement (jsTagToName k)] (jd_td d) h with
        | Ret ((None, td'), h') => feed (flat_map member_xml kvs) td' h'
        | other => other
        end
      with
      | Ret ((e, td'), h') =>
          exists d', step value h = Ret ((None, d'), h') /\ jd_td d' = td' /\ jd_error d' = e
      | Panic => step value h = Panic
      | OutOfFuel => step value h = OutOfFuel
      end).
    { intros value. rewrite Hbody.
      pose proof (jd_decode_feed d2 (jsTagToName k) value h) as Hdec.
      unfold carries in Hdec. change (jd_td d2) with (jd_td d) in Hdec.
      destruct (feed [StartElement (jsTagToName k) []; CharData (bytes_of value);
                      EndElement (jsTagToName k)] (jd_td d) h)
        as [[[[e|] td'] h']| |]; rewrite Hdec; try reflexivity.
      - unfold bail. eexists. split; [reflexivity|]. split; reflexivity.
      - apply (IH fuel (with_td d2 td') h');
          [simpl in Hfuel; lia|reflexivity|exact Hstack|exact Herr]. }
    destruct t as [dl|value|value|value|]; [done| | | |];
      cbn [scalar_text default]; apply Hstep.
Qed.

(** X30. A JSON object whose members all have scalar values is decoded as the
    XML of one leaf element per member: for every token decoder,
    UnmarshalJSON runs [Begin], then for each member in order the callbacks
    [StartElement], [CharData] and [EndElement] with the member name split
    at its first colon and the text of the value, stopping at the first
    error, and then [End] twice, the second time with what the first
    returned. *)
Theorem UnmarshalJSON_flat_object (kvs : list (string * jsonToken)) fuel (td : T) (h : heap) :
  Forall (fun kv => scalar_text kv.2 <> None) kvs ->
  length kvs + 2 < fuel ->
  UnmarshalJSON fuel (JDelim LBrace :: flat_map member_json kvs ++ [JDelim RBrace]) td h
  = (do r0 <- td_Begin td;
     match r0 with
     | (Some err, td1) => ret (Some err, td1)
     | (None, td1) =>
         do r <- feed (flat_map member_xml kvs) td1;
         do r1 <- td_End (snd r) (fst r);
         td_End (snd r1) (fst r1)
     end) h.
Proof.
  intros Hkvs Hfuel. unfold UnmarshalJSON, JSONDecoder_Run, bind.
  destruct (td_Begin td h) as [[[[e0|] td1] h1]| |]; try reflexivity.
  destruct fuel as [|[|fuel]]; try lia.
  set (d0 := mkJSONDecoder (JDelim LBrace :: flat_map member_json kvs ++ [JDelim RBrace])
               td1 None []).
  set (d1 := mkJSONDecoder (flat_map member_json kvs ++ [JDelim RBrace]) td1 None []).
  assert (Hstart : runJSDecoder (S (S fuel)) d0 h1
                   = match run_jsDecodeObject (S fuel) d1 h1 with
                     | Ret (r, h') => runJSDecoder_loop fuel (fst r) (snd r) h'
                     | Panic => Panic
                     | OutOfFuel => OutOfFuel
                     end) by reflexivity.
  pose proof (object_members kvs Hkvs (S fuel) d1 h1 ltac:(lia) eq_refl eq_refl eq_refl)
    as Hobj.
  change (jd_td d1) with td1 in Hobj.
  rewrite Hstart.
  destruct (feed (flat_map member_xml kvs) td1 h1) as [[[e td'] h']| |].
  - destruct Hobj as (d' & Hrun & Htd & Herr). rewrite Hrun. cbn [fst snd].
    assert (Hend : runJSDecoder_loop fuel None d' h' = Ret ((e, d'), h')).
    { destruct fuel; cbn [runJSDecoder_loop]; unfold ret; by rewrite Herr. }
    rewrite Hend. cbn [fst snd]. rewrite Htd.
    destruct (td_End td' e h') as [[[e1 td1'] h1']| |]; reflexivity.
  - by rewrite Hobj.
  - by rewrite Hobj.
Qed.

End FlatObject.

(** The object [{"a:b": 1, "c": null}] for a Builder on a new document. *)
Lemma UnmarshalJSON_flat_object_witness :
  UnmarshalJSON (H := Builder_TokenDecoder asciiTrimSpace asciiFields) 5
    [JDelim LBrace; JString "a:b"; JNumber "1"; JString "c"; JNull; JDelim RBrace]
    (mkBuilder (Some 0) 0%N) [document_node]
  = (do r0 <- Builder_Begin (mkBuilder (Some 0) 0%N);
     match r0 with
     | (Some err, td1) => ret (Some err, td1)
     | (None, td1) =>
         do r <- feed (H := Builder_TokenDecoder asciiTrimSpace asciiFields)
                   [StartElement (mkName "a" "b") []; CharData (bytes_of "1");
                    EndElement (mkName "a" "b");
                    StartElement (mkName "" "c") []; CharData [];
                    EndElement (mkName "" "c")] td1;
         do r1 <- Builder_End (snd r) (fst r);
         Builder_End (snd r1) (fst r1)
     end) [document_node].
Proof.
  exact (UnmarshalJSON_flat_object (H := Builder_TokenDecoder asciiTrimSpace asciiFields)
           [("a:b", JNumber "1"); ("c", JNull)] 5 (mkBuilder (Some 0) 0%N) [document_node]
           ltac:(repeat constructor; discriminate) ltac:(simpl; lia)).
Defined.
